(* ===== verification/_CoqProject ===== *)
-Q . S2P
Prelude.v
Hash.v
Curve.v
Primes.v
Toy.v
Party.v
Sample.v
Polynomial.v
Round.v
Schnorr.v
Sha2.v
Taproot.v
Message.v
Codec.v
Handler.v
HandlerSpec.v
HandlerInv.v
TwoParty.v
Duet.v
Network.v
Lockstep.v
Xor.v
GoText.v
FrostConfig.v
FrostKeygen.v
FrostKeygenProps.v
FrostSign.v
FrostSignProps.v
TaprootCodec.v
Service.v
SchnorrImpl.v
Secp256k1.v
Ecdsa.v
Elgamal.v
ExponentCodec.v
OtRandom.v
OtCorrelated.v
OtExtended.v
OtMultiply.v
Arith.v
SampleInts.v
PaillierMath.v
Paillier.v
Pedersen.v
Zk.v
ZkEnc.v
ZkGroup.v
ZkAff.v
ZkMul.v
Pool.v
ZkSetup.v
ZkMod.v
DoernerKeygen.v
DoernerKeygenProps.v
DoernerSign.v
DoernerSignProps.v
Mta.v
CmpConfig.v
CmpKeygen.v
CmpKeygenProps.v
CmpSign.v
CmpSignProps.v
CmpPresign.v
CmpPresignProps.v
Runs.v
CmpRuns.v
CmpDuo.v
CmpHonest.v
HandlerThms.v
KeygenThms.v
SignThms.v
LibraryThms.v
ServiceThms.v
GroupThms.v
CmpThms.v
PrimThms.v
DoernerThms.v
