(* ===== verification/Prelude.v ===== *)
(** * multi-party-sig: a verification development

    The repository implements threshold signatures: FROST (Schnorr, with a
    Taproot variant), CMP (ECDSA with identifiable abort) and the two-party
    ECDSA of Doerner et al., on a common layer of groups, hashing, proofs and
    message handlers, with services that run FROST key generation behind
    request/response calls.  This library models the code under [src/] and
    proves what it computes.

    ** How the parts interact

    A protocol is a sequence of rounds ([internal/round]).  A round checks and
    stores the messages of the other parties and, once it has them all, is
    finalised into the next round or a result.  A handler ([pkg/protocol])
    owns the current round, queues messages, drives the rounds and sends what
    they produce.  Protocols only see the round interface, handlers only see
    [RoundOps]; the theorems follow that line.  [HandlerSpec] states what a
    handler promises, [HandlerInv] and [TwoParty] show that the handlers keep
    it, and protocols are verified against it.

    ** Files

    Foundations.  [Prelude]: outcomes of Go calls, bytes, readers, tactics.
    [Hash]: [pkg/hash] (domain separated writing, commitments).  [Curve]:
    [pkg/math/curve] as a class with laws; [Secp256k1]: its secp256k1 instance
    over the decred library; [Primes], [Toy]: a small group on which
    executions are evaluated.  [Party]: [pkg/party].  [Sample], [SampleInts]:
    [pkg/math/sample].  [Polynomial], [ExponentCodec]: [pkg/math/polynomial].
    [Arith]: [pkg/math/arith].  [Sha2], [GoText], [Codec]: functions of the Go
    standard library and a lawful stand-in for the CBOR library.

    Cryptography.  [Schnorr]: [pkg/zk/sch].  [Taproot]: [pkg/taproot].
    [Ecdsa]: [pkg/ecdsa].  [Elgamal]: [internal/elgamal].  [PaillierMath],
    [Paillier], [Pedersen]: [pkg/paillier], [pkg/pedersen].  [Zk], [ZkEnc],
    [ZkGroup], [ZkAff], [ZkMul], [ZkSetup], [ZkMod]: the proofs of [pkg/zk].
    [Mta]: [internal/mta].  [OtRandom], [OtCorrelated], [OtExtended],
    [OtMultiply]: [internal/ot], from single oblivious transfers to shares of
    a product.  [Pool]: [pkg/pool] as an interleaving of caller and workers.

    Execution.  [Round]: [internal/round], [internal/types].  [Message],
    [Handler]: [pkg/protocol] with [MultiHandler] as state passing, panics and
    blocking included.  [HandlerSpec], [HandlerInv]: the abstract execution
    and the refinement.  [TwoParty]: [TwoPartyHandler]; [Duet]: two of them
    that exchange their messages.  [Network], [Lockstep]: several parties.

    Protocols.  [Xor]: [protocols/example/xor].  [FrostConfig], [FrostKeygen],
    [FrostSign]: [protocols/frost], with their [Props] files.  [TaprootCodec],
    [Service], [SchnorrImpl]: the stored form of a key share and the two key
    generation services.  [CmpConfig], [CmpKeygen], [CmpSign], [CmpPresign]:
    [protocols/cmp].  [DoernerKeygen], [DoernerSign]: [protocols/doerner].
    Each round is a record with the fields of the Go struct; [VerifyMessage],
    [StoreMessage] and [Finalize] are one definition each, and every protocol
    has one instance of [RoundOps].

    Theorems.  [HandlerThms], [KeygenThms], [SignThms], [LibraryThms],
    [ServiceThms], [GroupThms], [CmpThms], [PrimThms], [DoernerThms]; the
    executions on which they are applied are in [Runs], [CmpRuns], [CmpDuo],
    [CmpHonest] and at the end of the theorem files.

    ** Correspondence

    A call that returns a value and an error and may panic is an [outcome].
    Go structs are records, nil pointers and nil slices that the code tells
    apart are [option], maps are [gmap], and the order in which Go ranges over
    a map is the parameter [MapOrder].  Scalars are integers modulo the group
    order ([Zmod]); words keep their width, with the wrap-around written out.
    Shared objects that the code changes (a hash that a proof writes to, the
    scalars that [SigEthereum] negates) are returned with their new value.
    Randomness is a [reader] that is passed along: a stream of bytes and the
    calls that fail.  Where the schedule of a pool decides who reads first
    ([OtCorrelated]), every task has its own reader.

    Third-party code is a parameter with the documented behaviour as laws:
    BLAKE3, CBOR, JSON, decred's secp256k1, saferith, [big.Int.ProbablyPrime].
    No theorem assumes that a hash has no collisions; where it matters the
    conclusion exhibits one.

    ** What the theorems show

    - Handlers: [MultiHandler] and [TwoPartyHandler] refine the abstract
      execution, results and errors are final, [Accept] ends and does not
      panic unless the protocol code does, and equal broadcast hashes mean
      equal broadcasts.
    - Key generation and refresh (FROST, CMP, Doerner): a delivered
      configuration is a share of one key of the right degree, whatever the
      others send; shares of t+1 parties give the key; a refresh keeps it.
      For Doerner the two parties are honest and their handlers exchange the
      messages.
    - Signing: a delivered signature verifies, whatever the others send; honest
      signers do not abort.  Presigning names a culprit.
    - Primitives: BIP-340 sign and verify, Paillier, the completeness and
      soundness of proofs, multiplication from oblivious transfer, the
      carry-less product of its consistency check, bounds of MtA.
    - Services and codecs: a DONE answer hands out a key of the session it
      belongs to; key shares and configurations survive their encodings.
    - Defects that the models exhibit, as theorems: honest parties blamed in
      the abort round, the blocked pool, the leaked choices and the broken
      derivation of Doerner, messages that crash the receiver.

    ** Fuel and bounds

    The recursion of [finalize] and [tp_advance] is bounded by
    [finalize_fuel] = 2^16 + 1: round numbers are 16 bits wide and grow, so
    it is never used up ([Accept_total], [tp_advance_fuel]).  Binary search,
    trimming, sieves and list decoding take the length of their input, which
    decreases in every step.  Rejection sampling ([ModN], [searchAlone],
    [GenKey] and the proofs that call them) is unbounded in the code: its fuel
    is an argument, running out of it is an error of its own, and a theorem
    about a result holds for every fuel that gives one.  [sample.Scalar]
    repeats a failing read 255 times, as the code does.  The capacity of channels is that of the code,
    and a send on a full one blocks.

    ** Not modelled

    [NewPool], [TearDown] and [LockedReader] of [pkg/pool] (starting and
    stopping goroutines, and a mutex around a reader); the mutexes of handlers
    and services, so that one call is one step; the encoding of
    [party.PointMap], which only a CBOR library reads; the JSON text of
    requests; [EmptyConfig] templates and similar values that only tell a
    decoder which group it reads; [pkg/zk/default.go], [internal/test] and the
    example program, which are fixtures and printing. *)

From Stdlib Require Import ZArith Lia.
From Stdlib Require Import Strings.Byte.
From stdpp Require Import base gmap strings list pretty numbers.

Local Open Scope Z_scope.

(** ** Outcomes

    A Go function that returns [(T, error)] and may panic has three ways to
    end: a value, an error value, or a panic that unwinds the caller. *)

Inductive outcome (A : Type) : Type :=
| Ret (a : A)
| Fail (e : string)
| Panic (m : string).
Arguments Ret {A} a.
Arguments Fail {A} e.
Arguments Panic {A} m.

#[export] Instance outcome_ret : MRet outcome := fun A a => Ret a.
#[export] Instance outcome_bind : MBind outcome := fun A B f m =>
  match m with
  | Ret a => f a
  | Fail e => Fail e
  | Panic p => Panic p
  end.

(** [if err != nil { return ... }] on a boolean check. *)
Definition guard_or (b : bool) (e : string) : outcome unit :=
  if b then Ret tt else Fail e.

(** [if err := ...; err != nil { return fmt.Errorf("prefix: %w", err) }] *)
Definition wrap_err {A} (p : string) (m : outcome A) : outcome A :=
  match m with
  | Ret a => Ret a
  | Fail e => Fail (p +:+ e)
  | Panic q => Panic q
  end.

(** A dereference of a nil pointer panics. *)
Definition deref {A} (o : option A) : outcome A :=
  match o with
  | Some a => Ret a
  | None => Panic "runtime error: invalid memory address or nil pointer dereference"
  end.

Definition is_ret {A} (m : outcome A) : bool :=
  match m with Ret _ => true | _ => false end.

Lemma is_ret_true {A} (m : outcome A) : is_ret m = true -> exists a, m = Ret a.
Proof. destruct m as [a| |]; [by exists a|done..]. Qed.

(** A tested option is the one its default stands for. *)
Definition is_some {A} (o : option A) : bool := match o with Some _ => true | None => false end.

Lemma some_default {A} (o : option A) (d : A) : is_some o = true -> o = Some (default d o).
Proof. by destruct o. Qed.

Lemma bind_ret_inv {A B} (m : outcome A) (f : A -> outcome B) (b : B) :
  m ≫= f = Ret b -> exists a, m = Ret a /\ f a = Ret b.
Proof. destruct m; simpl; [eauto | discriminate | discriminate]. Qed.

Lemma guard_or_ret b e u : guard_or b e = Ret u -> b = true.
Proof. unfold guard_or. by destruct b. Qed.

Lemma wrap_err_ret {A} p (m : outcome A) a : wrap_err p m = Ret a -> m = Ret a.
Proof. by destruct m. Qed.

Lemma deref_ret {A} (o : option A) a : deref o = Ret a -> o = Some a.
Proof. destruct o; simpl; congruence. Qed.

(** [outcome_inv] takes a hypothesis [m1 ≫= f = Ret b] apart, one bind at a
    time, and cleans up the guards it meets. *)
Ltac outcome_inv :=
  repeat match goal with
  | H : (_ ≫= _) = Ret _ |- _ =>
      let a := fresh "a" in let H1 := fresh "Hb" in
      apply bind_ret_inv in H as (a & H1 & H)
  | H : guard_or _ _ = Ret _ |- _ => apply guard_or_ret in H
  | H : wrap_err _ _ = Ret _ |- _ => apply wrap_err_ret in H
  | H : deref _ = Ret _ |- _ => apply deref_ret in H
  | H : Ret _ = Ret _ |- _ => injection H as H
  | H : Fail _ = Ret _ |- _ => discriminate H
  | H : Panic _ = Ret _ |- _ => discriminate H
  | H : mret _ = Ret _ |- _ => injection H as H
  | u : unit |- _ => destruct u
  end.

(** ** Bytes and big-endian integers *)

Abbreviation bytes := (list byte).

#[export] Instance byte_eq_dec : EqDecision byte := Byte.byte_eq_dec.

Definition byteZ (b : byte) : Z := Z.of_N (Byte.to_N b).

Definition byte_of_Z (z : Z) : byte :=
  match Byte.of_N (Z.to_N (z mod 256)) with
  | Some b => b
  | None => x00
  end.

Lemma byteZ_range b : 0 <= byteZ b < 256.
Proof. unfold byteZ. pose proof (Byte.to_N_bounded b). lia. Qed.

Lemma byteZ_inj a b : byteZ a = byteZ b -> a = b.
Proof.
  unfold byteZ. intros H%N2Z.inj.
  pose proof (Byte.of_to_N a) as Ha. pose proof (Byte.of_to_N b) as Hb. congruence.
Qed.

Lemma byteZ_of_Z z : byteZ (byte_of_Z z) = z mod 256.
Proof.
  unfold byte_of_Z, byteZ. pose proof (Z.mod_pos_bound z 256 ltac:(lia)).
  destruct (Byte.of_N _) as [b|] eqn:E.
  - apply Byte.to_of_N in E. rewrite E. lia.
  - apply Byte.of_N_None_iff in E. lia.
Qed.

Lemma byte_of_byteZ b : byte_of_Z (byteZ b) = b.
Proof.
  apply byteZ_inj. rewrite byteZ_of_Z. apply Z.mod_small, byteZ_range.
Qed.

Definition byte_xor (a b : byte) : byte := byte_of_Z (Z.lxor (byteZ a) (byteZ b)).

Lemma byteZ_xor a b : byteZ (byte_xor a b) = Z.lxor (byteZ a) (byteZ b).
Proof.
  unfold byte_xor. rewrite byteZ_of_Z. apply Z.mod_small.
  pose proof (byteZ_range a). pose proof (byteZ_range b). split.
  - apply Z.lxor_nonneg. lia.
  - destruct (decide (Z.lxor (byteZ a) (byteZ b) = 0)) as [->|]; [lia|].
    change 256 with (2 ^ 8).
    assert (0 <= Z.lxor (byteZ a) (byteZ b)) by (apply Z.lxor_nonneg; lia).
    apply Z.log2_lt_pow2; [lia|].
    eapply Z.le_lt_trans; [apply Z.log2_lxor; lia|].
    assert (forall b, Z.log2 (byteZ b) < 8) as Hl.
    { intros c. pose proof (byteZ_range c).
      destruct (decide (byteZ c = 0)) as [->|]; [simpl; lia|].
      apply Z.log2_lt_pow2; lia. }
    pose proof (Hl a). pose proof (Hl b). lia.
Qed.

Lemma byte_xor_comm a b : byte_xor a b = byte_xor b a.
Proof. apply byteZ_inj. rewrite !byteZ_xor. apply Z.lxor_comm. Qed.

Lemma byte_xor_assoc a b c : byte_xor a (byte_xor b c) = byte_xor (byte_xor a b) c.
Proof. apply byteZ_inj. rewrite !byteZ_xor. by rewrite Z.lxor_assoc. Qed.

(** [new(saferith.Nat).SetBytes(b)]: the big-endian value of a byte slice. *)
Definition be_to_Z (l : bytes) : Z := foldl (fun acc b => acc * 256 + byteZ b) 0 l.

(** The low [n] bytes of [z], most significant first. *)
Fixpoint be_of_Z (n : nat) (z : Z) : bytes :=
  match n with
  | O => []
  | S n => byte_of_Z (Z.shiftr z (8 * Z.of_nat n)) :: be_of_Z n z
  end.

Lemma be_to_Z_acc l acc :
  foldl (fun acc b => acc * 256 + byteZ b) acc l
  = acc * 256 ^ Z.of_nat (length l) + be_to_Z l.
Proof.
  unfold be_to_Z. revert acc. induction l as [|b l IH]; intros acc.
  - simpl. lia.
  - cbn [foldl length]. rewrite IH, (IH (0 * 256 + byteZ b)).
    rewrite Nat2Z.inj_succ, Z.pow_succ_r by lia. lia.
Qed.

Lemma be_to_Z_cons b l :
  be_to_Z (b :: l) = byteZ b * 256 ^ Z.of_nat (length l) + be_to_Z l.
Proof. unfold be_to_Z at 1. simpl. by rewrite be_to_Z_acc. Qed.

Lemma be_to_Z_bound l : 0 <= be_to_Z l < 256 ^ Z.of_nat (length l).
Proof.
  induction l as [|b l IH]; [unfold be_to_Z; simpl; lia|].
  rewrite be_to_Z_cons. cbn [length]. rewrite Nat2Z.inj_succ, Z.pow_succ_r by lia.
  pose proof (byteZ_range b). nia.
Qed.

Lemma length_be_of_Z n z : length (be_of_Z n z) = n.
Proof. induction n; simpl; congruence. Qed.

Lemma be_to_of_Z n z : be_to_Z (be_of_Z n z) = z mod 256 ^ Z.of_nat n.
Proof.
  induction n as [|n IH].
  - unfold be_to_Z. simpl. symmetry. apply Z.mod_1_r.
  - cbn [be_of_Z]. rewrite be_to_Z_cons, length_be_of_Z, IH, byteZ_of_Z.
    rewrite Z.shiftr_div_pow2, Z.pow_mul_r by lia. change (2 ^ 8) with 256.
    rewrite Nat2Z.inj_succ, Z.pow_succ_r by lia.
    rewrite (Z.mul_comm 256), Z.rem_mul_r by lia. lia.
Qed.

Lemma be_to_Z_inj l1 l2 :
  length l1 = length l2 -> be_to_Z l1 = be_to_Z l2 -> l1 = l2.
Proof.
  revert l2. induction l1 as [|a l1 IH]; intros [|b l2] Hl He; simplify_eq/=; [done|].
  rewrite !be_to_Z_cons, Hl in He.
  pose proof (be_to_Z_bound l1) as B1. pose proof (be_to_Z_bound l2) as B2.
  rewrite Hl in B1.
  destruct (Z.div_mod_unique (256 ^ Z.of_nat (length l2)) (byteZ a) (byteZ b)
              (be_to_Z l1) (be_to_Z l2)) as [E1 E2]; [by left | by left | lia |].
  f_equal; [by apply byteZ_inj | by apply IH].
Qed.

Lemma be_of_to_Z l : be_of_Z (length l) (be_to_Z l) = l.
Proof.
  apply be_to_Z_inj; [by rewrite length_be_of_Z|].
  rewrite be_to_of_Z. apply Z.mod_small, be_to_Z_bound.
Qed.

Lemma be_of_Z_inj n z1 z2 :
  0 <= z1 < 256 ^ Z.of_nat n -> 0 <= z2 < 256 ^ Z.of_nat n ->
  be_of_Z n z1 = be_of_Z n z2 -> z1 = z2.
Proof.
  intros H1 H2 E%(f_equal be_to_Z). rewrite !be_to_of_Z in E.
  by rewrite !Z.mod_small in E.
Qed.

(** [[]byte(s)] *)
Abbreviation bytes_of_string := String.list_byte_of_string.

Lemma bytes_of_string_inj s1 s2 : bytes_of_string s1 = bytes_of_string s2 -> s1 = s2.
Proof.
  intros E. rewrite <- (String.string_of_list_byte_of_string s1), E.
  apply String.string_of_list_byte_of_string.
Qed.

(** ** Lists *)

Lemma app_inj_length {A} (l1 l2 k1 k2 : list A) :
  length l1 = length l2 -> l1 ++ k1 = l2 ++ k2 -> l1 = l2 /\ k1 = k2.
Proof. intros Hl. by apply app_inj_1. Qed.

(** A fold with a commutative and associative update does not depend on the
    order in which a Go [range] visits a map. *)
Lemma foldr_perm {A B} (f : A -> B -> B) (b : B) (l1 l2 : list A) :
  (forall x y z, f x (f y z) = f y (f x z)) ->
  l1 ≡ₚ l2 -> foldr f b l1 = foldr f b l2.
Proof. intros Hf HP. induction HP; simpl; congruence. Qed.

Lemma foldl_foldr_comm {A B} (f : B -> A -> B) (b : B) (l : list A) :
  (forall b x y, f (f b x) y = f (f b y) x) -> foldl f b l = foldr (fun x b => f b x) b l.
Proof.
  intros Hf. revert b. induction l as [|x l IH]; intros b; simpl; [done|]. rewrite IH. clear IH.
  induction l as [|y l IH]; simpl; [done|]. by rewrite IH, Hf.
Qed.

(** ** Readers

    An [io.Reader] drained with [io.ReadFull]: a stream of bytes, and a
    schedule that says which calls return an error instead of data.  The
    digest of a hash never fails; [crypto/rand] may. *)

Record reader := Reader {
  r_bytes : nat -> byte;
  r_off : nat;
  r_fails : nat -> bool;
  r_calls : nat
}.

Definition ReadFull (r : reader) (n : nat) : option bytes * reader :=
  let r' off := Reader (r_bytes r) off (r_fails r) (S (r_calls r)) in
  if r_fails r (r_calls r)
  then (None, r' (r_off r))
  else (Some (map (r_bytes r) (seq (r_off r) n)), r' (r_off r + n)%nat).

(** A reader that never fails, positioned at the start of its stream. *)
Definition stream_reader (f : nat -> byte) : reader :=
  Reader f 0 (fun _ => false) 0.

Lemma ReadFull_length r n b r' :
  ReadFull r n = (Some b, r') -> length b = n.
Proof.
  unfold ReadFull. destruct (r_fails _ _); [done|]. intros [= <- _].
  by rewrite length_map, length_seq.
Qed.
