(* ===== verification/Hash.v ===== *)
(** * pkg/hash: domain-separated hashing and commitments

    The state of a [Hash] is the byte string written to the underlying
    [blake3.Hasher] so far: [blake3] itself is a library, and every output
    of the hasher is a function of the bytes written ([blake3_xof], the
    extendable output stream).  [WriteAny] is modelled with its type switch,
    its early return on errors and the state it leaves behind. *)

From Stdlib Require Import ZArith Lia.
From Stdlib Require Import Strings.Byte.
From stdpp Require Import base gmap strings list pretty numbers.
From S2P Require Import Prelude.

Local Open Scope Z_scope.

(** The extendable output of BLAKE3 on an input. *)
Class Blake3 := blake3_xof : bytes -> nat -> byte.

(** [blake3.DeriveKey(context, material, out)] and the output stream of
    [blake3.NewKeyed(key)] after some input was written. *)
Class Blake3Keyed := {
  blake3_derive_key : string -> bytes -> nat -> bytes;
  blake3_keyed_xof : bytes -> bytes -> nat -> byte
}.

Definition SecBytes : nat := 32.
Definition DigestLengthBytes : nat := SecBytes * 2.

(** The dynamic type of an argument of [WriteAny], as its type switch sees
    it: a (possibly nil) byte slice or big integer, a [WriterToWithDomain]
    with its domain and the bytes its [WriteTo] produces, an
    [encoding.BinaryMarshaler] with the name of its type, anything else. *)
Inductive any :=
| ABytes (b : option bytes)
| ABigInt (z : option Z)
| AWriterTo (tyname domain : string) (w : outcome bytes)
| AMarshaler (tyname : string) (m : outcome bytes)
| AOther.

(** [BytesWithDomain] as a [WriterToWithDomain]: nil bytes are an error. *)
Definition ErrUnexpectedEOF : string := "unexpected EOF".

Definition BytesWithDomain (dom : string) (b : option bytes) : any :=
  AWriterTo "hash.BytesWithDomain" dom
    (match b with Some x => Ret x | None => Fail ErrUnexpectedEOF end).

(** [big.Int.GobEncode] for a non-nil integer: a version byte carrying the
    sign, then the minimal big-endian magnitude. *)
Definition be_min (z : Z) : bytes :=
  if decide (z = 0) then [] else be_of_Z (Z.to_nat (Z.log2 z / 8 + 1)) z.

Definition GobEncode (z : Z) : bytes :=
  (if decide (z < 0) then x03 else x02) :: be_min (Z.abs z).

(** The [toBeWritten] of one argument, or the error that ends [WriteAny]. *)
Definition to_be_written (d : any) : outcome (string * bytes) :=
  match d with
  | ABytes None => Fail "hash.WriteAny: nil []byte"
  | ABytes (Some t) => Ret ("[]byte", t)
  | ABigInt None => Fail "hash.WriteAny: write *big.Int: nil"
  | ABigInt (Some z) => Ret ("big.Int", GobEncode z)
  | AWriterTo name dom w =>
      b ← wrap_err ("hash.WriteAny: " +:+ name +:+ ": ") w; Ret (dom, b)
  | AMarshaler name m =>
      b ← wrap_err ("hash.WriteAny: " +:+ name +:+ ": ") m; Ret (name, b)
  | AOther => Fail "hash.WriteAny: invalid type provided as input"
  end.

(** [(<domain_size><domain><data_size><data>)], sizes as big-endian uint64. *)
Definition encode_item (it : string * bytes) : bytes :=
  let dom := bytes_of_string it.1 in
  bytes_of_string "(" ++ be_of_Z 8 (Z.of_nat (length dom)) ++ dom
  ++ be_of_Z 8 (Z.of_nat (length it.2)) ++ it.2 ++ bytes_of_string ")".

Definition Hash := bytes.

Fixpoint WriteAny (h : Hash) (data : list any) : Hash * outcome unit :=
  match data with
  | [] => (h, Ret tt)
  | d :: data =>
      match to_be_written d with
      | Ret it => WriteAny (h ++ encode_item it) data
      | Fail e => (h, Fail e)
      | Panic p => (h, Panic p)
      end
  end.

(** [_ = h.WriteAny(...)]: the error is dropped, the state is kept. *)
Definition WriteAny_ (h : Hash) (data : list any) : Hash := (WriteAny h data).1.

Definition New (initialData : list any) : Hash :=
  foldl (fun h d => WriteAny_ h [d]) (bytes_of_string "CMP-BLAKE") initialData.

Definition Digest `{Blake3} (h : Hash) : reader := stream_reader (blake3_xof h).

Definition Sum `{Blake3} (h : Hash) : bytes :=
  default [] (ReadFull (Digest h) DigestLengthBytes).1.

#[global] Arguments Sum : simpl never.

Definition Clone (h : Hash) : Hash := h.

Definition Fork (h : Hash) (data : list any) : Hash := WriteAny_ (Clone h) data.

(** ** Commitments *)

Definition Commitment_any (c : option bytes) : any :=
  AWriterTo "hash.Commitment" "Commitment"
    (match c with Some x => Ret x | None => Fail ErrUnexpectedEOF end).

Definition Decommitment_any (d : option bytes) : any :=
  AWriterTo "hash.Decommitment" "Decommitment"
    (match d with Some x => Ret x | None => Fail ErrUnexpectedEOF end).

(** [Validate] of [Commitment], [Decommitment] and [types.RID]: the right
    length, and not identically zero.  A nil slice has length 0. *)
Definition validate_bytes (what noun : string) (n : nat) (c : bytes) : outcome unit :=
  if decide (length c <> n) then
    Fail (what +:+ ": incorrect length (got " +:+ pretty (length c) +:+ ", expected "
          +:+ pretty n +:+ ")")
  else if existsb (fun b => negb (Byte.eqb b x00)) c then Ret tt
  else Fail (what +:+ ": " +:+ noun +:+ " is 0").

Definition Commitment_Validate (c : bytes) : outcome unit :=
  validate_bytes "commitment" "commitment" DigestLengthBytes c.

Definition Decommitment_Validate (d : bytes) : outcome unit :=
  validate_bytes "decommitment" "decommitment" SecBytes d.

(** [h.Commit(data...)]: [rand] is [crypto/rand.Reader]. *)
Definition Commit `{Blake3} (h : Hash) (rand : reader) (data : list any) :
    outcome (bytes * bytes * reader) :=
  match ReadFull rand SecBytes with
  | (None, _) => Fail "hash.Commit: failed to generate decommitment"
  | (Some d, rand') =>
      match WriteAny (Clone h) data with
      | (h', Ret _) =>
          let h'' := WriteAny_ h' [Decommitment_any (Some d)] in
          Ret (Sum h'', d, rand')
      | (_, Fail e) => Fail ("hash.Commit: failed to write data: " +:+ e)
      | (_, Panic p) => Panic p
      end
  end.

Definition Decommit `{Blake3} (h : Hash) (c d : bytes) (data : list any) : bool :=
  if negb (is_ret (Commitment_Validate c)) then false
  else if negb (is_ret (Decommitment_Validate d)) then false
  else match WriteAny (Clone h) data with
       | (h', Ret _) =>
           let h'' := WriteAny_ h' [Decommitment_any (Some d)] in
           bool_decide (Sum h'' = c)
       | _ => false
       end.

(** ** The encoding is injective *)

(** Sizes that the 8-byte length fields hold; no Go slice is longer. *)
Definition item_fits (it : string * bytes) : Prop :=
  Z.of_nat (length (bytes_of_string it.1)) < 2 ^ 64 /\ Z.of_nat (length it.2) < 2 ^ 64.

#[export] Instance item_fits_dec it : Decision (item_fits it).
Proof. apply _. Defined.

Lemma sized_inj (l1 l2 k1 k2 : bytes) :
  Z.of_nat (length l1) < 2 ^ 64 -> Z.of_nat (length l2) < 2 ^ 64 ->
  be_of_Z 8 (Z.of_nat (length l1)) ++ l1 ++ k1
  = be_of_Z 8 (Z.of_nat (length l2)) ++ l2 ++ k2 ->
  l1 = l2 /\ k1 = k2.
Proof.
  intros H1 H2 [E1 E2]%app_inj_length; [|by rewrite !length_be_of_Z].
  apply be_of_Z_inj in E1; [|change (256 ^ Z.of_nat 8) with (2 ^ 64); lia
                            |change (256 ^ Z.of_nat 8) with (2 ^ 64); lia].
  apply app_inj_length in E2; [done | lia].
Qed.

Lemma encode_item_inj it1 it2 k1 k2 :
  item_fits it1 -> item_fits it2 ->
  encode_item it1 ++ k1 = encode_item it2 ++ k2 -> it1 = it2 /\ k1 = k2.
Proof.
  destruct it1 as [d1 x1], it2 as [d2 x2]. unfold item_fits, encode_item; cbn [fst snd].
  intros [Hd1 Hx1] [Hd2 Hx2] E. rewrite <- !app_assoc in E.
  apply app_inj_length in E as [_ E]; [|done].
  apply sized_inj in E as [Ed%bytes_of_string_inj E]; [|done..].
  apply sized_inj in E as [-> E]; [|done..].
  apply app_inj_length in E as [_ E]; [|done]. by subst.
Qed.

Lemma encode_item_nonempty it k : encode_item it ++ k <> [].
Proof. unfold encode_item. by destruct (bytes_of_string "(") eqn:E. Qed.

Lemma encode_items_inj its1 its2 :
  Forall item_fits its1 -> Forall item_fits its2 ->
  concat (encode_item <$> its1) = concat (encode_item <$> its2) -> its1 = its2.
Proof.
  intros H1. revert its2. induction H1 as [|it1 its1 Hf1 H1 IH]; intros its2 H2 E.
  - destruct its2 as [|it2 its2]; [done|]. symmetry in E.
    cbn in E. by apply encode_item_nonempty in E.
  - destruct H2 as [|it2 its2 Hf2 H2]; [cbn in E; by apply encode_item_nonempty in E|].
    cbn in E. apply encode_item_inj in E as [-> E]; [|done..]. f_equal. by apply IH.
Qed.

(** The items that reach the hasher in a call that returns no error. *)
Fixpoint items_of (data : list any) : outcome (list (string * bytes)) :=
  match data with
  | [] => Ret []
  | d :: data => it ← to_be_written d; its ← items_of data; Ret (it :: its)
  end.

Lemma WriteAny_ret h data h' u :
  WriteAny h data = (h', Ret u) ->
  exists its, items_of data = Ret its /\ h' = h ++ concat (encode_item <$> its).
Proof.
  revert h. induction data as [|d data IH]; cbn; intros h E.
  - injection E as <- _. exists []. by rewrite app_nil_r.
  - destruct (to_be_written d) as [it|e|p]; [|done|done].
    apply IH in E as (its & Ei & ->). rewrite Ei. exists (it :: its).
    cbn. by rewrite <- app_assoc.
Qed.

Lemma items_of_app d1 d2 its1 its2 :
  items_of d1 = Ret its1 -> items_of d2 = Ret its2 -> items_of (d1 ++ d2) = Ret (its1 ++ its2).
Proof.
  revert its1. induction d1 as [|d d1 IH]; cbn; intros its1 E1 E2.
  - by injection E1 as <-.
  - destruct (to_be_written d) as [it|e|p]; [|done|done]. cbn in *.
    destruct (items_of d1) as [its|e|p]; cbn in E1; [|done|done].
    injection E1 as <-. by rewrite (IH its).
Qed.

(** Two successful writes that lead to the same state wrote the same items. *)
Lemma WriteAny_inj h data1 data2 h' u1 u2 its1 its2 :
  items_of data1 = Ret its1 -> items_of data2 = Ret its2 ->
  Forall item_fits its1 -> Forall item_fits its2 ->
  WriteAny h data1 = (h', Ret u1) -> WriteAny h data2 = (h', Ret u2) ->
  its1 = its2.
Proof.
  intros I1 I2 F1 F2 (? & J1 & E1)%WriteAny_ret (? & J2 & E2)%WriteAny_ret.
  rewrite I1 in J1; injection J1 as <-. rewrite I2 in J2; injection J2 as <-.
  apply encode_items_inj; [done..|]. rewrite E1 in E2. by apply app_inv_head in E2.
Qed.

(** ** Commitments open, and bind *)

Section Commitments.
Context `{Blake3}.

(** Two given hasher states collide: they differ, but not in their 64-byte
    digest.  (Some collision always exists; what matters is that a failure of
    a binding property hands over these two particular states.) *)
Definition collides (s1 s2 : Hash) : Prop := s1 <> s2 /\ Sum s1 = Sum s2.

(** The hasher state whose digest opens a commitment. *)
Definition decommit_state (h : Hash) (its : list (string * bytes)) (d : bytes) : Hash :=
  h ++ concat (encode_item <$> its ++ [("Decommitment", d)]).

Lemma Decommit_opened h c d data :
  Decommit h c d data = true ->
  exists its, items_of data = Ret its /\
    Sum (decommit_state h its d) = c /\
    length d = SecBytes.
Proof.
  unfold Decommit, Clone. destruct (Commitment_Validate c) as [[]|?|?]; simpl; [|done|done].
  unfold Decommitment_Validate, validate_bytes.
  destruct (decide (length d <> SecBytes)) as [|Hd]; [done|].
  destruct (existsb _ d); simpl; [|done].
  destruct (WriteAny h data) as [h' [u|?|?]] eqn:E; [|done|done].
  apply WriteAny_ret in E as (its & Ei & ->). rewrite bool_decide_eq_true. intros Hs.
  exists its. split; [done|]. split; [|by destruct (decide (length d = SecBytes))].
  rewrite <- Hs. unfold WriteAny_, decommit_state. cbn. rewrite fmap_app, concat_app. cbn.
  by rewrite app_nil_r, <- app_assoc.
Qed.

Lemma item_fits_decommitment d : length d = SecBytes -> item_fits ("Decommitment", d).
Proof. intros L. split; cbn [fst snd]; [by vm_compute | rewrite L; by vm_compute]. Qed.

(** Two openings of one commitment reveal the same data and the same
    decommitment, unless they exhibit a collision of the digest. *)
Lemma Decommit_binding h c d1 d2 data1 data2 its1 its2 :
  items_of data1 = Ret its1 -> items_of data2 = Ret its2 ->
  Forall item_fits its1 -> Forall item_fits its2 ->
  Decommit h c d1 data1 = true -> Decommit h c d2 data2 = true ->
  (its1 = its2 /\ d1 = d2) \/ collides (decommit_state h its1 d1) (decommit_state h its2 d2).
Proof.
  intros I1 I2 F1 F2 (j1 & J1 & S1 & L1)%Decommit_opened (j2 & J2 & S2 & L2)%Decommit_opened.
  rewrite I1 in J1; injection J1 as <-. rewrite I2 in J2; injection J2 as <-.
  destruct (decide (decommit_state h its1 d1 = decommit_state h its2 d2)) as [Ew|Nw].
  - left. apply app_inv_head, encode_items_inj in Ew.
    + apply app_inj_2 in Ew as [-> [= ->]]; done.
    + apply Forall_app; auto using item_fits_decommitment.
    + apply Forall_app; auto using item_fits_decommitment.
  - right. split; [done|congruence].
Qed.

(** What [Commit] returns opens with [Decommit] on the same hash state and
    data, whenever both halves pass their own [Validate]. *)
Lemma Commit_Decommit h rand rand' data c d :
  Commit h rand data = Ret (c, d, rand') ->
  Commitment_Validate c = Ret tt -> Decommitment_Validate d = Ret tt ->
  Decommit h c d data = true.
Proof.
  unfold Commit, Decommit. intros E -> ->. cbn.
  destruct (ReadFull rand SecBytes) as [[b|] r]; [|done].
  destruct (WriteAny (Clone h) data) as [h' [u|?|?]]; [|done|done].
  injection E as <- <- _. by apply bool_decide_eq_true.
Qed.

End Commitments.
