(* ===== verification/Curve.v ===== *)
(** * pkg/math/curve: the group interface

    [curve.go] declares the interfaces [Curve], [Scalar] and [Point] that
    every protocol is written against.  A scalar is "a number modulo the
    order of some Elliptic Curve group": it is modelled as [Zmod order], the
    integers modulo the order with canonical representatives.  Points are an
    abstract type; [Curve] lists the operations of the interface and
    [CurveLaws] states what the documentation of the interface promises (a
    group of prime order, on which the scalars act).  The laws are
    discharged for the concrete curve in [Secp256k1] and for a small group
    in [Toy]. *)

From Stdlib Require Import ZArith Lia Zmod Field.
From Stdlib Require Import Strings.Byte.
From stdpp Require Import base gmap strings list pretty numbers.
From S2P Require Import Prelude Hash.

Local Open Scope Z_scope.

Class Curve := {
  Name : string;
  order : Z;
  ScalarBits : nat;
  SafeScalarBytes : nat;
  Point : Type;
  (** [reflect.TypeOf(p).String()], which [hash.WriteAny] uses as a domain. *)
  PointTypeName : string;
  Point_eq_dec :: EqDecision Point;
  NewPoint : Point;
  NewBasePoint : Point;
  PAdd : Point -> Point -> Point;
  PNegate : Point -> Point;
  Act : Zmod.Zmod order -> Point -> Point;
  PMarshal : Point -> bytes;
  PUnmarshal : bytes -> outcome Point;
  XScalar : Point -> Zmod.Zmod order
}.

Abbreviation Scalar := (Zmod.Zmod order).

Declare Scope curve_scope.
Delimit Scope curve_scope with C.
Infix "+" := (@Zmod.add order) : curve_scope.
Infix "-" := (@Zmod.sub order) : curve_scope.
Infix "*" := (@Zmod.mul order) : curve_scope.
Infix "/" := (@Zmod.mdiv order) : curve_scope.
Notation "- x" := (@Zmod.opp order x) : curve_scope.
Notation "0" := (@Zmod.zero order) : curve_scope.
Notation "1" := (@Zmod.one order) : curve_scope.
Infix "⊕" := PAdd (at level 50, left associativity) : curve_scope.
Notation "⊖ P" := (PNegate P) (at level 35, right associativity) : curve_scope.
Infix "•" := Act (at level 40, left associativity) : curve_scope.
Notation "𝟎" := NewPoint : curve_scope.
Notation "'𝐆'" := NewBasePoint : curve_scope.

#[export] Instance Zmod_eq_dec m : EqDecision (Zmod.Zmod m).
Proof.
  intros x y. destruct (decide (Zmod.to_Z x = Zmod.to_Z y)) as [E|N].
  - left. by apply Zmod.to_Z_inj.
  - right. congruence.
Defined.

(** ** Operations of the interface *)

Section Ops.
Context `{Curve}.

(** [SetNat]: "This number must be interpreted modulo the order of the group". *)
Definition SetNat (x : Z) : Scalar := Zmod.of_Z order x.

(** [Sub] negates a copy of its argument and adds it. *)
Definition Sub (s that : Scalar) : Scalar := (s + - that)%C.

Definition Invert (s : Scalar) : Scalar := Zmod.inv s.

Definition IsZero (s : Scalar) : bool := bool_decide (s = 0%C).

Definition SEqual (s that : Scalar) : bool := bool_decide (s = that).

Definition IsOverHalfOrder (s : Scalar) : bool :=
  bool_decide (order / 2 < Zmod.to_Z s).

Definition ActOnBase (s : Scalar) : Point := (s • 𝐆)%C.

Definition PSub (p that : Point) : Point := (p ⊕ ⊖ that)%C.

Definition PEqual (p that : Point) : bool := bool_decide (p = that).

Definition IsIdentity (p : Point) : bool := bool_decide (p = 𝟎%C).

(** [MarshalBinary] of a scalar: 32 big-endian bytes. *)
Definition SMarshal (s : Scalar) : bytes := be_of_Z 32 (Zmod.to_Z s).

(** [UnmarshalBinary] of a scalar.  The receiver [s] keeps its value on a
    slice of the wrong length; otherwise it is set to the value reduced
    modulo the order, also when that reduction makes the call fail. *)
Definition SUnmarshal (s : Scalar) (data : bytes) : Scalar * outcome unit :=
  if decide (length data <> 32%nat)
  then (s, Fail ("invalid length for secp256k1 scalar: " +:+ pretty (length data)))
  else (Zmod.of_Z order (be_to_Z data),
        if decide (order <= be_to_Z data)
        then Fail "invalid bytes for secp256k1 scalar" else Ret tt).

(** How a point and a scalar enter a hash. *)
Definition Point_any (p : Point) : any := AMarshaler PointTypeName (Ret (PMarshal p)).

(** [MakeInt] *)
Definition MakeInt (s : Scalar) : Z := be_to_Z (SMarshal s).

(** [FromHash]: truncate to the byte length of the order, drop the excess
    low bits, reduce. *)
Definition FromHash (h : bytes) : Scalar :=
  let orderBits := Z.log2 order + 1 in
  let orderBytes := (orderBits + 7) / 8 in
  let h := if decide (orderBytes < Z.of_nat (length h))
           then take (Z.to_nat orderBytes) h else h in
  let s := be_to_Z h in
  let excess := Z.of_nat (length h) * 8 - orderBits in
  SetNat (if decide (0 < excess) then Z.shiftr s excess else s).

End Ops.

(** ** Laws *)

Class CurveLaws (C : Curve) : Prop := {
  order_prime : Z.prime order;
  order_fits : order < 2 ^ 256;
  padd_comm P Q : (P ⊕ Q = Q ⊕ P)%C;
  padd_assoc P Q R : (P ⊕ (Q ⊕ R) = (P ⊕ Q) ⊕ R)%C;
  padd_0_l P : (𝟎 ⊕ P = P)%C;
  padd_neg_r P : (P ⊕ ⊖ P = 𝟎)%C;
  act_1 P : (1 • P = P)%C;
  act_mul a b P : ((a * b) • P = a • (b • P))%C;
  act_add a b P : ((a + b) • P = a • P ⊕ b • P)%C;
  (** the base point generates the group, and has the full order *)
  base_generates P : exists a, P = (a • 𝐆)%C;
  base_faithful a : (a • 𝐆 = 𝟎)%C -> a = 0%C
}.

(** The x coordinate and the parity of y, as BIP-340 uses them. *)
Class XOnly (C : Curve) := {
  HasEvenY : Point -> bool;
  XBytes : Point -> bytes;
  LiftX : bytes -> outcome Point
}.

Class XOnlyLaws (C : Curve) (X : XOnly C) : Prop := {
  xbytes_length P : length (XBytes P) = 32%nat;
  xbytes_neg P : XBytes (⊖ P)%C = XBytes P;
  eveny_neg P : P <> 𝟎%C -> HasEvenY (⊖ P)%C = negb (HasEvenY P);
  liftx_xbytes P : P <> 𝟎%C -> HasEvenY P = true -> LiftX (XBytes P) = Ret P;
  liftx_even b P : LiftX b = Ret P -> P <> 𝟎%C /\ HasEvenY P = true;
  liftx_x b P : length b = 32%nat -> LiftX b = Ret P -> XBytes P = b
}.

(** Every point but the identity survives its encoding. *)
Class MarshalLaws (C : Curve) : Prop := {
  pmarshal_roundtrip P : P <> 𝟎%C -> PUnmarshal (PMarshal P) = Ret P
}.

(** The compressed encoding of Bitcoin: a byte for the parity, then x. *)
Class CompressedLaws (C : Curve) (X : XOnly C) : Prop := {
  pmarshal_shape P : PMarshal P = (if HasEvenY P then x02 else x03) :: XBytes P;
  punmarshal_parity P (even : bool) :
    P <> 𝟎%C -> PUnmarshal ((if even then x02 else x03) :: XBytes P)
                = Ret (if Bool.eqb even (HasEvenY P) then P else (⊖ P)%C);
  xscalar_xbytes P : XScalar P = Zmod.of_Z order (be_to_Z (XBytes P));
  xbytes_identity : be_to_Z (XBytes 𝟎%C) = 0
}.

Section Laws.
Context {C : Curve} {CL : CurveLaws C}.
Local Open Scope curve_scope.

Lemma scalar_field_theory :
  @field_theory Scalar 0 1 (@Zmod.add order) (@Zmod.mul order) (@Zmod.sub order)
    (@Zmod.opp order) (@Zmod.mdiv order) (@Zmod.inv order) eq.
Proof. apply Zmod.field_theory, order_prime. Qed.

Add Field scalar_field : scalar_field_theory.

Lemma padd_0_r P : P ⊕ 𝟎 = P.
Proof. by rewrite padd_comm, padd_0_l. Qed.

Lemma padd_neg_l P : ⊖ P ⊕ P = 𝟎.
Proof. by rewrite padd_comm, padd_neg_r. Qed.

Lemma padd_inj_l P Q R : P ⊕ Q = P ⊕ R -> Q = R.
Proof.
  intros E%(f_equal (PAdd (⊖ P))). by rewrite !padd_assoc, padd_neg_l, !padd_0_l in E.
Qed.

Lemma act_0 P : 0 • P = 𝟎.
Proof.
  apply (padd_inj_l (0 • P)). rewrite <- act_add, padd_0_r. f_equal. ring.
Qed.

Lemma act_opp a P : (- a) • P = ⊖ (a • P).
Proof.
  apply (padd_inj_l (a • P)). rewrite padd_neg_r, <- act_add.
  replace (a + - a) with 0 by ring. apply act_0.
Qed.

Lemma act_add_r a P Q : a • (P ⊕ Q) = a • P ⊕ a • Q.
Proof.
  destruct (base_generates P) as [x ->], (base_generates Q) as [y ->].
  rewrite <- act_add, <- !act_mul, <- act_add. f_equal. ring.
Qed.

Lemma act_identity a : a • 𝟎 = 𝟎.
Proof. rewrite <- (act_0 𝐆), <- act_mul. f_equal. ring. Qed.

Lemma act_neg_r a P : a • ⊖ P = ⊖ (a • P).
Proof.
  rewrite <- act_opp. destruct (base_generates P) as [x ->].
  rewrite <- act_opp, <- !act_mul. f_equal. ring.
Qed.

Lemma neg_identity : ⊖ 𝟎 = 𝟎.
Proof. apply (padd_inj_l 𝟎). by rewrite padd_neg_r, padd_0_l. Qed.

Lemma neg_involutive P : ⊖ ⊖ P = P.
Proof. apply (padd_inj_l (⊖ P)). by rewrite padd_neg_r, padd_neg_l. Qed.

Lemma neg_eq_identity P : ⊖ P = 𝟎 -> P = 𝟎.
Proof. intros E. by rewrite <- (neg_involutive P), E, neg_identity. Qed.

Lemma base_act_inj a b : a • 𝐆 = b • 𝐆 -> a = b.
Proof.
  intros E. assert ((a - b) • 𝐆 = 𝟎) as E0.
  { replace (a - b) with (a + - b) by ring. by rewrite act_add, act_opp, E, padd_neg_r. }
  apply base_faithful in E0. replace a with ((a - b) + b) by ring. rewrite E0. ring.
Qed.

Lemma identity_base : 𝟎 = 0 • 𝐆.
Proof. by rewrite act_0. Qed.

Lemma base_base : 𝐆 = 1 • 𝐆.
Proof. by rewrite act_1. Qed.

Lemma scalar_mul_eq_0 (a b : Scalar) : a * b = 0 -> a = 0 \/ b = 0.
Proof.
  intros E. destruct (decide (a = 0)) as [|Na]; [by left|]. right.
  apply (f_equal (fun x => Zmod.inv a * x)) in E.
  replace (Zmod.inv a * (a * b)) with b in E by (field; done).
  rewrite E. ring.
Qed.

Lemma scalar_mul_ne_0 (a b : Scalar) : a <> 0 -> b <> 0 -> a * b <> 0.
Proof. intros Ha Hb [E|E]%scalar_mul_eq_0; auto. Qed.

Lemma scalar_sub_ne_0 (a b : Scalar) : a <> b -> a - b <> 0.
Proof.
  intros Hab E. apply Hab. replace a with ((a - b) + b) by ring. rewrite E. ring.
Qed.

Lemma scalar_1_ne_0 : (1 : Scalar) <> 0.
Proof. apply (F_1_neq_0 scalar_field_theory). Qed.

(** A scalar survives its encoding. *)
Lemma SMarshal_length (s : Scalar) : length (SMarshal s) = 32%nat.
Proof. apply length_be_of_Z. Qed.

Lemma scalar_range (s : Scalar) : (0 <= Zmod.to_Z s < order)%Z.
Proof.
  pose proof (Z.prime_ge_2 _ order_prime). pose proof (Zmod.to_Z_range s). lia.
Qed.

Lemma be_to_SMarshal (s : Scalar) : be_to_Z (SMarshal s) = Zmod.to_Z s.
Proof.
  unfold SMarshal. rewrite be_to_of_Z. apply Z.mod_small.
  pose proof (scalar_range s). pose proof order_fits.
  change (256 ^ Z.of_nat 32)%Z with (2 ^ 256)%Z. lia.
Qed.

Lemma SUnmarshal_SMarshal (s0 s : Scalar) : SUnmarshal s0 (SMarshal s) = (s, Ret tt).
Proof.
  unfold SUnmarshal. rewrite SMarshal_length, be_to_SMarshal.
  destruct (decide _) as [|_]; [done|]. f_equal.
  - apply Zmod.of_Z_to_Z.
  - pose proof (scalar_range s). by rewrite decide_False by lia.
Qed.

Lemma MakeInt_spec (s : Scalar) : MakeInt s = Zmod.to_Z s.
Proof. apply be_to_SMarshal. Qed.

End Laws.

(** [pt_norm] writes every point of an equation as a multiple of the base
    point, and hands the equation of the multipliers to [ring]. *)
Ltac pt_gen :=
  repeat match goal with
  | P : Point |- _ =>
      let x := fresh "x" in let E := fresh "E" in
      destruct (base_generates P) as [x E]; subst P
  end.

Ltac pt_fold :=
  rewrite ?identity_base;
  repeat first
    [ rewrite <- act_opp | rewrite <- act_mul | rewrite <- act_add
    | rewrite act_neg_r | rewrite act_add_r ].
