(* ===== verification/Primes.v ===== *)
(** * Primality by certificate

    The scalars of a curve form a field because the order of the group is
    prime.  This file proves Pocklington's criterion over the integers and
    checks it for the order of secp256k1 as [secp256k1.go] writes it down
    and for the prime of its field, so that no theorem about that curve
    assumes either of them to be prime. *)

From Stdlib Require Import ZArith Lia Znumtheory Zmod.
From stdpp Require Import base list numbers.
From Bignums Require Import BigN.BigN.

Local Open Scope Z_scope.

(** ** Prime divisors *)

Lemma prime_divisor n : 1 < n -> exists p, Z.prime p /\ (p | n).
Proof.
  induction n as [n IH] using (well_founded_induction (Z.lt_wf 0)). intros Hn.
  destruct (prime_dec n) as [P|NP].
  - exists n. split; [by apply prime_alt | reflexivity].
  - destruct (not_prime_divide n Hn NP) as (d & Hd & Dd).
    destruct (IH d) as (p & Pp & Dp); [lia | lia|].
    exists p. split; [done|]. by transitivity d.
Qed.

(** A number is prime when none of its prime divisors has a square below it. *)
Lemma prime_by_divisors n :
  1 < n -> (forall p, Z.prime p -> (p | n) -> n < p * p) -> Z.prime n.
Proof.
  intros Hn Hp. apply prime_alt. destruct (prime_dec n) as [P|NP]; [done|]. exfalso.
  destruct (not_prime_divide n Hn NP) as (d & Hd & [e He]).
  assert (exists m, 1 < m /\ m * m <= n /\ (m | n)) as (m & Hm & Hmm & Dm).
  { destruct (Z.le_ge_cases d e).
    - exists d. split; [lia|]. split; [nia|]. by exists e.
    - exists e. split; [nia|]. split; [nia|]. exists d. lia. }
  destruct (prime_divisor m Hm) as (p & Pp & Dp).
  specialize (Hp p Pp (Z.divide_trans _ _ _ Dp Dm)).
  apply Z.divide_pos_le in Dp; [|lia]. pose proof (Z.prime_ge_2 p Pp). nia.
Qed.

(** Trial division, for the small primes at the leaves of a certificate. *)
Fixpoint no_divisor (fuel : nat) (d n : Z) : bool :=
  match fuel with
  | O => false
  | S fuel =>
      if n <? d * d then true
      else if n mod d =? 0 then false else no_divisor fuel (d + 1) n
  end.

Lemma no_divisor_spec fuel d n p :
  1 < d -> no_divisor fuel d n = true -> d <= p -> (p | n) -> n < p * p.
Proof.
  revert d. induction fuel as [|fuel IH]; intros d Hd; cbn; [done|].
  destruct (Z.ltb_spec n (d * d)) as [L|L]; [nia|].
  destruct (Z.eqb_spec (n mod d) 0) as [|E]; [done|]. intros H Hdp Dp.
  destruct (decide (p = d)) as [->|].
  - apply Z.mod_divide in Dp; [|lia]. done.
  - apply (IH (d + 1)); [lia|done|lia|done].
Qed.

Lemma trial_prime n : 1 < n -> no_divisor (S (Z.to_nat (Z.sqrt n))) 2 n = true -> Z.prime n.
Proof.
  intros Hn H. apply prime_by_divisors; [done|]. intros p Pp Dp.
  apply (no_divisor_spec _ 2 n p) in H; [done | lia | by apply Z.prime_ge_2 | done].
Qed.

(** ** Pocklington's criterion *)

Lemma Zmod_pow_1_l m z : 0 <= z -> (Zmod.pow (@Zmod.one m) z = Zmod.one)%Zmod.
Proof.
  intros Hz. unfold Zmod.one. rewrite <- Zmod.of_Z_pow by done. by rewrite Z.pow_1_l.
Qed.

(** Exponents that take a unit to 1 are closed under gcd and multiples. *)
Lemma pow_gcd_1 p (b : Zmod.Zmod p) m n :
  Z.gcd (Zmod.unsigned b) p = 1 ->
  Zmod.pow b m = Zmod.one -> Zmod.pow b n = Zmod.one -> Zmod.pow b (Z.gcd m n) = Zmod.one.
Proof.
  intros Hc Em En. destruct (Z.gcd_bezout m n _ eq_refl) as (u & v & <-).
  assert (forall k e, Zmod.pow b e = Zmod.one -> Zmod.pow b (k * e) = Zmod.one) as Hk.
  { intros k e Ee. destruct (Z.le_gt_cases 0 k) as [Hk|Hk].
    - rewrite Z.mul_comm, Zmod.pow_mul_r_coprime by done. rewrite Ee. by apply Zmod_pow_1_l.
    - assert (Zmod.pow b ((- k) * e) = Zmod.one) as Eo.
      { rewrite Z.mul_comm, Zmod.pow_mul_r_coprime by done. rewrite Ee.
        apply Zmod_pow_1_l. lia. }
      assert (Zmod.mul (Zmod.pow b (k * e)) (Zmod.pow b ((- k) * e)) = Zmod.one) as E1.
      { rewrite <- Zmod.pow_add_r_coprime by done.
        replace (k * e + (- k) * e) with 0 by ring. apply Zmod.pow_0_r. }
      rewrite Eo in E1. by rewrite Zmod.mul_1_r in E1. }
  rewrite Zmod.pow_add_r_coprime, !Hk by done. apply Zmod.mul_1_r.
Qed.

Lemma nonzero_coprime p (x : Zmod.Zmod p) :
  Z.prime p -> x <> Zmod.zero -> Z.gcd (Zmod.unsigned x) p = 1.
Proof.
  intros Pp Nx. rewrite Z.gcd_comm. apply Z.coprime_prime_small; [done|].
  pose proof (Z.prime_ge_2 p Pp). pose proof (Zmod.to_Z_range x).
  apply Zmod.to_Z_nz in Nx. lia.
Qed.

Lemma pow_divisor_mod p N a e :
  1 < p -> (p | N) -> 0 < N -> 0 <= e -> a ^ e mod N = 1 ->
  Zmod.pow (Zmod.of_Z p a) e = Zmod.one.
Proof.
  intros Hp [k Hk] HN He E. rewrite <- Zmod.of_Z_pow by lia. apply Zmod.to_Z_inj.
  unfold Zmod.one. rewrite !Zmod.to_Z_of_Z.
  rewrite (Z.div_mod (a ^ e) N), E, Hk by lia.
  replace (k * p * (a ^ e / (k * p)) + 1) with (1 + k * (a ^ e / (k * p)) * p) by ring.
  apply Z.mod_add. lia.
Qed.

Lemma cofactor_gt_1 F g k : 0 < F -> 0 <= g -> F = k * g -> g <> F -> 1 < k.
Proof.
  intros HF Hg E N. destruct (Z.le_gt_cases k 0); [nia|].
  destruct (decide (k = 1)) as [->|]; lia.
Qed.

Section Pocklington.
Context (N a F R : Z) (qs : list Z).
Hypothesis N_pos : 1 < N.
Hypothesis F_pos : 0 < F.
Hypothesis split_N : N - 1 = F * R.
Hypothesis big_F : N < (F + 1) * (F + 1).
Hypothesis primes_F : forall q, Z.prime q -> (q | F) -> q ∈ qs.
Hypothesis fermat_N : a ^ (N - 1) mod N = 1.
Hypothesis coprime_N : forall q, q ∈ qs -> Z.gcd (a ^ ((N - 1) / q) - 1) N = 1.

(** F divides p - 1 for every prime divisor p of N. *)
Lemma pocklington_divides p : Z.prime p -> (p | N) -> (F | p - 1).
Proof.
  intros Pp Dp. pose proof (Z.prime_ge_2 p Pp) as Hp2.
  pose proof (pow_divisor_mod p N a (N - 1) ltac:(lia) Dp ltac:(lia) ltac:(lia) fermat_N) as Ex.
  set (x := Zmod.of_Z p a) in *.
  assert (x <> Zmod.zero) as Nx.
  { intros E0. rewrite E0, Zmod.pow_0_l in Ex by lia.
    symmetry in Ex. revert Ex. apply Zmod.one_neq_zero. lia. }
  pose proof (nonzero_coprime p x Pp Nx) as Hc.
  assert (Zmod.pow x R <> Zmod.zero) as Nb.
  { intros E0. rewrite split_N, Z.mul_comm, Zmod.pow_mul_r_coprime, E0 in Ex by done.
    rewrite Zmod.pow_0_l in Ex by lia. symmetry in Ex. revert Ex.
    apply Zmod.one_neq_zero. lia. }
  pose proof (nonzero_coprime p _ Pp Nb) as Hcb.
  assert (Zmod.pow (Zmod.pow x R) (Z.gcd F (Z.pred p)) = Zmod.one) as Eg.
  { apply pow_gcd_1; [done| |by apply Zmod.fermat_nz].
    by rewrite <- Zmod.pow_mul_r_coprime, Z.mul_comm, <- split_N. }
  replace (p - 1) with (Z.pred p) by lia.
  set (g := Z.gcd F (Z.pred p)) in *. apply Z.divide_gcd_iff; [lia|].
  destruct (decide (g = F)) as [|Ng]; [done|]. exfalso.
  destruct (Z.gcd_divide_l F (Z.pred p)) as [k Hk]. fold g in Hk.
  pose proof (Z.gcd_nonneg F (Z.pred p)) as Hg. fold g in Hg.
  destruct (prime_divisor k) as (q & Pq & [j Hj]); [by apply (cofactor_gt_1 F g k)|].
  assert (q ∈ qs) as Hq by (apply primes_F; [done | exists (j * g); rewrite Hk, Hj; ring]).
  pose proof (Z.prime_ge_2 q Pq) as Hq2.
  assert ((N - 1) / q = R * g * j) as Eq.
  { rewrite split_N, Hk, Hj. replace (j * q * g * R) with (R * g * j * q) by ring.
    apply Z.div_mul. lia. }
  assert (Zmod.pow x ((N - 1) / q) = Zmod.one) as E1.
  { rewrite Eq, !Zmod.pow_mul_r_coprime, Eg by (done || rewrite Eg).
    apply Zmod_pow_1_l. nia. }
  assert (0 <= (N - 1) / q) as He by (apply Z.div_pos; lia).
  unfold x in E1. rewrite <- Zmod.of_Z_pow in E1 by done.
  apply (f_equal Zmod.to_Z) in E1. unfold Zmod.one in E1. rewrite !Zmod.to_Z_of_Z in E1.
  assert ((p | a ^ ((N - 1) / q) - 1)) as D1.
  { apply Z.mod_divide; [lia|]. rewrite Zminus_mod, E1, Z.sub_diag. apply Zmod_0_l. }
  pose proof (Z.gcd_greatest _ _ _ D1 Dp) as D. rewrite (coprime_N q Hq) in D.
  apply Z.divide_pos_le in D; lia.
Qed.

Lemma pocklington : Z.prime N.
Proof.
  apply prime_by_divisors; [done|]. intros p Pp Dp.
  apply pocklington_divides in Dp; [|done]. pose proof (Z.prime_ge_2 p Pp).
  apply Z.divide_pos_le in Dp; [|lia]. nia.
Qed.

End Pocklington.

(** ** Modular powers

    Square and multiply on arbitrary-precision numbers. *)

Fixpoint big_pow_mod (a : BigN.t) (e : positive) (n : BigN.t) : BigN.t :=
  match e with
  | xH => BigN.modulo a n
  | xO e => let z := big_pow_mod a e n in BigN.modulo (BigN.square z) n
  | xI e => let z := big_pow_mod a e n in BigN.modulo (BigN.mul a (BigN.modulo (BigN.square z) n)) n
  end.

Lemma big_pow_mod_spec a e n :
  BigN.to_Z (big_pow_mod a e n) = (BigN.to_Z a ^ Zpos e) mod BigN.to_Z n.
Proof.
  induction e as [e IH|e IH|]; cbn [big_pow_mod].
  - rewrite BigN.spec_modulo, BigN.spec_mul, BigN.spec_modulo, BigN.spec_square, IH.
    rewrite <- Zmult_mod, Zmult_mod_idemp_r. f_equal.
    replace (Zpos (xI e)) with (Zpos e + Zpos e + 1) by lia. rewrite !Z.pow_add_r by lia. ring.
  - rewrite BigN.spec_modulo, BigN.spec_square, IH, <- Zmult_mod. f_equal.
    replace (Zpos (xO e)) with (Zpos e + Zpos e) by lia. rewrite !Z.pow_add_r by lia. ring.
  - by rewrite BigN.spec_modulo, Z.pow_1_r.
Qed.

(** [a ^ e mod n] for natural [a] and [n] and positive [e]. *)
Definition pow_mod (a e n : Z) : Z :=
  BigN.to_Z (big_pow_mod (BigN.of_N (Z.to_N a)) (Z.to_pos e) (BigN.of_N (Z.to_N n))).

Lemma pow_mod_correct a e n : 0 <= a -> 0 < e -> 0 <= n -> pow_mod a e n = a ^ e mod n.
Proof.
  intros Ha He Hn. unfold pow_mod. rewrite big_pow_mod_spec, !BigN.spec_of_N, !Z2N.id, Z2Pos.id by lia. done.
Qed.

(** ** Checking a certificate

    A certificate lists prime factors of N - 1 with their multiplicities. *)

Definition factored (fs : list (Z * Z)) : Z :=
  foldr (fun f acc => f.1 ^ f.2 * acc) 1 fs.

Definition pock_check (N a : Z) (fs : list (Z * Z)) : bool :=
  let F := factored fs in
  (1 <? N) && (0 <=? a) && (0 <? F) && ((N - 1) mod F =? 0) && (N <? (F + 1) * (F + 1)) &&
  (pow_mod a (N - 1) N =? 1) &&
  forallb (fun f => (0 <? (N - 1) / f.1) && (Z.gcd (pow_mod a ((N - 1) / f.1) N - 1) N =? 1)) fs.

Lemma factored_primes fs q :
  Forall (fun f => Z.prime f.1 /\ 0 <= f.2) fs -> Z.prime q -> (q | factored fs) -> q ∈ fs.*1.
Proof.
  intros Hfs Pq. induction Hfs as [|[f e] fs [Pf He] Hfs IH]; cbn.
  - intros D. pose proof (Z.prime_ge_2 q Pq). apply Z.divide_pos_le in D; lia.
  - rewrite elem_of_cons. intros [D|D]%Z.divide_prime_mul; [left| right; by apply IH |done].
    apply Z.divide_prime_pp with e; done.
Qed.

Lemma pock_check_prime N a fs :
  Forall (fun f => Z.prime f.1 /\ 0 <= f.2) fs -> pock_check N a fs = true -> Z.prime N.
Proof.
  intros Hfs H. unfold pock_check in H. rewrite !andb_true_iff in H.
  destruct H as [[[[[[H1 H0] H2] H3] H4] H5] H6].
  rewrite Z.ltb_lt in H1, H2, H4. rewrite Z.leb_le in H0. rewrite Z.eqb_eq in H3, H5.
  apply (pocklington N a (factored fs) ((N - 1) / factored fs) fs.*1); try done.
  - rewrite (Z.div_mod (N - 1) (factored fs)) at 1 by lia. lia.
  - intros q. by apply factored_primes.
  - rewrite pow_mod_correct in H5 by lia. done.
  - intros q [[q' e] [-> Hin]]%list_elem_of_fmap. rewrite forallb_forall in H6.
    apply list_elem_of_In, H6, andb_true_iff in Hin as [Hp%Z.ltb_lt Hin%Z.eqb_eq]. cbn in Hp, Hin |- *.
    rewrite pow_mod_correct in Hin by lia.
    rewrite <- Z.gcd_mod_l in Hin |- *. by rewrite Zminus_mod_idemp_l in Hin.
Qed.

Ltac pock a fs :=
  apply (pock_check_prime _ a fs);
  [ repeat (apply List.Forall_cons || apply List.Forall_nil);
    (split; cbn; [solve [auto with zarith] | lia])
  | vm_compute; reflexivity ].

Ltac trial := apply trial_prime; [lia | vm_compute; reflexivity].

(** [secp256k1OrderNat] *)
Definition secp256k1_order : Z :=
  0xFFFFFFFFFFFFFFFFFFFFFFFFFFFFFFFEBAAEDCE6AF48A03BBFD25E8CD0364141.

#[local] Lemma prime_120233 : Z.prime 120233. Proof. trial. Qed.
#[local] Lemma prime_9349 : Z.prime 9349. Proof. trial. Qed.
#[local] Lemma prime_28181 : Z.prime 28181. Proof. trial. Qed.
#[local] Lemma prime_1627771 : Z.prime 1627771. Proof. trial. Qed.
#[local] Hint Resolve prime_120233 prime_9349 prime_28181 prime_1627771 : zarith.

#[local] Lemma prime_44706919 : Z.prime 44706919.
Proof. pock 2 [(9349, 1)]. Qed.
#[local] Lemma prime_545358713 : Z.prime 545358713.
Proof. pock 2 [(28181, 1)]. Qed.
#[local] Lemma prime_297159362677 : Z.prime 297159362677.
Proof. pock 2 [(1627771, 1)]. Qed.
#[local] Hint Resolve prime_44706919 prime_545358713 prime_297159362677 : zarith.

#[local] Lemma prime_29047611873442575647497758179 : Z.prime 29047611873442575647497758179.
Proof. pock 2 [(545358713, 1); (297159362677, 1)]. Qed.
#[local] Hint Resolve prime_29047611873442575647497758179 : zarith.

#[local] Lemma prime_174723607534414371449 : Z.prime 174723607534414371449.
Proof. pock 2 [(120233, 1); (44706919, 1)]. Qed.
#[local] Lemma prime_341948486974166000522343609283189 :
  Z.prime 341948486974166000522343609283189.
Proof. pock 2 [(29047611873442575647497758179, 1)]. Qed.
#[local] Hint Resolve prime_174723607534414371449
  prime_341948486974166000522343609283189 : zarith.

Lemma secp256k1_order_prime : Z.prime secp256k1_order.
Proof. pock 2 [(174723607534414371449, 1); (341948486974166000522343609283189, 1)]. Qed.

(** The prime of the field over which secp256k1 is defined. *)
Definition secp256k1_p : Z := 2 ^ 256 - 2 ^ 32 - 977.

#[local] Lemma prime_96557 : Z.prime 96557. Proof. trial. Qed.
#[local] Lemma prime_7240687 : Z.prime 7240687. Proof. trial. Qed.
#[local] Lemma prime_107590001 : Z.prime 107590001. Proof. trial. Qed.
#[local] Hint Resolve prime_96557 prime_7240687 prime_107590001 : zarith.

#[local] Lemma prime_255515944373312847190720520512484175977 :
  Z.prime 255515944373312847190720520512484175977.
Proof. pock 2 [(96557, 1); (7240687, 1); (107590001, 1)]. Qed.
#[local] Hint Resolve prime_255515944373312847190720520512484175977 : zarith.

#[local] Lemma prime_205115282021455665897114700593932402728804164701536103180137503955397371 :
  Z.prime 205115282021455665897114700593932402728804164701536103180137503955397371.
Proof. pock 2 [(255515944373312847190720520512484175977, 1)]. Qed.
#[local] Hint Resolve prime_205115282021455665897114700593932402728804164701536103180137503955397371 : zarith.

Lemma secp256k1_p_prime : Z.prime secp256k1_p.
Proof. pock 2 [(205115282021455665897114700593932402728804164701536103180137503955397371, 1)]. Qed.
