(* ===== verification/Toy.v ===== *)
(** * A small concrete group

    The integers modulo 101 under addition, with 1 as the base point.  The
    x coordinate of a point is the smaller of its two representatives up to
    sign, and its "y" is even when its canonical representative is.  The
    group satisfies every law that [Curve] states, so the theorems proved
    against those laws are instantiated and evaluated here. *)

From Stdlib Require Import ZArith Lia Zmod.
From Stdlib Require Import Strings.Byte.
From stdpp Require Import base gmap strings list pretty numbers.
From S2P Require Import Prelude Hash Primes Curve.

Local Open Scope Z_scope.

Definition toy_order : Z := 101.

Definition toy_x (P : Zmod.Zmod toy_order) : Z :=
  Z.min (Zmod.to_Z P) (toy_order - Zmod.to_Z P).

Definition toy_even (P : Zmod.Zmod toy_order) : bool := Z.even (Zmod.to_Z P).

Definition toy_xbytes (P : Zmod.Zmod toy_order) : bytes := be_of_Z 32 (toy_x P).

(** The point with x coordinate [x] and the given parity. *)
Definition toy_lift (x : Z) (even : bool) : outcome (Zmod.Zmod toy_order) :=
  if (0 <? x) && (x <? 51)
  then Ret (Zmod.of_Z toy_order (if Bool.eqb (Z.even x) even then x else toy_order - x))
  else Fail "x coordinate not on curve".

Definition toy_marshal (P : Zmod.Zmod toy_order) : bytes :=
  (if toy_even P then x02 else x03) :: toy_xbytes P.

Definition toy_unmarshal (data : bytes) : outcome (Zmod.Zmod toy_order) :=
  match data with
  | b :: rest =>
      if decide (length rest = 32%nat)
      then toy_lift (be_to_Z rest) (negb (Byte.eqb b x03))
      else Fail "invalid length"
  | [] => Fail "invalid length"
  end.

#[export] Instance toy_curve : Curve := {|
  Name := "toy";
  order := toy_order;
  ScalarBits := 256;
  SafeScalarBytes := 32;
  Point := Zmod.Zmod toy_order;
  PointTypeName := "*curve.ToyPoint";
  Point_eq_dec := Zmod_eq_dec toy_order;
  NewPoint := Zmod.zero;
  NewBasePoint := Zmod.one;
  PAdd := Zmod.add;
  PNegate := Zmod.opp;
  Act := Zmod.mul;
  PMarshal := toy_marshal;
  PUnmarshal := toy_unmarshal;
  XScalar := fun P => Zmod.of_Z toy_order (toy_x P)
|}.

#[export] Instance toy_xonly : XOnly toy_curve := {|
  HasEvenY := (toy_even : @Point toy_curve -> bool);
  XBytes := (toy_xbytes : @Point toy_curve -> bytes);
  LiftX := fun b => toy_lift (be_to_Z (take 32 b)) true
|}.

Lemma toy_prime : Z.prime toy_order.
Proof. apply trial_prime; [by vm_compute | vm_compute; reflexivity]. Qed.

#[export] Instance toy_laws : CurveLaws toy_curve.
Proof.
  constructor; cbn; intros.
  - apply toy_prime.
  - by vm_compute.
  - apply Zmod.add_comm.
  - apply Zmod.add_assoc.
  - apply Zmod.add_0_l.
  - apply Zmod.add_opp_same_r.
  - apply Zmod.mul_1_l.
  - by rewrite Zmod.mul_assoc.
  - apply Zmod.mul_add_l.
  - exists P. by rewrite Zmod.mul_1_r.
  - by rewrite Zmod.mul_1_r in H.
Qed.

(** A decidable fact about every point holds when it holds for all 101. *)
Lemma toy_forall (f : Zmod.Zmod toy_order -> bool) :
  forallb f (Zmod.elements toy_order) = true -> forall P, f P = true.
Proof.
  rewrite forallb_forall. intros H P. apply H, Zmod.in_elements. by vm_compute.
Qed.

Definition ret_is (m : outcome (Zmod.Zmod toy_order)) (P : Zmod.Zmod toy_order) : bool :=
  match m with Ret Q => bool_decide (Q = P) | _ => false end.

Lemma ret_is_spec m P : ret_is m P = true -> m = Ret P.
Proof. destruct m; cbn; [|done|done]. intros E%bool_decide_eq_true. by subst. Qed.

Lemma toy_forall_nz (f : Zmod.Zmod toy_order -> bool) :
  forallb (fun P => bool_decide (P = Zmod.zero) || f P) (Zmod.elements toy_order) = true ->
  forall P, P <> Zmod.zero -> f P = true.
Proof.
  intros H P N. pose proof (toy_forall _ H P) as E. cbn beta in E.
  by rewrite bool_decide_false in E.
Qed.

Definition toy_neg_x_test (P : Zmod.Zmod toy_order) : bool :=
  bool_decide (toy_xbytes (Zmod.opp P) = toy_xbytes P).

Definition toy_neg_even_test (P : Zmod.Zmod toy_order) : bool :=
  Bool.eqb (toy_even (Zmod.opp P)) (negb (toy_even P)).

Lemma toy_neg_x P : toy_xbytes (Zmod.opp P) = toy_xbytes P.
Proof.
  assert (toy_neg_x_test P = true) as E by (revert P; apply toy_forall; by vm_compute).
  unfold toy_neg_x_test in E. by apply bool_decide_eq_true in E.
Qed.

Lemma toy_neg_even P : P <> Zmod.zero -> toy_even (Zmod.opp P) = negb (toy_even P).
Proof.
  intros N. apply Bool.eqb_prop. revert P N. apply (toy_forall_nz toy_neg_even_test).
  by vm_compute.
Qed.

Lemma toy_forall_ret (g : Zmod.Zmod toy_order -> outcome (Zmod.Zmod toy_order)) :
  forallb (fun P => bool_decide (P = Zmod.zero) || ret_is (g P) P) (Zmod.elements toy_order)
  = true -> forall P, P <> Zmod.zero -> g P = Ret P.
Proof.
  intros H P N. apply ret_is_spec. revert P N. exact (toy_forall_nz (fun P => ret_is (g P) P) H).
Qed.

Lemma toy_lift_x : forall P, P <> Zmod.zero ->
  toy_lift (be_to_Z (take 32 (toy_xbytes P))) (toy_even P) = Ret P.
Proof.
  apply (toy_forall_ret (fun P => toy_lift (be_to_Z (take 32 (toy_xbytes P))) (toy_even P))).
  by vm_compute.
Qed.

Lemma toy_lift_even x P : toy_lift x true = Ret P -> P <> Zmod.zero /\ toy_even P = true.
Proof.
  unfold toy_lift. destruct (Z.ltb_spec 0 x); [|done]. destruct (Z.ltb_spec x 51); [|done].
  cbn [andb]. intros [= <-]. unfold toy_even, toy_order. destruct (Z.even x) eqn:Ex; cbn [Bool.eqb].
  - rewrite Zmod.to_Z_of_Z, Z.mod_small by lia. split; [|done].
    intros E%(f_equal Zmod.to_Z). rewrite Zmod.to_Z_of_Z, Z.mod_small in E by lia.
    vm_compute (Zmod.to_Z _) in E. lia.
  - rewrite Zmod.to_Z_of_Z, Z.mod_small by lia. split.
    + intros E%(f_equal Zmod.to_Z). rewrite Zmod.to_Z_of_Z, Z.mod_small in E by lia.
      vm_compute (Zmod.to_Z _) in E. lia.
    + by rewrite Z.even_sub, Ex.
Qed.

Lemma toy_lift_inv x P : toy_lift x true = Ret P -> toy_xbytes P = be_of_Z 32 x.
Proof.
  unfold toy_lift. destruct (Z.ltb_spec 0 x); [|done]. destruct (Z.ltb_spec x 51); [|done].
  cbn [andb]. intros [= <-]. unfold toy_xbytes, toy_x, toy_order. f_equal.
  destruct (Z.even x); cbn [Bool.eqb]; rewrite Zmod.to_Z_of_Z, Z.mod_small by lia; lia.
Qed.

#[export] Instance toy_xonly_laws : XOnlyLaws toy_curve toy_xonly.
Proof.
  constructor.
  - intros P. apply length_be_of_Z.
  - apply toy_neg_x.
  - apply toy_neg_even.
  - intros P N E. pose proof (toy_lift_x P N) as L. change (toy_even P = true) in E.
    rewrite E in L. exact L.
  - intros b P. apply toy_lift_even.
  - intros b P Hl. cbn -[toy_lift be_to_Z]. rewrite take_ge by lia. intros E%toy_lift_inv.
    change (toy_xbytes P = b). by rewrite E, <- Hl, be_of_to_Z.
Qed.

#[export] Instance toy_marshal_laws : MarshalLaws toy_curve.
Proof.
  constructor. intros P N. change (toy_unmarshal (toy_marshal P) = Ret P).
  pose proof (toy_lift_x P N) as L. pose proof (length_be_of_Z 32 (toy_x P)) as Hl.
  fold (toy_xbytes P) in Hl. rewrite take_ge in L by lia.
  unfold toy_marshal, toy_unmarshal. rewrite decide_True by done.
  by destruct (toy_even P).
Qed.

#[export] Instance toy_compressed_laws : CompressedLaws toy_curve toy_xonly.
Proof.
  constructor.
  - done.
  - intros P even N. pose proof (toy_lift_x P N) as L. pose proof (toy_lift_x (Zmod.opp P)) as L'.
    rewrite toy_neg_x, toy_neg_even in L' by done. pose proof (length_be_of_Z 32 (toy_x P)) as Hl. fold (toy_xbytes P) in Hl.
    rewrite take_ge in L, L' by lia.
    change (toy_unmarshal ((if even then x02 else x03) :: toy_xbytes P)
            = Ret (if Bool.eqb even (toy_even P) then P else Zmod.opp P)).
    unfold toy_unmarshal. rewrite decide_True by done.
    assert (Zmod.opp P <> Zmod.zero) as N'.
    { intros E. apply N. rewrite <- (Zmod.opp_opp P), E. apply Zmod.opp_0. }
    specialize (L' N'). by destruct even, (toy_even P).
  - intros P. change (Zmod.of_Z toy_order (toy_x P) = Zmod.of_Z toy_order (be_to_Z (toy_xbytes P))).
    unfold toy_xbytes. rewrite be_to_of_Z, Z.mod_small; [done|].
    unfold toy_x, toy_order. pose proof (Zmod.to_Z_range P). unfold toy_order in *.
    change (256 ^ Z.of_nat 32) with (2 ^ 256). lia.
  - by vm_compute.
Qed.

(** A stand-in for the extendable-output hash, enough to evaluate the
    protocols on: a checksum of the input, stretched. *)
Definition toy_blake3 : Blake3 := fun input =>
  let z := foldl (fun acc b => (acc * 31 + byteZ b + 1) mod 65521) 7 input in
  fun n => byte_of_Z (z / (Z.of_nat n + 1) + 3 * Z.of_nat n + 1).

(** The same idea with the order of secp256k1, for code that needs scalars of
    full size. *)
Definition big_curve : Curve := {|
  Name := "big";
  order := secp256k1_order;
  ScalarBits := 256;
  SafeScalarBytes := 32;
  Point := Zmod.Zmod secp256k1_order;
  PointTypeName := "*curve.BigPoint";
  Point_eq_dec := Zmod_eq_dec secp256k1_order;
  NewPoint := Zmod.zero;
  NewBasePoint := Zmod.one;
  PAdd := Zmod.add;
  PNegate := Zmod.opp;
  Act := Zmod.mul;
  PMarshal := fun P => be_of_Z 33 (Zmod.to_Z P);
  PUnmarshal := fun b => Ret (Zmod.of_Z secp256k1_order (be_to_Z b));
  XScalar := fun P => P
|}.

Lemma big_laws : CurveLaws big_curve.
Proof.
  constructor; cbn; intros.
  - apply secp256k1_order_prime.
  - by vm_compute.
  - apply Zmod.add_comm.
  - apply Zmod.add_assoc.
  - apply Zmod.add_0_l.
  - apply Zmod.add_opp_same_r.
  - apply Zmod.mul_1_l.
  - by rewrite Zmod.mul_assoc.
  - apply Zmod.mul_add_l.
  - exists P. by rewrite Zmod.mul_1_r.
  - by rewrite Zmod.mul_1_r in H.
Qed.
