(* ===== verification/Party.v ===== *)
(** * pkg/party: party identifiers and sorted identifier slices *)

From Stdlib Require Import ZArith Lia Zmod.
From Stdlib Require Import Strings.Byte.
From stdpp Require Import sorting base gmap strings list pretty numbers.
From S2P Require Import Prelude Hash Curve.

Local Open Scope Z_scope.

(** [type ID string] *)
Abbreviation ID := string.

(** [ID.Scalar]: the bytes of the identifier as a big-endian natural number,
    modulo the order. *)
Definition ID_Scalar `{Curve} (id : ID) : Scalar := SetNat (be_to_Z (bytes_of_string id)).

Definition ID_WriteTo (id : ID) : outcome bytes :=
  if decide (id = "") then Fail ErrUnexpectedEOF else Ret (bytes_of_string id).

Definition ID_any (id : ID) : any := AWriterTo "party.ID" "ID" (ID_WriteTo id).

(** ** Maps keyed by parties *)

(** The order in which [range] visits a map: Go leaves it open. *)
Class MapOrder := range_order : forall A, gmap ID A -> list (ID * A).
Arguments range_order {MapOrder A}.

Class MapOrderLaws {MO : MapOrder} : Prop :=
  range_order_perm A (m : gmap ID A) : range_order m ≡ₚ map_to_list m.

(** The order of the keys: one that the runtime could choose. *)
Definition key_order : MapOrder := fun A m => map_to_list m.

#[export] Instance key_order_laws : @MapOrderLaws key_order.
Proof. by intros A m. Qed.

(** ** IDSlice *)

Abbreviation IDSlice := (list ID).

(** [NewIDSlice] sorts a copy of its argument with [sort.Sort]. *)
Definition NewIDSlice (partyIDs : list ID) : IDSlice := merge_sort String.le partyIDs.

(** [sort.Search(n, f)]: the loop on the half-open interval [i, j). *)
Fixpoint search_loop (fuel : nat) (f : nat -> bool) (i j : nat) : nat :=
  match fuel with
  | O => i
  | S fuel =>
      if decide (i < j)%nat then
        let h := ((i + j) / 2)%nat in
        if f h then search_loop fuel f i h else search_loop fuel f (S h) j
      else i
  end.

(** The interval shrinks in every iteration, so [n] iterations suffice. *)
Definition sort_Search (n : nat) (f : nat -> bool) : nat := search_loop n f 0 n.

(** [partyIDs[i] >= x]; out of range the source would panic, which
    [sort.Search] never causes ([search_loop_range]). *)
Definition ge_at (partyIDs : IDSlice) (x : ID) (i : nat) : bool :=
  match partyIDs !! i with Some y => String.leb x y | None => false end.

Definition search (partyIDs : IDSlice) (x : ID) : nat * bool :=
  let index := sort_Search (length partyIDs) (ge_at partyIDs x) in
  if bool_decide (partyIDs !! index = Some x) then (index, true) else (0%nat, false).

Definition Contains (partyIDs : IDSlice) (ids : list ID) : bool :=
  forallb (fun id => (search partyIDs id).2) ids.

(** [Valid]: no [partyIDs[i-1] >= partyIDs[i]]. *)
Fixpoint Valid (partyIDs : IDSlice) : bool :=
  match partyIDs with
  | x :: (y :: _) as rest => if String.leb y x then false else Valid rest
  | _ => true
  end.

Definition Remove (partyIDs : IDSlice) (id : ID) : IDSlice :=
  filter (fun p => p <> id) partyIDs.

(** [IDSlice.WriteTo]: the byte count it reports, and the bytes it writes.
    A nil slice is an error. *)
Definition IDSlice_WriteTo (partyIDs : option IDSlice) : outcome (Z * bytes) :=
  match partyIDs with
  | None => Fail ErrUnexpectedEOF
  | Some ids =>
      let body := concat (bytes_of_string <$> ids) in
      Ret (4 + Z.of_nat (length body), be_of_Z 8 (Z.of_nat (length ids)) ++ body)
  end.

Definition IDSlice_any (ids : IDSlice) : any :=
  AWriterTo "party.IDSlice" "IDSlice" (r ← IDSlice_WriteTo (Some ids); Ret r.2).

(** ** Properties *)

(** *** Sorting *)

Definition id_lt (x y : ID) : Prop := String.leb y x = false.

Lemma id_lt_le x y : id_lt x y -> String.le x y.
Proof.
  unfold id_lt, String.le. intros E. destruct (String.leb_total x y) as [->|E']; [done|].
  congruence.
Qed.

Lemma id_lt_ne x y : id_lt x y -> x <> y.
Proof.
  intros E ->. unfold id_lt in E. pose proof (reflexivity (R:=String.le) y) as R.
  unfold String.le in R. by rewrite E in R.
Qed.

Lemma id_le_ne_lt x y : String.le x y -> x <> y -> id_lt x y.
Proof.
  intros L N. unfold id_lt. destruct (String.leb y x) eqn:E; [|done].
  exfalso. apply N. apply (anti_symm String.le); [done|]. unfold String.le. by rewrite E.
Qed.

#[export] Instance id_lt_trans : Transitive id_lt.
Proof.
  intros x y z Hxy Hyz. apply id_le_ne_lt.
  - by transitivity y; apply id_lt_le.
  - intros <-. apply (id_lt_ne x y Hxy). by apply (anti_symm String.le); apply id_lt_le.
Qed.

Lemma Valid_Sorted l : Valid l = true <-> Sorted id_lt l.
Proof.
  induction l as [|x [|y l] IH].
  - split; [constructor | done].
  - split; [repeat constructor | done].
  - cbn [Valid]. split.
    + destruct (String.leb y x) eqn:E; [done|]. intros V. constructor; [by apply IH|].
      by constructor.
    + intros S. inversion S as [|? ? S' Hd]; subst. inversion Hd as [|? ? L]; subst.
      unfold id_lt in L. rewrite L. by apply IH.
Qed.

Lemma Valid_StronglySorted l : Valid l = true <-> StronglySorted id_lt l.
Proof.
  rewrite Valid_Sorted. split; [apply Sorted_StronglySorted, _ | apply StronglySorted_Sorted].
Qed.

Lemma StronglySorted_lt_le l : StronglySorted id_lt l -> StronglySorted String.le l.
Proof.
  induction 1 as [|x l S IH F]; constructor; [done|].
  eapply Forall_impl; [|exact F]. intros y. apply id_lt_le.
Qed.

Lemma Valid_le l : Valid l = true -> StronglySorted String.le l.
Proof. rewrite Valid_StronglySorted. apply StronglySorted_lt_le. Qed.

Lemma Valid_NoDup l : Valid l = true -> NoDup l.
Proof.
  rewrite Valid_StronglySorted. induction 1 as [|x l S IH F]; constructor; [|done].
  intros Hin. rewrite list.Forall_forall in F. by apply F, id_lt_ne in Hin.
Qed.

Lemma NewIDSlice_perm l : NewIDSlice l ≡ₚ l.
Proof. apply merge_sort_Permutation. Qed.

Lemma NewIDSlice_sorted l : StronglySorted String.le (NewIDSlice l).
Proof. apply StronglySorted_merge_sort; apply _. Qed.

Lemma StronglySorted_Valid l : StronglySorted String.le l -> NoDup l -> Valid l = true.
Proof.
  rewrite Valid_StronglySorted. induction 1 as [|x l S IH F]; [constructor|].
  rewrite list.NoDup_cons. intros [Hx D]. constructor; [by apply IH|].
  rewrite list.Forall_forall in F |- *. intros y Hy. apply id_le_ne_lt; [by apply F|].
  by intros ->.
Qed.

Lemma NewIDSlice_Valid l : Valid (NewIDSlice l) = true <-> NoDup l.
Proof.
  split.
  - intros V%Valid_NoDup. by rewrite <- (NewIDSlice_perm l).
  - intros D. apply StronglySorted_Valid; [apply NewIDSlice_sorted|].
    by rewrite NewIDSlice_perm.
Qed.

(** The order in which the caller lists the parties is irrelevant. *)
Lemma NewIDSlice_order_irrelevant l1 l2 : l1 ≡ₚ l2 -> NewIDSlice l1 = NewIDSlice l2.
Proof.
  intros P. apply (StronglySorted_unique String.le); [apply NewIDSlice_sorted..|].
  by rewrite !NewIDSlice_perm.
Qed.

(** *** Binary search *)

Lemma midpoint_range i j : (i < j)%nat -> (i <= (i + j) / 2 < j)%nat.
Proof.
  intros L. split; [apply Nat.div_le_lower_bound | apply Nat.Div0.div_lt_upper_bound]; lia.
Qed.

(** The loop only probes indices inside the interval. *)
Lemma search_loop_range fuel f i j :
  (i <= j)%nat -> (i <= search_loop fuel f i j <= j)%nat.
Proof.
  revert i j. induction fuel as [|fuel IH]; intros i j Hij; cbn [search_loop]; [lia|].
  destruct (decide (i < j)%nat) as [L|]; [|lia].
  pose proof (midpoint_range i j L).
  destruct (f _).
  - pose proof (IH i ((i + j) / 2)%nat ltac:(lia)). lia.
  - pose proof (IH (S ((i + j) / 2)) j ltac:(lia)). lia.
Qed.

(** On a predicate that is monotone on the interval, the loop returns its
    first true index ([j] if there is none). *)
Lemma search_loop_first fuel f i j :
  (j - i <= fuel)%nat -> (i <= j)%nat ->
  (forall a b, (a <= b < j)%nat -> f a = true -> f b = true) ->
  (forall k, (i <= k < search_loop fuel f i j)%nat -> f k = false) /\
  ((search_loop fuel f i j < j)%nat -> f (search_loop fuel f i j) = true).
Proof.
  revert i j. induction fuel as [|fuel IH]; intros i j Hf Hij Hm; cbn [search_loop]; [split; intros; lia|].
  destruct (decide (i < j)%nat) as [L|]; [|split; intros; lia].
  pose proof (midpoint_range i j L).
  set (h := ((i + j) / 2)%nat) in *. destruct (f h) eqn:E.
  - destruct (IH i h) as [IH1 IH2]; [lia | lia | intros a b ?; apply Hm; lia |].
    split; [done|]. intros Hlt.
    pose proof (search_loop_range fuel f i h ltac:(lia)).
    destruct (decide (search_loop fuel f i h < h)%nat); [auto|].
    by replace (search_loop fuel f i h) with h by lia.
  - destruct (IH (S h) j) as [IH1 IH2]; [lia | lia | done |]. split; [|done].
    intros k Hk. destruct (decide (k <= h)%nat); [|apply IH1; lia].
    destruct (f k) eqn:Ek; [|done]. by rewrite (Hm k h) in E by (done || lia).
Qed.

Lemma StronglySorted_lookup_le l i j x y :
  StronglySorted String.le l -> (i <= j)%nat -> l !! i = Some x -> l !! j = Some y ->
  String.le x y.
Proof.
  intros S. revert i j. induction S as [|z l S IH F]; intros [|i] [|j] Hij Hi Hj;
    simplify_eq/=; [reflexivity | | lia | eapply IH; [|done..]; lia].
  rewrite list.Forall_forall in F. eapply F, list_elem_of_lookup_2, Hj.
Qed.

Lemma ge_at_spec l x i y : l !! i = Some y -> ge_at l x i = true <-> String.le x y.
Proof. intros E. unfold ge_at. rewrite E. unfold String.le. by rewrite Is_true_true. Qed.

Lemma ge_at_mono l x a b :
  StronglySorted String.le l -> (a <= b < length l)%nat ->
  ge_at l x a = true -> ge_at l x b = true.
Proof.
  intros S Hab. destruct (lookup_lt_is_Some_2 l a) as [y Ea]; [lia|].
  destruct (lookup_lt_is_Some_2 l b) as [z Eb]; [lia|].
  rewrite (ge_at_spec _ _ _ _ Ea), (ge_at_spec _ _ _ _ Eb). intros L.
  transitivity y; [done|]. eapply (StronglySorted_lookup_le l a b); [done|lia|done..].
Qed.

Lemma search_found l x k :
  StronglySorted String.le l -> l !! k = Some x ->
  l !! sort_Search (length l) (ge_at l x) = Some x.
Proof.
  intros S Hk. pose proof (lookup_lt_Some _ _ _ Hk) as Hlt.
  destruct (search_loop_first (length l) (ge_at l x) 0 (length l)) as [H1 H2];
    [lia | lia | intros a b ?; by apply ge_at_mono |].
  unfold sort_Search. set (idx := search_loop _ _ _ _) in *.
  assert (idx <= k)%nat as Hik.
  { destruct (decide (idx <= k)%nat); [done|]. specialize (H1 k ltac:(lia)).
    assert (ge_at l x k = true) by by apply (ge_at_spec _ _ _ _ Hk). congruence. }
  destruct (lookup_lt_is_Some_2 l idx) as [y Hy]; [lia|].
  specialize (H2 ltac:(lia)). rewrite (ge_at_spec _ _ _ _ Hy) in H2.
  rewrite Hy. f_equal. apply (anti_symm String.le); [|done].
  by eapply StronglySorted_lookup_le.
Qed.

Lemma search_spec l x :
  StronglySorted String.le l -> (search l x).2 = true <-> x ∈ l.
Proof.
  intros S. unfold search. split.
  - destruct (bool_decide_reflect (l !! sort_Search (length l) (ge_at l x) = Some x)) as [E|];
      [|done]. intros _. by eapply list_elem_of_lookup_2.
  - intros [k Hk]%list_elem_of_lookup_1. by rewrite bool_decide_true by by eapply search_found.
Qed.

Lemma Contains_spec l ids :
  StronglySorted String.le l -> Contains l ids = true <-> Forall (fun x => x ∈ l) ids.
Proof.
  intros S. unfold Contains. rewrite forallb_forall, list.Forall_forall.
  setoid_rewrite list_elem_of_In. setoid_rewrite (search_spec l _ S).
  by setoid_rewrite list_elem_of_In.
Qed.

(** *** Removal *)

Lemma elem_of_Remove l id x : x ∈ Remove l id <-> x ∈ l /\ x <> id.
Proof. unfold Remove. rewrite list_elem_of_filter. tauto. Qed.

Lemma Remove_cons_eq l id : Remove (id :: l) id = Remove l id.
Proof. unfold Remove. by rewrite filter_cons_False by auto. Qed.

Lemma Remove_cons_ne x l id : x <> id -> Remove (x :: l) id = x :: Remove l id.
Proof. intros N. unfold Remove. by rewrite filter_cons_True. Qed.

Lemma Remove_notin l id : id ∉ l -> Remove l id = l.
Proof.
  induction l as [|x l IH]; [done|]. intros [N1 N2]%not_elem_of_cons.
  rewrite Remove_cons_ne by done. by rewrite IH.
Qed.

Lemma Remove_perm l id : NoDup l -> id ∈ l -> l ≡ₚ id :: Remove l id.
Proof.
  induction l as [|x l IH]; [by intros _ ?%not_elem_of_nil|].
  rewrite list.NoDup_cons. intros [Hx D] Hin. destruct (decide (x = id)) as [->|N].
  - rewrite Remove_cons_eq. by rewrite Remove_notin.
  - rewrite Remove_cons_ne by done. apply elem_of_cons in Hin as [|Hin]; [done|].
    rewrite Permutation_swap. f_equiv. by apply IH.
Qed.

Lemma NoDup_Remove l id : NoDup l -> NoDup (Remove l id).
Proof. apply list.NoDup_filter. Qed.

(** *** Identifiers as interpolation points *)

(** An identifier that is not empty and does not start with a zero byte. *)
Definition canonical_id (id : ID) : bool :=
  match bytes_of_string id with
  | [] => false
  | b :: _ => negb (Byte.eqb b x00)
  end.

Lemma be_to_Z_lower b l :
  b <> x00 -> 256 ^ Z.of_nat (length l) <= be_to_Z (b :: l).
Proof.
  intros N. rewrite be_to_Z_cons. pose proof (byteZ_range b). pose proof (be_to_Z_bound l).
  assert (byteZ b <> 0) by (intros E; apply N, byteZ_inj; exact E). nia.
Qed.

Lemma be_to_Z_canonical_inj b1 l1 b2 l2 :
  b1 <> x00 -> b2 <> x00 ->
  be_to_Z (b1 :: l1) = be_to_Z (b2 :: l2) -> b1 :: l1 = b2 :: l2.
Proof.
  intros N1 N2 E. apply be_to_Z_inj; [|done]. cbn [length]. f_equal.
  pose proof (be_to_Z_lower _ l1 N1). pose proof (be_to_Z_lower _ l2 N2).
  pose proof (be_to_Z_bound (b1 :: l1)) as B1. pose proof (be_to_Z_bound (b2 :: l2)) as B2.
  cbn [length] in B1, B2.
  destruct (Nat.lt_trichotomy (length l1) (length l2)) as [L|[L|L]]; [|done|].
  - pose proof (Z.pow_le_mono_r 256 (Z.of_nat (S (length l1))) (Z.of_nat (length l2))). lia.
  - pose proof (Z.pow_le_mono_r 256 (Z.of_nat (S (length l2))) (Z.of_nat (length l1))). lia.
Qed.

Section Scalars.
Context {C : Curve} {CL : CurveLaws C}.

(** Identifiers whose big-endian value stays below the order. *)
Definition small_id (id : ID) : Prop := be_to_Z (bytes_of_string id) < order.

Lemma ID_Scalar_value id :
  small_id id -> Zmod.to_Z (ID_Scalar id) = be_to_Z (bytes_of_string id).
Proof.
  intros S. unfold ID_Scalar, SetNat. rewrite Zmod.to_Z_of_Z. apply Z.mod_small.
  pose proof (be_to_Z_bound (bytes_of_string id)). split; [lia|done].
Qed.

Lemma ID_Scalar_inj id1 id2 :
  canonical_id id1 = true -> canonical_id id2 = true -> small_id id1 -> small_id id2 ->
  ID_Scalar id1 = ID_Scalar id2 -> id1 = id2.
Proof.
  intros C1 C2 S1 S2 E%(f_equal Zmod.to_Z). rewrite !ID_Scalar_value in E by done.
  apply bytes_of_string_inj. unfold canonical_id in *.
  destruct (bytes_of_string id1) as [|b1 l1]; [done|].
  destruct (bytes_of_string id2) as [|b2 l2]; [done|].
  apply be_to_Z_canonical_inj; [..|done].
  - intros ->. by vm_compute in C1.
  - intros ->. by vm_compute in C2.
Qed.

Lemma ID_Scalar_nonzero id :
  canonical_id id = true -> small_id id -> ID_Scalar id <> 0%C.
Proof.
  intros Hc S E%(f_equal Zmod.to_Z). rewrite ID_Scalar_value in E by done.
  unfold canonical_id in Hc. destruct (bytes_of_string id) as [|b l]; [done|].
  assert (b <> x00) as N by (intros ->; by vm_compute in Hc).
  pose proof (be_to_Z_lower b l N). pose proof (Z.pow_pos_nonneg 256 (Z.of_nat (length l))).
  unfold Zmod.zero in E. rewrite Zmod.to_Z_of_Z, Zmod_0_l in E. lia.
Qed.

End Scalars.
