(* ===== verification/Sample.v ===== *)
(** * pkg/math/sample: sampling scalars from a reader

    A sampler consumes an [io.Reader]; it is modelled as a function from the
    reader to an outcome that carries the advanced reader. *)

From Stdlib Require Import ZArith Lia Zmod.
From stdpp Require Import base gmap strings list pretty numbers.
From S2P Require Import Prelude Hash Curve.

Definition maxIterations : nat := 255.

Definition ErrMaxIterations : string :=
  "sample: failed to generate after 255 iterations".

(** The retry loop of [mustReadBits], with [k] attempts left. *)
Fixpoint read_loop (k : nat) (rand : reader) (n : nat) : outcome (bytes * reader) :=
  match k with
  | O => Panic ErrMaxIterations
  | S k =>
      match ReadFull rand n with
      | (Some buf, rand') => Ret (buf, rand')
      | (None, rand') => read_loop k rand' n
      end
  end.

Definition mustReadBits (rand : reader) (n : nat) : outcome (bytes * reader) :=
  read_loop maxIterations rand n.

(** [sample.Scalar] *)
Definition sample_Scalar `{Curve} (rand : reader) : outcome (Scalar * reader) :=
  '(buffer, rand') ← mustReadBits rand SafeScalarBytes;
  Ret (SetNat (be_to_Z buffer), rand').

(** The loop of [sample.ScalarUnit], with [k] attempts left. *)
Fixpoint unit_loop `{Curve} (k : nat) (rand : reader) : outcome (Scalar * reader) :=
  match k with
  | O => Panic ErrMaxIterations
  | S k =>
      '(s, rand') ← sample_Scalar rand;
      if IsZero s then unit_loop k rand' else Ret (s, rand')
  end.

Definition sample_ScalarUnit `{Curve} (rand : reader) : outcome (Scalar * reader) :=
  unit_loop maxIterations rand.

Definition sample_ScalarPointPair `{Curve} (rand : reader) :
    outcome (Scalar * Point * reader) :=
  '(s, rand') ← sample_Scalar rand; Ret (s, ActOnBase s, rand').

(** [sampleNeg]: an integer of [bits] bits with a sign taken from the first
    byte. *)
Definition sampleNeg (rand : reader) (bits : nat) : outcome (Z * reader) :=
  '(buf, rand') ← mustReadBits rand (bits / 8 + 1);
  let neg := match buf with b :: _ => Z.odd (byteZ b) | [] => false end in
  let out := be_to_Z (tail buf) in
  Ret (if neg then - out else out, rand')%Z.

(** ** Properties *)

Lemma read_loop_length k rand n buf rand' :
  read_loop k rand n = Ret (buf, rand') -> length buf = n.
Proof.
  revert rand. induction k as [|k IH]; intros rand; cbn; [done|].
  destruct (ReadFull rand n) as [[b|] r] eqn:E; [|apply IH].
  intros [= <- <-]. by eapply ReadFull_length.
Qed.

(** A reader whose next read succeeds is read once. *)
Lemma mustReadBits_ok rand n :
  r_fails rand (r_calls rand) = false ->
  exists buf rand', mustReadBits rand n = Ret (buf, rand') /\ length buf = n.
Proof.
  intros E. unfold mustReadBits, maxIterations. cbn [read_loop].
  destruct (ReadFull rand n) as [[b|] r] eqn:R.
  - exists b, r. split; [done|]. by eapply ReadFull_length.
  - unfold ReadFull in R. by rewrite E in R.
Qed.

Lemma sample_Scalar_ok `{Curve} rand :
  r_fails rand (r_calls rand) = false ->
  exists s rand', sample_Scalar rand = Ret (s, rand').
Proof.
  intros E. unfold sample_Scalar.
  destruct (mustReadBits_ok rand SafeScalarBytes E) as (buf & r & -> & _). cbn. eauto.
Qed.

(** A reader on which every read succeeds. *)
Definition reliable (rand : reader) : Prop := forall k, r_fails rand k = false.

Lemma ReadFull_reliable rand n :
  reliable rand -> exists b rand', ReadFull rand n = (Some b, rand') /\ length b = n /\ reliable rand'.
Proof.
  intros H. unfold ReadFull. rewrite H. eexists _, _. split; [done|]. split; [|done].
  by rewrite length_map, length_seq.
Qed.

Lemma sample_Scalar_reliable `{Curve} rand :
  reliable rand -> exists s rand', sample_Scalar rand = Ret (s, rand') /\ reliable rand'.
Proof.
  intros H1. unfold sample_Scalar, mustReadBits, maxIterations. cbn [read_loop].
  destruct (ReadFull_reliable rand SafeScalarBytes H1) as (b & r & -> & _ & Hr). cbn. eauto.
Qed.

Lemma Digest_reliable `{Blake3} h : reliable (Digest h).
Proof. done. Qed.

(** Sampling from a digest always succeeds. *)
Lemma sample_Scalar_digest `{Curve, Blake3} h :
  exists s rand', sample_Scalar (Digest h) = Ret (s, rand').
Proof. by apply sample_Scalar_ok. Qed.

Lemma unit_loop_nonzero `{Curve} k rand s rand' :
  unit_loop k rand = Ret (s, rand') -> s <> 0%C.
Proof.
  revert rand. induction k as [|k IH]; intros rand; cbn [unit_loop]; [done|].
  intros ([s0 r0] & _ & E)%bind_ret_inv. unfold IsZero in E.
  destruct (bool_decide_reflect (s0 = 0%C)); [by eapply IH|]. congruence.
Qed.

Lemma sampleNeg_range rand bits v rand' :
  (bits `mod` 8 = 0)%nat -> sampleNeg rand bits = Ret (v, rand') ->
  (- 2 ^ Z.of_nat bits < v < 2 ^ Z.of_nat bits)%Z.
Proof.
  intros Hm ([buf r] & R & E)%bind_ret_inv.
  apply read_loop_length in R. destruct buf as [|b buf]; [cbn in R; lia|].
  injection E as <- _. cbn [length tail] in R |- *. pose proof (be_to_Z_bound buf) as B.
  replace (2 ^ Z.of_nat bits)%Z with (256 ^ Z.of_nat (length buf))%Z.
  - destruct (Z.odd _); lia.
  - change 256%Z with (2 ^ 8)%Z. rewrite <- Z.pow_mul_r by lia. f_equal.
    pose proof (Nat.div_mod_eq bits 8). lia.
Qed.
