(* ===== verification/Polynomial.v ===== *)
(** * pkg/math/polynomial: secret-sharing polynomials and Lagrange coefficients

    [Polynomial] (polynomial.go), [Lagrange] (lagrange.go) and [Exponent]
    (exponent.go).  The interpolation theorem at the end of the Lagrange part
    is the fact that both threshold signing protocols rest on. *)

From Stdlib Require Import ZArith Lia Zmod Field.
From Stdlib Require Import Strings.Byte.
From stdpp Require Import base gmap strings list pretty numbers.
From S2P Require Import Prelude Hash Curve Party Sample.

Local Open Scope curve_scope.

(** ** polynomial.go *)

Section Polynomial.
Context {C : Curve}.

Record Polynomial := mkPolynomial { coefficients : list Scalar }.

(** The loop that samples the coefficients a₁ … aₜ. *)
Fixpoint sample_coefficients (n : nat) (rand : reader) : outcome (list Scalar * reader) :=
  match n with
  | O => Ret ([], rand)
  | S n =>
      '(a, rand) ← sample_Scalar rand;
      '(l, rand) ← sample_coefficients n rand;
      Ret (a :: l, rand)
  end.

(** [NewPolynomial]: a nil constant is read as 0; a negative degree makes
    [make] or the index of the constant coefficient panic. *)
Definition NewPolynomial (degree : Z) (constant : option Scalar) (rand : reader) :
    outcome (Polynomial * reader) :=
  if decide (degree < 0)%Z then Panic "runtime error: makeslice: len out of range"
  else
    '(rest, rand) ← sample_coefficients (Z.to_nat degree) rand;
    Ret (mkPolynomial (default 0 constant :: rest), rand).

(** Horner's scheme, from the highest coefficient down. *)
Definition horner (index : Scalar) (coeffs : list Scalar) : Scalar :=
  foldr (fun a result => result * index + a) 0 coeffs.

Definition Evaluate (p : Polynomial) (index : Scalar) : outcome Scalar :=
  if IsZero index then Panic "attempt to leak secret"
  else Ret (horner index (coefficients p)).

Definition Constant (p : Polynomial) : outcome Scalar :=
  match coefficients p with
  | a :: _ => Ret a
  | [] => Panic "runtime error: index out of range"
  end.

(** [Degree]: a uint32, so an empty polynomial has degree 2³² - 1. *)
Definition Degree (p : Polynomial) : Z :=
  ((Z.of_nat (length (coefficients p)) - 1) mod 2 ^ 32)%Z.

End Polynomial.

(** ** lagrange.go *)

Section Lagrange.
Context {C : Curve}.

(** [getScalarsAndNumerator]: the map from parties to interpolation points,
    and the product x₀ ⋅⋅⋅ xₖ over the list. *)
Definition getScalarsAndNumerator (domain : list ID) : gmap ID Scalar * Scalar :=
  foldl (fun acc id => let xi := ID_Scalar id in (<[id := xi]> acc.1, acc.2 * xi))
    (∅, 1) domain.

(** The factor that the loop of [lagrange] multiplies into the denominator. *)
Definition lagrange_factor (j : ID) (xJ : Scalar) (i : ID) (xI : Scalar) : Scalar :=
  if decide (i = j) then xJ else - xJ + xI.

(** [lagrange]: a party outside the domain has a nil interface as its point,
    on which the first method call panics. *)
Definition lagrange (domain : gmap ID Scalar) (numerator : Scalar) (j : ID) : outcome Scalar :=
  match domain !! j with
  | None => Panic "failed to convert to secp256k1Scalar: <nil>"
  | Some xJ =>
      let denominator :=
        map_fold (fun i xI acc => acc * lagrange_factor j xJ i xI) 1 domain in
      Ret (Invert denominator * numerator)
  end.

Fixpoint lagrange_loop (scalars : gmap ID Scalar) (numerator : Scalar) (subset : list ID)
    (coefficients : gmap ID Scalar) : outcome (gmap ID Scalar) :=
  match subset with
  | [] => Ret coefficients
  | j :: subset =>
      l ← lagrange scalars numerator j;
      lagrange_loop scalars numerator subset (<[j := l]> coefficients)
  end.

Definition LagrangeFor (domain subset : list ID) : outcome (gmap ID Scalar) :=
  let '(scalars, numerator) := getScalarsAndNumerator domain in
  lagrange_loop scalars numerator subset ∅.

Definition Lagrange (domain : list ID) : outcome (gmap ID Scalar) :=
  LagrangeFor domain domain.

Definition LagrangeSingle (domain : list ID) (j : ID) : outcome Scalar :=
  m ← LagrangeFor domain [j]; deref (m !! j).

End Lagrange.

(** ** exponent.go *)

Section Exponent.
Context {C : Curve}.

Record Exponent := mkExponent { IsConstant : bool; e_coefficients : list Point }.

(** [NewPolynomialExponent]: the constant coefficient is left out when it
    is zero. *)
Definition NewPolynomialExponent (p : Polynomial) : outcome Exponent :=
  match coefficients p with
  | [] => Panic "runtime error: index out of range"
  | a :: rest =>
      let isConstant := IsZero a in
      Ret (mkExponent isConstant
             (ActOnBase <$> (if isConstant then rest else a :: rest)))
  end.

Definition hornerP (x : Scalar) (coeffs : list Point) : Point :=
  foldr (fun A result => x • result ⊕ A) 𝟎 coeffs.

Definition Exponent_Evaluate (p : Exponent) (x : Scalar) : Point :=
  let result := hornerP x (e_coefficients p) in
  if IsConstant p then x • result else result.

(** The loop of [evaluateClassic]: the running power and the running sum. *)
Definition classic_step (x : Scalar) (acc : Scalar * Point) (A : Point) : Scalar * Point :=
  (acc.1 * x, acc.2 ⊕ acc.1 • A).

Definition evaluateClassic (p : Exponent) (x : Scalar) : Point :=
  let xPower := if IsConstant p then 1 * x else 1 in
  (foldl (classic_step x) (xPower, 𝟎) (e_coefficients p)).2.

Definition Exponent_Degree (p : Exponent) : Z :=
  if IsConstant p then Z.of_nat (length (e_coefficients p))
  else (Z.of_nat (length (e_coefficients p)) - 1)%Z.

Definition add (p q : Exponent) : outcome Exponent :=
  if decide (length (e_coefficients p) <> length (e_coefficients q))
  then Fail "q is not the same length as p"
  else if decide (IsConstant p <> IsConstant q)
  then Fail "p and q differ in 'IsConstant'"
  else Ret (mkExponent (IsConstant p)
              (zip_with PAdd (e_coefficients p) (e_coefficients q))).

Fixpoint sum_loop (summed : Exponent) (rest : list Exponent) : outcome Exponent :=
  match rest with
  | [] => Ret summed
  | q :: rest => summed ← add summed q; sum_loop summed rest
  end.

(** [polynomial.Sum]; indexing an empty slice panics. *)
Definition Sum (polynomials : list Exponent) : outcome Exponent :=
  match polynomials with
  | [] => Panic "runtime error: index out of range"
  | p :: rest => sum_loop p rest
  end.

Definition Exponent_Equal (p other : Exponent) : bool :=
  bool_decide (IsConstant p = IsConstant other) &&
  bool_decide (length (e_coefficients p) = length (e_coefficients other)) &&
  forallb (fun '(a, b) => PEqual a b) (zip (e_coefficients p) (e_coefficients other)).

(** [Exponent.Constant] indexes the coefficients when the polynomial claims
    to have a constant term. *)
Definition Exponent_Constant (p : Exponent) : outcome Point :=
  if IsConstant p then Ret 𝟎
  else match e_coefficients p with
       | A :: _ => Ret A
       | [] => Panic "runtime error: index out of range"
       end.

End Exponent.

Arguments Polynomial : clear implicits.
Arguments Polynomial {C}.
Arguments Exponent : clear implicits.
Arguments Exponent {C}.

(** ** Interpolation *)

Section Interpolation.
Context {C : Curve} {CL : CurveLaws C}.
Add Field scalar_field : scalar_field_theory.

Fixpoint sumS {A} (f : A -> Scalar) (l : list A) : Scalar :=
  match l with [] => 0 | x :: l => f x + sumS f l end.

Fixpoint prodS {A} (f : A -> Scalar) (l : list A) : Scalar :=
  match l with [] => 1 | x :: l => prodS f l * f x end.

Fixpoint sumP {A} (f : A -> Point) (l : list A) : Point :=
  match l with [] => 𝟎 | x :: l => f x ⊕ sumP f l end.

Lemma sumS_ext {A} (f g : A -> Scalar) l :
  (forall x, x ∈ l -> f x = g x) -> sumS f l = sumS g l.
Proof.
  induction l as [|x l IH]; cbn; intros E; [done|].
  rewrite (E x), IH; [done | intros; apply E; by right | by left].
Qed.

Lemma sumS_perm {A} (f : A -> Scalar) l1 l2 : l1 ≡ₚ l2 -> sumS f l1 = sumS f l2.
Proof. induction 1; cbn; [done | congruence | ring | congruence]. Qed.

Lemma prodS_perm {A} (f : A -> Scalar) l1 l2 : l1 ≡ₚ l2 -> prodS f l1 = prodS f l2.
Proof. induction 1; cbn; [done | congruence | ring | congruence]. Qed.

Lemma sumS_add {A} (f g : A -> Scalar) l : sumS (fun x => f x + g x) l = sumS f l + sumS g l.
Proof. induction l as [|x l IH]; cbn; [ring|]. rewrite IH. ring. Qed.

Lemma sumS_mul {A} c (f : A -> Scalar) l : sumS (fun x => c * f x) l = c * sumS f l.
Proof. induction l as [|x l IH]; cbn; [ring|]. rewrite IH. ring. Qed.

Lemma sumP_act {A} (f : A -> Scalar) P l : sumP (fun x => f x • P) l = sumS f l • P.
Proof. induction l as [|x l IH]; cbn; [by rewrite act_0|]. by rewrite IH, act_add. Qed.

Lemma sumP_ext {A} (f g : A -> Point) l :
  (forall x, x ∈ l -> f x = g x) -> sumP f l = sumP g l.
Proof.
  induction l as [|x l IH]; cbn; intros E; [done|].
  rewrite (E x), IH; [done | intros; apply E; by right | by left].
Qed.

Lemma sumP_perm {A} (f : A -> Point) l1 l2 : l1 ≡ₚ l2 -> sumP f l1 = sumP f l2.
Proof.
  induction 1; cbn; [done | congruence | | congruence].
  rewrite !padd_assoc. f_equal. apply padd_comm.
Qed.

(** Sums over a map may be taken in any order. *)
#[export] Instance sumS_proper {A} (f : A -> Scalar) : Proper (Permutation ==> eq) (sumS f).
Proof. intros l1 l2. apply sumS_perm. Qed.

#[export] Instance sumP_proper {A} (f : A -> Point) : Proper (Permutation ==> eq) (sumP f).
Proof. intros l1 l2. apply sumP_perm. Qed.

Lemma sumP_add {A} (f g : A -> Point) l : sumP (fun x => f x ⊕ g x) l = sumP f l ⊕ sumP g l.
Proof.
  induction l as [|x l IH]; cbn; [by rewrite padd_0_l|]. rewrite IH, !padd_assoc. f_equal.
  rewrite <- !padd_assoc. f_equal. apply padd_comm.
Qed.

Lemma sumP_act_r {A} c (f : A -> Point) l : sumP (fun x => c • f x) l = c • sumP f l.
Proof.
  induction l as [|x l IH]; cbn; [by rewrite act_identity|]. by rewrite IH, act_add_r.
Qed.

(** The accumulation loops of the protocols, in the exponent. *)
Lemma foldl_add_act s l :
  foldl (fun s f : Scalar => s + f) s l • 𝐆 = s • 𝐆 ⊕ sumP (fun f => f • 𝐆) l.
Proof.
  revert s. induction l as [|f l IH]; intros s; cbn; [by rewrite padd_0_r|].
  by rewrite IH, act_add, padd_assoc.
Qed.

(** A sum over the values of a map, as a sum over its keys. *)
Lemma sumP_map {V} (m : gmap ID V) (f : V -> Point) (g : ID -> Point) ids :
  NoDup ids -> dom m = list_to_set ids -> (forall l v, m !! l = Some v -> f v = g l) ->
  sumP f (map_to_list m).*2 = sumP g ids.
Proof.
  intros ND D Hf. assert ((map_to_list m).*1 ≡ₚ ids) as <-.
  { apply NoDup_Permutation; [apply NoDup_fst_map_to_list|done|]. intros l.
    assert (l ∈ ids <-> l ∈ dom m) as -> by (rewrite D; symmetry; apply elem_of_list_to_set).
    rewrite elem_of_dom. split.
    - intros ([l' v] & -> & Hin)%list_elem_of_fmap. apply elem_of_map_to_list in Hin. eauto.
    - intros [v Hv]. apply list_elem_of_fmap. exists (l, v). split; [done|]. by apply elem_of_map_to_list. }
  assert (forall p, p ∈ map_to_list m -> f p.2 = g p.1) as Hp
    by (intros [l v] Hin%elem_of_map_to_list; by apply Hf).
  clear ND D Hf. induction (map_to_list m) as [|p l IH]; [done|]. cbn.
  rewrite (Hp p) by set_solver. f_equal. apply IH. intros q Hq. apply Hp. set_solver.
Qed.

Lemma prodS_ne_0 {A} (f : A -> Scalar) l :
  (forall x, x ∈ l -> f x <> 0) -> prodS f l <> 0.
Proof.
  induction l as [|x l IH]; cbn; intros Hf; [apply scalar_1_ne_0|].
  apply scalar_mul_ne_0; [apply IH; intros; apply Hf; by right | apply Hf; by left].
Qed.

(** The coefficient of [x] when interpolating at 0 from the points [xs]. *)
Definition den (xs : list Scalar) (x : Scalar) : Scalar :=
  prodS (fun y => if decide (y = x) then x else y - x) xs.

Definition lam (xs : list Scalar) (x : Scalar) : Scalar :=
  Zmod.inv (den xs x) * prodS id xs.

Definition interp (xs : list Scalar) (f : Scalar -> Scalar) : Scalar :=
  sumS (fun x => lam xs x * f x) xs.

Definition points_ok (xs : list Scalar) : Prop := NoDup xs /\ (0 ∉ xs).

Lemma points_ok_cons b xs : points_ok (b :: xs) -> (b ∉ xs) /\ b <> 0 /\ points_ok xs.
Proof.
  intros [D Z]. apply list.NoDup_cons in D as [Hb D]. apply not_elem_of_cons in Z as [Z1 Z2].
  split; [done|]. split; [congruence|done].
Qed.

Lemma den_ne_0 xs x : points_ok xs -> x ∈ xs -> den xs x <> 0.
Proof.
  intros [D Z] Hx. apply prodS_ne_0. intros y Hy. destruct (decide (y = x)) as [->|N].
  - intros ->. done.
  - by apply scalar_sub_ne_0.
Qed.

Lemma lam_perm xs ys x : xs ≡ₚ ys -> lam xs x = lam ys x.
Proof. intros P. unfold lam, den. by rewrite !(prodS_perm _ _ _ P). Qed.

Lemma interp_perm xs ys f : xs ≡ₚ ys -> interp xs f = interp ys f.
Proof.
  intros P. unfold interp. rewrite (sumS_perm _ _ _ P). apply sumS_ext.
  intros x _. by rewrite (lam_perm _ _ x P).
Qed.

Lemma lam_cons b xs x :
  points_ok (b :: xs) -> x ∈ xs -> lam (b :: xs) x * (x - b) = (- b) * lam xs x.
Proof.
  intros Hok Hx. pose proof (points_ok_cons _ _ Hok) as (Hb & Hb0 & Hok').
  assert (b <> x) as Nbx by (intros ->; done).
  pose proof (den_ne_0 _ _ Hok' Hx) as Nd. pose proof (scalar_sub_ne_0 _ _ Nbx) as Ns.
  unfold lam, den in *. cbn. rewrite (decide_False (P := b = x)) by done.
  unfold id. fold (@id Scalar). field. done.
Qed.

(** Interpolating a multiple of (X - b) drops the point [b]. *)
Lemma interp_shift b xs g :
  points_ok (b :: xs) -> interp (b :: xs) (fun x => (x - b) * g x) = (- b) * interp xs g.
Proof.
  intros Hok. unfold interp. cbn [sumS].
  rewrite <- sumS_mul. rewrite (sumS_ext _ (fun x => (- b) * (lam xs x * g x))).
  - ring.
  - intros x Hx. transitivity (lam (b :: xs) x * (x - b) * g x); [ring|].
    rewrite lam_cons by done. ring.
Qed.

Lemma interp_linear xs c f d g :
  interp xs (fun x => c * f x + d * g x) = c * interp xs f + d * interp xs g.
Proof.
  unfold interp. rewrite <- !sumS_mul, <- sumS_add. apply sumS_ext. intros. ring.
Qed.

(** The coefficients of a non-empty set of points sum to one. *)
Lemma interp_one n : forall xs, length xs = n -> xs <> [] -> points_ok xs ->
  interp xs (fun _ => 1) = 1.
Proof.
  induction n as [|n IH]; intros [|a [|b xs]] Hl Hne Hok; try done.
  - destruct (points_ok_cons _ _ Hok) as (_ & Ha & _).
    unfold interp, lam, den. cbn. rewrite decide_True by done. unfold id. by field.
  - assert (points_ok (b :: a :: xs)) as Hok'.
    { destruct Hok as [D Z]. split; [by rewrite Permutation_swap|].
      rewrite !not_elem_of_cons in Z |- *. tauto. }
    destruct (points_ok_cons _ _ Hok) as (Hab & _ & Hokb).
    destruct (points_ok_cons _ _ Hok') as (_ & _ & Hoka).
    assert (b <> a) as Nba by (intros ->; apply Hab; by left).
    pose proof (scalar_sub_ne_0 _ _ Nba) as Ns.
    transitivity (interp (a :: b :: xs)
      (fun x => Zmod.inv (b - a) * ((x - a) * 1) + (- Zmod.inv (b - a)) * ((x - b) * 1))).
    { unfold interp. apply sumS_ext. intros x _. f_equal. by field. }
    rewrite (interp_linear _ _ (fun x => (x - a) * 1) _ (fun x => (x - b) * 1)).
    rewrite (interp_shift a) by done.
    rewrite (interp_perm (a :: b :: xs) (b :: a :: xs)) by apply Permutation_swap.
    rewrite (interp_shift b) by done.
    rewrite !IH by (done || cbn in *; lia). by field.
Qed.

(** Synthetic division of a polynomial by (X - b). *)
Fixpoint quot (b : Scalar) (l : list Scalar) : list Scalar :=
  match l with
  | [] => []
  | _ :: l' => match l' with [] => [] | _ => horner b l' :: quot b l' end
  end.

Lemma quot_length b l : length (quot b l) = (length l - 1)%nat.
Proof.
  induction l as [|a [|a' l] IH]; [done|done|].
  change (quot b (a :: a' :: l)) with (horner b (a' :: l) :: quot b (a' :: l)).
  cbn [length] in *. lia.
Qed.

Lemma horner_quot b x l : horner x l = horner b l + (x - b) * horner x (quot b l).
Proof.
  induction l as [|a [|a' l] IH]; [cbn; ring | cbn; ring |].
  change (quot b (a :: a' :: l)) with (horner b (a' :: l) :: quot b (a' :: l)).
  change (horner x (a :: a' :: l)) with (horner x (a' :: l) * x + a).
  change (horner b (a :: a' :: l)) with (horner b (a' :: l) * b + a).
  change (horner x (horner b (a' :: l) :: quot b (a' :: l)))
    with (horner x (quot b (a' :: l)) * x + horner b (a' :: l)).
  rewrite IH. ring.
Qed.

(** Interpolation at 0 recovers the constant term of every polynomial with
    at most as many coefficients as there are points. *)
Lemma interp_horner xs : forall l, points_ok xs -> (length l <= length xs)%nat ->
  interp xs (fun x => horner x l) = horner 0 l.
Proof.
  induction xs as [|b xs IH]; intros l Hok Hl.
  - destruct l; [done | cbn in Hl; lia].
  - transitivity (interp (b :: xs)
      (fun x => horner b l * 1 + 1 * ((x - b) * horner x (quot b l)))).
    { unfold interp. apply sumS_ext. intros x _. f_equal. rewrite (horner_quot b x l). ring. }
    rewrite (interp_linear _ _ (fun _ => 1) _ (fun x => (x - b) * horner x (quot b l))).
    rewrite (interp_one (length (b :: xs))), interp_shift by done.
    destruct (points_ok_cons _ _ Hok) as (_ & _ & Hok').
    rewrite (IH (quot b l)) by (done || rewrite quot_length; cbn in *; lia).
    rewrite (horner_quot b 0 l). ring.
Qed.

(** ** Lagrange coefficients interpolate *)

Definition getS (m : gmap ID Scalar) (id : ID) : Scalar := default 0 (m !! id).
Definition getP (m : gmap ID Point) (id : ID) : Point := default 𝟎 (m !! id).

(** The parties have distinct, non-zero interpolation points. *)
Definition ids_ok (ids : list ID) : Prop := points_ok (ID_Scalar <$> ids).

#[export] Instance ids_ok_dec ids : Decision (ids_ok ids).
Proof. unfold ids_ok, points_ok. apply _. Defined.

Lemma ids_ok_NoDup ids : ids_ok ids -> NoDup ids.
Proof. intros [D _]. by eapply NoDup_fmap_1. Qed.

Lemma ids_ok_inj ids i j :
  ids_ok ids -> i ∈ ids -> j ∈ ids -> ID_Scalar i = ID_Scalar j -> i = j.
Proof.
  intros [D _]. induction ids as [|k ids IH]; [by intros ?%not_elem_of_nil|].
  rewrite fmap_cons in D. apply list.NoDup_cons in D as [Hk D].
  rewrite !elem_of_cons. intros [->|Hi] [->|Hj] E; [done | | | by apply IH].
  - destruct Hk. rewrite E. by apply list_elem_of_fmap_2.
  - destruct Hk. rewrite <- E. by apply list_elem_of_fmap_2.
Qed.

Lemma ids_ok_nonzero ids i : ids_ok ids -> i ∈ ids -> ID_Scalar i <> 0.
Proof. intros [_ Z] Hi E. apply Z. rewrite <- E. by apply list_elem_of_fmap_2. Qed.

Lemma ids_ok_perm ids ids' : ids ≡ₚ ids' -> ids_ok ids -> ids_ok ids'.
Proof.
  intros P [D Z]. split; [by rewrite <- P | by rewrite <- P].
Qed.

Lemma prodS_fmap {A B} (f : B -> Scalar) (g : A -> B) l :
  prodS f (g <$> l) = prodS (fun x => f (g x)) l.
Proof. induction l as [|x l IH]; cbn; [done|]. by rewrite <- IH. Qed.

Lemma sumS_fmap {A B} (f : B -> Scalar) (g : A -> B) l :
  sumS f (g <$> l) = sumS (fun x => f (g x)) l.
Proof. induction l as [|x l IH]; cbn; [done|]. by rewrite <- IH. Qed.

Lemma prodS_ext {A} (f g : A -> Scalar) l :
  (forall x, x ∈ l -> f x = g x) -> prodS f l = prodS g l.
Proof.
  induction l as [|x l IH]; cbn; intros E; [done|].
  rewrite (E x), IH; [done | intros; apply E; by right | by left].
Qed.

Lemma gsn_acc ids (m : gmap ID Scalar) n :
  foldl (fun acc id => let xi := ID_Scalar id in (<[id := xi]> acc.1, acc.2 * xi)) (m, n) ids
  = ((list_to_map ((fun id => (id, ID_Scalar id)) <$> ids) : gmap ID Scalar) ∪ m, n * prodS ID_Scalar ids).
Proof.
  revert m n. induction ids as [|id ids IH]; intros m n; cbn.
  - f_equal; [by rewrite map_empty_union | ring].
  - rewrite IH. f_equal; [|ring]. apply map_eq. intros k.
    rewrite !lookup_union, !lookup_insert.
    destruct (decide (id = k)) as [->|]; [|done].
    destruct (list_to_map _ !! k) as [v|] eqn:E; [|by destruct (m !! k)].
    apply elem_of_list_to_map_2, list_elem_of_fmap_1 in E as (? & [= -> ->] & _).
    by destruct (m !! _).
Qed.

Lemma getScalarsAndNumerator_spec ids :
  getScalarsAndNumerator ids
  = (list_to_map ((fun id => (id, ID_Scalar id)) <$> ids), prodS ID_Scalar ids).
Proof.
  unfold getScalarsAndNumerator. rewrite gsn_acc. f_equal; [by rewrite map_union_empty | ring].
Qed.

Lemma lagrange_spec ids j :
  ids_ok ids -> j ∈ ids ->
  lagrange (list_to_map ((fun id => (id, ID_Scalar id)) <$> ids)) (prodS ID_Scalar ids) j
  = Ret (lam (ID_Scalar <$> ids) (ID_Scalar j)).
Proof.
  intros Hok Hj. unfold lagrange.
  assert (((fun id => (id, ID_Scalar id)) <$> ids).*1 = ids) as Ek.
  { rewrite <- list_fmap_compose. apply list_fmap_id. }
  assert (NoDup ((fun id => (id, ID_Scalar id)) <$> ids).*1) as Dk.
  { rewrite Ek. by apply ids_ok_NoDup. }
  rewrite (elem_of_list_to_map_1 _ j (ID_Scalar j)); [|done|].
  2: { apply list_elem_of_fmap. by exists j. }
  f_equal. unfold lam, Invert, den. rewrite !prodS_fmap. f_equal. f_equal.
  rewrite map_fold_foldr.
  rewrite (foldr_perm _ _ _ ((fun id => (id, ID_Scalar id)) <$> ids));
    [|intros [] [] ?; cbn; ring | by apply map_to_list_to_map].
  transitivity (prodS (fun i => lagrange_factor j (ID_Scalar j) i (ID_Scalar i)) ids).
  - clear. induction ids as [|i ids IH]; cbn; [done|]. by rewrite <- IH.
  - apply prodS_ext. intros i Hi. unfold lagrange_factor.
    destruct (decide (i = j)) as [->|N]; [by rewrite decide_True|].
    rewrite decide_False; [ring|]. intros E. apply N. by eapply ids_ok_inj.
Qed.

Lemma lagrange_loop_spec ids subset acc :
  ids_ok ids -> (forall j, j ∈ subset -> j ∈ ids) ->
  exists m, lagrange_loop (list_to_map ((fun id => (id, ID_Scalar id)) <$> ids))
              (prodS ID_Scalar ids) subset acc = Ret m /\
    (forall j, m !! j = if decide (j ∈ subset)
                        then Some (lam (ID_Scalar <$> ids) (ID_Scalar j)) else acc !! j).
Proof.
  intros Hok. revert acc. induction subset as [|j subset IH]; intros acc Hs.
  - exists acc. split; [done|]. intros j. by rewrite decide_False by apply not_elem_of_nil.
  - cbn [lagrange_loop]. rewrite lagrange_spec by (done || apply Hs; by left). cbn.
    destruct (IH (<[j:=lam (ID_Scalar <$> ids) (ID_Scalar j)]> acc)) as (m & E & Hm).
    { intros k Hk. apply Hs. by right. }
    exists m. split; [done|]. intros k. rewrite Hm.
    destruct (decide (k ∈ subset)) as [Hk|Hk].
    + by rewrite decide_True by by right.
    + destruct (decide (k = j)) as [->|N].
      * rewrite lookup_insert_eq. by rewrite decide_True by by left.
      * rewrite lookup_insert_ne by done. rewrite decide_False; [done|].
        by rewrite elem_of_cons; intros [].
Qed.

(** [Lagrange] succeeds on such parties and returns their coefficients. *)
Lemma Lagrange_spec ids :
  ids_ok ids ->
  exists m, Lagrange ids = Ret m /\
    (forall j, m !! j = if decide (j ∈ ids)
                        then Some (lam (ID_Scalar <$> ids) (ID_Scalar j)) else None).
Proof.
  intros Hok. unfold Lagrange, LagrangeFor. rewrite getScalarsAndNumerator_spec.
  by apply lagrange_loop_spec.
Qed.

Lemma Lagrange_getS ids m j :
  ids_ok ids -> Lagrange ids = Ret m -> j ∈ ids ->
  getS m j = lam (ID_Scalar <$> ids) (ID_Scalar j).
Proof.
  intros Hok E Hj. destruct (Lagrange_spec ids Hok) as (m' & E' & Hm).
  rewrite E in E'. injection E' as <-. unfold getS. by rewrite Hm, decide_True.
Qed.

Lemma Lagrange_horner ids m l :
  ids_ok ids -> Lagrange ids = Ret m -> (length l <= length ids)%nat ->
  sumS (fun id => getS m id * horner (ID_Scalar id) l) ids = horner 0 l.
Proof.
  intros Hok E Hl. rewrite <- (interp_horner (ID_Scalar <$> ids) l); [|done|].
  - unfold interp. rewrite sumS_fmap. apply sumS_ext. intros j Hj.
    by rewrite (Lagrange_getS ids m).
  - by rewrite length_fmap.
Qed.

(** ** Polynomials in the exponent *)

Lemma hornerP_base x l : hornerP x (ActOnBase <$> l) = horner x l • 𝐆.
Proof.
  induction l as [|a l IH]; cbn; [by rewrite act_0|].
  unfold hornerP, horner in IH. unfold ActOnBase in *. rewrite IH.
  rewrite act_add. f_equal. rewrite <- act_mul. f_equal. ring.
Qed.

Lemma points_base (L : list Point) : exists l, L = ActOnBase <$> l.
Proof.
  induction L as [|P L [l ->]]; [by exists []|].
  destruct (base_generates P) as [a ->]. by exists (a :: l).
Qed.

Lemma Lagrange_hornerP ids m L :
  ids_ok ids -> Lagrange ids = Ret m -> (length L <= length ids)%nat ->
  sumP (fun id => getS m id • hornerP (ID_Scalar id) L) ids = hornerP 0 L.
Proof.
  intros Hok E. destruct (points_base L) as [l ->]. rewrite length_fmap. intros Hl.
  rewrite hornerP_base, <- (Lagrange_horner ids m l) by done. rewrite <- sumP_act.
  apply sumP_ext. intros id _. by rewrite hornerP_base, act_mul.
Qed.

(** All coefficients, the omitted constant included. *)
Definition full (e : Exponent) : list Point :=
  if IsConstant e then 𝟎 :: e_coefficients e else e_coefficients e.

Lemma Exponent_Evaluate_full e x : Exponent_Evaluate e x = hornerP x (full e).
Proof.
  unfold Exponent_Evaluate, full. destruct (IsConstant e); [|done]. cbn.
  by rewrite padd_0_r.
Qed.

Lemma hornerP_zero x n : hornerP x (replicate n 𝟎) = 𝟎.
Proof. induction n as [|n IH]; cbn; [done|]. unfold hornerP in IH. rewrite IH. by rewrite act_identity, padd_0_r. Qed.

Lemma hornerP_single x A : hornerP x [A] = A.
Proof. cbn. by rewrite act_identity, padd_0_l. Qed.

Lemma hornerP_0_cons A L : hornerP 0 (A :: L) = A.
Proof. cbn. by rewrite act_0, padd_0_l. Qed.

Lemma Exponent_Constant_full e A : Exponent_Constant e = Ret A -> hornerP 0 (full e) = A.
Proof.
  unfold Exponent_Constant, full. destruct (IsConstant e).
  - intros [= <-]. apply hornerP_0_cons.
  - destruct (e_coefficients e) as [|B L]; [done|]. intros [= <-]. apply hornerP_0_cons.
Qed.

Lemma NewPolynomialExponent_full p e :
  NewPolynomialExponent p = Ret e -> full e = ActOnBase <$> coefficients p.
Proof.
  unfold NewPolynomialExponent. destruct (coefficients p) as [|a l]; [done|].
  intros [= <-]. unfold full. cbn. unfold IsZero.
  destruct (bool_decide_reflect (a = 0)) as [->|]; [|done].
  f_equal. unfold ActOnBase. by rewrite act_0.
Qed.

Lemma Exponent_Evaluate_base p e x :
  NewPolynomialExponent p = Ret e ->
  Exponent_Evaluate e x = horner x (coefficients p) • 𝐆.
Proof.
  intros E. by rewrite Exponent_Evaluate_full, (NewPolynomialExponent_full p e E), hornerP_base.
Qed.

Lemma classic_loop x l pw acc :
  (foldl (classic_step x) (pw, acc) l).2 = acc ⊕ pw • hornerP x l.
Proof.
  revert pw acc. induction l as [|A l IH]; intros pw acc; cbn [foldl].
  - cbn. by rewrite act_identity, padd_0_r.
  - unfold classic_step at 2. cbn [fst snd]. rewrite IH.
    change (hornerP x (A :: l)) with (x • hornerP x l ⊕ A).
    rewrite act_add_r, <- act_mul, <- padd_assoc. f_equal. apply padd_comm.
Qed.

Lemma evaluateClassic_spec e x : evaluateClassic e x = Exponent_Evaluate e x.
Proof.
  unfold evaluateClassic, Exponent_Evaluate. rewrite classic_loop, padd_0_l.
  destruct (IsConstant e); [|by rewrite act_1]. by replace (1 * x) with x by ring.
Qed.

(** *** Sums *)

Definition same_shape (p q : Exponent) : Prop :=
  length (e_coefficients p) = length (e_coefficients q) /\ IsConstant p = IsConstant q.

Lemma add_ret p q r :
  add p q = Ret r ->
  same_shape p q /\ same_shape p r /\
  (forall x, Exponent_Evaluate r x = Exponent_Evaluate p x ⊕ Exponent_Evaluate q x).
Proof.
  unfold add. destruct (decide _) as [|El]; [done|]. destruct (decide _) as [|Ec]; [done|].
  apply dec_stable in El, Ec. intros [= <-]. split; [done|]. split.
  { split; cbn; [rewrite length_zip_with; lia | done]. }
  intros x. rewrite !Exponent_Evaluate_full. unfold full. cbn. rewrite <- Ec.
  assert (hornerP x (zip_with PAdd (e_coefficients p) (e_coefficients q))
          = hornerP x (e_coefficients p) ⊕ hornerP x (e_coefficients q)) as Eh.
  { clear Ec. revert El. generalize (e_coefficients p) (e_coefficients q). clear p q.
    induction l as [|A l IH]; intros [|B l0] Hl; try done; cbn.
    - by rewrite padd_0_l.
    - injection Hl as Hl. change (foldr _ _ ?l) with (hornerP x l). rewrite IH by done.
      rewrite act_add_r, <- !padd_assoc. f_equal. rewrite !padd_assoc. f_equal.
      apply padd_comm. }
  destruct (IsConstant p); cbn; [|done]. unfold hornerP in Eh |- *. rewrite Eh.
  by rewrite act_add_r, !padd_0_r.
Qed.

Lemma add_same_shape p q : same_shape p q -> exists r, add p q = Ret r.
Proof.
  intros [El Ec]. unfold add. rewrite decide_False by (intros N; apply N, El).
  rewrite decide_False by (intros N; apply N, Ec). eauto.
Qed.

Lemma sum_loop_ret s es r :
  sum_loop s es = Ret r ->
  Forall (same_shape s) es /\ same_shape s r /\
  (forall x, Exponent_Evaluate r x
             = Exponent_Evaluate s x ⊕ sumP (fun e => Exponent_Evaluate e x) es).
Proof.
  revert s. induction es as [|e es IH]; intros s; cbn [sum_loop].
  - intros [= <-]. split; [constructor|]. split; [done|]. intros x. cbn. by rewrite padd_0_r.
  - intros (s' & (Hs & Hs' & Ev)%add_ret & (F & Hr & Er)%IH)%bind_ret_inv.
    unfold same_shape in *. split; [constructor; [done|]|].
    + eapply Forall_impl; [|exact F]. cbn. intuition congruence.
    + split; [intuition congruence|]. intros x. cbn. by rewrite Er, Ev, padd_assoc.
Qed.

Lemma sum_loop_same_shape s es :
  Forall (same_shape s) es -> exists r, sum_loop s es = Ret r.
Proof.
  revert s. induction es as [|e es IH]; intros s F; cbn; [eauto|].
  inversion F as [|? ? Fe Fes]; subst. destruct (add_same_shape s e Fe) as [s' Es].
  rewrite Es. cbn. apply IH. apply add_ret in Es as (_ & Hs & _).
  eapply Forall_impl; [|exact Fes]. unfold same_shape in *. cbn. intuition congruence.
Qed.

Lemma Sum_ret es r :
  Sum es = Ret r ->
  forall x, Exponent_Evaluate r x = sumP (fun e => Exponent_Evaluate e x) es.
Proof.
  destruct es as [|e es]; cbn; [done|]. intros (_ & _ & Ev)%sum_loop_ret x. apply Ev.
Qed.

Lemma Sum_shape es r e : Sum es = Ret r -> e ∈ es -> same_shape e r.
Proof.
  destruct es as [|e0 es]; cbn; [done|]. intros (F & S & _)%sum_loop_ret.
  rewrite elem_of_cons. intros [->|Hin]; [done|].
  rewrite list.Forall_forall in F. specialize (F e Hin). unfold same_shape in *.
  intuition congruence.
Qed.

Lemma Sum_ok es e0 :
  es <> [] -> (forall e, e ∈ es -> same_shape e0 e) -> exists r, Sum es = Ret r.
Proof.
  destruct es as [|e es]; [done|]. intros _ Hs. cbn. apply sum_loop_same_shape.
  rewrite list.Forall_forall. intros e' He'.
  pose proof (Hs e ltac:(by left)). pose proof (Hs e' ltac:(by right)).
  unfold same_shape in *. intuition congruence.
Qed.

End Interpolation.
