(* ===== verification/Round.v ===== *)
(** * internal/types and internal/round: sessions, rounds and their messages

    [Helper] carries the session data that every round embeds; [NewSession]
    validates the configuration and absorbs it into the session hash.  A
    [Session] is a running round, the output round or the abort round. *)

From Stdlib Require Import ZArith Lia.
From Stdlib Require Import Strings.Byte.
From stdpp Require Import base gmap strings list pretty numbers.
From S2P Require Import Prelude Hash Curve Party.

Local Open Scope Z_scope.

(** ** internal/types *)

Definition EmptyRID : bytes := replicate SecBytes x00.

Definition NewRID (rand : reader) : outcome (bytes * reader) :=
  match ReadFull rand SecBytes with
  | (Some rid, rand) => Ret (rid, rand)
  | (None, _) => Fail ErrUnexpectedEOF
  end.

(** [rid.XOR(other)] reads [SecBytes] positions of both slices. *)
Definition RID_XOR (rid other : bytes) : outcome bytes :=
  if decide (length rid < SecBytes \/ length other < SecBytes)%nat
  then Panic "runtime error: index out of range"
  else Ret (zip_with byte_xor (take SecBytes rid) (take SecBytes other) ++ drop SecBytes rid).

Definition RID_any (rid : option bytes) : any :=
  AWriterTo "types.RID" "RID"
    (match rid with Some x => Ret x | None => Fail ErrUnexpectedEOF end).

Definition RID_Validate (rid : bytes) : outcome unit := validate_bytes "rid" "rid" SecBytes rid.

(** [rid.Copy()]: a fresh 32-byte slice filled from the front. *)
Definition RID_Copy (rid : bytes) : bytes :=
  take SecBytes rid ++ replicate (SecBytes - length rid) x00.

(** [ThresholdWrapper(t)]: the conversion to uint32 keeps the low 32 bits. *)
Definition ThresholdWrapper_any (t : Z) : any :=
  AWriterTo "types.ThresholdWrapper" "Threshold" (Ret (be_of_Z 4 (t mod 2 ^ 32))).

(** ** internal/round: messages *)

(** [type Number uint16] *)
Abbreviation Number := Z.

Definition Number_any (i : Number) : any :=
  AWriterTo "round.Number" "Round Number" (Ret (be_of_Z 8 i)).

(** [r.Number()-1] on a uint16. *)
Definition pred16 (n : Number) : Number := (n - 1) mod 2 ^ 16.

Definition ErrNilFields : string := "message contained empty fields".
Definition ErrInvalidContent : string := "content is not the right type".
Definition ErrOutChanFull : string := "content is not the right type".

Record round_Message (Content : Type) := mkRoundMessage {
  rm_From : ID;
  rm_To : ID;
  rm_Broadcast : bool;
  rm_Content : Content
}.
Arguments mkRoundMessage {Content}.
Arguments rm_From {Content}.
Arguments rm_To {Content}.
Arguments rm_Broadcast {Content}.
Arguments rm_Content {Content}.

(** A buffered channel: its capacity and the queued values. *)
Record chan (A : Type) := mkChan { ch_cap : nat; ch_buf : list A }.
Arguments mkChan {A}.
Arguments ch_cap {A}.
Arguments ch_buf {A}.

(** [select { case out <- msg: ...; default: ... }] *)
Definition try_send {A} (c : chan A) (a : A) : option (chan A) :=
  if decide (length (ch_buf c) < ch_cap c)%nat
  then Some (mkChan (ch_cap c) (ch_buf c ++ [a])) else None.

(** ** internal/round: sessions *)

Record Info := mkInfo {
  ProtocolID : string;
  FinalRoundNumber : Number;
  SelfID : ID;
  i_PartyIDs : list ID;
  Threshold : Z;
  (** the name of the group, when there is one *)
  GroupName : option string
}.

Record Helper := mkHelper {
  info : Info;
  partyIDs : IDSlice;
  otherPartyIDs : IDSlice;
  ssid : bytes;
  hash : Hash
}.

Definition N (h : Helper) : nat := length (i_PartyIDs (info h)).

Definition session_write (h : Hash) (a : any) : outcome Hash :=
  match WriteAny h [a] with
  | (h', Ret _) => Ret h'
  | (_, Fail e) => Fail ("session: " +:+ e)
  | (_, Panic p) => Panic p
  end.

(** The items of [auxInfo]; a nil one is skipped. *)
Fixpoint session_write_aux (h : Hash) (aux : list (option any)) : outcome Hash :=
  match aux with
  | [] => Ret h
  | None :: aux => session_write_aux h aux
  | Some a :: aux => h ← session_write h a; session_write_aux h aux
  end.

Definition NewSession `{Blake3} (info : Info) (sessionID : option bytes)
    (auxInfo : list (option any)) : outcome Helper :=
  let partyIDs := NewIDSlice (i_PartyIDs info) in
  _ ← guard_or (Valid partyIDs) "session: partyIDs invalid";
  _ ← guard_or (Contains partyIDs [SelfID info]) "session: selfID not included in partyIDs";
  _ ← guard_or (negb (bool_decide (Threshold info < 0 \/ 2 ^ 32 - 1 < Threshold info)))
        ("session: threshold " +:+ pretty (Threshold info) +:+ " is invalid");
  let n := Z.of_nat (length partyIDs) in
  _ ← guard_or (negb (bool_decide (n <= 0 \/ n - 1 < Threshold info)))
        ("session: threshold " +:+ pretty (Threshold info)
         +:+ " is invalid for number of parties " +:+ pretty n);
  h ← match sessionID with
      | Some sid => session_write (New []) (BytesWithDomain "Session ID" (Some sid))
      | None => Ret (New [])
      end;
  h ← session_write h (BytesWithDomain "Protocol ID" (Some (bytes_of_string (ProtocolID info))));
  h ← match GroupName info with
      | Some name => session_write h (BytesWithDomain "Group Name" (Some (bytes_of_string name)))
      | None => Ret h
      end;
  h ← session_write h (IDSlice_any partyIDs);
  h ← session_write h (ThresholdWrapper_any (Threshold info));
  h ← session_write_aux h auxInfo;
  Ret (mkHelper info partyIDs (Remove partyIDs (SelfID info)) (Sum (Clone h)) h).

(** [HashForID]: a clone of the session hash, extended with a non-empty id. *)
Definition HashForID (h : Helper) (id : ID) : Hash :=
  let cloned := Clone (hash h) in
  if decide (id <> "") then WriteAny_ cloned [ID_any id] else cloned.

Definition UpdateHashState (h : Helper) (value : any) : Helper :=
  mkHelper (info h) (partyIDs h) (otherPartyIDs h) (ssid h) (WriteAny_ (hash h) [value]).

Definition BroadcastMessage {Content} (h : Helper) (out : chan (round_Message Content))
    (content : Content) : outcome (chan (round_Message Content)) :=
  match try_send out (mkRoundMessage (SelfID (info h)) "" true content) with
  | Some out => Ret out
  | None => Fail ErrOutChanFull
  end.

Definition SendMessage {Content} (h : Helper) (out : chan (round_Message Content))
    (content : Content) (to : ID) : outcome (chan (round_Message Content)) :=
  match try_send out (mkRoundMessage (SelfID (info h)) to false content) with
  | Some out => Ret out
  | None => Fail ErrOutChanFull
  end.

(** A session: a round of the protocol, [Output] or [Abort]. *)
Inductive Session (Round Result : Type) :=
| Running (r : Round)
| Output (h : Helper) (result : Result)
| Abort (h : Helper) (err : string) (culprits : list ID).
Arguments Running {Round Result}.
Arguments Output {Round Result}.
Arguments Abort {Round Result}.

(** ** Properties of sessions *)

Section Sessions.
Context `{Blake3}.

Lemma session_write_ret h a h' : session_write h a = Ret h' ->
  exists it, to_be_written a = Ret it /\ h' = h ++ encode_item it.
Proof.
  unfold session_write. cbn. destruct (to_be_written a) as [it|e|p]; [|done|done].
  intros [= <-]. by exists it.
Qed.

(** What a successfully created session guarantees about its parties. *)
Record session_ok (h : Helper) : Prop := {
  so_ids : partyIDs h = NewIDSlice (i_PartyIDs (info h));
  so_valid : Valid (partyIDs h) = true;
  so_self : SelfID (info h) ∈ partyIDs h;
  so_others : otherPartyIDs h = Remove (partyIDs h) (SelfID (info h));
  so_threshold : 0 <= Threshold (info h) < Z.of_nat (length (partyIDs h));
  so_threshold32 : Threshold (info h) < 2 ^ 32;
  so_ssid : ssid h = Sum (hash h)
}.

Lemma NewSession_ok i sid aux h : NewSession i sid aux = Ret h -> session_ok h /\ info h = i.
Proof.
  unfold NewSession. intros E. outcome_inv. subst h.
  rewrite negb_true_iff, bool_decide_eq_false in Hb1, Hb2.
  split; [|done]. constructor; cbn; try done.
  - apply Contains_spec in Hb0; [|by apply Valid_le]. by inversion Hb0.
  - lia.
  - lia.
Qed.

(** What a session absorbs, besides its auxiliary data. *)
Definition session_items (i : Info) (sid : option bytes) : list (string * bytes) :=
  (match sid with Some b => [("Session ID", b)] | None => [] end)
  ++ [("Protocol ID", bytes_of_string (ProtocolID i))]
  ++ (match GroupName i with Some g => [("Group Name", bytes_of_string g)] | None => [] end)
  ++ [("IDSlice", be_of_Z 8 (Z.of_nat (length (i_PartyIDs i)))
                  ++ concat (bytes_of_string <$> NewIDSlice (i_PartyIDs i)));
      ("Threshold", be_of_Z 4 (Threshold i mod 2 ^ 32))].

Lemma NewSession_ret i sid :
  NoDup (i_PartyIDs i) -> SelfID i ∈ i_PartyIDs i ->
  0 <= Threshold i < Z.of_nat (length (i_PartyIDs i)) -> Threshold i < 2 ^ 32 ->
  exists h, NewSession i sid [] = Ret h /\ partyIDs h = NewIDSlice (i_PartyIDs i) /\
    hash h = New [] ++ concat (encode_item <$> session_items i sid).
Proof.
  intros ND Hs Ht H32. unfold NewSession.
  assert (Valid (NewIDSlice (i_PartyIDs i)) = true) as -> by by apply NewIDSlice_Valid.
  assert (Contains (NewIDSlice (i_PartyIDs i)) [SelfID i] = true) as ->.
  { apply Contains_spec; [apply NewIDSlice_sorted|]. rewrite list.Forall_singleton.
    by rewrite (NewIDSlice_perm (i_PartyIDs i)). }
  assert (length (NewIDSlice (i_PartyIDs i)) = length (i_PartyIDs i)) as El by by rewrite NewIDSlice_perm.
  rewrite El. rewrite (bool_decide_false (Threshold i < 0 \/ _)) by lia.
  rewrite (bool_decide_false (Z.of_nat _ <= 0 \/ _)) by lia.
  cbn [guard_or negb mbind outcome_bind].
  assert (forall h dom b, session_write h (BytesWithDomain dom (Some b)) = Ret (h ++ encode_item (dom, b))) as W
    by done.
  unfold session_items. destruct sid as [sid|], (GroupName i) as [g|];
    cbn [mbind outcome_bind]; rewrite !W; cbn [mbind outcome_bind]; rewrite ?W;
    (eexists; split; [reflexivity|]; split; [reflexivity|]);
    cbn [hash app]; rewrite !fmap_cons, <- ?El; cbn [concat fmap list_fmap]; by rewrite ?app_nil_r, <- ?app_assoc.
Qed.

Lemma session_ok_NoDup h : session_ok h -> NoDup (partyIDs h).
Proof. intros S. apply Valid_NoDup, S. Qed.

Lemma session_ok_split h :
  session_ok h -> partyIDs h ≡ₚ SelfID (info h) :: otherPartyIDs h.
Proof.
  intros S. rewrite (so_others h S). apply Remove_perm; [by apply session_ok_NoDup | apply S].
Qed.

Lemma session_ok_N h : session_ok h -> length (partyIDs h) = N h.
Proof. intros S. rewrite (so_ids h S). unfold N. by rewrite NewIDSlice_perm. Qed.

Lemma session_ok_others h :
  session_ok h -> length (otherPartyIDs h) = (N h - 1)%nat.
Proof.
  intros S. rewrite <- (session_ok_N h S), (session_ok_split h S). cbn. lia.
Qed.

End Sessions.
