(* ===== verification/Schnorr.v ===== *)
(** * pkg/zk/sch: Schnorr proofs of knowledge

    Non-interactive proofs of knowledge of a discrete logarithm, with the
    Fiat-Shamir challenge read from the digest of the session hash.  A nil
    generator stands for the base point; nil proofs and responses are
    [None]. *)

From Stdlib Require Import ZArith Lia Zmod Field.
From stdpp Require Import base gmap strings list pretty numbers.
From S2P Require Import Prelude Hash Curve Sample.

Local Open Scope curve_scope.

Section Sch.
Context {C : Curve} `{Blake3}.

Record Randomness := mkRandomness { rnd_a : Scalar; rnd_commitment : Point }.

Record Proof := mkProof { prf_C : Point; prf_Z : Scalar }.

Definition gen_or_base (gen : option Point) : Point := default 𝐆 gen.

Definition NewRandomness (rand : reader) (gen : option Point) : outcome (Randomness * reader) :=
  '(a, rand) ← sample_Scalar rand;
  Ret (mkRandomness a (a • gen_or_base gen), rand).

(** [challenge] writes to the hash it is given, then reads its digest. *)
Definition challenge (h : Hash) (commitment public gen : Point) : outcome Scalar :=
  match WriteAny h [Point_any commitment; Point_any public; Point_any gen] with
  | (h', err) => '(e, _) ← sample_Scalar (Digest h'); _ ← err; Ret e
  end.

(** [Randomness.Prove]: nil for a trivial statement. *)
Definition Prove (r : Randomness) (h : Hash) (public : Point) (secret : Scalar)
    (gen : option Point) : outcome (option Scalar) :=
  let gen := gen_or_base gen in
  if IsIdentity public || IsZero secret then Ret None
  else match challenge h (rnd_commitment r) public gen with
       | Ret e => Ret (Some (e * secret + rnd_a r))
       | Fail _ => Ret None
       | Panic p => Panic p
       end.

(** [NewProof] dereferences the response. *)
Definition NewProof (h : Hash) (public : Point) (private : Scalar) (gen : option Point)
    (rand : reader) : outcome (Proof * reader) :=
  '(a, rand) ← NewRandomness rand gen;
  z ← Prove a h public private gen;
  z ← deref z;
  Ret (mkProof (rnd_commitment a) z, rand).

Definition Commitment_IsValid (c : Point) : bool := negb (IsIdentity c).
Definition Response_IsValid (z : Scalar) : bool := negb (IsZero z).

Definition Proof_IsValid (p : option Proof) : bool :=
  match p with
  | None => false
  | Some p => Response_IsValid (prf_Z p) && Commitment_IsValid (prf_C p)
  end.

(** [Response.Verify]: z•gen = C + H(…, C, public)•public. *)
Definition Response_Verify (z : option Scalar) (h : Hash) (public commitment : Point)
    (gen : option Point) : outcome bool :=
  let gen := gen_or_base gen in
  match z with
  | None => Ret false
  | Some z =>
      if negb (Response_IsValid z) || IsIdentity public then Ret false
      else match challenge h commitment public gen with
           | Ret e =>
               let lhs := z • gen in
               let rhs := e • public ⊕ commitment in
               Ret (PEqual lhs rhs)
           | Fail _ => Ret false
           | Panic p => Panic p
           end
  end.

Definition Proof_Verify (p : option Proof) (h : Hash) (public : Point) (gen : option Point) :
    outcome bool :=
  if negb (Proof_IsValid p) then Ret false
  else match p with
       | None => Ret false
       | Some p => Response_Verify (Some (prf_Z p)) h public (prf_C p) gen
       end.

End Sch.

(** ** Properties *)

Section SchProperties.
Context {C : Curve} {CL : CurveLaws C} `{Blake3}.
Add Field scalar_field : scalar_field_theory.

(** The challenge is total: hashing points cannot fail. *)
Lemma challenge_total h c p g : exists e, challenge h c p g = Ret e.
Proof.
  unfold challenge. destruct (WriteAny _ _) as [h' err] eqn:E.
  assert (err = Ret tt) as -> by (cbn in E; congruence).
  destruct (sample_Scalar_digest h') as (e & r & ->). cbn. eauto.
Qed.

Lemma Response_Verify_spec z h public commitment gen e :
  challenge h commitment public (gen_or_base gen) = Ret e ->
  Response_Verify (Some z) h public commitment gen = Ret true <->
  z <> 0 /\ public <> 𝟎 /\ z • gen_or_base gen = e • public ⊕ commitment.
Proof.
  intros E. unfold Response_Verify, Response_IsValid, IsZero, IsIdentity, PEqual. rewrite E.
  destruct (bool_decide_reflect (z = 0)); cbn; [naive_solver|].
  destruct (bool_decide_reflect (public = 𝟎)); cbn; [naive_solver|].
  destruct (bool_decide_reflect (z • gen_or_base gen = e • public ⊕ commitment)); naive_solver.
Qed.

(** Verification never panics. *)
Lemma Proof_Verify_total p h public gen : exists b, Proof_Verify p h public gen = Ret b.
Proof.
  unfold Proof_Verify, Response_Verify. destruct p as [p|]; [|by exists false].
  destruct (negb _); [eauto|]. destruct (_ || _); [eauto|].
  destruct (challenge_total h (prf_C p) public (gen_or_base gen)) as [e ->]. eauto.
Qed.

Lemma NewProof_shape h public private gen rand p rand' :
  NewProof h public private gen rand = Ret (p, rand') ->
  exists a e, prf_C p = a • gen_or_base gen /\
    challenge h (prf_C p) public (gen_or_base gen) = Ret e /\
    prf_Z p = e * private + a /\ public <> 𝟎 /\ private <> 0.
Proof.
  unfold NewProof. intros ([a r] & Ea & E)%bind_ret_inv.
  unfold NewRandomness in Ea. apply bind_ret_inv in Ea as ([s r'] & Es & [= <- <-]).
  apply bind_ret_inv in E as (z & Ez & E). apply bind_ret_inv in E as (z' & Ed%deref_ret & [= <- <-]).
  subst z. unfold Prove, IsIdentity, IsZero in Ez. cbn in Ez |- *.
  destruct (bool_decide_reflect (public = 𝟎)); cbn in Ez; [done|].
  destruct (bool_decide_reflect (private = 0)); cbn in Ez; [done|].
  destruct (challenge h (s • gen_or_base gen) public (gen_or_base gen)) as [e|?|?] eqn:E; [|done|done].
  injection Ez as <-. eauto 10.
Qed.

Lemma sch_complete h public private gen rand p rand' :
  public = private • gen_or_base gen ->
  NewProof h public private gen rand = Ret (p, rand') ->
  Proof_IsValid (Some p) = true -> Proof_Verify (Some p) h public gen = Ret true.
Proof.
  intros Ep (a & e & Ec & Ee & Ez & Np & Ns)%NewProof_shape Hv.
  unfold Proof_Verify. rewrite Hv. cbn [negb]. rewrite (Response_Verify_spec _ _ _ _ _ e Ee).
  cbn in Hv. apply andb_true_iff in Hv as [Hz _]. unfold Response_IsValid, IsZero in Hz.
  rewrite negb_true_iff, bool_decide_eq_false in Hz. split; [done|]. split; [done|].
  rewrite Ez, Ec, Ep, act_add, act_mul. done.
Qed.

Lemma sch_special_soundness h1 h2 public commitment gen z1 z2 e1 e2 :
  challenge h1 commitment public (gen_or_base gen) = Ret e1 ->
  challenge h2 commitment public (gen_or_base gen) = Ret e2 -> e1 <> e2 ->
  Response_Verify (Some z1) h1 public commitment gen = Ret true ->
  Response_Verify (Some z2) h2 public commitment gen = Ret true ->
  public = ((z1 - z2) / (e1 - e2)) • gen_or_base gen.
Proof.
  intros C1 C2 N V1 V2. apply (Response_Verify_spec _ _ _ _ _ _ C1) in V1 as (_ & _ & E1).
  apply (Response_Verify_spec _ _ _ _ _ _ C2) in V2 as (_ & _ & E2).
  generalize dependent (gen_or_base gen). intros g _ _ E1 E2.
  pose proof (scalar_sub_ne_0 _ _ N) as Hd.
  assert ((z1 - z2) • g = (e1 - e2) • public) as E.
  { replace (z1 - z2) with (z1 + - z2) by ring. replace (e1 - e2) with (e1 + - e2) by ring.
    rewrite !act_add, !act_opp, E1, E2.
    destruct (base_generates public) as [x ->], (base_generates commitment) as [y ->].
    rewrite <- !act_mul, <- !act_add, <- !act_opp, <- !act_add. f_equal. ring. }
  replace ((z1 - z2) / (e1 - e2)) with (Zmod.inv (e1 - e2) * (z1 - z2)) by by field.
  rewrite act_mul, E, <- act_mul.
  replace (Zmod.inv (e1 - e2) * (e1 - e2)) with 1 by by field. by rewrite act_1.
Qed.

End SchProperties.
