(* ===== verification/Sha2.v ===== *)
(** * SHA-256, SHA-512 and HMAC-SHA-512

    The hash functions of Go's standard library that the Taproot package and
    the BIP-32 derivation call ([crypto/sha256], [crypto/sha512],
    [crypto/hmac]), after FIPS 180-4 and RFC 2104.  The two members of the
    family share one definition, parameterised by the word size, the round
    constants and the rotation amounts. *)

From Stdlib Require Import ZArith Lia.
From Stdlib Require Import Strings.Byte.
From stdpp Require Import base list numbers strings.
From S2P Require Import Prelude.

Local Open Scope Z_scope.

(** The constants are the first bits of the fractional parts of the cube
    roots (rounds) and square roots (initial state) of the first primes. *)
Fixpoint root_search (k x : Z) (bits : nat) (r : Z) : Z :=
  match bits with
  | O => r
  | S b => let r' := r + 2 ^ Z.of_nat b in
           root_search k x b (if r' ^ k <=? x then r' else r)
  end.

Definition frac_root (k p : Z) : Z := root_search k (p * 2 ^ (64 * k)) 70 0 mod 2 ^ 64.

Definition small_primes (n : nat) : list Z :=
  filter (fun p => 2 <= p /\ forallb (fun d => negb (p mod d =? 0)) (seqZ 2 (Z.sqrt p - 1)) = true)
    (seqZ 0 (Z.of_nat n)).

Definition K512 : list Z := Eval vm_compute in map (frac_root 3) (small_primes 410).
Definition H512 : list Z := Eval vm_compute in map (frac_root 2) (take 8 (small_primes 410)).
Definition K256 : list Z := Eval vm_compute in map (fun k => Z.shiftr k 32) (take 64 K512).
Definition H256 : list Z := Eval vm_compute in map (fun h => Z.shiftr h 32) H512.

Record sha_params := {
  sp_w : Z;                       (* word size in bits *)
  sp_K : list Z;                  (* round constants *)
  sp_H : list Z;                  (* initial state *)
  sp_S0 : Z * Z * Z;              (* rotations of the big sigmas *)
  sp_S1 : Z * Z * Z;
  sp_s0 : Z * Z * Z;              (* two rotations and a shift *)
  sp_s1 : Z * Z * Z
}.

Definition sha256_params : sha_params := {|
  sp_w := 32; sp_K := K256; sp_H := H256;
  sp_S0 := (2, 13, 22); sp_S1 := (6, 11, 25);
  sp_s0 := (7, 18, 3); sp_s1 := (17, 19, 10)
|}.

Definition sha512_params : sha_params := {|
  sp_w := 64; sp_K := K512; sp_H := H512;
  sp_S0 := (28, 34, 39); sp_S1 := (14, 18, 41);
  sp_s0 := (1, 8, 7); sp_s1 := (19, 61, 6)
|}.

Section Sha.
Context (sp : sha_params).

Definition wrapw (z : Z) : Z := Z.land z (Z.ones (sp_w sp)).
Definition rotr (n x : Z) : Z :=
  wrapw (Z.lor (Z.shiftr x n) (Z.shiftl x (sp_w sp - n))).
Definition big_sigma (r : Z * Z * Z) (x : Z) : Z :=
  Z.lxor (Z.lxor (rotr r.1.1 x) (rotr r.1.2 x)) (rotr r.2 x).
Definition small_sigma (r : Z * Z * Z) (x : Z) : Z :=
  Z.lxor (Z.lxor (rotr r.1.1 x) (rotr r.1.2 x)) (Z.shiftr x r.2).
Definition Ch (x y z : Z) : Z := Z.lxor (Z.land x y) (Z.land (wrapw (Z.lnot x)) z).
Definition Maj (x y z : Z) : Z :=
  Z.lxor (Z.lxor (Z.land x y) (Z.land x z)) (Z.land y z).

(** Bytes of a word and of the length field. *)
Definition word_bytes : nat := Z.to_nat (sp_w sp / 8).
Definition block_bytes : nat := 16 * word_bytes.

Definition pad (msg : bytes) : bytes :=
  let l := length msg in
  let lenf := (2 * word_bytes)%nat in
  let used := ((l + 1 + lenf) mod block_bytes)%nat in
  let zeros := ((block_bytes - used) mod block_bytes)%nat in
  msg ++ x80 :: replicate zeros x00 ++ be_of_Z lenf (8 * Z.of_nat l).

Fixpoint words (n : nat) (l : bytes) : list Z :=
  match n with
  | O => []
  | S n => be_to_Z (take word_bytes l) :: words n (drop word_bytes l)
  end.

(** The message schedule, newest word first. *)
Fixpoint schedule (n : nat) (ws : list Z) : list Z :=
  match n with
  | O => ws
  | S n =>
      let w k := nth k ws 0 in
      schedule n
        (wrapw (small_sigma (sp_s1 sp) (w 1%nat) + w 6%nat
                + small_sigma (sp_s0 sp) (w 14%nat) + w 15%nat) :: ws)
  end.

Definition compress_step (st : list Z) (kw : Z * Z) : list Z :=
  match st with
  | [a; b; c; d; e; f; g; h] =>
      let t1 := h + big_sigma (sp_S1 sp) e + Ch e f g + kw.1 + kw.2 in
      let t2 := big_sigma (sp_S0 sp) a + Maj a b c in
      [wrapw (t1 + t2); a; b; c; wrapw (d + t1); e; f; g]
  | _ => st
  end.

Definition compress (st : list Z) (block : bytes) : list Z :=
  let ws := reverse (schedule (length (sp_K sp) - 16) (reverse (words 16 block))) in
  zip_with (fun x y => wrapw (x + y)) st
    (foldl compress_step st (zip (sp_K sp) ws)).

Fixpoint sha_blocks (n : nat) (st : list Z) (l : bytes) : list Z :=
  match n with
  | O => st
  | S n => sha_blocks n (compress st (take block_bytes l)) (drop block_bytes l)
  end.

Definition sha (msg : bytes) : bytes :=
  let padded := pad msg in
  concat (be_of_Z word_bytes <$>
    sha_blocks (length padded / block_bytes) (sp_H sp) padded).

Lemma compress_step_length st kw : length (compress_step st kw) = length st.
Proof. unfold compress_step. by repeat case_match. Qed.

Lemma compress_length st block : length (compress st block) = length st.
Proof.
  unfold compress. rewrite length_zip_with.
  assert (forall l st', length (foldl compress_step st' l) = length st') as Hf.
  { induction l as [|kw l IH]; intros st'; cbn [foldl]; [done|].
    by rewrite IH, compress_step_length. }
  rewrite Hf. lia.
Qed.

Lemma sha_blocks_length n st l : length (sha_blocks n st l) = length st.
Proof.
  revert st l. induction n as [|n IH]; intros st l; cbn [sha_blocks]; [done|].
  by rewrite IH, compress_length.
Qed.

Lemma sha_length msg : length (sha msg) = (length (sp_H sp) * word_bytes)%nat.
Proof.
  unfold sha. rewrite <- (sha_blocks_length (length (pad msg) / block_bytes) _ (pad msg)).
  generalize (sha_blocks (length (pad msg) / block_bytes) (sp_H sp) (pad msg)) as st.
  induction st as [|w st IH]; [done|]. rewrite fmap_cons. cbn [concat length].
  rewrite length_app, IH, length_be_of_Z. lia.
Qed.

End Sha.

Definition sha256 (msg : bytes) : bytes := sha sha256_params msg.
Definition sha512 (msg : bytes) : bytes := sha sha512_params msg.

Lemma sha256_length msg : length (sha256 msg) = 32%nat.
Proof. apply (sha_length sha256_params). Qed.

Lemma sha512_length msg : length (sha512 msg) = 64%nat.
Proof. apply (sha_length sha512_params). Qed.

(** [hmac.New(sha512.New, key)] fed with [msg]. *)
Definition hmac_sha512 (key msg : bytes) : bytes :=
  let key := if decide (128 < length key)%nat then sha512 key else key in
  let key := key ++ replicate (128 - length key) x00 in
  let pad b := byte_xor b <$> key in
  sha512 (pad x5c ++ sha512 (pad x36 ++ msg)).

Lemma hmac_sha512_length key msg : length (hmac_sha512 key msg) = 64%nat.
Proof. apply sha512_length. Qed.

(** Test vectors of FIPS 180-4 and RFC 4231. *)
Example sha256_abc :
  be_to_Z (sha256 (bytes_of_string "abc"))
  = 0xba7816bf8f01cfea414140de5dae2223b00361a396177a9cb410ff61f20015ad.
Proof. vm_compute. reflexivity. Qed.

Example hmac_sha512_jefe :
  be_to_Z (hmac_sha512 (bytes_of_string "Jefe")
             (bytes_of_string "what do ya want for nothing?"))
  = 0x164b7a7bfcf819e2e395fbe73b56e0a387bd64222e831fd610270cd7ea2505549758bf75c05a994a6d034f65f8f0e6fdcaeab1a34d4a6b4b636e070a38bce737.
Proof. vm_compute. reflexivity. Qed.
