(* ===== verification/Taproot.v ===== *)
(** * pkg/taproot: BIP-340 signatures

    Keys and signatures are byte strings; SHA-256 is the function of
    [Sha2].  The global [signatureCounter] is threaded through [Sign], which
    increments it (as a uint64) when it is given no source of randomness. *)

From Stdlib Require Import ZArith Lia Zmod Field.
From Stdlib Require Import Strings.Byte.
From stdpp Require Import base gmap strings list pretty numbers.
From S2P Require Import Prelude Hash Curve Sha2 Toy.

Local Open Scope curve_scope.

Definition TaggedHash (tag : string) (datas : list bytes) : bytes :=
  let tagSum := sha256 (bytes_of_string tag) in
  sha256 (tagSum ++ tagSum ++ concat datas).

Definition SecretKeyLength : nat := 32.
Definition SignatureLen : nat := 64.

Section Taproot.
Context {C : Curve} {X : XOnly C}.

(** [scalar.UnmarshalBinary(s)] with the check that every use makes. *)
Definition parse_secret (s : bytes) : outcome Scalar :=
  match SUnmarshal 0 s with
  | (scalar, Ret _) => if IsZero scalar then Fail "invalid secret key" else Ret scalar
  | (_, Fail _) => Fail "invalid secret key"
  | (_, Panic p) => Panic p
  end.

Definition Public (s : bytes) : outcome bytes :=
  scalar ← parse_secret s;
  Ret (XBytes (ActOnBase scalar)).

(** [GenKey] loops until it reads a valid key; [None] is a loop that has not
    ended after [fuel] iterations. *)
Fixpoint GenKey (fuel : nat) (rand : reader) : option (outcome (bytes * bytes) * reader) :=
  match fuel with
  | O => None
  | S fuel =>
      match ReadFull rand SecretKeyLength with
      | (None, rand) => Some (Fail ErrUnexpectedEOF, rand)
      | (Some secret, rand) =>
          match Public secret with
          | Ret public => Some (Ret (secret, public), rand)
          | Fail _ => GenKey fuel rand
          | Panic p => Some (Panic p, rand)
          end
      end
  end.

(** The 32 bytes of auxiliary data: from the reader if there is one,
    otherwise the incremented counter in the first eight bytes. *)
Definition aux_bytes (rand : option reader) (signatureCounter : Z) :
    option bytes * option reader * Z :=
  match rand with
  | Some r => let '(a, r) := ReadFull r 32 in (a, Some r, signatureCounter)
  | None =>
      let ctr := ((signatureCounter + 1) mod 2 ^ 64)%Z in
      (Some (be_of_Z 8 ctr ++ replicate 24 x00), None, ctr)
  end.

(** The nonce from the secret, the public key, the message and the
    auxiliary bytes.  A hash that is not below the order is reduced. *)
Definition sign_nonce (d : Scalar) (PBytes a m : bytes) : Scalar :=
  let t := zip_with byte_xor (SMarshal d) (TaggedHash "BIP0340/aux" [a]) in
  let randHash := TaggedHash "BIP0340/nonce" [t; PBytes; m] in
  (SUnmarshal 0 randHash).1.

Definition tap_challenge (RBytes PBytes m : bytes) : Scalar :=
  (SUnmarshal 0 (TaggedHash "BIP0340/challenge" [RBytes; PBytes; m])).1.

(** The end of [Sign], once there is a nonce. *)
Definition sign_with (d k : Scalar) (PBytes m : bytes) : bytes :=
  let R := ActOnBase k in
  let k := if HasEvenY R then k else - k in
  let RBytes := XBytes R in
  let e := tap_challenge RBytes PBytes m in
  let z := e * d + k in
  RBytes ++ SMarshal z.

(** [SecretKey.Sign].  The loop on the nonce runs once: an iteration that
    leaves the nonce at zero returns an error. *)
Definition Sign (sk : bytes) (rand : option reader) (signatureCounter : Z) (m : bytes) :
    outcome bytes * option reader * Z :=
  match parse_secret sk with
  | Ret d =>
      let P := ActOnBase d in
      let PBytes := XBytes P in
      let d := if HasEvenY P then d else - d in
      let '(a, rand, signatureCounter) := aux_bytes rand signatureCounter in
      match a with
      | None => (Fail ErrUnexpectedEOF, rand, signatureCounter)
      | Some a =>
          let k := sign_nonce d PBytes a m in
          if IsZero k then (Fail "invalid nonce", rand, signatureCounter)
          else (Ret (sign_with d k PBytes m), rand, signatureCounter)
      end
  | Fail e => (Fail e, rand, signatureCounter)
  | Panic p => (Panic p, rand, signatureCounter)
  end.

(** [PublicKey.Verify] *)
Definition Verify (pk sig m : bytes) : bool :=
  if decide (length sig <> SignatureLen) then false
  else match LiftX pk with
       | Ret P =>
           match SUnmarshal 0 (drop 32 sig) with
           | (s, Ret _) =>
               let e := tap_challenge (take 32 sig) pk m in
               let R := ActOnBase s in
               let check := PSub R (e • P) in
               if IsIdentity check then false
               else if negb (HasEvenY check) then false
               else bool_decide (XBytes check = take 32 sig)
           | (_, _) => false
           end
       | _ => false
       end.

End Taproot.

(** ** Properties *)

Section TaprootProperties.
Context {C : Curve} {CL : CurveLaws C} {X : XOnly C} {XL : XOnlyLaws C X}.
Add Field scalar_field : scalar_field_theory.

Lemma parse_secret_ret s d :
  parse_secret s = Ret d -> d <> 0 /\ length s = 32%nat /\ s = SMarshal d.
Proof.
  unfold parse_secret, SUnmarshal. destruct (decide _) as [|Hl]; [done|].
  destruct (decide (order <= be_to_Z s)%Z) as [|Ho]; [done|].
  unfold IsZero. destruct (bool_decide_reflect (Zmod.of_Z order (be_to_Z s) = 0)); [done|].
  intros [= <-]. split; [done|]. apply dec_stable in Hl. split; [done|].
  unfold SMarshal. rewrite Zmod.to_Z_of_Z, Z.mod_small.
  - rewrite <- Hl. symmetry. apply be_of_to_Z.
  - pose proof (be_to_Z_bound s). lia.
Qed.

Lemma parse_secret_SMarshal d : d <> 0 -> parse_secret (SMarshal d) = Ret d.
Proof.
  intros N. unfold parse_secret. rewrite SUnmarshal_SMarshal. unfold IsZero.
  by rewrite bool_decide_false.
Qed.

(** Normalising a scalar by the parity of its point makes the point even,
    and keeps its x coordinate. *)
Definition even_scalar (d : Scalar) : Scalar := if HasEvenY (ActOnBase d) then d else - d.

Lemma even_scalar_nonzero d : d <> 0 -> even_scalar d <> 0.
Proof.
  unfold even_scalar. destruct (HasEvenY _); [done|].
  intros N E. apply N. replace d with (- - d) by ring. rewrite E. ring.
Qed.

Lemma even_scalar_spec d :
  d <> 0 -> HasEvenY (even_scalar d • 𝐆) = true /\ XBytes (even_scalar d • 𝐆) = XBytes (d • 𝐆).
Proof.
  intros N. unfold even_scalar, ActOnBase. destruct (HasEvenY (d • 𝐆)) eqn:E; [done|].
  rewrite act_opp. rewrite eveny_neg, E, xbytes_neg; [done|].
  intros Z%base_faithful. done.
Qed.

Lemma base_nonzero d : d <> 0 -> d • 𝐆 <> 𝟎.
Proof. intros N Z%base_faithful. done. Qed.

(** [Verify] is the predicate of BIP-340. *)
Lemma Verify_spec pk sig m :
  Verify pk sig m = true <->
  exists P R s, LiftX pk = Ret P /\ R <> 𝟎 /\ HasEvenY R = true /\
    sig = XBytes R ++ SMarshal s /\ s • 𝐆 = R ⊕ tap_challenge (XBytes R) pk m • P.
Proof.
  unfold Verify, SignatureLen. split.
  - destruct (decide _) as [|Hl%dec_stable]; [done|]. destruct (LiftX pk) as [P| |] eqn:EP; [|done|done].
    unfold SUnmarshal. rewrite length_drop, Hl. destruct (decide (64 - 32 <> 32)%nat); [done|].
    destruct (decide (order <= be_to_Z (drop 32 sig))%Z) as [|Ho]; [done|].
    set (s := Zmod.of_Z order _). set (e := tap_challenge _ _ _).
    unfold IsIdentity. destruct (bool_decide_reflect (PSub (ActOnBase s) (e • P) = 𝟎)); [done|].
    destruct (HasEvenY _) eqn:Ev; [|done]. cbn [negb]. intros Ex%bool_decide_eq_true.
    exists P, (PSub (ActOnBase s) (e • P)), s. split; [done|]. split; [done|]. split; [done|].
    rewrite Ex. split.
    + assert (SMarshal s = drop 32 sig) as ->.
      { unfold SMarshal, s. rewrite Zmod.to_Z_of_Z, Z.mod_small.
        - replace 32%nat with (length (drop 32 sig)) at 1 by (rewrite length_drop; lia).
          apply be_of_to_Z.
        - pose proof (be_to_Z_bound (drop 32 sig)). lia. }
      by rewrite take_drop.
    + fold e. unfold PSub, ActOnBase. rewrite <- padd_assoc, (padd_comm (⊖ _)), padd_neg_r.
      by rewrite padd_0_r.
  - intros (P & R & s & EP & NR & Ev & -> & Es).
    assert (length (XBytes R ++ SMarshal s) = 64%nat) as ->.
    { rewrite length_app, xbytes_length. unfold SMarshal. by rewrite (length_be_of_Z 32). }
    destruct (decide _); [done|]. rewrite EP.
    rewrite drop_app_length' by (symmetry; apply xbytes_length). rewrite SUnmarshal_SMarshal.
    rewrite take_app_length' by (symmetry; apply xbytes_length). unfold ActOnBase, PSub. rewrite Es.
    rewrite <- padd_assoc, padd_neg_r, padd_0_r. unfold IsIdentity.
    rewrite bool_decide_false by done. rewrite Ev. cbn. by apply bool_decide_eq_true.
Qed.

(** A signature made with an even-normalised key and nonce verifies. *)
Lemma even_signature_verifies (d k : Scalar) m :
  d <> 0 -> k <> 0 -> HasEvenY (d • 𝐆) = true -> HasEvenY (k • 𝐆) = true ->
  Verify (XBytes (d • 𝐆))
    (XBytes (k • 𝐆) ++ SMarshal (tap_challenge (XBytes (k • 𝐆)) (XBytes (d • 𝐆)) m * d + k)) m
  = true.
Proof.
  intros Nd Nk Ed Ek. apply Verify_spec. exists (d • 𝐆), (k • 𝐆). eexists. split.
  { apply liftx_xbytes; [by apply base_nonzero | done]. }
  split; [by apply base_nonzero|]. split; [done|]. split; [reflexivity|].
  by rewrite act_add, act_mul, padd_comm.
Qed.

Lemma sign_with_verifies d k m :
  d <> 0 -> k <> 0 -> HasEvenY (d • 𝐆) = true ->
  Verify (XBytes (d • 𝐆)) (sign_with d k (XBytes (d • 𝐆)) m) m = true.
Proof.
  intros Nd Nk Ed. destruct (even_scalar_spec k Nk) as [Ev Ex].
  pose proof (even_signature_verifies d (even_scalar k) m Nd (even_scalar_nonzero _ Nk) Ed Ev) as V.
  rewrite Ex in V. exact V.
Qed.

(** C23: every signature that [Sign] returns is accepted by [Verify] under the
    public key of the same secret key: the parity of the key and of the nonce
    is handled on both sides. *)
Theorem Sign_Verify sk rand ctr m sig rand' ctr' pk :
  Public sk = Ret pk -> Sign sk rand ctr m = (Ret sig, rand', ctr') -> Verify pk sig m = true.
Proof.
  unfold Public, Sign. intros (d & Ed & [= <-])%bind_ret_inv. rewrite Ed.
  apply parse_secret_ret in Ed as (Nd & _). destruct (aux_bytes _ _) as [[[a|] r] c]; [|done].
  fold (even_scalar d). unfold IsZero.
  destruct (bool_decide_reflect (sign_nonce (even_scalar d) (XBytes (ActOnBase d)) a m = 0)) as [|Nk]; [done|].
  intros [= <- _ _]. destruct (even_scalar_spec d Nd) as [Ev Ex]. unfold ActOnBase in *.
  rewrite <- Ex. rewrite <- Ex in Nk.
  apply sign_with_verifies; [by apply even_scalar_nonzero | done | done].
Qed.

(** When [Sign] gives no signature: a bad key, a failing reader, a zero nonce. *)
Lemma Sign_errors sk rand ctr m e rand' ctr' :
  Sign sk rand ctr m = (Fail e, rand', ctr') ->
  e = "invalid secret key" \/ e = "invalid nonce" \/ (e = ErrUnexpectedEOF /\ rand <> None).
Proof.
  unfold Sign. destruct (parse_secret sk) as [d|e0|p] eqn:Ep; [|intros [= <- _ _]|done].
  - destruct rand as [r|]; cbn [aux_bytes].
    + destruct (ReadFull r 32) as [[a|] r']; [|intros [= <- _ _]; auto].
      destruct (IsZero _); intros [= <- _ _]; auto.
    + destruct (IsZero _); intros [= <- _ _]; auto.
  - unfold parse_secret in Ep. destruct (SUnmarshal 0 sk) as [s [| |]]; [|left; congruence|done].
    destruct (IsZero s); [left; congruence|done].
Qed.

Lemma GenKey_Public fuel rand secret public rand' :
  GenKey fuel rand = Some (Ret (secret, public), rand') -> Public secret = Ret public.
Proof.
  revert rand. induction fuel as [|fuel IH]; intros rand; [done|]. cbn [GenKey].
  destruct (ReadFull rand _) as [[b|] r]; [|done].
  destruct (Public b) eqn:E; [|apply IH|done]. by intros [= <- <- _].
Qed.

(** [GenKey] ends as soon as its reader produces a key in range, and errors
    only come from the reader. *)
Lemma GenKey_ends fuel f off calls :
  (exists i, (i < fuel)%nat /\
    is_ret (Public (map f (seq (off + i * SecretKeyLength) SecretKeyLength))) = true) ->
  exists secret public rand',
    GenKey fuel (Reader f off (fun _ => false) calls) = Some (Ret (secret, public), rand').
Proof.
  revert off calls. induction fuel as [|fuel IH]; intros off calls (i & Hi & Hv); [lia|].
  cbn [GenKey ReadFull r_fails r_bytes r_off r_calls].
  destruct (Public (map f (seq off SecretKeyLength))) as [p|e|p] eqn:E; [eauto| |].
  - apply IH. destruct i as [|i].
    + replace (off + 0 * SecretKeyLength)%nat with off in Hv by lia. by rewrite E in Hv.
    + exists i. split; [lia|].
      by replace (off + SecretKeyLength + i * SecretKeyLength)%nat
        with (off + S i * SecretKeyLength)%nat by lia.
  - exfalso. unfold Public, parse_secret, SUnmarshal in E.
    destruct (decide _); [done|]. destruct (decide _); [done|]. by destruct (IsZero _).
Qed.

End TaprootProperties.

(** ** Witnesses *)

Definition toy_sk : bytes := be_of_Z 32 5.
Definition toy_pk : bytes := match Public toy_sk with Ret p => p | _ => [] end.
Definition toy_msg : bytes := bytes_of_string "message".
Definition toy_sig : bytes :=
  match Sign toy_sk None 0 toy_msg with (Ret s, _, _) => s | _ => [] end.

Lemma Sign_Verify_witness : Verify toy_pk toy_sig toy_msg = true.
Proof.
  apply (Sign_Verify toy_sk None 0 toy_msg toy_sig None 1); vm_compute; reflexivity.
Defined.
