(* ===== verification/Message.v ===== *)
(** * pkg/protocol: messages and errors

    [Message] is the envelope that parties exchange, [Error] the value a
    failed execution reports.  A nil byte slice is [None].  CBOR is a
    library: [Cbor] lists the two calls and [CborLaws] the round trip that
    its documentation promises. *)

From Stdlib Require Import ZArith Lia.
From Stdlib Require Import Strings.Byte.
From stdpp Require Import base gmap strings list pretty numbers.
From S2P Require Import Prelude Hash Party Round.

Local Open Scope Z_scope.

(** [cbor.Marshal(v)] and [cbor.Unmarshal(data, &v)] at a type: decoding
    starts from the value that the target holds. *)
Class Cbor (T : Type) := {
  cbor_Marshal : T -> outcome bytes;
  cbor_Unmarshal : T -> bytes -> outcome T
}.

Class CborLaws (T : Type) {CB : Cbor T} : Prop := {
  cbor_roundtrip (t0 t : T) b : cbor_Marshal t = Ret b -> cbor_Unmarshal t0 b = Ret t
}.

Record Message := mkMessage {
  SSID : option bytes;
  From : ID;
  To : ID;
  Protocol : string;
  RoundNumber : Number;
  Data : option bytes;
  Broadcast : bool;
  BroadcastVerification : option bytes
}.

#[export] Instance Message_eq_dec : EqDecision Message.
Proof. solve_decision. Defined.

(** [bytes.Equal]: a nil slice equals an empty one. *)
Definition bytes_Equal (a b : option bytes) : bool := bool_decide (default [] a = default [] b).

Definition IsFor (m : Message) (id : ID) : bool :=
  if decide (From m = id) then false
  else bool_decide (To m = "") || bool_decide (To m = id).

(** The arguments of [hash.New] in [Message.Hash]. *)
Definition Message_items (m : Message) : list any :=
  let broadcast := if Broadcast m then x01 else x00 in
  [ BytesWithDomain "SSID" (SSID m);
    ID_any (From m);
    ID_any (To m);
    BytesWithDomain "Protocol" (Some (bytes_of_string (Protocol m)));
    Number_any (RoundNumber m);
    BytesWithDomain "Content" (Data m);
    BytesWithDomain "Broadcast" (Some [broadcast]);
    BytesWithDomain "BroadcastVerification" (BroadcastVerification m) ].

Definition Message_state (m : Message) : Hash := New (Message_items m).

Definition Message_Hash `{Blake3} (m : Message) : bytes := Sum (Message_state m).

(** [marshallableMessage] has the fields of [Message]. *)
Definition toMarshallable (m : Message) : Message := m.

Definition Message_MarshalBinary `{Cbor Message} (m : Message) : outcome bytes :=
  cbor_Marshal (toMarshallable m).

(** [UnmarshalBinary] keeps the receiver and returns no error when the
    decoder fails. *)
Definition Message_UnmarshalBinary `{Cbor Message} (m : Message) (data : bytes) :
    Message * outcome unit :=
  match cbor_Unmarshal (toMarshallable m) data with
  | Ret deserialized => (deserialized, Ret tt)
  | Fail _ => (m, Ret tt)
  | Panic p => (m, Panic p)
  end.

(** [protocol.Error]; a nil slice of culprits is the empty list. *)
Record Error := mkError { Culprits : list ID; Err : string }.

(** [fmt.Sprintf("%v", ids)] *)
Definition print_ids (ids : list ID) : string :=
  "[" +:+ String.concat " " ids +:+ "]".

Definition Error_Error (e : Error) : string :=
  match Culprits e with
  | [] => Err e
  | ids => "culprits: " +:+ print_ids ids +:+ ": " +:+ Err e
  end.

(** ** The message hash identifies the message *)

(** What [New] absorbs: every item that can be written; the others are
    dropped with their error. *)
Fixpoint written_items (data : list any) : list (string * bytes) :=
  match data with
  | [] => []
  | d :: data =>
      match to_be_written d with
      | Ret it => it :: written_items data
      | _ => written_items data
      end
  end.

Lemma New_written data :
  New data = bytes_of_string "CMP-BLAKE" ++ concat (encode_item <$> written_items data).
Proof.
  unfold New. generalize (bytes_of_string "CMP-BLAKE"). induction data as [|d data IH]; intros h.
  - cbn. by rewrite app_nil_r.
  - cbn [foldl written_items]. unfold WriteAny_ at 2. cbn [WriteAny].
    destruct (to_be_written d) as [it|e|p]; rewrite IH; [|done|done].
    cbn. by rewrite <- app_assoc.
Qed.

(** Messages as the hash sees them: a sender, and sizes and a round number
    within their machine types. *)
Record message_fits (m : Message) : Prop := {
  mf_from : From m <> "";
  mf_round : 0 <= RoundNumber m < 2 ^ 16;
  mf_items : Forall item_fits (written_items (Message_items m))
}.

Lemma Number_be_inj a b :
  0 <= a < 2 ^ 16 -> 0 <= b < 2 ^ 16 -> be_of_Z 8 a = be_of_Z 8 b -> a = b.
Proof.
  intros Ha Hb E. apply be_of_Z_inj in E; [done| |];
    change (256 ^ Z.of_nat 8) with (2 ^ 64); lia.
Qed.

(** An optional item: absent when there is nothing to write. *)
Definition opt_item (dom : string) (o : option bytes) : list (string * bytes) :=
  match o with Some b => [(dom, b)] | None => [] end.

(** An optional item is determined by the list it starts, when what follows
    has another domain. *)
Lemma opt_item_inj dom o1 o2 d1 d2 x1 x2 k1 k2 :
  d1 <> dom -> d2 <> dom ->
  opt_item dom o1 ++ (d1, x1) :: k1 = opt_item dom o2 ++ (d2, x2) :: k2 ->
  o1 = o2 /\ (d1, x1) :: k1 = (d2, x2) :: k2.
Proof. destruct o1, o2; cbn; intros N1 N2 E; split; congruence. Qed.

Definition opt_id (id : ID) : option bytes :=
  if decide (id = "") then None else Some (bytes_of_string id).

Lemma opt_id_inj id1 id2 : opt_id id1 = opt_id id2 -> id1 = id2.
Proof.
  unfold opt_id. destruct (decide (id1 = "")), (decide (id2 = "")); [congruence|done|done|].
  intros [= E]. by apply bytes_of_string_inj.
Qed.

Lemma written_items_message m :
  From m <> "" ->
  written_items (Message_items m) =
  opt_item "SSID" (SSID m) ++ ("ID", bytes_of_string (From m))
  :: opt_item "ID" (opt_id (To m)) ++ ("Protocol", bytes_of_string (Protocol m))
  :: ("Round Number", be_of_Z 8 (RoundNumber m))
  :: opt_item "Content" (Data m) ++ ("Broadcast", [if Broadcast m then x01 else x00])
  :: opt_item "BroadcastVerification" (BroadcastVerification m) ++ [].
Proof.
  destruct m as [s f t p r d b v]. unfold Message_items, ID_any, ID_WriteTo, opt_id.
  cbn [SSID From To Protocol RoundNumber Data Broadcast BroadcastVerification]. intros Nf.
  rewrite (decide_False (P := f = "")) by done.
  by destruct s, (decide (t = "")), d, v.
Qed.

Lemma written_items_inj m1 m2 :
  message_fits m1 -> message_fits m2 ->
  written_items (Message_items m1) = written_items (Message_items m2) -> m1 = m2.
Proof.
  intros [F1 R1 _] [F2 R2 _]. rewrite !written_items_message by done. intros E.
  remember (be_of_Z 8 (RoundNumber m1)) as e1 eqn:E1.
  remember (be_of_Z 8 (RoundNumber m2)) as e2 eqn:E2.
  apply opt_item_inj in E as [Es [= Ef%bytes_of_string_inj E]]; [|done..].
  apply opt_item_inj in E as [Et%opt_id_inj [= Ep%bytes_of_string_inj Er E]]; [|done..].
  apply opt_item_inj in E as [Ed [= Eb E]]; [|done..].
  rewrite E1, E2 in Er. apply Number_be_inj in Er; [|done..]. clear E1 E2.
  destruct m1 as [s1 f1 t1 p1 r1 d1 b1 v1], m2 as [s2 f2 t2 p2 r2 d2 b2 v2]. cbn in *. subst.
  f_equal; [by destruct b1, b2|by destruct v1, v2; simplify_eq/=].
Qed.

(** Two messages with the same hash are equal, or their hashed states collide. *)
Lemma Message_Hash_binds `{Blake3} m1 m2 :
  message_fits m1 -> message_fits m2 -> Message_Hash m1 = Message_Hash m2 ->
  m1 = m2 \/ collides (Message_state m1) (Message_state m2).
Proof.
  intros F1 F2 E. destruct (decide (Message_state m1 = Message_state m2)) as [Es|N].
  - left. apply written_items_inj; [done..|]. unfold Message_state in Es.
    rewrite !New_written in Es. apply app_inv_head, encode_items_inj in Es; [done|apply F1|apply F2].
  - right. by split.
Qed.

Lemma Message_marshal_roundtrip `{CL : CborLaws Message} m0 m b :
  Message_MarshalBinary m = Ret b -> Message_UnmarshalBinary m0 b = (m, Ret tt).
Proof.
  unfold Message_MarshalBinary, Message_UnmarshalBinary, toMarshallable. intros E.
  by rewrite (cbor_roundtrip m0 m b E).
Qed.
