(* ===== verification/Codec.v ===== *)
(** * A lawful stand-in for the CBOR and JSON libraries

    A self-delimiting byte encoding for the types that the program
    serialises, closed under pairs, sums, lists and maps.  It instantiates the
    codec parameters wherever an execution is evaluated. *)

From Stdlib Require Import ZArith Lia Zmod.
From Stdlib Require Import Strings.Byte.
From stdpp Require Import base gmap strings list pretty numbers.
From S2P Require Import Prelude Party Message.

Local Open Scope Z_scope.

Class Pack (T : Type) := {
  pack : T -> bytes;
  unpack : bytes -> option (T * bytes);
  unpack_pack t rest : unpack (pack t ++ rest) = Some (t, rest)
}.

(** ** Instances *)

#[export] Instance byte_pack : Pack byte.
Proof.
  refine {|
  pack := fun b => [b];
  unpack := fun l => match l with b :: l => Some (b, l) | [] => None end
|}.
  done.
Defined.

#[export] Instance bool_pack : Pack bool.
Proof.
  refine {|
  pack := fun b => [if b : bool then x01 else x00];
  unpack := fun l => match l with x00 :: l => Some (false, l) | x01 :: l => Some (true, l) | _ => None end
|}.
  by intros [].
Defined.

#[export] Instance pair_pack {A B} `{Pack A, Pack B} : Pack (A * B).
Proof.
  refine {|
  pack := fun '(a, b) => pack a ++ pack b;
  unpack := fun l => '(a, l) ← unpack l; '(b, l) ← unpack l; Some ((a, b), l)
|}.
  intros [a b] rest. cbn. rewrite <- app_assoc, unpack_pack. cbn. by rewrite unpack_pack.
Defined.

#[export] Instance sum_pack {A B} `{Pack A, Pack B} : Pack (A + B).
Proof.
  refine {|
  pack := fun x => match x with inl a => x00 :: pack a | inr b => x01 :: pack b end;
  unpack := fun l => match l with
                     | x00 :: l => '(a, l) ← unpack l; Some (inl a, l)
                     | x01 :: l => '(b, l) ← unpack l; Some (inr b, l)
                     | _ => None
                     end
|}.
  intros [a|b] rest; cbn; by rewrite unpack_pack.
Defined.

(** A list is its elements, each marked, and an end mark. *)
Fixpoint pack_list {A} `{Pack A} (l : list A) : bytes :=
  match l with [] => [x00] | a :: l => x01 :: pack a ++ pack_list l end.

Fixpoint unpack_list {A} `{Pack A} (fuel : nat) (l : bytes) : option (list A * bytes) :=
  match fuel with
  | O => None
  | S fuel =>
      match l with
      | x00 :: l => Some ([], l)
      | x01 :: l => '(a, l) ← unpack l; '(r, l) ← unpack_list fuel l; Some (a :: r, l)
      | _ => None
      end
  end.

#[export] Instance list_pack {A} `{Pack A} : Pack (list A).
Proof.
  refine {|
  pack := pack_list;
  unpack := fun l => unpack_list (S (length l)) l
|}.
  intros l rest.
  assert (forall fuel, (length (pack_list l) <= fuel)%nat -> unpack_list fuel (pack_list l ++ rest) = Some (l, rest)) as Hf.
  { induction l as [|a l IH]; intros [|fuel] Hl; cbn in *; [lia|done|lia|].
    rewrite length_app in Hl. rewrite <- app_assoc, unpack_pack. cbn. by rewrite IH by lia. }
  apply Hf. rewrite length_app. lia.
Defined.

(** A type that another one represents. *)
Definition inj_pack {A B} (f : A -> B) (g : B -> A) (E : forall a, g (f a) = a) {PB : Pack B} : Pack A.
Proof.
  refine {| pack := fun a => pack (f a); unpack := fun l => '(b, l) ← unpack l; Some (g b, l) |}.
  intros a rest. cbn. rewrite unpack_pack. cbn. by rewrite E.
Defined.

Fixpoint pack_pos (p : positive) : bytes :=
  match p with xH => [x02] | xO p => x00 :: pack_pos p | xI p => x01 :: pack_pos p end.

Fixpoint unpack_pos (l : bytes) : option (positive * bytes) :=
  match l with
  | x02 :: l => Some (xH, l)
  | x00 :: l => '(p, l) ← unpack_pos l; Some (xO p, l)
  | x01 :: l => '(p, l) ← unpack_pos l; Some (xI p, l)
  | _ => None
  end.

#[export] Instance positive_pack : Pack positive.
Proof.
  refine {| pack := pack_pos; unpack := unpack_pos |}.
  intros p rest. induction p as [p IH|p IH|]; cbn; by rewrite ?IH.
Defined.

#[export] Instance unit_pack : Pack unit.
Proof. refine {| pack := fun _ => []; unpack := fun l => Some (tt, l) |}. by intros []. Defined.

#[export] Instance option_pack {A} `{Pack A} : Pack (option A).
Proof.
  refine (inj_pack (fun o => match o with Some a => inl a | None => inr tt end)
            (fun s => match s with inl a => Some a | inr _ => None end) _).
  by intros [].
Defined.

#[export] Instance Z_pack : Pack Z.
Proof.
  refine (inj_pack (fun z => match z with Z0 => inl tt | Zpos p => inr (inl p) | Zneg p => inr (inr p) end)
            (fun s => match s with inl _ => Z0 | inr (inl p) => Zpos p | inr (inr p) => Zneg p end) _).
  by intros [].
Defined.

#[export] Instance string_pack : Pack string.
Proof. exact (inj_pack bytes_of_string String.string_of_list_byte String.string_of_list_byte_of_string). Defined.

#[export] Instance Zmod_pack m : Pack (Zmod.Zmod m).
Proof. refine (inj_pack Zmod.to_Z (Zmod.of_Z m) _). intros x. apply Zmod.of_Z_to_Z. Defined.

#[export] Instance gmap_pack {A} `{Pack A} : Pack (gmap string A).
Proof. exact (inj_pack map_to_list list_to_map (list_to_map_to_list (M := gmap string))). Defined.

#[export] Instance Message_pack : Pack Message.
Proof.
  refine (inj_pack
    (fun m => (SSID m, From m, To m, Protocol m, RoundNumber m, Data m, Broadcast m, BroadcastVerification m))
    (fun '(a, b, c, d, e, f, g, h) => mkMessage a b c d e f g h) _).
  by intros [].
Defined.

(** ** The codec *)

Definition pack_cbor (T : Type) `{Pack T} : Cbor T := {|
  cbor_Marshal := fun t => Ret (pack t);
  cbor_Unmarshal := fun _ b =>
    match unpack b with Some (t, []) => Ret t | _ => Fail "cbor: malformed" end
|}.

Lemma pack_cbor_laws T `{Pack T} : @CborLaws T (pack_cbor T).
Proof.
  constructor. intros t0 t b [= <-]. unfold cbor_Unmarshal, pack_cbor.
  by rewrite <- (app_nil_r (pack t)), unpack_pack.
Qed.

Lemma pack_cbor_no_panic T `{Pack T} (t : T) b p : @cbor_Unmarshal T (pack_cbor T) t b <> Panic p.
Proof. unfold cbor_Unmarshal, pack_cbor. by destruct (unpack b) as [[? [|]]|]. Qed.
