(* ===== verification/Handler.v ===== *)
(** * pkg/protocol/handler.go: the message handler

    [MultiHandler] drives the rounds of a protocol: it queues the messages of
    later rounds, hands the messages of the current round to it, checks that
    all parties saw the same broadcasts, and moves on when everything has
    arrived.  It is written against the interfaces of internal/round, here
    the class [RoundOps].

    A round is a mutable object that [rounds] and [currentRound] share; an
    update of the round of a given number goes to both ([put_round]).  A call
    of the handler can return, panic, or block on the outgoing channel
    ([hres]); the recursion of [finalize] carries a fuel argument, which
    [HandlerInv] proves sufficient. *)

From Stdlib Require Import ZArith Lia.
From Stdlib Require Import Strings.Byte.
From stdpp Require Import base gmap strings list pretty numbers.
From S2P Require Import Prelude Hash Party Round Message.

Local Open Scope Z_scope.

(** The interfaces [round.Round], [round.BroadcastRound] and [round.Session],
    with the CBOR coding of the message contents. *)
Class RoundOps (R Content Result : Type) := {
  r_helper : R -> Helper;
  r_Number : R -> Number;
  (** the type assertion [r.(round.BroadcastRound)] *)
  r_is_broadcast : R -> bool;
  (** uninitialised contents, nil for a round that expects no message *)
  r_MessageContent : R -> option Content;
  r_BroadcastContent : R -> option Content;
  r_VerifyMessage : R -> round_Message Content -> outcome unit;
  r_StoreMessage : R -> round_Message Content -> outcome R;
  r_StoreBroadcastMessage : R -> round_Message Content -> outcome R;
  r_Finalize : R -> reader -> chan (round_Message Content) ->
    outcome (Session R Result) * chan (round_Message Content) * reader;
  c_RoundNumber : Content -> Number;
  c_Cbor :: Cbor Content
}.

Section Handler.
Context {R Content Result : Type} {RO : RoundOps R Content Result} `{Blake3} {MO : MapOrder}.

Abbreviation session := (Session R Result).
Abbreviation queue := (gmap Number (gmap ID (option Message))).

(** ** Sessions: the round interface on [Output] and [Abort] too *)

Definition s_helper (s : session) : Helper :=
  match s with Running r => r_helper r | Output h _ => h | Abort h _ _ => h end.

Definition s_Number (s : session) : Number :=
  match s with Running r => r_Number r | _ => 0 end.

Definition s_is_broadcast (s : session) : bool :=
  match s with Running r => r_is_broadcast r | _ => false end.

Definition s_MessageContent (s : session) : option Content :=
  match s with Running r => r_MessageContent r | _ => None end.

Definition s_BroadcastContent (s : session) : option Content :=
  match s with Running r => r_BroadcastContent r | _ => None end.

Definition s_VerifyMessage (s : session) (m : round_Message Content) : outcome unit :=
  match s with Running r => r_VerifyMessage r m | _ => Ret tt end.

Definition s_StoreMessage (s : session) (m : round_Message Content) : outcome session :=
  match s with Running r => r' ← r_StoreMessage r m; Ret (Running r') | _ => Ret s end.

Definition s_StoreBroadcastMessage (s : session) (m : round_Message Content) : outcome session :=
  match s with Running r => r' ← r_StoreBroadcastMessage r m; Ret (Running r') | _ => Ret s end.

Definition s_Finalize (s : session) (rand : reader) (out : chan (round_Message Content)) :
    outcome session * chan (round_Message Content) * reader :=
  match s with Running r => r_Finalize r rand out | _ => (Ret s, out, rand) end.

Definition s_SelfID (s : session) : ID := SelfID (info (s_helper s)).
Definition s_FinalRoundNumber (s : session) : Number := FinalRoundNumber (info (s_helper s)).

(** ** The handler *)

Record MultiHandler := mkMultiHandler {
  currentRound : session;
  rounds : gmap Number session;
  err : option Error;
  result : option Result;
  messages : queue;
  broadcast : queue;
  broadcastHashes : gmap Number bytes;
  out : chan Message;
  out_closed : bool;
  (** [crypto/rand.Reader], which rounds sample from *)
  h_rand : reader
}.

(** How a call ends. *)
Inductive hres :=
| HOk (h : MultiHandler)
| HPanic (m : string)
| HBlocked
| HFuel.

Definition hbind (m : hres) (f : MultiHandler -> hres) : hres :=
  match m with HOk h => f h | HPanic p => HPanic p | HBlocked => HBlocked | HFuel => HFuel end.

(** Field updates. *)
Definition set_err (h : MultiHandler) (e : Error) : MultiHandler :=
  mkMultiHandler (currentRound h) (rounds h) (Some e) (result h) (messages h) (broadcast h)
    (broadcastHashes h) (out h) (out_closed h) (h_rand h).

Definition set_result (h : MultiHandler) (r : Result) : MultiHandler :=
  mkMultiHandler (currentRound h) (rounds h) (err h) (Some r) (messages h) (broadcast h)
    (broadcastHashes h) (out h) (out_closed h) (h_rand h).

Definition set_messages (h : MultiHandler) (q : queue) : MultiHandler :=
  mkMultiHandler (currentRound h) (rounds h) (err h) (result h) q (broadcast h)
    (broadcastHashes h) (out h) (out_closed h) (h_rand h).

Definition set_broadcast (h : MultiHandler) (q : queue) : MultiHandler :=
  mkMultiHandler (currentRound h) (rounds h) (err h) (result h) (messages h) q
    (broadcastHashes h) (out h) (out_closed h) (h_rand h).

Definition set_hashes (h : MultiHandler) (b : gmap Number bytes) : MultiHandler :=
  mkMultiHandler (currentRound h) (rounds h) (err h) (result h) (messages h) (broadcast h)
    b (out h) (out_closed h) (h_rand h).

Definition set_out (h : MultiHandler) (c : chan Message) : MultiHandler :=
  mkMultiHandler (currentRound h) (rounds h) (err h) (result h) (messages h) (broadcast h)
    (broadcastHashes h) c (out_closed h) (h_rand h).

Definition set_closed (h : MultiHandler) : MultiHandler :=
  mkMultiHandler (currentRound h) (rounds h) (err h) (result h) (messages h) (broadcast h)
    (broadcastHashes h) (out h) true (h_rand h).

Definition set_rand (h : MultiHandler) (r : reader) : MultiHandler :=
  mkMultiHandler (currentRound h) (rounds h) (err h) (result h) (messages h) (broadcast h)
    (broadcastHashes h) (out h) (out_closed h) r.

(** [h.rounds[n] = r; h.currentRound = r] *)
Definition enter_round (h : MultiHandler) (n : Number) (s : session) : MultiHandler :=
  mkMultiHandler s (<[n := s]> (rounds h)) (err h) (result h) (messages h) (broadcast h)
    (broadcastHashes h) (out h) (out_closed h) (h_rand h).

(** A mutation of the object [h.rounds[n]], which [h.currentRound] may alias. *)
Definition put_round (h : MultiHandler) (n : Number) (s : session) : MultiHandler :=
  mkMultiHandler (if decide (n = s_Number (currentRound h)) then s else currentRound h)
    (<[n := s]> (rounds h)) (err h) (result h) (messages h) (broadcast h)
    (broadcastHashes h) (out h) (out_closed h) (h_rand h).

(** ** Queues *)

Definition newQueue (senders : list ID) (rounds : Number) : queue :=
  list_to_map ((fun i => (i, list_to_map ((fun id => (id, None)) <$> senders)))
               <$> seqZ 2 (rounds - 1)).

(** [q[n][id]]: nil when either map has no such key. *)
Definition queue_get (q : queue) (n : Number) (id : ID) : option Message :=
  match q !! n with Some qn => mjoin (qn !! id) | None => None end.

Definition queue_of (h : MultiHandler) (msg : Message) : queue :=
  if Broadcast msg then broadcast h else messages h.

Definition duplicate (h : MultiHandler) (msg : Message) : bool :=
  if decide (RoundNumber msg = 0) then false
  else match queue_of h msg !! RoundNumber msg with
       | None => true
       | Some q => match mjoin (q !! From msg) with Some _ => true | None => false end
       end.

Definition store (h : MultiHandler) (msg : Message) : MultiHandler :=
  match queue_of h msg !! RoundNumber msg with
  | None => h
  | Some q =>
      match mjoin (q !! From msg) with
      | Some _ => h
      | None =>
          let q' := <[RoundNumber msg := <[From msg := Some msg]> q]> (queue_of h msg) in
          if Broadcast msg then set_broadcast h q' else set_messages h q'
      end
  end.

(** ** Ending an execution *)

(** [abort]: the notification is dropped when the channel is full; sending
    on, or closing, a closed channel panics. *)
Definition abort (h : MultiHandler) (e : option string) (culprits : list ID) : hres :=
  match e with
  | Some e =>
      let h := set_err h (mkError culprits e) in
      if out_closed h then HPanic "send on closed channel"
      else
        let r := currentRound h in
        let msg := mkMessage (Some (ssid (s_helper r))) (s_SelfID r) ""
                     (ProtocolID (info (s_helper r))) 0
                     (Some (bytes_of_string (Error_Error (mkError culprits e)))) false None in
        let h := match try_send (out h) msg with Some c => set_out h c | None => h end in
        HOk (set_closed h)
  | None => if out_closed h then HPanic "close of closed channel" else HOk (set_closed h)
  end.

(** [Stop], with the condition as it is written. *)
Definition Stop (h : MultiHandler) : hres :=
  if bool_decide (is_Some (err h)) || bool_decide (is_Some (result h))
  then abort h (Some "aborted by user") [s_SelfID (currentRound h)]
  else HOk h.

Definition Result_ (h : MultiHandler) : outcome Result :=
  match result h with
  | Some r => Ret r
  | None => match err h with
            | Some e => Fail (Error_Error e)
            | None => Fail "protocol: not finished"
            end
  end.

(** Reading one message from the channel that [Listen] returns. *)
Definition Receive (h : MultiHandler) : option (Message * MultiHandler) :=
  match ch_buf (out h) with
  | [] => None
  | m :: buf => Some (m, set_out h (mkChan (ch_cap (out h)) buf))
  end.

(** ** Accepting messages *)

Definition CanAccept (h : MultiHandler) (msg : Message) : bool :=
  let r := currentRound h in
  if negb (IsFor msg (s_SelfID r)) then false
  else if negb (bool_decide (Protocol msg = ProtocolID (info (s_helper r)))) then false
  else if negb (bytes_Equal (SSID msg) (Some (ssid (s_helper r)))) then false
  else if negb (Contains (partyIDs (s_helper r)) [From msg]) then false
  else match Data msg with
       | None => false
       | Some _ =>
           if bool_decide (s_FinalRoundNumber r < RoundNumber msg) then false
           else if bool_decide (RoundNumber msg < s_Number r /\ 0 < RoundNumber msg) then false
           else true
       end.

(** [getRoundMessage]; decoding into a nil content is an error of the decoder. *)
Definition getRoundMessage (msg : Message) (r : session) : outcome (round_Message Content) :=
  content ← (if Broadcast msg
             then if s_is_broadcast r then Ret (s_BroadcastContent r)
                  else Fail "got broadcast message when none was expected"
             else Ret (s_MessageContent r));
  content ← wrap_err "failed to unmarshal: "
              (match content with
               | Some c => cbor_Unmarshal c (default [] (Data msg))
               | None => Fail "cbor: Unmarshal(nil)"
               end);
  Ret (mkRoundMessage (From msg) (To msg) (Broadcast msg) content).

Definition round_err {A} (n : Number) (m : outcome A) : outcome A :=
  wrap_err ("round " +:+ pretty n +:+ ": ") m.

(** [verifyMessage] and [verifyBroadcastMessage] return the state with the
    round updated; an error is followed by [abort] in every caller. *)
Definition verifyMessage (h : MultiHandler) (msg : Message) : outcome MultiHandler :=
  match rounds h !! RoundNumber msg with
  | None => Ret h
  | Some r =>
      if s_is_broadcast r
         && negb (bool_decide (is_Some (queue_get (broadcast h) (RoundNumber msg) (From msg))))
      then Ret h
      else
        roundMsg ← getRoundMessage msg r;
        _ ← round_err (s_Number r) (s_VerifyMessage r roundMsg);
        r' ← round_err (s_Number r) (s_StoreMessage r roundMsg);
        Ret (put_round h (RoundNumber msg) r')
  end.

Definition expectsNormalMessage (r : session) : bool :=
  bool_decide (is_Some (s_MessageContent r)).

Definition verifyBroadcastMessage (h : MultiHandler) (msg : Message) : outcome MultiHandler :=
  match rounds h !! RoundNumber msg with
  | None => Ret h
  | Some r =>
      roundMsg ← getRoundMessage msg r;
      r' ← round_err (s_Number r) (s_StoreBroadcastMessage r roundMsg);
      let h := put_round h (RoundNumber msg) r' in
      if negb (expectsNormalMessage r') then Ret h
      else match queue_get (messages h) (RoundNumber msg) (From msg) with
           | None => Ret h
           | Some msg => verifyMessage h msg
           end
  end.

(** ** Finishing a round *)

(** The hash of the broadcasts of a round, in the order of the parties. *)
Definition broadcast_hash (h : Hash) (msgs : list Message) : bytes :=
  Sum (foldl (fun h msg => WriteAny_ h [BytesWithDomain "Message" (Some (Message_Hash msg))]) h msgs).

(** The second half of [receivedAll]: the normal messages of the round. *)
Definition receivedNormal (h : MultiHandler) : bool :=
  let r := currentRound h in
  if expectsNormalMessage r then
    match messages h !! s_Number r with
    | None => true
    | Some q => forallb (fun id => bool_decide (is_Some (mjoin (q !! id))))
                  (otherPartyIDs (s_helper r))
    end
  else true.

(** [h.broadcastHashes[number] = ...], once. *)
Definition record_hash (h : MultiHandler) (msgs : list Message) : MultiHandler :=
  let r := currentRound h in
  match broadcastHashes h !! s_Number r with
  | Some _ => h
  | None => set_hashes h (<[s_Number r := broadcast_hash (hash (s_helper r)) msgs]>
                            (broadcastHashes h))
  end.

(** [receivedAll] records the hash of the broadcasts on its way. *)
Definition receivedAll (h : MultiHandler) : bool * MultiHandler :=
  let r := currentRound h in
  if s_is_broadcast r then
    match broadcast h !! s_Number r with
    | None => (true, h)
    | Some q =>
        match mapM (fun id => mjoin (q !! id)) (partyIDs (s_helper r)) with
        | None => (false, h)
        | Some msgs => let h := record_hash h msgs in (receivedNormal h, h)
        end
    end
  else (receivedNormal h, h).

Definition verified_by (previousHash : bytes) (m : option Message) : bool :=
  match m with
  | None => true
  | Some msg => bytes_Equal (Some previousHash) (BroadcastVerification msg)
  end.

Definition checkBroadcastHash (h : MultiHandler) : bool :=
  let number := s_Number (currentRound h) in
  match broadcastHashes h !! pred16 number with
  | None => true
  | Some previousHash =>
      forallb (fun p => verified_by previousHash p.2)
        (range_order (default ∅ (messages h !! number)))
      && forallb (fun p => verified_by previousHash p.2)
           (range_order (default ∅ (broadcast h !! number)))
  end.

(** [h.out <- msg] *)
Definition send (h : MultiHandler) (msg : Message) : hres :=
  if out_closed h then HPanic "send on closed channel"
  else match try_send (out h) msg with
       | Some c => HOk (set_out h c)
       | None => HBlocked
       end.

(** The header that [finalize] puts on a message of the next round [r]. *)
Definition outgoing (h : MultiHandler) (r : session) (roundMsg : round_Message Content)
    (data : bytes) : Message :=
  mkMessage (Some (ssid (s_helper r))) (s_SelfID r) (rm_To roundMsg)
    (ProtocolID (info (s_helper r))) (c_RoundNumber (rm_Content roundMsg)) (Some data)
    (rm_Broadcast roundMsg) (broadcastHashes h !! pred16 (s_Number r)).

Fixpoint forward (h : MultiHandler) (r : session) (msgs : list (round_Message Content)) : hres :=
  match msgs with
  | [] => HOk h
  | roundMsg :: msgs =>
      match cbor_Marshal (rm_Content roundMsg) with
      | Ret data =>
          let msg := outgoing h r roundMsg data in
          let h := if Broadcast msg then store h msg else h in
          hbind (send h msg) (fun h => forward h r msgs)
      | Fail e => HPanic ("failed to marshal round message: " +:+ e)
      | Panic p => HPanic p
      end
  end.

(** The loops over the queued messages of a new round: [true] when all were
    processed, [false] after an abort. *)
Fixpoint process (verify : MultiHandler -> Message -> outcome MultiHandler)
    (h : MultiHandler) (ms : list Message) : hres * bool :=
  match ms with
  | [] => (HOk h, true)
  | m :: ms =>
      match verify h m with
      | Ret h => process verify h ms
      | Fail e => (abort h (Some e) [From m], false)
      | Panic p => (HPanic p, false)
      end
  end.

(** The queued messages that the loop of [finalize] handles. *)
Definition queued (h : MultiHandler) (r : session) : list Message :=
  if s_is_broadcast r
  then omap (fun p : ID * option Message => if decide (p.1 = s_SelfID r) then None else p.2)
         (range_order (default ∅ (broadcast h !! s_Number r)))
  else omap (fun p : ID * option Message => p.2)
         (range_order (default ∅ (messages h !! s_Number r))).

Definition verify_queued (r : session) : MultiHandler -> Message -> outcome MultiHandler :=
  if s_is_broadcast r then verifyBroadcastMessage else verifyMessage.

(** [finalize].  A returned round whose number is known is the object that
    is already stored. *)
Fixpoint finalize (fuel : nat) (h : MultiHandler) : hres :=
  match fuel with
  | O => HFuel
  | S fuel =>
      let '(all, h) := receivedAll h in
      if negb all then HOk h
      else if negb (checkBroadcastHash h) then abort h (Some "broadcast verification failed") []
      else
        let self := s_SelfID (currentRound h) in
        match s_Finalize (currentRound h) (h_rand h) (mkChan (S (N (s_helper (currentRound h)))) []) with
        | (Fail e, _, rand) => abort (set_rand h rand) (Some e) [self]
        | (Panic p, _, _) => HPanic p
        | (Ret r, rout, rand) =>
            hbind (forward (set_rand h rand) r (ch_buf rout)) (fun h =>
              let roundNumber := s_Number r in
              match rounds h !! roundNumber with
              | Some _ => HOk (put_round h roundNumber r)
              | None =>
                  let h := enter_round h roundNumber r in
                  match r with
                  | Abort _ e culprits => abort h (Some e) culprits
                  | Output _ res => abort (set_result h res) None []
                  | Running _ =>
                      let '(h, continue) := process (verify_queued r) h (queued h r) in
                      if (continue : bool) then hbind h (finalize fuel) else h
                  end
              end)
        end
  end.

Definition dquote : string := String (Ascii.ascii_of_nat 34) EmptyString.

(** More iterations than there are round numbers. *)
Definition finalize_fuel : nat := Z.to_nat (2 ^ 16 + 1).

Lemma finalize_fuel_value : Z.of_nat finalize_fuel = 2 ^ 16 + 1.
Proof. unfold finalize_fuel. lia. Qed.

#[global] Opaque finalize_fuel.

Definition Accept (h : MultiHandler) (msg : Message) : hres :=
  if negb (CanAccept h msg) || bool_decide (is_Some (err h)) || bool_decide (is_Some (result h))
     || duplicate h msg
  then HOk h
  else if decide (RoundNumber msg = 0)
  then abort h (Some ("aborted by other party with error: " +:+ dquote +:+
                      String.string_of_list_byte (default [] (Data msg)) +:+ dquote)) [From msg]
  else
    let h := store h msg in
    if decide (s_Number (currentRound h) <> RoundNumber msg) then HOk h
    else match (if Broadcast msg then verifyBroadcastMessage h msg else verifyMessage h msg) with
         | Ret h => finalize finalize_fuel h
         | Fail e => abort h (Some e) [From msg]
         | Panic p => HPanic p
         end.

(** [NewMultiHandler], given the first round that [create] returned. *)
Definition initial_handler (r : session) (rand : reader) : MultiHandler :=
  let others := otherPartyIDs (s_helper r) in
  mkMultiHandler r {[s_Number r := r]} None None
    (newQueue others (s_FinalRoundNumber r)) (newQueue others (s_FinalRoundNumber r))
    ∅ (mkChan (2 * N (s_helper r)) []) false rand.

Definition NewMultiHandler (create : option bytes -> outcome session) (sessionID : option bytes)
    (rand : reader) : outcome hres :=
  r ← wrap_err "protocol: failed to create round: " (create sessionID);
  Ret (finalize finalize_fuel (initial_handler r rand)).

End Handler.
