(* ===== verification/HandlerSpec.v ===== *)
(** * What the handler promises to a protocol

    The abstract execution of a protocol by one party ([reached]): a round
    takes at most one broadcast and one message per other party, a message
    only after the broadcast of its sender, and is finalised once everything
    it expects has arrived.  [HandlerInv] shows that [MultiHandler] refines
    this system; protocols are verified against it. *)

From Stdlib Require Import ZArith Lia.
From stdpp Require Import base gmap strings list pretty numbers.
From S2P Require Import Prelude Hash Party Round Message Handler.

Local Open Scope Z_scope.

Section Spec.
Context {R Content Result : Type} {RO : RoundOps R Content Result} `{Blake3}.

Definition r_others (r : R) : list ID := otherPartyIDs (r_helper r).
Definition r_Final (r : R) : Number := FinalRoundNumber (info (r_helper r)).
Definition expects (r : R) : Prop := is_Some (r_MessageContent r).

(** The channel that the handler gives to [Finalize]. *)
Definition fresh_out (r : R) : chan (round_Message Content) := mkChan (S (N (r_helper r))) [].

(** Everything that round [r] waits for has arrived: [B] and [M] are the
    senders of the broadcasts and messages it has processed. *)
Definition complete (r : R) (B M : gset ID) : Prop :=
  2 <= r_Number r <= r_Final r ->
  forall id, id ∈ r_others r ->
    (r_is_broadcast r = true -> id ∈ B) /\ (expects r -> id ∈ M).

Inductive reached (r0 : R) : R -> gset ID -> gset ID -> Prop :=
| reached_start : reached r0 r0 ∅ ∅
| reached_broadcast r B M m r' :
    reached r0 r B M -> r_is_broadcast r = true -> rm_Broadcast m = true ->
    rm_From m ∈ r_others r -> rm_From m ∉ B ->
    r_StoreBroadcastMessage r m = Ret r' ->
    reached r0 r' ({[rm_From m]} ∪ B) M
| reached_message r B M m r' :
    reached r0 r B M -> expects r -> rm_Broadcast m = false ->
    rm_From m ∈ r_others r -> rm_From m ∉ M -> (r_is_broadcast r = true -> rm_From m ∈ B) ->
    r_VerifyMessage r m = Ret tt -> r_StoreMessage r m = Ret r' ->
    reached r0 r' B ({[rm_From m]} ∪ M)
| reached_next r B M rand r' out' rand' :
    reached r0 r B M -> complete r B M ->
    r_Finalize r rand (fresh_out r) = (Ret (Running r'), out', rand') ->
    reached r0 r' ∅ ∅.

(** The results that an execution can deliver. *)
Inductive delivered (r0 : R) : Result -> Prop :=
| delivered_output r B M rand h res out' rand' :
    reached r0 r B M -> complete r B M ->
    r_Finalize r rand (fresh_out r) = (Ret (Output h res), out', rand') ->
    delivered r0 res.

(** The part of the session data that no round changes. *)
Definition same_session (h h' : Helper) : Prop :=
  info h' = info h /\ partyIDs h' = partyIDs h /\ otherPartyIDs h' = otherPartyIDs h /\
  ssid h' = ssid h.

(** Storing a message does not change what kind of round it is. *)
Definition same_round (r r' : R) : Prop :=
  r_helper r' = r_helper r /\ r_Number r' = r_Number r /\
  r_is_broadcast r' = r_is_broadcast r /\ (expects r' <-> expects r).

(** How rounds of a protocol behave, whatever they compute. *)
Class RoundLaws : Prop := {
  rl_number r : 1 <= r_Number r < 2 ^ 16;
  rl_store r m r' : r_StoreMessage r m = Ret r' -> same_round r r';
  rl_store_broadcast r m r' : r_StoreBroadcastMessage r m = Ret r' -> same_round r r';
  rl_next r rand out r' out' rand' :
    r_Finalize r rand out = (Ret (Running r'), out', rand') ->
    r_Number r' = r_Number r + 1 /\ same_session (r_helper r) (r_helper r');
  rl_output r rand out h res out' rand' :
    r_Finalize r rand out = (Ret (Output h res), out', rand') -> same_session (r_helper r) h;
  rl_abort r rand out h e c out' rand' :
    r_Finalize r rand out = (Ret (Abort h e c), out', rand') -> same_session (r_helper r) h
}.

Definition no_panic {A} (m : outcome A) : Prop := forall p, m <> Panic p.

(** None of the code that the handler calls panics on a reached round. *)
Record never_panics (r0 : R) : Prop := {
  np_unmarshal (c : Content) b : no_panic (cbor_Unmarshal c b);
  np_verify r B M m : reached r0 r B M -> no_panic (r_VerifyMessage r m);
  np_store r B M m :
    reached r0 r B M -> r_VerifyMessage r m = Ret tt -> no_panic (r_StoreMessage r m);
  np_store_broadcast r B M m : reached r0 r B M -> no_panic (r_StoreBroadcastMessage r m);
  np_finalize r B M rand s out' rand' :
    reached r0 r B M -> complete r B M ->
    r_Finalize r rand (fresh_out r) = (s, out', rand') ->
    no_panic s /\ Forall (fun m => is_ret (cbor_Marshal (rm_Content m)) = true) (ch_buf out')
}.

Lemma same_session_refl h : same_session h h.
Proof. done. Qed.

Lemma same_session_trans h1 h2 h3 :
  same_session h1 h2 -> same_session h2 h3 -> same_session h1 h3.
Proof. unfold same_session. intuition congruence. Qed.

Lemma same_round_refl r : same_round r r.
Proof. done. Qed.

Lemma same_round_trans r1 r2 r3 : same_round r1 r2 -> same_round r2 r3 -> same_round r1 r3.
Proof. unfold same_round. intuition congruence. Qed.

Lemma same_round_others r r' : same_round r r' -> r_others r' = r_others r.
Proof. unfold r_others. by intros (-> & _). Qed.

(** The session data of the first round is that of every reached round. *)
Lemma reached_session `{!RoundLaws} r0 r B M :
  reached r0 r B M -> same_session (r_helper r0) (r_helper r).
Proof.
  induction 1 as [|r B M m r' _ IH _ _ _ _ E|r B M m r' _ IH _ _ _ _ _ _ E|r B M rand r' o q _ IH _ E].
  - apply same_session_refl.
  - destruct (rl_store_broadcast _ _ _ E) as (-> & _). done.
  - destruct (rl_store _ _ _ E) as (-> & _). done.
  - destruct (rl_next _ _ _ _ _ _ E) as [_ S]. by eapply same_session_trans.
Qed.

(** Only other parties are recorded as senders. *)
Lemma reached_senders `{!RoundLaws} r0 r B M id :
  reached r0 r B M -> id ∈ B \/ id ∈ M -> id ∈ r_others r0.
Proof.
  induction 1 as [|r B M m r' Re IH _ _ Ho _ _|r B M m r' Re IH _ _ Ho _ _ _ _|r B M rand r' o q _ IH _ E].
  - set_solver.
  - apply reached_session in Re as (_ & _ & Eo & _). unfold r_others in *. rewrite Eo in Ho.
    set_solver.
  - apply reached_session in Re as (_ & _ & Eo & _). unfold r_others in *. rewrite Eo in Ho.
    set_solver.
  - set_solver.
Qed.

End Spec.
