(* ===== verification/HandlerInv.v ===== *)
(** * The handler refines the abstract execution

    The invariant of [MultiHandler] and its preservation by every call, for
    any protocol whose rounds satisfy [RoundLaws] and any messages from the
    network. *)

From Stdlib Require Import ZArith Lia.
From stdpp Require Import base gmap strings list pretty numbers.
From S2P Require Import Prelude Hash Party Round Message Handler HandlerSpec.

Local Open Scope Z_scope.

Section Inv.
Context {R Content Result : Type} {RO : RoundOps R Content Result} `{Blake3}.
Context {MO : MapOrder} {MOL : MapOrderLaws} {RL : RoundLaws}.
Context (r0 : R) (S0 : session_ok (r_helper r0)).

Abbreviation handler := (@MultiHandler R Result).
Abbreviation queue := (gmap Number (gmap ID (option Message))).
Implicit Types (h : handler) (q : queue).

(** [wp m P]: the call runs to an end.  If it returns, [P] holds; it panics
    only if the protocol code does; it may block on a full channel; it never
    runs out of fuel. *)
Definition wp (m : hres) (P : handler -> Prop) : Prop :=
  match m with
  | HOk h => P h
  | HPanic _ => ~ never_panics r0
  | HBlocked => True
  | HFuel => False
  end.

Lemma wp_mono m (P Q : handler -> Prop) : wp m P -> (forall h, P h -> Q h) -> wp m Q.
Proof. destruct m; cbn; auto. Qed.

Lemma wp_bind m f (P : handler -> Prop) : wp m (fun h => wp (f h) P) -> wp (hbind m f) P.
Proof. by destruct m. Qed.

(** ** Queues *)

Definition self : ID := SelfID (info (r_helper r0)).
Definition others : list ID := otherPartyIDs (r_helper r0).
Definition parties : list ID := partyIDs (r_helper r0).
Definition final : Number := FinalRoundNumber (info (r_helper r0)).

Definition queue_dom (q : queue) : Prop := forall n, is_Some (q !! n) <-> 2 <= n <= final.

(** Queued messages sit under their sender and round. *)
Definition queue_ok (b : bool) (q : queue) : Prop :=
  forall n id msg, queue_get q n id = Some msg ->
    From msg = id /\ RoundNumber msg = n /\ Broadcast msg = b /\
    (id ∈ others \/ b = true /\ id = self).

Definition queue_insert (q : queue) (msg : Message) : queue :=
  match q !! RoundNumber msg with
  | Some qn => <[RoundNumber msg := <[From msg := Some msg]> qn]> q
  | None => q
  end.

Lemma queue_get_insert q msg n id :
  queue_dom q -> 2 <= RoundNumber msg <= final ->
  queue_get (queue_insert q msg) n id =
  if decide (n = RoundNumber msg /\ id = From msg) then Some msg else queue_get q n id.
Proof.
  intros D Hn. unfold queue_insert, queue_get.
  destruct (proj2 (D _) Hn) as [qn Eq]. rewrite Eq.
  destruct (decide (n = RoundNumber msg)) as [->|N].
  - rewrite lookup_insert_eq, Eq. destruct (decide (id = From msg)) as [->|N].
    + rewrite lookup_insert_eq. by rewrite decide_True.
    + rewrite lookup_insert_ne by done. by rewrite decide_False by tauto.
  - rewrite lookup_insert_ne by done. by rewrite decide_False by tauto.
Qed.

Lemma queue_dom_insert q msg : queue_dom q -> queue_dom (queue_insert q msg).
Proof.
  intros D n. unfold queue_insert. destruct (q !! RoundNumber msg) as [qn|] eqn:E; [|apply D].
  destruct (decide (n = RoundNumber msg)) as [->|N].
  - rewrite lookup_insert_eq. rewrite <- (D (RoundNumber msg)), E. split; eauto.
  - rewrite lookup_insert_ne by done. apply D.
Qed.

Lemma queue_ok_insert b q msg :
  queue_dom q -> queue_ok b q -> 2 <= RoundNumber msg <= final -> Broadcast msg = b ->
  From msg ∈ others \/ b = true /\ From msg = self ->
  queue_ok b (queue_insert q msg).
Proof.
  intros D Q Hn Hb Hf n id m. rewrite queue_get_insert by done.
  case_decide as Hd; [|apply Q]. destruct Hd as [-> ->]. by intros [= <-].
Qed.

(** [store] either inserts the message or leaves the handler alone. *)
Definition store_at (h : handler) (msg : Message) : handler :=
  if Broadcast msg then set_broadcast h (queue_insert (broadcast h) msg)
  else set_messages h (queue_insert (messages h) msg).

Lemma store_spec h msg :
  store h msg = if decide (queue_get (queue_of h msg) (RoundNumber msg) (From msg) = None)
                then store_at h msg else h.
Proof.
  unfold store, store_at, queue_insert, queue_get, queue_of.
  destruct (Broadcast msg).
  - destruct (broadcast h !! RoundNumber msg) as [qn|] eqn:E.
    + destruct (mjoin (qn !! From msg)); [by rewrite decide_False|by rewrite decide_True].
    + rewrite decide_True by done. by destruct h.
  - destruct (messages h !! RoundNumber msg) as [qn|] eqn:E.
    + destruct (mjoin (qn !! From msg)); [by rewrite decide_False|by rewrite decide_True].
    + rewrite decide_True by done. by destruct h.
Qed.

(** ** The invariant *)

(** The broadcasts of round [n], in the order of the parties. *)
Definition broadcasts (h : handler) (n : Number) : option (list Message) :=
  mapM (queue_get (broadcast h) n) parties.

(** A recorded hash is the hash of the broadcasts of its round, over the
    session hash of that round. *)
Definition hash_ok (h : handler) : Prop :=
  forall n v, broadcastHashes h !! n = Some v ->
    exists s msgs, rounds h !! n = Some s /\ broadcasts h n = Some msgs /\
      v = broadcast_hash (hash (s_helper s)) msgs.

Record hcore (h : handler) (r : R) (B M : gset ID) : Prop := {
  hc_err : err h = None;
  hc_result : result h = None;
  hc_open : out_closed h = false;
  hc_current : currentRound h = Running r;
  hc_round : rounds h !! r_Number r = Some (Running r);
  hc_rounds n : is_Some (rounds h !! n) -> 1 <= n <= r_Number r;
  hc_reached : reached r0 r B M;
  hc_messages : queue_dom (messages h) /\ queue_ok false (messages h);
  hc_broadcast : queue_dom (broadcast h) /\ queue_ok true (broadcast h);
  hc_hashes : hash_ok h
}.

(** What the round has processed is what the queues of its number hold; a
    message waits for the broadcast of its sender. *)
Definition bsynced (h : handler) (r : R) (B : gset ID) : Prop :=
  r_is_broadcast r = true ->
  forall id, id ∈ others -> id ∈ B <-> is_Some (queue_get (broadcast h) (r_Number r) id).

Definition msynced (h : handler) (r : R) (B M : gset ID) : Prop :=
  expects r ->
  forall id, id ∈ others ->
    id ∈ M <-> is_Some (queue_get (messages h) (r_Number r) id) /\
               (r_is_broadcast r = true -> id ∈ B).

Definition running (h : handler) : Prop :=
  exists r B M, hcore h r B M /\ bsynced h r B /\ msynced h r B M.

Definition finished (h : handler) : Prop :=
  out_closed h = true /\ (is_Some (err h) \/ is_Some (result h)) /\
  (forall res, result h = Some res -> delivered r0 res) /\ hash_ok h.

Definition hinv (h : handler) : Prop := running h \/ finished h.

Lemma hcore_session h r B M : hcore h r B M -> same_session (r_helper r0) (r_helper r).
Proof. intros C. by eapply reached_session, C. Qed.

Lemma hcore_others h r B M : hcore h r B M -> r_others r = others.
Proof. intros (_ & _ & E & _)%hcore_session. exact E. Qed.

Lemma hcore_final h r B M : hcore h r B M -> r_Final r = final.
Proof. intros (E & _)%hcore_session. unfold r_Final, final. by rewrite E. Qed.

Lemma hcore_self h r B M : hcore h r B M -> s_SelfID (currentRound h) = self.
Proof.
  intros C. rewrite (hc_current _ _ _ _ C). unfold s_SelfID, self. cbn.
  destruct (hcore_session _ _ _ _ C) as (-> & _). done.
Qed.

Lemma elem_of_parties id : id ∈ parties <-> id = self \/ id ∈ others.
Proof. unfold parties, self, others. by rewrite (session_ok_split _ S0), elem_of_cons. Qed.

Lemma self_not_other : self ∉ others.
Proof. unfold self, others. rewrite (so_others _ S0), elem_of_Remove. tauto. Qed.

(** [put_round] writes back what is already there. *)
Lemma put_round_same h r B M :
  hcore h r B M -> put_round h (r_Number r) (Running r) = h.
Proof.
  intros C. unfold put_round. pose proof (hc_current _ _ _ _ C) as Ec.
  pose proof (hc_round _ _ _ _ C) as Er. destruct h. cbn in *. rewrite Ec. cbn.
  rewrite decide_True by done. by rewrite insert_id.
Qed.

(** A stored message takes the round from [r] to [r']. *)
Lemma hcore_put h r r' B M B' M' :
  hcore h r B M -> same_round r r' -> reached r0 r' B' M' ->
  hcore (put_round h (r_Number r) (Running r')) r' B' M'.
Proof.
  intros C (Eh & En & Eb & Ee) Re. destruct C as [C1 C2 C3 C4 C5 C6 C7 C8 C9 C10].
  constructor; cbn; try done.
  - rewrite C4. cbn. by rewrite decide_True.
  - rewrite En. by rewrite lookup_insert_eq.
  - intros n. rewrite En. destruct (decide (n = r_Number r)) as [->|N].
    + intros _. pose proof (rl_number r). lia.
    + rewrite lookup_insert_ne by done. apply C6.
  - intros n v Hv. destruct (C10 n v Hv) as (s & msgs & Es & Em & ->). cbn [rounds put_round].
    destruct (decide (n = r_Number r)) as [->|N].
    + rewrite lookup_insert_eq. exists (Running r'), msgs. rewrite C5 in Es. injection Es as <-.
      cbn [s_helper]. rewrite Eh. done.
    + rewrite lookup_insert_ne by done. by exists s, msgs.
Qed.

(** ** Ending an execution *)

Lemma abort_err_wp h e culprits :
  out_closed h = false -> result h = None -> hash_ok h ->
  wp (abort h (Some e) culprits) (fun h' => finished h').
Proof.
  intros Ho Hr Hh. unfold abort. cbn [out_closed set_err]. rewrite Ho.
  destruct (try_send _ _); cbn; split; try done; (split; [eauto|]); cbn; (split; [congruence|done]).
Qed.

Lemma hcore_abort h r B M e culprits :
  hcore h r B M -> wp (abort h (Some e) culprits) hinv.
Proof.
  intros C. eapply wp_mono; [apply abort_err_wp; apply C|]. intros h' F. by right.
Qed.

(** ** Processing one message *)

(** The decoded message carries the header of its envelope. *)
Lemma getRoundMessage_ret msg s rm :
  getRoundMessage msg s = Ret rm ->
  rm_From rm = From msg /\ rm_To rm = To msg /\ rm_Broadcast rm = Broadcast msg /\
  (if Broadcast msg then s_is_broadcast s = true else is_Some (s_MessageContent s)).
Proof.
  unfold getRoundMessage. intros E. outcome_inv. subst rm. cbn. repeat split.
  destruct (Broadcast msg).
  - by destruct (s_is_broadcast s).
  - injection Hb as <-. by destruct (s_MessageContent s).
Qed.

Lemma getRoundMessage_panic msg s p :
  getRoundMessage msg s = Panic p -> ~ never_panics r0.
Proof.
  unfold getRoundMessage. intros E NP.
  assert (forall c, wrap_err "failed to unmarshal: "
            (match c with
             | Some c => cbor_Unmarshal c (default [] (Data msg))
             | None => Fail "cbor: Unmarshal(nil)"
             end) <> (Panic p : outcome Content)) as Hw.
  { intros [c|]; [|done]. pose proof (np_unmarshal _ NP c (default [] (Data msg)) p).
    by destruct (cbor_Unmarshal _ _); cbn; [|done|]; congruence. }
  destruct (Broadcast msg), (s_is_broadcast s); cbn in E; try done;
    match type of E with wrap_err _ ?c ≫= _ = _ => destruct (wrap_err _ c) eqn:Ew end;
    cbn in E; try done; injection E as <-; by apply Hw in Ew.
Qed.

(** The effect of one processed message on the core of the invariant: the
    current round is replaced by one that has also processed [id]. *)
Definition step_to (h h' : handler) (r : R) (B M : gset ID) : Prop :=
  exists r', h' = put_round h (r_Number r) (Running r') /\ same_round r r' /\ hcore h' r' B M.

(** A message is processed unless its sender's broadcast is still missing. *)
Lemma verifyMessage_spec h r B M msg :
  hcore h r B M -> RoundNumber msg = r_Number r -> Broadcast msg = false ->
  From msg ∈ others -> (expects r -> From msg ∉ M) ->
  (r_is_broadcast r = true ->
     From msg ∈ B <-> is_Some (queue_get (broadcast h) (r_Number r) (From msg))) ->
  match verifyMessage h msg with
  | Ret h' =>
      if r_is_broadcast r && negb (bool_decide (From msg ∈ B)) then h' = h
      else expects r /\ step_to h h' r B ({[From msg]} ∪ M)
  | Fail _ => True
  | Panic _ => ~ never_panics r0
  end.
Proof.
  intros C En Eb Ho Hm Hbc. unfold verifyMessage. rewrite En, (hc_round _ _ _ _ C).
  cbn [s_is_broadcast]. 
  assert (bool_decide (is_Some (queue_get (broadcast h) (r_Number r) (From msg)))
          = bool_decide (From msg ∈ B) \/ r_is_broadcast r = false) as [->|Hnb].
  { destruct (r_is_broadcast r); [left|by right]. apply bool_decide_ext. symmetry. auto. }
  2: rewrite Hnb in Hbc |- *; cbn [andb].
  1: destruct (r_is_broadcast r && negb (bool_decide (From msg ∈ B))) eqn:Hw; [done|].
  all: destruct (getRoundMessage msg (Running r)) as [rm|e|p] eqn:Eg;
    [|done|by eapply getRoundMessage_panic].
  all: apply getRoundMessage_ret in Eg as (Ef & _ & Erb & Ex); rewrite Eb in Ex; cbn [s_MessageContent] in Ex.
  all: cbn [mbind outcome_bind s_VerifyMessage s_StoreMessage s_Number].
  all: destruct (r_VerifyMessage r rm) as [[]|e|p] eqn:Ev; cbn;
    [|done|intros NP; eapply (np_verify _ NP); [apply C|exact Ev]].
  all: destruct (r_StoreMessage r rm) as [r'|e|p] eqn:Es; cbn;
    [|done|intros NP; eapply (np_store _ NP); [apply C|exact Ev|exact Es]].
  all: split; [exact Ex|]; exists r'; (split; [done|]); (split; [by eapply rl_store|]).
  all: eapply hcore_put; [exact C|by eapply rl_store|]; rewrite <- Ef.
  all: eapply reached_message; [apply C|exact Ex|congruence| | | |exact Ev|exact Es].
  all: rewrite ?Ef, ?(hcore_others _ _ _ _ C); auto.
  - intros Hb. rewrite Hb in Hw. cbn in Hw. apply negb_false_iff, bool_decide_eq_true in Hw. done.
  - congruence.
Qed.

Lemma step_to_trans h h1 h2 r r1 B M B' M' :
  h1 = put_round h (r_Number r) (Running r1) -> same_round r r1 ->
  hcore h1 r1 B M -> step_to h1 h2 r1 B' M' -> step_to h h2 r B' M'.
Proof.
  intros -> Sr C1 (r2 & -> & Sr2 & C2). exists r2. pose proof Sr as (_ & En & _).
  split; [|split; [by eapply same_round_trans|done]].
  rewrite En. unfold put_round at 1 3. f_equal; cbn; [|by rewrite insert_insert_eq].
  destruct (decide (r_Number r = s_Number (currentRound h))); [|by rewrite decide_False].
  cbn. by rewrite En, decide_True.
Qed.

(** A broadcast is processed, and with it the waiting message of its sender. *)
Lemma verifyBroadcastMessage_spec h r B M msg :
  hcore h r B M -> RoundNumber msg = r_Number r -> Broadcast msg = true ->
  From msg ∈ others -> From msg ∉ B -> (expects r -> From msg ∉ M) ->
  is_Some (queue_get (broadcast h) (r_Number r) (From msg)) ->
  match verifyBroadcastMessage h msg with
  | Ret h' => r_is_broadcast r = true /\ exists M', step_to h h' r ({[From msg]} ∪ B) M' /\
      (expects r ->
       M' = if decide (is_Some (queue_get (messages h) (r_Number r) (From msg)))
            then {[From msg]} ∪ M else M)
  | Fail _ => True
  | Panic _ => ~ never_panics r0
  end.
Proof.
  intros C En Eb Ho HB HM Hq. unfold verifyBroadcastMessage. rewrite En, (hc_round _ _ _ _ C).
  destruct (getRoundMessage msg (Running r)) as [rm|e|p] eqn:Eg; [|done|by eapply getRoundMessage_panic].
  apply getRoundMessage_ret in Eg as (Ef & _ & Erb & Ex). rewrite Eb in Ex, Erb. cbn in Ex |- *.
  destruct (r_StoreBroadcastMessage r rm) as [r'|e|p] eqn:Es; cbn;
    [|done|intros NP; eapply (np_store_broadcast _ NP); [apply C|exact Es]].
  pose proof (rl_store_broadcast _ _ _ Es) as Sr. pose proof Sr as (_ & En' & Eb' & Ee').
  assert (hcore (put_round h (r_Number r) (Running r')) r' ({[From msg]} ∪ B) M) as C'.
  { eapply hcore_put; [exact C|exact Sr|]. rewrite <- Ef.
    eapply reached_broadcast; [apply C|exact Ex|exact Erb| | |exact Es];
      rewrite Ef, ?(hcore_others _ _ _ _ C); done. }
  unfold expectsNormalMessage. cbn [s_MessageContent].
  destruct (bool_decide_reflect (is_Some (r_MessageContent r'))) as [He|He]; cbn [negb].
  2: { split; [done|]. exists M. split; [by exists r'|]. intros Hx%Ee'. done. }
  cbn [messages put_round].
  destruct (queue_get (messages h) (r_Number r) (From msg)) as [m2|] eqn:Eq.
  2: { split; [done|]. exists M. split; [by exists r'|]. intros _. by rewrite decide_False by (intros [? [=]]). }
  destruct (proj2 (hc_messages _ _ _ _ C) _ _ _ Eq) as (Ef2 & En2 & Eb2 & _).
  pose proof (verifyMessage_spec _ _ _ _ m2 C') as V. rewrite Ef2, En2, En', Eb' in V. cbn [broadcast put_round] in V.
  specialize (V eq_refl Eb2 Ho (fun Hx => HM (proj1 Ee' Hx))).
  destruct (verifyMessage _ m2) as [h'|e|p]; [|done|].
  - rewrite (bool_decide_true (From msg ∈ _)), andb_false_r in V by set_solver.
    destruct V as [_ St]; [set_solver|]. split; [done|]. eexists. split; [by eapply step_to_trans|].
    intros _. by rewrite decide_True.
  - apply V. set_solver.
Qed.

(** ** Processing the queued messages of a new round *)

(** How [process] ends: all messages processed, or an abort. *)
Definition processed (m : hres * bool) (P : handler -> Prop) : Prop :=
  if m.2 then match m.1 with HOk h => P h | _ => False end else wp m.1 hinv.

Lemma processed_mono m (P Q : handler -> Prop) :
  processed m P -> (forall h, P h -> Q h) -> processed m Q.
Proof. destruct m as [[] []]; cbn; auto. Qed.

Lemma msynced_broadcast h r B M f :
  r_is_broadcast r = true -> msynced h r B M -> f ∉ B -> f ∈ others ->
  msynced h r ({[f]} ∪ B)
    (if decide (is_Some (queue_get (messages h) (r_Number r) f)) then {[f]} ∪ M else M).
Proof.
  intros Hb Ms Hf Hfo He id Hid. pose proof (Ms He id Hid) as Hi.
  destruct (decide (id = f)) as [->|N]; case_decide as Hs; set_solver.
Qed.

Lemma msynced_ext h h' r r' B M M' :
  same_round r r' -> messages h' = messages h -> (expects r -> M' = M) ->
  msynced h r B M -> msynced h' r' B M'.
Proof.
  intros (_ & En & Eb & Ee) Em EM Ms He%Ee id Hid. rewrite Em, En, Eb, (EM He). by apply Ms.
Qed.

Lemma process_broadcasts ms h r B M :
  hcore h r B M -> r_is_broadcast r = true -> msynced h r B M -> NoDup (From <$> ms) ->
  Forall (fun m => RoundNumber m = r_Number r /\ Broadcast m = true /\ From m ∈ others /\
                   (From m ∉ B) /\ is_Some (queue_get (broadcast h) (r_Number r) (From m))) ms ->
  processed (process verifyBroadcastMessage h ms) (fun h' =>
    exists r' B' M', hcore h' r' B' M' /\ same_round r r' /\ msynced h' r' B' M' /\
      broadcast h' = broadcast h /\ forall id, id ∈ B' <-> id ∈ B \/ id ∈ From <$> ms).
Proof.
  revert h r B M. induction ms as [|m ms IH]; intros h r B M C Hb Ms ND F; cbn [process].
  { exists r, B, M. repeat (split; [done|]). set_solver. }
  apply list.Forall_cons in F as [(En & Eb & Ho & HB & Hq) F].
  rewrite fmap_cons in ND |- *. apply list.NoDup_cons in ND as [Nin ND].
  assert (expects r -> From m ∉ M) as HM by (intros He Hm%(Ms He); [tauto|done]).
  pose proof (verifyBroadcastMessage_spec h r B M m C En Eb Ho HB HM Hq) as V.
  destruct (verifyBroadcastMessage h m) as [h1|e|p]; [|by eapply hcore_abort|exact V].
  destruct V as (_ & M1 & (r1 & -> & Sr & C1) & EM). pose proof Sr as (_ & En1 & Eb1 & _).
  assert (msynced (put_round h (r_Number r) (Running r1)) r1 ({[From m]} ∪ B) M1) as Ms1.
  { eapply (msynced_ext h); [exact Sr|done|exact EM|]. by apply msynced_broadcast. }
  eapply processed_mono; [apply (IH _ _ _ _ C1 ltac:(congruence) Ms1 ND)|].
  - apply list.Forall_forall. intros m' Hin. rewrite list.Forall_forall in F.
    destruct (F m' Hin) as (? & ? & ? & ? & ?). rewrite En1. repeat (split; [done|]).
    split; [|done]. apply not_elem_of_union. split; [|done]. intros E%elem_of_singleton.
    apply Nin, list_elem_of_fmap. eauto.
  - cbn. intros h' (r' & B' & M' & C' & Sr' & Ms' & Eq & HB').
    exists r', B', M'. split; [done|]. split; [by eapply same_round_trans|]. split; [done|].
    split; [done|]. intros id. rewrite HB', elem_of_union, elem_of_singleton, elem_of_cons. tauto.
Qed.

Lemma process_messages ms h r B M :
  hcore h r B M -> r_is_broadcast r = false -> NoDup (From <$> ms) ->
  Forall (fun m => RoundNumber m = r_Number r /\ Broadcast m = false /\ From m ∈ others /\
                   From m ∉ M) ms ->
  processed (process verifyMessage h ms) (fun h' =>
    exists r' M', hcore h' r' B M' /\ same_round r r' /\ messages h' = messages h /\
      forall id, id ∈ M' <-> id ∈ M \/ id ∈ From <$> ms).
Proof.
  revert h r M. induction ms as [|m ms IH]; intros h r M C Hb ND F; cbn [process].
  { exists r, M. repeat (split; [done|]). set_solver. }
  apply list.Forall_cons in F as [(En & Eb & Ho & HM) F].
  rewrite fmap_cons in ND |- *. apply list.NoDup_cons in ND as [Nin ND].
  pose proof (verifyMessage_spec h r B M m C En Eb Ho (fun _ => HM) ltac:(congruence)) as V.
  rewrite Hb in V. cbn [andb] in V.
  destruct (verifyMessage h m) as [h1|e|p]; [|by eapply hcore_abort|exact V].
  destruct V as (_ & r1 & -> & Sr & C1). pose proof Sr as (_ & En1 & Eb1 & _).
  eapply processed_mono; [apply (IH _ _ _ C1 ltac:(congruence) ND)|].
  - apply list.Forall_forall. intros m' Hin. rewrite list.Forall_forall in F.
    destruct (F m' Hin) as (? & ? & ? & ?). rewrite En1. repeat (split; [done|]).
    apply not_elem_of_union. split; [|done]. intros E%elem_of_singleton.
    apply Nin, list_elem_of_fmap. eauto.
  - cbn. intros h' (r' & M' & C' & Sr' & Eq & HM').
    exists r', M'. split; [done|]. split; [by eapply same_round_trans|]. split; [done|].
    intros id. rewrite HM', elem_of_union, elem_of_singleton, elem_of_cons. tauto.
Qed.

(** ** The messages queued for a new round *)

Lemma queue_get_order q n id m :
  (id, Some m) ∈ range_order (default ∅ (q !! n)) <-> queue_get q n id = Some m.
Proof.
  rewrite (range_order_perm _ (default ∅ (q !! n))), elem_of_map_to_list. unfold queue_get.
  destruct (q !! n) as [qn|]; cbn; [|by rewrite lookup_empty].
  destruct (qn !! id) as [[m'|]|]; cbn; split; congruence.
Qed.

Lemma NoDup_order q n : NoDup (range_order (default ∅ (q !! n))).*1.
Proof. rewrite (range_order_perm _ (default ∅ (q !! n))). apply NoDup_fst_map_to_list. Qed.

(** The senders of the messages picked from a queue are distinct. *)
Lemma NoDup_picked (f : ID * option Message -> option Message) (l : list (ID * option Message)) :
  NoDup l.*1 -> (forall p m, p ∈ l -> f p = Some m -> From m = p.1) -> NoDup (From <$> omap f l).
Proof.
  induction l as [|p l IH]; cbn; intros ND Hf; [constructor|].
  apply list.NoDup_cons in ND as [Nin ND].
  assert (NoDup (From <$> omap f l)) as Hl by (apply IH; [done|]; intros; apply Hf; [by right|done]).
  destruct (f p) as [m|] eqn:E; [|done]. cbn. apply list.NoDup_cons. split; [|done].
  rewrite (Hf p m); [|by left|done]. intros (m' & Em & Hin)%list_elem_of_fmap.
  apply list_elem_of_omap in Hin as (p' & Hp' & Ep').
  apply Nin, list_elem_of_fmap. exists p'. split; [|done].
  rewrite Em. apply Hf; [by right|done].
Qed.

Lemma queued_broadcasts h r B M :
  hcore h r B M -> r_is_broadcast r = true ->
  NoDup (From <$> queued h (Running r)) /\
  (forall m, m ∈ queued h (Running r) <->
     From m ∈ others /\ queue_get (broadcast h) (r_Number r) (From m) = Some m).
Proof.
  intros C Hb. unfold queued. cbn [s_is_broadcast]. rewrite Hb. cbn [s_Number].
  destruct (hc_broadcast _ _ _ _ C) as [_ Q].
  assert (s_SelfID (Running r) = self) as ->
    by (rewrite <- (hc_current _ _ _ _ C); by eapply hcore_self).
  split.
  - apply NoDup_picked; [apply NoDup_order|]. intros [id o] m Hin. cbn. case_decide; [done|].
    intros ->. apply queue_get_order, Q in Hin. apply Hin.
  - intros m. rewrite list_elem_of_omap. split.
    + intros ([id o] & Hin & E). cbn in E. case_decide as Hs; [done|]. subst o.
      apply queue_get_order in Hin. pose proof Hin as (Ef & _ & _ & [Ho|[_ Ho]])%Q; subst id; done.
    + intros [Ho Hq]. exists (From m, Some m). split; [by apply queue_get_order|]. cbn.
      rewrite decide_False; [done|]. intros E. apply self_not_other. by rewrite <- E.
Qed.

Lemma queued_messages h r B M :
  hcore h r B M -> r_is_broadcast r = false ->
  NoDup (From <$> queued h (Running r)) /\
  (forall m, m ∈ queued h (Running r) <->
     From m ∈ others /\ queue_get (messages h) (r_Number r) (From m) = Some m).
Proof.
  intros C Hb. unfold queued. cbn [s_is_broadcast]. rewrite Hb. cbn [s_Number].
  destruct (hc_messages _ _ _ _ C) as [_ Q]. split.
  - apply NoDup_picked; [apply NoDup_order|]. intros [id o] m Hin. cbn. intros ->.
    apply queue_get_order, Q in Hin. apply Hin.
  - intros m. rewrite list_elem_of_omap. split.
    + intros ([id o] & Hin & E). cbn in E. subst o.
      apply queue_get_order in Hin. pose proof Hin as (Ef & _ & _ & [Ho|[? _]])%Q; [|done].
      subst id. done.
    + intros [Ho Hq]. exists (From m, Some m). split; [by apply queue_get_order|done].
Qed.

(** ** The steps of [finalize] *)

Definition running_at (n : Number) (h : handler) : Prop :=
  exists r B M, hcore h r B M /\ bsynced h r B /\ msynced h r B M /\ r_Number r = n.

Lemma process_queued h r :
  hcore h r ∅ ∅ ->
  processed (process (verify_queued (Running r)) h (queued h (Running r)))
    (running_at (r_Number r)).
Proof.
  intros C. unfold verify_queued. cbn [s_is_broadcast]. destruct (r_is_broadcast r) eqn:Hb.
  - destruct (queued_broadcasts h r _ _ C Hb) as [ND Hin].
    destruct (hc_broadcast _ _ _ _ C) as [_ Q].
    eapply processed_mono; [eapply (process_broadcasts _ _ _ _ _ C Hb); [|exact ND|]|].
    + intros _ id _. split; [by intros ?%elem_of_empty|]. intros [_ F]. by apply F.
    + apply list.Forall_forall. intros m [Ho Hq]%Hin. pose proof Hq as (_ & ? & ? & _)%Q.
      rewrite Hq. by split_and!.
    + cbn. intros h' (r' & B' & M' & C' & Sr & Ms & Eq & HB). exists r', B', M'.
      pose proof Sr as (_ & En & _). split; [done|]. split; [|by split].
      intros _ id Hid. rewrite HB, Eq, En. split.
      * intros [?%elem_of_empty|(m & -> & [_ Hq]%Hin)%list_elem_of_fmap]; [done|]. by rewrite Hq.
      * intros [m Hq]. right. apply list_elem_of_fmap. exists m.
        pose proof Hq as (Ef & _)%Q. split; [done|]. apply Hin. by rewrite Ef.
  - destruct (queued_messages h r _ _ C Hb) as [ND Hin].
    destruct (hc_messages _ _ _ _ C) as [_ Q].
    eapply processed_mono; [eapply (process_messages _ _ _ _ _ C Hb); [exact ND|]|].
    + apply list.Forall_forall. intros m [Ho Hq]%Hin. pose proof Hq as (_ & ? & ? & _)%Q.
      by split_and!.
    + cbn. intros h' (r' & M' & C' & Sr & Eq & HM). exists r', ∅, M'.
      pose proof Sr as (_ & En & Eb & _). split; [done|]. split; [intros ?; congruence|].
      split; [|done]. intros _ id Hid. rewrite HM, Eq, En, Eb, Hb. split.
      * intros [?%elem_of_empty|(m & -> & [_ Hq]%Hin)%list_elem_of_fmap]; [done|]. by rewrite Hq.
      * intros [[m Hq] _]. right. apply list_elem_of_fmap. exists m.
        pose proof Hq as (Ef & _)%Q. split; [done|]. apply Hin. by rewrite Ef.
Qed.

(** Only the broadcast hashes may change in [receivedAll]. *)
Lemma receivedAll_frame h : exists bh, (receivedAll h).2 = set_hashes h bh.
Proof.
  assert (exists bh, h = set_hashes h bh) as Hh by (exists (broadcastHashes h); by destruct h).
  unfold receivedAll. destruct (s_is_broadcast _); [|done].
  destruct (broadcast h !! _); [|done]. destruct (mapM _ _); [|done].
  unfold record_hash. cbn [snd]. destruct (broadcastHashes h !! _); [done|eauto].
Qed.

Lemma receivedNormal_hashes h bh : receivedNormal (set_hashes h bh) = receivedNormal h.
Proof. done. Qed.

Lemma receivedNormal_record h msgs : receivedNormal (record_hash h msgs) = receivedNormal h.
Proof. unfold record_hash. by destruct (broadcastHashes h !! _). Qed.

Lemma queue_get_lookup q n qn id : q !! n = Some qn -> queue_get q n id = mjoin (qn !! id).
Proof. unfold queue_get. by intros ->. Qed.

Lemma hcore_hashes h bh r B M :
  hcore h r B M -> hash_ok (set_hashes h bh) -> hcore (set_hashes h bh) r B M.
Proof. intros [] Hh. by constructor. Qed.

(** The hash that [receivedAll] records is that of the current round. *)
Lemma receivedAll_hashes h r B M : hcore h r B M -> hash_ok (receivedAll h).2.
Proof.
  intros C. pose proof (hc_hashes _ _ _ _ C) as Hh. unfold receivedAll.
  destruct (s_is_broadcast _); [|done].
  destruct (broadcast h !! s_Number (currentRound h)) as [q|] eqn:Eq; [|done].
  destruct (mapM _ _) as [msgs|] eqn:Em; [|done]. cbn [snd]. unfold record_hash.
  destruct (broadcastHashes h !! _); [done|]. rewrite (hc_current _ _ _ _ C) in Em, Eq |- *.
  cbn [s_Number s_helper] in *. intros n v. cbn [broadcastHashes set_hashes].
  destruct (decide (n = r_Number r)) as [->|N].
  - rewrite lookup_insert_eq. intros [= <-]. exists (Running r), msgs. split; [apply C|].
    split; [|done]. unfold broadcasts. rewrite <- Em. cbn [broadcast set_hashes].
    destruct (hcore_session _ _ _ _ C) as (_ & -> & _). unfold parties.
    apply mapM_ext. intros id. by apply queue_get_lookup.
  - rewrite lookup_insert_ne by done. apply Hh.
Qed.

Lemma receivedAll_complete h r B M :
  hcore h r B M -> bsynced h r B -> msynced h r B M -> (receivedAll h).1 = true ->
  complete r B M.
Proof.
  intros C Bs Ms E Hn id Hid.
  rewrite (hcore_final _ _ _ _ C) in Hn. rewrite (hcore_others _ _ _ _ C) in Hid.
  pose proof (hcore_session _ _ _ _ C) as (_ & Ep & Eo & _).
  destruct (proj2 (proj1 (hc_broadcast _ _ _ _ C) (r_Number r)) Hn) as [qb Eqb].
  destruct (proj2 (proj1 (hc_messages _ _ _ _ C) (r_Number r)) Hn) as [qm Eqm].
  assert (r_is_broadcast r = true -> id ∈ B) as HB.
  { intros Hb. apply (Bs Hb id Hid). rewrite (queue_get_lookup _ _ _ _ Eqb).
    unfold receivedAll in E. rewrite (hc_current _ _ _ _ C) in E. cbn in E. rewrite Hb, Eqb in E.
    destruct (mapM _ _) as [msgs|] eqn:Em; [|done]. apply mapM_Some_1 in Em.
    apply (Forall2_Forall_l _ (fun id => is_Some (mjoin (qb !! id)))) in Em.
    - rewrite list.Forall_forall in Em. apply Em. rewrite Ep. apply elem_of_parties. by right.
    - apply list.Forall_forall. intros m _ id' Hm. by exists m. }
  split; [done|]. intros He. apply (Ms He id Hid). split; [|done].
  rewrite (queue_get_lookup _ _ _ _ Eqm).
  assert (forallb (fun id => bool_decide (is_Some (mjoin (qm !! id)))) others = true) as Hall.
  { assert (receivedNormal h = true) as En.
    { unfold receivedAll in E. rewrite (hc_current _ _ _ _ C) in E. cbn in E.
      destruct (r_is_broadcast r); [|done]. rewrite Eqb in E. destruct (mapM _ _); [|done].
      cbn in E. by rewrite receivedNormal_record in E. }
    unfold receivedNormal, expectsNormalMessage in En. rewrite (hc_current _ _ _ _ C) in En.
    cbn in En. rewrite bool_decide_true, Eqm in En by exact He. unfold others. by rewrite <- Eo. }
  rewrite forallb_forall in Hall. specialize (Hall id). rewrite <- list_elem_of_In in Hall.
  specialize (Hall Hid). by apply bool_decide_eq_true in Hall.
Qed.

(** Storing a message of a party keeps the queues in order. *)
Lemma hash_ok_store_at h msg :
  hash_ok h -> queue_dom (broadcast h) ->
  From msg ∈ parties -> queue_get (queue_of h msg) (RoundNumber msg) (From msg) = None ->
  hash_ok (store_at h msg).
Proof.
  intros Hh D Hp Hq. unfold store_at, queue_of in *. destruct (Broadcast msg); [|exact Hh].
  intros n v Hv. destruct (Hh n v Hv) as (s & msgs & Es & Em & Ev). exists s, msgs.
  split; [done|]. split; [|done]. unfold broadcasts in *. cbn [broadcast set_broadcast].
  destruct (broadcast h !! RoundNumber msg) as [qn|] eqn:E.
  2: { unfold queue_insert. by rewrite E. }
  assert (2 <= RoundNumber msg <= final) as Hn by (apply D; eauto).
  rewrite <- Em. apply mapM_Some in Em.
  assert (Forall (fun id => is_Some (queue_get (broadcast h) n id)) parties) as Hall.
  { apply (Forall2_Forall_l _ _ _ _ Em). apply list.Forall_forall. intros m _ id Hm. by exists m. }
  clear Em Ev. revert Hp Hall. generalize parties. intros l Hp Hall.
  assert (n = RoundNumber msg -> False) as Hne.
  { intros ->. rewrite list.Forall_forall in Hall. destruct (Hall _ Hp). congruence. }
  apply mapM_ext. intros id. rewrite queue_get_insert by done.
  rewrite decide_False; [done|]. tauto.
Qed.

Lemma hcore_store_at h r B M msg :
  hcore h r B M -> queue_get (queue_of h msg) (RoundNumber msg) (From msg) = None ->
  (From msg ∈ others \/ Broadcast msg = true /\ From msg = self) ->
  hcore (store_at h msg) r B M.
Proof.
  intros C Hq Hf. assert (hash_ok (store_at h msg)) as C10.
  { apply hash_ok_store_at; [apply C|apply C| |done]. apply elem_of_parties. tauto. }
  destruct C as [C1 C2 C3 C4 C5 C6 C7 [D8 C8] [D9 C9] _]. unfold store_at in *.
  destruct (Broadcast msg) eqn:Eb; constructor; cbn; try done.
  - split; [by apply queue_dom_insert|].
    destruct (broadcast h !! RoundNumber msg) as [qn|] eqn:E.
    + apply queue_ok_insert; try done. apply D9. eauto.
    + unfold queue_insert. by rewrite E.
  - split; [by apply queue_dom_insert|].
    destruct (messages h !! RoundNumber msg) as [qn|] eqn:E.
    + apply queue_ok_insert; try done. apply D8. eauto.
    + unfold queue_insert. by rewrite E.
Qed.

Lemma hcore_store h r B M msg :
  hcore h r B M -> (From msg ∈ others \/ Broadcast msg = true /\ From msg = self) ->
  hcore (store h msg) r B M.
Proof. intros C Hf. rewrite store_spec. case_decide; [by apply hcore_store_at|done]. Qed.

Lemma hcore_send h r B M msg : hcore h r B M -> wp (send h msg) (fun h' => hcore h' r B M).
Proof.
  intros C. unfold send. rewrite (hc_open _ _ _ _ C). destruct (try_send _ _); [|done].
  destruct C. by constructor.
Qed.

Lemma forward_wp msgs h r B M s :
  hcore h r B M -> s_SelfID s = self ->
  (never_panics r0 -> Forall (fun m => is_ret (cbor_Marshal (rm_Content m)) = true) msgs) ->
  wp (forward h s msgs) (fun h' => hcore h' r B M).
Proof.
  intros C Hs. revert h C. induction msgs as [|m msgs IH]; intros h C F; [done|]. cbn [forward].
  assert (never_panics r0 -> is_ret (cbor_Marshal (rm_Content m)) = true) as Hm
    by (intros NP%F; by inversion NP).
  destruct (cbor_Marshal (rm_Content m)) as [data|e|p]; [|intros NP%Hm; done..].
  apply wp_bind. eapply wp_mono.
  - apply hcore_send. destruct (Broadcast (outgoing h s m data)) eqn:Eb; [|exact C].
    apply hcore_store; [exact C|]. right. by split.
  - intros h' C'. apply IH; [done|]. intros NP%F. by inversion NP.
Qed.

Lemma hcore_rand h rand r B M : hcore h r B M -> hcore (set_rand h rand) r B M.
Proof. intros []. by constructor. Qed.

Lemma hash_ok_enter h n s : hash_ok h -> rounds h !! n = None -> hash_ok (enter_round h n s).
Proof.
  intros Hh Hn k v Hv. destruct (Hh k v Hv) as (s' & msgs & Es & Em & Ev). exists s', msgs.
  cbn [rounds enter_round]. rewrite lookup_insert_ne by congruence. done.
Qed.

Lemma hcore_enter h r B M r' rand out' rand' :
  hcore h r B M -> complete r B M ->
  r_Finalize r rand (fresh_out r) = (Ret (Running r'), out', rand') ->
  rounds h !! r_Number r' = None /\ hcore (enter_round h (r_Number r') (Running r')) r' ∅ ∅.
Proof.
  intros C Hc E. destruct (rl_next _ _ _ _ _ _ E) as [En _].
  assert (rounds h !! r_Number r' = None) as Hnew.
  { destruct (rounds h !! r_Number r') eqn:Er; [|done].
    pose proof (hc_rounds _ _ _ _ C (r_Number r') ltac:(eauto)). lia. }
  split; [done|]. destruct C as [C1 C2 C3 C4 C5 C6 C7 C8 C9 C10]. constructor; cbn; try done.
  - by rewrite lookup_insert_eq.
  - intros n. pose proof (rl_number r). destruct (decide (n = r_Number r')) as [->|N]; [lia|].
    rewrite lookup_insert_ne by done. intros Hn%C6. lia.
  - by eapply reached_next.
  - by apply hash_ok_enter.
Qed.

(** The executions of [finalize] after [Finalize] has returned [s]. *)
Lemma finalize_wp fuel h n :
  running_at n h -> 2 ^ 16 - n < Z.of_nat fuel -> wp (finalize fuel h) hinv.
Proof.
  revert h n. induction fuel as [|fuel IH]; intros h n (r & B & M & C & Bs & Ms & En) Hf.
  { pose proof (rl_number r). lia. }
  cbn [finalize]. pose proof (receivedAll_complete h r B M C Bs Ms) as Hc.
  destruct (receivedAll_frame h) as [bh Ebh]. destruct (receivedAll h) as [all h'] eqn:Era.
  cbn in Ebh, Hc. subst h'. pose proof (receivedAll_hashes h r B M C) as Hh. rewrite Era in Hh. cbn in Hh.
  pose proof (hcore_hashes _ bh _ _ _ C Hh) as C'.
  destruct all; cbn [negb]; [|left; exists r, B, M; by split_and!].
  destruct (checkBroadcastHash _); cbn [negb]; [|by eapply hcore_abort].
  specialize (Hc eq_refl). set (h1 := set_hashes h bh) in *.
  rewrite (hc_current _ _ _ _ C'). cbn [s_Finalize s_helper]. change (mkChan _ _) with (fresh_out r).
  destruct (r_Finalize r (h_rand h1) (fresh_out r)) as [[s rout] rand] eqn:Ef.
  destruct s as [s|e|p].
  2: { eapply hcore_abort, hcore_rand. exact C'. }
  2: { intros NP. destruct (np_finalize _ NP _ _ _ _ _ _ _ (hc_reached _ _ _ _ C) Hc Ef) as [Hp _]. by eapply Hp. }
  apply wp_bind. eapply wp_mono; [eapply forward_wp; [apply hcore_rand, C'| |]|].
  { assert (same_session (r_helper r) (s_helper s)) as (Ei & _).
    { destruct s; [by eapply rl_next|by eapply rl_output|by eapply rl_abort]. }
    unfold s_SelfID. rewrite Ei. destruct (hcore_session _ _ _ _ C) as (-> & _). done. }
  { intros NP. by destruct (np_finalize _ NP _ _ _ _ _ _ _ (hc_reached _ _ _ _ C) Hc Ef). }
  cbn beta. intros h2 C2.
  assert (rounds h2 !! 0 = None) as H0.
  { destruct (rounds h2 !! 0) eqn:E0; [|done].
    pose proof (hc_rounds _ _ _ _ C2 0 ltac:(eauto)). lia. }
  destruct s as [r'|hh res|hh e c]; cbn [s_Number].
  - destruct (hcore_enter _ _ _ _ _ _ _ _ C2 Hc Ef) as [Hnew C3]. rewrite Hnew.
    pose proof (process_queued _ _ C3) as P.
    change (r_Number r') with (s_Number (Running r')) in P at 1 2. cbn [s_Number] in P.
    destruct (process _ _ _) as [m []]; cbn in P.
    + destruct m as [h3| | |]; [|done..]. cbn [hbind]. apply (IH _ _ P).
      destruct (rl_next _ _ _ _ _ _ Ef) as [-> _]. lia.
    + done.
  - rewrite H0. unfold abort. cbn. rewrite (hc_open _ _ _ _ C2). right. split; [done|].
    split; [right; cbn; eauto|]. cbn. split.
    + intros res' [= <-]. by econstructor; [apply C|..].
    + exact (hash_ok_enter _ _ _ (hc_hashes _ _ _ _ C2) H0).
  - rewrite H0. eapply wp_mono; [apply abort_err_wp; try apply C2|].
    + apply hash_ok_enter; [apply C2|done].
    + intros h3 F. by right.
Qed.

(** ** [Accept] *)

Lemma CanAccept_spec h r B M msg :
  hcore h r B M -> CanAccept h msg = true ->
  From msg ∈ others /\ (RoundNumber msg < r_Number r -> RoundNumber msg <= 0).
Proof.
  intros C. pose proof (hcore_session _ _ _ _ C) as (Ei & Ep & _ & _). unfold CanAccept.
  rewrite (hcore_self _ _ _ _ C). rewrite (hc_current _ _ _ _ C). cbn [s_helper s_Number].
  rewrite Ep. unfold IsFor. case_decide as Hf; [done|]. cbn [negb].
  destruct (_ || _); cbn [negb]; [|done]. destruct (negb (bool_decide _)); [done|].
  destruct (negb (bytes_Equal _ _)); [done|].
  destruct (Contains _ _) eqn:Hc; cbn [negb]; [|done]. destruct (Data msg); [|done].
  destruct (bool_decide (_ < _)); [done|].
  destruct (bool_decide_reflect (RoundNumber msg < r_Number r /\ 0 < RoundNumber msg)); [done|].
  intros _. split; [|lia]. apply Contains_spec in Hc; [|apply Valid_le, (so_valid _ S0)].
  rewrite list.Forall_singleton in Hc. apply elem_of_parties in Hc as [E|?]; [|done]. done.
Qed.

Lemma duplicate_false h r B M msg :
  hcore h r B M -> duplicate h msg = false -> RoundNumber msg <> 0 ->
  2 <= RoundNumber msg <= final /\
  queue_get (queue_of h msg) (RoundNumber msg) (From msg) = None.
Proof.
  intros C E N. unfold duplicate in E. rewrite decide_False in E by done.
  destruct (queue_of h msg !! RoundNumber msg) as [q|] eqn:Eq; [|done].
  rewrite (queue_get_lookup _ _ _ _ Eq). destruct (mjoin _); [done|]. split; [|done].
  destruct (hc_messages _ _ _ _ C) as [Dm _], (hc_broadcast _ _ _ _ C) as [Db _].
  unfold queue_of in Eq. destruct (Broadcast msg); [apply Db|apply Dm]; eauto.
Qed.

(** A broadcast for a round that expects none is refused. *)
Lemma verifyBroadcast_refused h r B M msg :
  hcore h r B M -> RoundNumber msg = r_Number r -> Broadcast msg = true ->
  r_is_broadcast r = false -> exists e, verifyBroadcastMessage h msg = Fail e.
Proof.
  intros C En Eb Hb. unfold verifyBroadcastMessage, getRoundMessage.
  rewrite En, (hc_round _ _ _ _ C), Eb. cbn [s_is_broadcast]. rewrite Hb. cbn. eauto.
Qed.

Lemma bsynced_store h r B M msg :
  hcore h r B M -> bsynced h r B -> Broadcast msg = true -> RoundNumber msg = r_Number r ->
  2 <= RoundNumber msg <= final -> bsynced (store_at h msg) r ({[From msg]} ∪ B).
Proof.
  intros C Bs Eb En Hn Hb id Hid. unfold store_at. rewrite Eb. cbn [broadcast set_broadcast].
  destruct (hc_broadcast _ _ _ _ C) as [D _]. rewrite queue_get_insert by done.
  rewrite elem_of_union, elem_of_singleton, (Bs Hb id Hid), En.
  case_decide as Hd; [destruct Hd; split; eauto|].
  split; [|tauto]. intros [->|?]; [|done]. by destruct Hd.
Qed.

Lemma msynced_store h r B M msg :
  hcore h r B M -> msynced h r B M -> Broadcast msg = false -> RoundNumber msg = r_Number r ->
  2 <= RoundNumber msg <= final ->
  msynced (store_at h msg) r B
    (if r_is_broadcast r && negb (bool_decide (From msg ∈ B)) then M else {[From msg]} ∪ M).
Proof.
  intros C Ms Eb En Hn He id Hid. unfold store_at. rewrite Eb. cbn [messages set_messages].
  destruct (hc_messages _ _ _ _ C) as [D _]. rewrite queue_get_insert by done.
  pose proof (Ms He id Hid) as Hi. rewrite En.
  assert (is_Some (Some msg)) as Hsome by eauto. assert (true = true) as Htt by done.
  destruct (r_is_broadcast r) eqn:Hb; cbn [andb].
  - destruct (bool_decide_reflect (From msg ∈ B)) as [HB|HB]; cbn [negb];
      rewrite ?elem_of_union, ?elem_of_singleton, Hi;
      (case_decide as Hd; [destruct Hd as [_ ->]; tauto|]); [|done].
    split; [intros [->|?]; [by destruct Hd|done]|tauto].
  - rewrite elem_of_union, elem_of_singleton, Hi.
    case_decide as Hd; [destruct Hd as [_ ->]; split; [|tauto]; done|].
    split; [intros [->|?]; [by destruct Hd|done]|tauto].
Qed.

(** A stored message of another round leaves the current round synchronised. *)
Lemma running_store_other h r B M msg :
  hcore h r B M -> bsynced h r B -> msynced h r B M -> From msg ∈ others ->
  2 <= RoundNumber msg <= final -> RoundNumber msg <> r_Number r ->
  queue_get (queue_of h msg) (RoundNumber msg) (From msg) = None -> running (store_at h msg).
Proof.
  intros C Bs Ms Hf Hn N Hq. exists r, B, M. split; [apply hcore_store_at; auto|].
  destruct (hc_messages _ _ _ _ C) as [Dm _], (hc_broadcast _ _ _ _ C) as [Db _].
  unfold store_at. destruct (Broadcast msg); split; try done.
  - intros Hb id Hid. cbn. rewrite queue_get_insert, decide_False by (done || (intros []; congruence)).
    by apply Bs.
  - intros He id Hid. cbn. rewrite queue_get_insert, decide_False by (done || (intros []; congruence)).
    by apply Ms.
Qed.

(** The current round takes a broadcast that has just been stored. *)
Lemma accept_broadcast h r B M msg :
  hcore h r B M -> bsynced h r B -> msynced h r B M -> From msg ∈ others ->
  2 <= RoundNumber msg <= final -> RoundNumber msg = r_Number r -> Broadcast msg = true ->
  queue_get (broadcast h) (r_Number r) (From msg) = None ->
  match verifyBroadcastMessage (store_at h msg) msg with
  | Ret h' => running_at (r_Number r) h'
  | Fail _ => True
  | Panic _ => ~ never_panics r0
  end.
Proof.
  intros C Bs Ms Hf Hn En Eb Hq.
  assert (hcore (store_at h msg) r B M) as C1
    by (apply hcore_store_at; [done|unfold queue_of; by rewrite Eb, En|auto]).
  destruct (r_is_broadcast r) eqn:Hb.
  2: { destruct (verifyBroadcast_refused _ _ _ _ _ C1 En Eb Hb) as [e ->]. done. }
  assert (From msg ∉ B) as HB by (rewrite (Bs Hb _ Hf), Hq; intros [? [=]]).
  assert (expects r -> From msg ∉ M) as HM by (intros He Hm%(Ms He); [tauto|done]).
  pose proof (bsynced_store h r B M msg C Bs Eb En Hn) as Bs1.
  assert (messages (store_at h msg) = messages h) as Em by (unfold store_at; by rewrite Eb).
  pose proof (verifyBroadcastMessage_spec _ r B M msg C1 En Eb Hf HB HM
    (proj1 (Bs1 Hb _ Hf) (elem_of_union_l _ _ _ (elem_of_singleton_2 _ _ eq_refl)))) as V.
  destruct (verifyBroadcastMessage _ _) as [h'|e|p]; [|done|exact V].
  destruct V as (_ & M' & (r' & -> & Sr & C') & EM). pose proof Sr as (_ & En' & Eb' & _).
  exists r', ({[From msg]} ∪ B), M'. split; [exact C'|]. split; [|split; [|done]].
  - intros _ id Hid. rewrite En'. by apply Bs1.
  - rewrite Em in EM. eapply (msynced_ext h); [exact Sr|done|exact EM|]. by apply msynced_broadcast.
Qed.

Lemma accept_message h r B M msg :
  hcore h r B M -> bsynced h r B -> msynced h r B M -> From msg ∈ others ->
  2 <= RoundNumber msg <= final -> RoundNumber msg = r_Number r -> Broadcast msg = false ->
  queue_get (messages h) (r_Number r) (From msg) = None ->
  match verifyMessage (store_at h msg) msg with
  | Ret h' => running_at (r_Number r) h'
  | Fail _ => True
  | Panic _ => ~ never_panics r0
  end.
Proof.
  intros C Bs Ms Hf Hn En Eb Hq.
  assert (hcore (store_at h msg) r B M) as C1
    by (apply hcore_store_at; [done|unfold queue_of; by rewrite Eb, En|auto]).
  assert (expects r -> From msg ∉ M) as HM.
  { intros He Hm%(Ms He); [|done]. destruct Hm as [[? ?] _]. congruence. }
  pose proof (msynced_store h r B M msg C Ms Eb En Hn) as Ms1.
  assert (broadcast (store_at h msg) = broadcast h) as Ebr by (unfold store_at; by rewrite Eb).
  assert (bsynced (store_at h msg) r B) as Bs1.
  { intros Hb id Hid. rewrite Ebr. by apply Bs. }
  pose proof (verifyMessage_spec _ r B M msg C1 En Eb Hf HM (fun Hb => Bs1 Hb _ Hf)) as V.
  destruct (verifyMessage _ _) as [h'|e|p]; [|done|exact V].
  destruct (r_is_broadcast r && _); [subst h'; exists r, B, M; by split_and!|].
  destruct V as (_ & r' & -> & Sr & C'). pose proof Sr as (_ & En' & Eb' & _).
  exists r', B, ({[From msg]} ∪ M). split; [exact C'|]. split; [|split; [|done]].
  - intros Hb id Hid. rewrite En'. apply Bs1; congruence.
  - by eapply (msynced_ext (store_at h msg)).
Qed.

Lemma finalize_fuel_enough n : 1 <= n -> 2 ^ 16 - n < Z.of_nat finalize_fuel.
Proof. Transparent finalize_fuel. unfold finalize_fuel. Opaque finalize_fuel. rewrite Z2Nat.id by lia. lia. Qed.

Lemma running_at_number n h : running_at n h -> 1 <= n.
Proof. intros (r & _ & _ & _ & _ & _ & <-). pose proof (rl_number r). lia. Qed.

(** Every message is handled: the invariant is preserved, the call ends. *)
Lemma Accept_wp h msg : hinv h -> wp (Accept h msg) hinv.
Proof.
  intros [(r & B & M & C & Bs & Ms)|F]; unfold Accept.
  2: { pose proof F as (_ & Hf & _).
       assert (negb (CanAccept h msg) || bool_decide (is_Some (err h))
               || bool_decide (is_Some (result h)) || duplicate h msg = true) as ->; [|by right].
       destruct Hf as [He|Hr].
       - by rewrite (bool_decide_true _ He), !orb_true_r.
       - by rewrite (bool_decide_true _ Hr), orb_true_r. }
  destruct (_ || _) eqn:Eguard; [left; by exists r, B, M|].
  apply orb_false_iff in Eguard as [Eguard Hdup]. apply orb_false_iff in Eguard as [Eguard _].
  apply orb_false_iff in Eguard as [Hcan%negb_false_iff _].
  destruct (CanAccept_spec _ _ _ _ _ C Hcan) as [Hf Hlt].
  case_decide as H0; [by eapply hcore_abort|].
  destruct (duplicate_false _ _ _ _ _ C Hdup H0) as [Hn Hq].
  assert (store h msg = store_at h msg) as -> by (rewrite store_spec; by rewrite decide_True).
  assert (hcore (store_at h msg) r B M) as C1 by (apply hcore_store_at; auto).
  rewrite (hc_current _ _ _ _ C1). cbn [s_Number].
  case_decide as Hr; [left; by eapply running_store_other|]. symmetry in Hr.
  unfold queue_of in Hq. rewrite Hr in Hq.
  destruct (Broadcast msg) eqn:Eb.
  - pose proof (accept_broadcast h r B M msg C Bs Ms Hf Hn Hr Eb Hq) as V.
    destruct (verifyBroadcastMessage _ _); [|by eapply hcore_abort|exact V].
    eapply finalize_wp, finalize_fuel_enough, running_at_number; exact V.
  - pose proof (accept_message h r B M msg C Bs Ms Hf Hn Hr Eb Hq) as V.
    destruct (verifyMessage _ _); [|by eapply hcore_abort|exact V].
    eapply finalize_wp, finalize_fuel_enough, running_at_number; exact V.
Qed.

(** ** The first state *)

Lemma newQueue_lookup senders n k :
  newQueue senders n !! k =
  if decide (2 <= k <= n) then Some (list_to_map ((fun id => (id, None)) <$> senders)) else None.
Proof.
  unfold newQueue. set (q := list_to_map ((fun id => (id, None)) <$> senders)).
  assert (NoDup ((fun i => (i, q)) <$> seqZ 2 (n - 1)).*1) as ND.
  { rewrite <- list_fmap_compose. rewrite (list_fmap_ext _ id); [|done].
    rewrite list_fmap_id. apply NoDup_seqZ. }
  case_decide as Hd.
  - apply elem_of_list_to_map_1; [exact ND|]. apply list_elem_of_fmap. exists k. split; [done|].
    apply elem_of_seqZ. lia.
  - apply not_elem_of_list_to_map. intros ([i q'] & -> & Hin)%list_elem_of_fmap.
    apply list_elem_of_fmap in Hin as (j & [= -> ->] & Hj%elem_of_seqZ). cbn in Hd. lia.
Qed.

Lemma queue_get_new senders n k id : queue_get (newQueue senders n) k id = None.
Proof.
  unfold queue_get. rewrite newQueue_lookup. case_decide; [|done].
  destruct (_ !! id) as [[m|]|] eqn:E; [|done..].
  apply elem_of_list_to_map_2, list_elem_of_fmap in E as (? & [=] & _).
Qed.

Lemma newQueue_dom senders : queue_dom (newQueue senders final).
Proof.
  intros n. rewrite newQueue_lookup. case_decide; split; try done; eauto.
Qed.

Lemma initial_running rand : running_at (r_Number r0) (initial_handler (Running r0) rand).
Proof.
  exists r0, ∅, ∅. split_and!; [|..|done].
  - constructor; try done.
    + apply lookup_singleton_eq.
    + intros n Hn. cbn [rounds initial_handler s_Number] in Hn. pose proof (rl_number r0).
      destruct (decide (r_Number r0 = n)) as [<-|N]; [lia|].
      rewrite lookup_singleton_ne in Hn by done. by destruct Hn.
    + constructor.
    + split; [apply newQueue_dom|intros n id m; cbn; by rewrite queue_get_new].
    + split; [apply newQueue_dom|intros n id m; cbn; by rewrite queue_get_new].
  - intros _ id _. cbn. rewrite queue_get_new. split; [by intros ?%elem_of_empty|by intros []].
  - intros _ id _. cbn. rewrite queue_get_new. split; [by intros ?%elem_of_empty|by intros [[] _]].
Qed.

(** ** Runs *)

(** The states of a handler that is created on the first round, given
    messages, and read from. *)
Inductive handler_run (rand : reader) : handler -> Prop :=
| run_new h : finalize finalize_fuel (initial_handler (Running r0) rand) = HOk h -> handler_run rand h
| run_accept h msg h' : handler_run rand h -> Accept h msg = HOk h' -> handler_run rand h'
| run_receive h m h' : handler_run rand h -> Receive h = Some (m, h') -> handler_run rand h'.

Lemma initial_wp rand : wp (finalize finalize_fuel (initial_handler (Running r0) rand)) hinv.
Proof.
  eapply finalize_wp; [apply initial_running|]. apply finalize_fuel_enough. apply rl_number.
Qed.

Lemma hinv_set_out h c : hinv h -> hinv (set_out h c).
Proof.
  intros [(r & B & M & [] & Bs & Ms)|(F1 & F2 & F3 & F4)]; [left|by right].
  exists r, B, M. split; [by constructor|by split].
Qed.

Lemma handler_run_inv rand h : handler_run rand h -> hinv h.
Proof.
  induction 1 as [h E|h msg h' _ IH E|h m h' _ IH E].
  - pose proof (initial_wp rand) as W. by rewrite E in W.
  - pose proof (Accept_wp h msg IH) as W. by rewrite E in W.
  - unfold Receive in E. destruct (ch_buf (out h)); [done|]. injection E as _ <-.
    by apply hinv_set_out.
Qed.

End Inv.
