(* ===== verification/TwoParty.v ===== *)
(** * pkg/protocol/twoparty.go: the handler for two parties

    [TwoPartyHandler] drives the rounds of a protocol between two parties.  It
    keeps the last message it was given for every round number, and moves on
    as long as the current round has its message or needs none.  It refines
    an execution in which every round processes at most one message. *)

From Stdlib Require Import ZArith Lia.
From Stdlib Require Import Strings.Byte.
From stdpp Require Import base gmap strings list pretty numbers.
From S2P Require Import Prelude Hash Party Round Message Handler HandlerSpec.

Local Open Scope Z_scope.

Section TwoParty.
Context {R Content Result : Type} {RO : RoundOps R Content Result} `{Blake3}.

Abbreviation session := (Session R Result).

Record TwoPartyHandler := mkTwoParty {
  tp_round : session;
  tp_leader : bool;
  tp_err : option string;
  tp_result : option Result;
  tp_messages : gmap Number Message;
  tp_out : chan Message;
  tp_closed : bool;
  tp_rand : reader
}.

(** How a call ends. *)
Inductive tres :=
| TOk (h : TwoPartyHandler)
| TPanic (p : string)
| TBlocked
| TFuel.

Definition tbind (m : tres) (f : TwoPartyHandler -> tres) : tres :=
  match m with TOk h => f h | TPanic p => TPanic p | TBlocked => TBlocked | TFuel => TFuel end.

Definition tp_set_round (h : TwoPartyHandler) (r : session) : TwoPartyHandler :=
  mkTwoParty r (tp_leader h) (tp_err h) (tp_result h) (tp_messages h) (tp_out h) (tp_closed h) (tp_rand h).

Definition tp_set_result (h : TwoPartyHandler) (res : Result) : TwoPartyHandler :=
  mkTwoParty (tp_round h) (tp_leader h) (tp_err h) (Some res) (tp_messages h) (tp_out h) (tp_closed h) (tp_rand h).

Definition tp_set_out (h : TwoPartyHandler) (c : chan Message) : TwoPartyHandler :=
  mkTwoParty (tp_round h) (tp_leader h) (tp_err h) (tp_result h) (tp_messages h) c (tp_closed h) (tp_rand h).

Definition tp_set_rand (h : TwoPartyHandler) (rand : reader) : TwoPartyHandler :=
  mkTwoParty (tp_round h) (tp_leader h) (tp_err h) (tp_result h) (tp_messages h) (tp_out h) (tp_closed h) rand.

Definition tp_set_err (h : TwoPartyHandler) (e : string) : TwoPartyHandler :=
  mkTwoParty (tp_round h) (tp_leader h) (Some e) (tp_result h) (tp_messages h) (tp_out h) (tp_closed h) (tp_rand h).

Definition tp_close (h : TwoPartyHandler) : TwoPartyHandler :=
  mkTwoParty (tp_round h) (tp_leader h) (tp_err h) (tp_result h) (tp_messages h) (tp_out h) true (tp_rand h).

(** [h.messages[msg.RoundNumber] = msg] *)
Definition tp_store (h : TwoPartyHandler) (msg : Message) : TwoPartyHandler :=
  mkTwoParty (tp_round h) (tp_leader h) (tp_err h) (tp_result h) (<[RoundNumber msg := msg]> (tp_messages h))
    (tp_out h) (tp_closed h) (tp_rand h).

Definition tp_Result (h : TwoPartyHandler) : outcome Result :=
  match tp_result h with
  | Some r => Ret r
  | None => match tp_err h with
            | Some e => Fail e
            | None => Fail "protocol: not finished"
            end
  end.

Definition tp_finished (h : TwoPartyHandler) : bool :=
  bool_decide (is_Some (tp_err h)) || bool_decide (is_Some (tp_result h)).

(** [abort]: the notification is dropped when the channel is full. *)
Definition tp_abort (h : TwoPartyHandler) (e : option string) : tres :=
  if tp_closed h
  then TPanic (match e with Some _ => "send on closed channel" | None => "close of closed channel" end)
  else match e with
       | Some e =>
           let h := tp_set_err h e in
           let r := tp_round h in
           let msg := mkMessage (Some (ssid (s_helper r))) (s_SelfID r) ""
                        (ProtocolID (info (s_helper r))) 0 (Some (bytes_of_string e)) false None in
           TOk (tp_close (match try_send (tp_out h) msg with Some c => tp_set_out h c | None => h end))
       | None => TOk (tp_close h)
       end.

(** [Stop], with the condition as it is written. *)
Definition tp_Stop (h : TwoPartyHandler) : tres :=
  if tp_finished h then tp_abort h (Some "aborted by user") else TOk h.

Definition canAdvance (h : TwoPartyHandler) : bool :=
  match s_MessageContent (tp_round h) with
  | None => true
  | Some _ => bool_decide (is_Some (tp_messages h !! s_Number (tp_round h)))
  end.

(** Decoding into a nil content is an error of the decoder. *)
Definition extractRoundMessage (r : session) (msg : Message) : outcome (round_Message Content) :=
  content ← wrap_err "failed to unmarshal message: "
              (match s_MessageContent r with
               | Some c => cbor_Unmarshal c (default [] (Data msg))
               | None => Fail "cbor: Unmarshal(nil)"
               end);
  Ret (mkRoundMessage (From msg) (To msg) (Broadcast msg) content).

(** [verifyMessage] on a message that may be nil: the updated round. *)
Definition tp_verifyMessage (r : session) (msg : option Message) : outcome session :=
  match msg with
  | None => Ret r
  | Some msg =>
      roundMsg ← extractRoundMessage r msg;
      _ ← round_err (s_Number r) (s_VerifyMessage r roundMsg);
      round_err (s_Number r) (s_StoreMessage r roundMsg)
  end.

(** The header of a message of the next round. *)
Definition tp_outgoing (r : session) (roundMsg : round_Message Content) (data : bytes) : Message :=
  mkMessage (Some (ssid (s_helper r))) (s_SelfID r) (rm_To roundMsg) (ProtocolID (info (s_helper r)))
    (c_RoundNumber (rm_Content roundMsg)) (Some data) (rm_Broadcast roundMsg) None.

Fixpoint tp_forward (h : TwoPartyHandler) (r : session) (msgs : list (round_Message Content)) : tres :=
  match msgs with
  | [] => TOk h
  | roundMsg :: msgs =>
      match cbor_Marshal (rm_Content roundMsg) with
      | Ret data =>
          if tp_closed h then TPanic "send on closed channel"
          else match try_send (tp_out h) (tp_outgoing r roundMsg data) with
               | Some c => tp_forward (tp_set_out h c) r msgs
               | None => TBlocked
               end
      | Fail e => TPanic ("failed to marshal round message: " +:+ e)
      | Panic p => TPanic p
      end
  end.

(** [advance].  The channel given to [Finalize] holds one message. *)
Fixpoint tp_advance (fuel : nat) (h : TwoPartyHandler) : tres :=
  match fuel with
  | O => TFuel
  | S fuel =>
      if negb (canAdvance h) then TOk h
      else
        match tp_verifyMessage (tp_round h) (tp_messages h !! s_Number (tp_round h)) with
        | Fail e => tp_abort h (Some e)
        | Panic p => TPanic p
        | Ret r =>
            let h := tp_set_round h r in
            match s_Finalize r (tp_rand h) (mkChan 1 []) with
            | (Fail e, _, rand) => tp_abort (tp_set_rand h rand) (Some e)
            | (Panic p, _, _) => TPanic p
            | (Ret newRound, out, rand) =>
                tbind (tp_forward (tp_set_rand h rand) newRound (ch_buf out)) (fun h =>
                  let h := tp_set_round h newRound in
                  match newRound with
                  | Abort _ e _ => tp_abort h (Some e)
                  | Output _ res => tp_abort (tp_set_result h res) None
                  | Running _ => tp_advance fuel h
                  end)
            end
        end
  end.

Definition tp_CanAccept (h : TwoPartyHandler) (msg : Message) : bool :=
  let r := tp_round h in
  if negb (IsFor msg (s_SelfID r)) then false
  else if negb (bool_decide (Protocol msg = ProtocolID (info (s_helper r)))) then false
  else if negb (bytes_Equal (SSID msg) (Some (ssid (s_helper r)))) then false
  else if negb (Contains (partyIDs (s_helper r)) [From msg]) then false
  else match Data msg with
       | None => false
       | Some _ => if bool_decide (s_FinalRoundNumber r < RoundNumber msg) then false else true
       end.

Definition tp_Accept (h : TwoPartyHandler) (msg : Message) : tres :=
  if negb (tp_CanAccept h msg) || tp_finished h then TOk h
  else if decide (RoundNumber msg = 0)
  then tp_abort h (Some ("aborted by other party with error: " +:+ dquote +:+
                         String.string_of_list_byte (default [] (Data msg)) +:+ dquote))
  else tp_advance finalize_fuel (tp_store h msg).

Definition tp_initial (r : session) (leader : bool) (rand : reader) : TwoPartyHandler :=
  mkTwoParty r leader None None ∅ (mkChan 2 []) false rand.

Definition NewTwoPartyHandler (create : option bytes -> outcome session) (sessionID : option bytes)
    (leader : bool) (rand : reader) : outcome tres :=
  r ← wrap_err "protocol: failed to create round: " (create sessionID);
  let h := tp_initial r leader rand in
  Ret (if leader then tp_advance finalize_fuel h else TOk h).

(** Reading one message from the channel that [Listen] returns. *)
Definition tp_Receive (h : TwoPartyHandler) : option (Message * TwoPartyHandler) :=
  match ch_buf (tp_out h) with
  | [] => None
  | m :: buf => Some (m, tp_set_out h (mkChan (ch_cap (tp_out h)) buf))
  end.

(** ** The abstract execution

    [pair_reached r0 r]: round [r] is reached and has not processed anything. *)

(** A round after the message it expects, if it expects one. *)
Inductive served (r : R) : R -> Prop :=
| served_none : r_MessageContent r = None -> served r r
| served_message m r' :
    expects r -> r_VerifyMessage r m = Ret tt -> r_StoreMessage r m = Ret r' -> served r r'.

Inductive pair_reached (r0 : R) : R -> Prop :=
| pair_start : pair_reached r0 r0
| pair_next r r1 rand r' out' rand' :
    pair_reached r0 r -> served r r1 ->
    r_Finalize r1 rand (mkChan 1 []) = (Ret (Running r'), out', rand') -> pair_reached r0 r'.

Inductive pair_delivered (r0 : R) : Result -> Prop :=
| pair_output r r1 rand h res out' rand' :
    pair_reached r0 r -> served r r1 ->
    r_Finalize r1 rand (mkChan 1 []) = (Ret (Output h res), out', rand') -> pair_delivered r0 res.

(** All the states of a handler. *)
Inductive pair_run (r0 : R) (leader : bool) (rand : reader) : TwoPartyHandler -> Prop :=
| pair_run_new h :
    NewTwoPartyHandler (fun _ => Ret (Running r0)) None leader rand = Ret (TOk h) ->
    pair_run r0 leader rand h
| pair_run_accept h msg h' :
    pair_run r0 leader rand h -> tp_Accept h msg = TOk h' -> pair_run r0 leader rand h'
| pair_run_receive h msg h' :
    pair_run r0 leader rand h -> tp_Receive h = Some (msg, h') -> pair_run r0 leader rand h'.

(** ** The handler refines it *)

(** What every state of a handler satisfies. *)
Definition tp_inv (r0 : R) (h : TwoPartyHandler) : Prop :=
  if tp_finished h
  then tp_closed h = true /\ forall res, tp_result h = Some res -> pair_delivered r0 res
  else tp_closed h = false /\ exists r, tp_round h = Running r /\ pair_reached r0 r.

Definition returns (m : tres) (Q : TwoPartyHandler -> Prop) : Prop := forall h, m = TOk h -> Q h.

Lemma tp_finished_false h : tp_finished h = false <-> tp_err h = None /\ tp_result h = None.
Proof.
  unfold tp_finished. rewrite orb_false_iff, !bool_decide_eq_false, !eq_None_not_Some. done.
Qed.

Lemma tp_abort_inv r0 h e :
  (is_Some e \/ is_Some (tp_result h)) -> (forall res, tp_result h = Some res -> pair_delivered r0 res) ->
  returns (tp_abort h e) (tp_inv r0).
Proof.
  intros He Hd h'. unfold tp_abort. destruct (tp_closed h); [done|].
  destruct e as [e|]; intros [= <-].
  - unfold tp_inv. by destruct (try_send _ _).
  - destruct He as [[? ?]|[res Er]]; [done|]. unfold tp_inv, tp_finished. cbn. rewrite Er, orb_true_r. by rewrite <- Er.
Qed.

Lemma tp_forward_inv h r msgs :
  returns (tp_forward h r msgs) (fun h' =>
    exists c, h' = tp_set_out h c).
Proof.
  revert h. induction msgs as [|m msgs IH]; intros h h'; cbn [tp_forward].
  - intros [= <-]. exists (tp_out h). by destruct h.
  - destruct (cbor_Marshal _); [|done..]. destruct (tp_closed h); [done|].
    destruct (try_send _ _) as [c|]; [|done]. intros E. apply IH in E as [c' ->]. by exists c'.
Qed.

Lemma tp_verifyMessage_served h r s' :
  tp_round h = Running r -> canAdvance h = true ->
  tp_verifyMessage (Running r) (tp_messages h !! r_Number r) = Ret s' ->
  exists r', s' = Running r' /\ served r r'.
Proof.
  unfold canAdvance. intros Er Ec. rewrite Er in Ec. cbn in Ec.
  destruct (tp_messages h !! r_Number r) as [msg|] eqn:Em; cbn [tp_verifyMessage].
  - intros (m & (c & Ed%wrap_err_ret & [= <-])%bind_ret_inv & E)%bind_ret_inv.
    apply bind_ret_inv in E as ([] & Ev%wrap_err_ret & E%wrap_err_ret). cbn in Ev, E.
    apply bind_ret_inv in E as (r' & Es & [= <-]). exists r'. split; [done|].
    eapply served_message; [|exact Ev|exact Es]. unfold expects. cbn in Ed.
    destruct (r_MessageContent r); [by eexists|done].
  - intros [= <-]. exists r. split; [done|]. apply served_none.
    destruct (r_MessageContent r); [|done]. by apply bool_decide_eq_true in Ec as [? ?].
Qed.

Lemma tp_advance_inv r0 fuel h : tp_inv r0 h -> tp_finished h = false -> returns (tp_advance fuel h) (tp_inv r0).
Proof.
  revert h. induction fuel as [|fuel IH]; intros h Hi Hf h'; [done|]. cbn [tp_advance].
  destruct (canAdvance h) eqn:Ec; cbn [negb]; [|by intros [= <-]].
  unfold tp_inv in Hi. rewrite Hf in Hi. destruct Hi as (Hc & r & Er & Hr).
  apply tp_finished_false in Hf as [Ee Eres]. rewrite Er. cbn [s_Number].
  destruct (tp_verifyMessage _ _) as [s1|e|p] eqn:Ev; [| |done].
  2: { apply tp_abort_inv; [by left; eexists|]. by rewrite Eres. }
  apply (tp_verifyMessage_served h) in Ev as (r1 & -> & Hs); [|done..]. cbn [s_Finalize tp_rand tp_set_round].
  destruct (r_Finalize r1 _ _) as [[[s2|e|p] out] rand] eqn:Ez; [| |done].
  2: { apply tp_abort_inv; [by left; eexists|]. cbn. by rewrite Eres. }
  destruct (tp_forward _ _ _) as [h2| | |] eqn:Ef; [|done..]. cbn [tbind].
  apply tp_forward_inv in Ef as [c ->].
  destruct s2 as [r2|hp res|hp e c'].
  - apply IH.
    + unfold tp_inv, tp_finished. cbn. rewrite Ee, Eres. cbn. split; [done|]. exists r2. split; [done|].
      by eapply pair_next.
    + apply tp_finished_false. by cbn.
  - apply tp_abort_inv; [by right; eexists|]. cbn. intros ? [= <-]. by eapply pair_output.
  - apply tp_abort_inv; [by left; eexists|]. cbn. by rewrite Eres.
Qed.

Lemma tp_Accept_inv r0 h msg : tp_inv r0 h -> returns (tp_Accept h msg) (tp_inv r0).
Proof.
  intros Hi h'. unfold tp_Accept. destruct (negb _); cbn [orb]; [by intros [= <-]|].
  destruct (tp_finished h) eqn:Hf; [by intros [= <-]|].
  destruct (decide _).
  - apply tp_abort_inv; [by left; eexists|]. apply tp_finished_false in Hf as [_ ->]. done.
  - apply tp_advance_inv; [|done]. unfold tp_inv in *. unfold tp_finished in *. cbn in *. by rewrite Hf in *.
Qed.

Lemma pair_run_inv r0 leader rand h : pair_run r0 leader rand h -> tp_inv r0 h.
Proof.
  induction 1 as [h E|h msg h' _ IH E|h msg h' _ IH E].
  - unfold NewTwoPartyHandler in E. cbn in E. injection E as E.
    assert (tp_inv r0 (tp_initial (Running r0) leader rand)) as Hi.
    { unfold tp_inv. cbn. split; [done|]. exists r0. split; [done|]. apply pair_start. }
    destruct leader; [|by injection E as <-]. by eapply tp_advance_inv.
  - by eapply tp_Accept_inv.
  - unfold tp_Receive in E. destruct (ch_buf _); [done|]. by injection E as <- <-.
Qed.

(** ** Ending *)

Context {RL : RoundLaws}.

Lemma tp_abort_fuel h e : tp_abort h e <> TFuel.
Proof. unfold tp_abort. by destruct (tp_closed h), e. Qed.

Lemma tp_forward_fuel h r msgs : tp_forward h r msgs <> TFuel.
Proof.
  revert h. induction msgs as [|m msgs IH]; intros h; cbn; [done|].
  destruct (cbor_Marshal _); [|done..]. destruct (tp_closed h); [done|]. by destruct (try_send _ _).
Qed.

Lemma served_number r r' : served r r' -> r_Number r' = r_Number r.
Proof. destruct 1 as [|m r' _ _ E]; [done|]. by destruct (rl_store _ _ _ E) as (_ & -> & _). Qed.

(** Round numbers grow, so more steps than there are numbers are never taken. *)
Lemma tp_advance_fuel fuel h r :
  tp_round h = Running r -> 2 ^ 16 - r_Number r < Z.of_nat fuel -> tp_advance fuel h <> TFuel.
Proof.
  revert h r. induction fuel as [|fuel IH]; intros h r Er Hf; [pose proof (rl_number r); lia|]. cbn [tp_advance].
  destruct (canAdvance h) eqn:Ec; cbn [negb]; [|done]. rewrite Er. cbn [s_Number].
  destruct (tp_verifyMessage _ _) as [s1|e|p] eqn:Ev; [|apply tp_abort_fuel|done].
  apply (tp_verifyMessage_served h) in Ev as (r1 & -> & Hs%served_number); [|done..].
  cbn [s_Finalize tp_rand tp_set_round].
  destruct (r_Finalize r1 _ _) as [[[s2|e|p] out] rand] eqn:Ez; [|apply tp_abort_fuel|done].
  destruct (tp_forward _ _ _) as [h2| | |] eqn:Ef; [|done..|by apply tp_forward_fuel in Ef]. cbn [tbind].
  destruct s2 as [r2|hp res|hp e c']; [|apply tp_abort_fuel..].
  apply rl_next in Ez as [En _]. apply (IH _ r2); [done|]. lia.
Qed.

End TwoParty.
