(* ===== verification/Duet.v ===== *)
(** * Two honest parties

    A session between two [TwoPartyHandler]s that pass each other the
    messages they send.  [duet] is the same session without the handlers: the
    rounds of the two parties take turns.  What the rounds deliver to each
    other, the handlers deliver. *)

From Stdlib Require Import ZArith Lia.
From Stdlib Require Import Strings.Byte.
From stdpp Require Import base gmap strings list pretty numbers.
From S2P Require Import Prelude Hash Party Round Message Handler HandlerSpec TwoParty.

Local Open Scope Z_scope.

Section Duet.
Context {R Content Result : Type} {RO : RoundOps R Content Result} `{Blake3}.

Abbreviation session := (Session R Result).
Abbreviation handler := (@TwoPartyHandler R Result).

(** The message that [w] sent goes to [a], whose answer goes to [w], until
    nothing is left to deliver. *)
Fixpoint tp_exchange (n : nat) (a w : handler) : option (handler * handler) :=
  match n with
  | O => Some (a, w)
  | S n =>
      match tp_Receive w with
      | None => Some (a, w)
      | Some (msg, w) =>
          match tp_Accept a msg with
          | TOk a => '(w, a) ← tp_exchange n w a; Some (a, w)
          | _ => None
          end
      end
  end.

(** The session of a leader and a follower: their results. *)
Definition tp_session (n : nat) (leader follower : option bytes -> outcome session) (sessionID : option bytes)
    (rl rf : reader) : option (outcome Result * outcome Result) :=
  match NewTwoPartyHandler leader sessionID true rl, NewTwoPartyHandler follower sessionID false rf with
  | Ret (TOk l), Ret (TOk f) => '(f, l) ← tp_exchange n f l; Some (tp_Result l, tp_Result f)
  | _, _ => None
  end.

(** ** The rounds alone *)

Definition self (r : R) : ID := SelfID (info (r_helper r)).

(** Round [r] takes the message it expects and ends in [s]. *)
Inductive takes (r : R) (m : round_Message Content) (rand : reader) (s : session)
    (sent : list (round_Message Content)) (rand' : reader) : Prop :=
| takes_intro r1 out :
    expects r -> r_Number r <= r_Final r -> c_RoundNumber (rm_Content m) = r_Number r ->
    r_VerifyMessage r m = Ret tt -> r_StoreMessage r m = Ret r1 ->
    r_Finalize r1 rand (mkChan 1 []) = (Ret s, out, rand') -> ch_buf out = sent ->
    takes r m rand s sent rand'.

(** What [SendMessage] with an empty recipient puts into a message. *)
Definition from (r : R) (m : round_Message Content) : Prop := rm_From m = self r /\ rm_To m = "".

(** [a] has the message [m] of [w]; the results are those of [a] and [w]. *)
Inductive duet : R -> R -> reader -> reader -> round_Message Content -> Result -> Result -> Prop :=
| duet_turn a w ra rw m a2 m' ra' x y :
    takes a m ra (Running a2) [m'] ra' -> from a m' -> expects a2 ->
    duet w a2 rw ra' m' y x -> duet a w ra rw m x y
| duet_last a w ra rw m h h' m' ra' rw' x y :
    takes a m ra (Output h x) [m'] ra' -> from a m' ->
    takes w m' rw (Output h' y) [] rw' -> duet a w ra rw m x y.

(** The two parties of one session. *)
Record partners (a w : R) : Prop := {
  pt_self : self a <> self w;
  pt_ssid : ssid (r_helper a) = ssid (r_helper w);
  pt_protocol : ProtocolID (info (r_helper a)) = ProtocolID (info (r_helper w));
  pt_a : Contains (partyIDs (r_helper a)) [self w] = true;
  pt_w : Contains (partyIDs (r_helper w)) [self a] = true
}.

Lemma partners_sym a w : partners a w -> partners w a.
Proof. intros []. by constructor. Qed.

Lemma partners_session a a' w : same_session (r_helper a) (r_helper a') -> partners a w -> partners a' w.
Proof.
  intros (Ei & Ep & _ & Es) [P1 P2 P3 P4 P5]. unfold self in *.
  constructor; unfold self; rewrite ?Ei, ?Ep, ?Es; done.
Qed.

(** ** The handlers follow *)

Context {RL : RoundLaws} {CBL : CborLaws Content}.

(** A handler that waits in round [r], with nothing left to send. *)
Record waits (h : handler) (r : R) (rand : reader) : Prop := {
  wt_round : tp_round h = Running r;
  wt_err : tp_err h = None;
  wt_result : tp_result h = None;
  wt_messages k : r_Number r <= k -> tp_messages h !! k = None;
  wt_out : tp_out h = mkChan 2 [];
  wt_closed : tp_closed h = false;
  wt_rand : tp_rand h = rand
}.

(** The message [m] of round [w] on the wire. *)
Definition wire (w : R) (m : round_Message Content) (data : bytes) : Message :=
  mkMessage (Some (ssid (r_helper w))) (self w) (rm_To m) (ProtocolID (info (r_helper w)))
    (c_RoundNumber (rm_Content m)) (Some data) (rm_Broadcast m) None.

Lemma wire_accepted h a w ra m data :
  waits h a ra -> partners a w -> from w m -> c_RoundNumber (rm_Content m) <= r_Final a ->
  tp_CanAccept h (wire w m data) = true.
Proof.
  intros Hw P [_ Et] Hn. unfold tp_CanAccept. rewrite (wt_round _ _ _ Hw).
  unfold s_SelfID, s_FinalRoundNumber, wire, IsFor. cbn [s_helper From To Protocol SSID Data RoundNumber].
  rewrite decide_False by (intros N; by apply (pt_self _ _ P)). rewrite Et.
  rewrite (bool_decide_true ("" = "")) by done. cbn [orb negb].
  rewrite bool_decide_true by (by rewrite (pt_protocol _ _ P)). cbn [negb].
  unfold bytes_Equal. rewrite (pt_ssid _ _ P), bool_decide_true by done. cbn [negb]. rewrite (pt_a _ _ P). cbn [negb].
  rewrite bool_decide_false; [done|]. unfold r_Final in Hn. lia.
Qed.

Lemma fuel_S2 : exists n, finalize_fuel = S (S n).
Proof.
  pose proof finalize_fuel_value as E. destruct finalize_fuel as [|[|n]]; [cbn in E; lia..|]. by exists n.
Qed.

(** Decoding what the partner encoded, and the two handlers of the round. *)
Lemma wire_verified a w m data r1 :
  expects a -> from w m -> cbor_Marshal (rm_Content m) = Ret data ->
  r_VerifyMessage a m = Ret tt -> r_StoreMessage a m = Ret r1 ->
  tp_verifyMessage (Running a) (Some (wire w m data)) = Ret (Running r1).
Proof.
  intros [c Ec] [Ef Et] Em Ev Es. cbn [tp_verifyMessage]. unfold extractRoundMessage, wire. cbn [s_MessageContent]. rewrite Ec.
  cbn [Data default from_option id]. rewrite (cbor_roundtrip c _ _ Em). cbn [wrap_err mbind outcome_bind From To Broadcast].
  rewrite <- Ef. destruct m as [f t b ct]. cbn [rm_From rm_To rm_Broadcast rm_Content] in *.
  unfold s_VerifyMessage, s_StoreMessage. rewrite Ev. cbn [round_err wrap_err mbind outcome_bind]. by rewrite Es.
Qed.

(** The first step of [advance] on a handler that has got its message. *)
Lemma advance_step h a w ra m data n s sent ra' :
  waits h a ra -> from w m -> cbor_Marshal (rm_Content m) = Ret data -> takes a m ra s sent ra' ->
  exists r1, r_Number r1 = r_Number a /\ tp_advance (S n) (tp_store h (wire w m data)) =
    tbind (tp_forward (tp_set_rand (tp_set_round (tp_store h (wire w m data)) (Running r1)) ra') s sent) (fun h =>
      let h := tp_set_round h s in
      match s with
      | Abort _ e _ => tp_abort h (Some e)
      | Output _ res => tp_abort (tp_set_result h res) None
      | Running _ => tp_advance n h
      end).
Proof.
  intros Hw Hf Em [r1 out Ex Hn Ec Ev Es Ez <-]. exists r1. split; [by destruct (rl_store _ _ _ Es) as (_ & -> & _)|].
  cbn [tp_advance]. unfold canAdvance. cbn [tp_round tp_store tp_messages wire RoundNumber]. rewrite (wt_round _ _ _ Hw).
  cbn [s_MessageContent s_Number]. rewrite Ec, lookup_insert_eq. destruct Ex as [c Ex]. rewrite Ex.
  rewrite bool_decide_true by (by eexists). cbn [negb]. fold (wire w m data).
  rewrite (wire_verified a w m data r1 (ex_intro _ c Ex) Hf Em Ev Es). cbn [tp_rand tp_set_round s_Finalize tp_store].
  rewrite (wt_rand _ _ _ Hw), Ez. done.
Qed.

Lemma Accept_advance h a w ra m data :
  waits h a ra -> partners a w -> from w m -> c_RoundNumber (rm_Content m) = r_Number a -> r_Number a <= r_Final a ->
  tp_Accept h (wire w m data) = tp_advance finalize_fuel (tp_store h (wire w m data)).
Proof.
  intros Hw P Hf Hc Hn. unfold tp_Accept. rewrite (wire_accepted h a w ra) by (done || lia). cbn [negb orb].
  rewrite (proj2 (tp_finished_false h)) by (split; [apply (wt_err _ _ _ Hw)|apply (wt_result _ _ _ Hw)]).
  rewrite decide_False; [done|]. unfold wire. cbn [RoundNumber]. pose proof (rl_number a). lia.
Qed.

(** A round that goes on sends its message and waits for the next one. *)
Lemma accept_turn h a w ra m data a2 m' data' ra' :
  waits h a ra -> partners a w -> from w m -> cbor_Marshal (rm_Content m) = Ret data ->
  takes a m ra (Running a2) [m'] ra' -> expects a2 -> cbor_Marshal (rm_Content m') = Ret data' ->
  exists h' h'', tp_Accept h (wire w m data) = TOk h' /\ tp_Receive h' = Some (wire a2 m' data', h'') /\
    waits h'' a2 ra'.
Proof.
  intros Hw P Hf Em T [c Ec] Em'. pose proof T as [r1' out Ex Hn Hc Ev Es Ez _].
  assert (r_Number a2 = r_Number a + 1) as En.
  { apply rl_next in Ez as [-> _]. by destruct (rl_store _ _ _ Es) as (_ & -> & _). }
  rewrite (Accept_advance h a w ra) by done. destruct fuel_S2 as [n ->].
  destruct (advance_step h a w ra m data (S n) _ _ _ Hw Hf Em T) as (r1 & _ & ->).
  cbn [tp_forward]. rewrite Em'. cbn [tp_closed tp_set_rand tp_set_round tp_store tp_out].
  rewrite (wt_closed _ _ _ Hw), (wt_out _ _ _ Hw). unfold try_send; cbn [length ch_buf ch_cap]. rewrite decide_True by lia.
  cbn [tbind tp_advance app]. unfold canAdvance. cbn [tp_round tp_set_round s_MessageContent s_Number]. rewrite Ec.
  rewrite bool_decide_false; [cbn [negb]; eexists _, _; split; [done|]; split; [done|]|].
  - destruct Hw as [W1 W2 W3 W4 W5 W6 W7]. constructor; cbn; try done.
    intros k Hk. unfold wire. cbn [RoundNumber]. rewrite lookup_insert_ne by lia. apply W4. lia.
  - cbn. unfold wire. cbn [RoundNumber]. rewrite lookup_insert_ne by lia.
    rewrite (wt_messages _ _ _ Hw) by lia. by intros [? ?].
Qed.

(** A round that ends the protocol: its last messages stay to be read. *)
Lemma accept_output h a w ra m data hp x sent ra' :
  waits h a ra -> partners a w -> from w m -> cbor_Marshal (rm_Content m) = Ret data ->
  takes a m ra (Output hp x) sent ra' ->
  match sent with
  | [] => exists h', tp_Accept h (wire w m data) = TOk h' /\ tp_Receive h' = None /\ tp_Result h' = Ret x
  | [m'] => forall data', cbor_Marshal (rm_Content m') = Ret data' ->
      exists h' h'', tp_Accept h (wire w m data) = TOk h' /\ tp_Receive h' = Some (wire a m' data', h'') /\ tp_Result h'' = Ret x
        /\ tp_Receive h'' = None
  | _ => True
  end.
Proof.
  intros Hw P Hf Em T. pose proof T as [r1' out Ex Hn Hc Ev Es Ez _].
  assert (same_session (r_helper a) hp) as (Ei & _ & _ & Ess).
  { apply rl_output in Ez. by destruct (rl_store _ _ _ Es) as (<- & _). }
  rewrite (Accept_advance h a w ra) by done. destruct fuel_S2 as [n ->].
  destruct (advance_step h a w ra m data (S n) _ _ _ Hw Hf Em T) as (r1 & _ & ->).
  destruct sent as [|m' [|]]; [..|done].
  - cbn [tp_forward tbind]. unfold tp_abort. cbn [tp_closed tp_set_result tp_set_round tp_set_rand tp_store].
    rewrite (wt_closed _ _ _ Hw). eexists. split; [done|]. unfold tp_Receive. cbn. by rewrite (wt_out _ _ _ Hw).
  - intros data' Em'. cbn [tp_forward]. rewrite Em'. cbn [tp_closed tp_set_rand tp_set_round tp_store tp_out].
    rewrite (wt_closed _ _ _ Hw), (wt_out _ _ _ Hw). unfold try_send; cbn [length ch_buf ch_cap]. rewrite decide_True by lia.
    cbn [tbind]. unfold tp_abort. cbn. rewrite (wt_closed _ _ _ Hw). eexists _, _. split; [done|].
    assert (tp_outgoing (Output hp x) m' data' = wire a m' data') as <-.
    { unfold tp_outgoing, wire, s_SelfID, self. cbn. by rewrite Ei, Ess. }
    split; [reflexivity|]. split; reflexivity.
Qed.

(** ** The session *)

Hypothesis marshals : forall c : Content, exists data, cbor_Marshal c = Ret data.

(** The handler [hw] has just sent the message of [w]. *)
Lemma duet_exchange a w ra rw m x y :
  duet a w ra rw m x y -> forall ha hw hw' data,
  partners a w -> from w m -> cbor_Marshal (rm_Content m) = Ret data ->
  waits ha a ra -> tp_Receive hw' = Some (wire w m data, hw) -> waits hw w rw ->
  exists n ha' hw'', tp_exchange n ha hw' = Some (ha', hw'') /\ tp_Result ha' = Ret x /\ tp_Result hw'' = Ret y.
Proof.
  induction 1 as [a w ra rw m a2 m' ra' x y T Hf' Ex D IH|a w ra rw m h h' m' ra' rw' x y T Hf' T'];
    intros ha hw hw' data P Hf Em Wa Er Ww; destruct (marshals (rm_Content m')) as [data' Em'].
  - destruct (accept_turn ha a w ra m data a2 m' data' ra') as (h1 & h2 & Ea & Er' & W2); [done..|].
    pose proof T as [r1 out _ _ _ _ Es Ez _]. apply rl_next in Ez as [_ Se]. destruct (rl_store _ _ _ Es) as (Eh & _).
    rewrite Eh in Se. assert (from a2 m') as Hf2.
    { destruct Hf' as [F1 F2], Se as (Ei & _). split; [|done]. rewrite F1. unfold self. by rewrite Ei. }
    destruct (IH hw h2 h1 data') as (n & hw2 & ha2 & E & Ry & Rx); [|done..|].
    { apply partners_sym. by eapply partners_session. }
    exists (S n), ha2, hw2. cbn [tp_exchange]. rewrite Er, Ea, E. done.
  - destruct (accept_output ha a w ra m data h x [m'] ra' Wa P Hf Em T data' Em') as (h1 & h2 & Ea & Er' & Rx & _).
    destruct (accept_output hw w a rw m' data' h' y [] rw') as (h3 & Ea' & En & Ry); [done|by apply partners_sym|done..|].
    exists 2%nat, h2, h3. cbn [tp_exchange]. rewrite Er, Ea, Er', Ea'. done.
Qed.

(** What the rounds deliver to each other, the handlers deliver. *)
Lemma duet_session (leader follower : option bytes -> outcome session) sid l f rl rf l1 m out rl' x y :
  leader sid = Ret (Running l) -> follower sid = Ret (Running f) ->
  r_MessageContent l = None -> r_Finalize l rl (mkChan 1 []) = (Ret (Running l1), out, rl') ->
  ch_buf out = [m] -> from l m -> expects l1 -> partners f l -> duet f l1 rf rl' m x y ->
  exists n, tp_session n leader follower sid rl rf = Some (Ret y, Ret x).
Proof.
  intros El Ef Ec Ez Eb Hf Ex P D. destruct (marshals (rm_Content m)) as [data Em].
  assert (same_session (r_helper l) (r_helper l1)) as S by (by apply rl_next in Ez as [_ ?]).
  assert (exists hl hl', NewTwoPartyHandler leader sid true rl = Ret (TOk hl) /\
    tp_Receive hl = Some (wire l1 m data, hl') /\ waits hl' l1 rl') as (hl & hl' & En & Er & W).
  { unfold NewTwoPartyHandler. rewrite El. cbn [wrap_err mbind outcome_bind]. unfold tp_initial. destruct fuel_S2 as [n ->].
    cbn [tp_advance]. unfold canAdvance at 1. cbn [tp_round tp_initial s_MessageContent]. rewrite Ec. cbn [negb tp_messages tp_initial s_Number].
    rewrite lookup_empty. cbn [tp_verifyMessage s_Finalize tp_rand tp_set_round tp_round]. rewrite Ez, Eb. cbn [tp_forward]. rewrite Em.
    cbn [tp_closed tp_set_rand tp_set_round tp_out]. unfold try_send. cbn [tp_initial tp_out length ch_buf ch_cap]. rewrite decide_True by lia. cbn [tbind app tp_advance].
    unfold canAdvance. cbn [tp_round tp_set_round s_MessageContent s_Number]. destruct Ex as [c ->].
    rewrite bool_decide_false by (cbn; rewrite lookup_empty; by intros [? ?]).
    cbn [negb]. eexists _, _. split; [done|]. split; [done|]. constructor; try done. }
  destruct (duet_exchange f l1 rf rl' m x y D (tp_initial (Running f) false rf) hl' hl data) as (n & ha & hw & E & Rx & Ry).
  - apply partners_sym. eapply partners_session; [done|]. by apply partners_sym.
  - destruct Hf as [F1 F2], S as (Ei & _). split; [|done]. rewrite F1. unfold self. by rewrite Ei.
  - done.
  - by constructor.
  - done.
  - done.
  - exists n. unfold tp_session. rewrite En. unfold NewTwoPartyHandler. rewrite Ef. cbn [wrap_err mbind outcome_bind].
    rewrite E. cbn. by rewrite Rx, Ry.
Qed.

(** The handlers of an exchange are states of the two parties. *)
Lemma exchange_pair_run n l f ll lf rl rf : forall a w a' w',
  pair_run l ll rl a -> pair_run f lf rf w -> tp_exchange n a w = Some (a', w') ->
  pair_run l ll rl a' /\ pair_run f lf rf w'.
Proof.
  revert l f ll lf rl rf. induction n as [|n IH]; intros l f ll lf rl rf a w a' w' Pa Pw; cbn [tp_exchange]; [by intros [= <- <-]|].
  destruct (tp_Receive w) as [[msg w1]|] eqn:Er; [|by intros [= <- <-]].
  destruct (tp_Accept a msg) as [a1| | |] eqn:Ea; [|done..].
  destruct (tp_exchange n w1 a1) as [[w2 a2]|] eqn:Ex; [|done]. intros [= <- <-].
  destruct (IH f l lf ll rf rl w1 a1 w2 a2) as [? ?]; [by eapply pair_run_receive|by eapply pair_run_accept|exact Ex|done].
Qed.

Lemma session_pair_run n (leader follower : option bytes -> outcome session) sid l f rl rf resl resf :
  leader sid = Ret (Running l) -> follower sid = Ret (Running f) ->
  tp_session n leader follower sid rl rf = Some (resl, resf) ->
  exists hl hf, pair_run l true rl hl /\ tp_Result hl = resl /\ pair_run f false rf hf /\ tp_Result hf = resf.
Proof.
  intros El Ef. unfold tp_session, NewTwoPartyHandler. rewrite El, Ef. cbn [wrap_err mbind outcome_bind].
  destruct (tp_advance _ _) as [hl| | |] eqn:Ea; [|done..]. destruct (tp_exchange n _ hl) as [[hf' hl']|] eqn:Ex; [|done].
  intros [= <- <-]. exists hl', hf'.
  destruct (exchange_pair_run n f l false true rf rl (tp_initial (Running f) false rf) hl hf' hl') as [Pf Pl]; try done.
  - by apply pair_run_new.
  - apply pair_run_new. unfold NewTwoPartyHandler. cbn [wrap_err mbind outcome_bind]. by rewrite Ea.
Qed.

End Duet.
