(* ===== verification/Network.v ===== *)
(** * A network of handlers

    A scheduler that delivers the messages of a set of handlers to each
    other, to run whole protocol executions inside the kernel. *)

From Stdlib Require Import ZArith Lia Zmod.
From Stdlib Require Import Strings.Byte.
From stdpp Require Import base gmap strings list pretty numbers.
From S2P Require Import Prelude Hash Party Round Message Handler.

Local Open Scope Z_scope.

(** ** Delivering messages *)

Section Network.
Context {R Content Result : Type} {RO : RoundOps R Content Result} `{Blake3} {MO : MapOrder}.

Abbreviation handler := (@MultiHandler R Result).

(** Take everything out of the outgoing channel of a handler. *)
Definition drain (h : handler) : list Message * handler :=
  (ch_buf (out h), set_out h (mkChan (ch_cap (out h)) [])).

Fixpoint deliver (h : handler) (ms : list Message) : option handler :=
  match ms with
  | [] => Some h
  | m :: ms => match Accept h m with HOk h => deliver h ms | _ => None end
  end.

(** Every handler accepts all messages in flight; those not meant for it are
    ignored by [CanAccept]. *)
Fixpoint network (fuel : nat) (hs : list handler) : option (list handler) :=
  match fuel with
  | O => Some hs
  | S fuel =>
      let msgs := concat (map (fun h => (drain h).1) hs) in
      hs ← mapM (fun h => deliver (drain h).2 msgs) hs;
      network fuel hs
  end.

Definition start_all (rs : list (outcome (Session R Result))) (rands : list reader) :
    option (list handler) :=
  mapM (fun p : outcome (Session R Result) * reader =>
          match p.1 with
          | Ret s => match finalize finalize_fuel (initial_handler s p.2) with
                     | HOk h => Some h
                     | _ => None
                     end
          | _ => None
          end) (zip rs rands).

(** The handlers of parties [ps] after [k] deliveries. *)
Definition started (ps : list (R * reader)) : option (list handler) :=
  start_all ((fun p => Ret (Running p.1)) <$> ps) ps.*2.

Definition states (ps : list (R * reader)) (k : nat) : option (list handler) :=
  match started ps with Some hs => network k hs | None => None end.

Definition party_at (ps : list (R * reader)) (d : R * reader) (k i : nat) : handler :=
  default (initial_handler (Running d.1) d.2) (default [] (states ps k) !! i).

Definition alive (ps : list (R * reader)) (k i : nat) : bool :=
  is_some (default [] (states ps k) !! i).

End Network.
