(* ===== verification/Lockstep.v ===== *)
(** * Executing the abstract execution

    [reached] as a function: a party takes round messages one by one, with
    the conditions of the abstract execution tested, and all parties advance
    together.  Whatever this produces is reached; it makes the abstract
    theorems about protocols run on concrete parties. *)

From Stdlib Require Import ZArith Lia.
From stdpp Require Import base gmap strings list pretty numbers.
From S2P Require Import Prelude Hash Party Round Message Handler HandlerSpec.

Local Open Scope Z_scope.

Section Lockstep.
Context {R Content Result : Type} {RO : RoundOps R Content Result} `{Blake3}.

Record party := mkParty {
  p_first : R;
  p_round : R;
  p_B : gset ID;
  p_M : gset ID;
  p_rand : reader
}.

Definition new_party (r : R) (rand : reader) : party := mkParty r r ∅ ∅ rand.

Definition party_ok (p : party) : Prop := reached (p_first p) (p_round p) (p_B p) (p_M p).

Definition take_broadcast (p : party) (m : round_Message Content) : option party :=
  let r := p_round p in
  if r_is_broadcast r && rm_Broadcast m && bool_decide (rm_From m ∈ r_others r)
     && bool_decide (rm_From m ∉ p_B p)
  then match r_StoreBroadcastMessage r m with
       | Ret r' => Some (mkParty (p_first p) r' ({[rm_From m]} ∪ p_B p) (p_M p) (p_rand p))
       | _ => None
       end
  else None.

Definition take_message (p : party) (m : round_Message Content) : option party :=
  let r := p_round p in
  if is_some (r_MessageContent r) && negb (rm_Broadcast m) && bool_decide (rm_From m ∈ r_others r)
     && bool_decide (rm_From m ∉ p_M p)
     && (negb (r_is_broadcast r) || bool_decide (rm_From m ∈ p_B p))
  then match r_VerifyMessage r m, r_StoreMessage r m with
       | Ret tt, Ret r' => Some (mkParty (p_first p) r' (p_B p) ({[rm_From m]} ∪ p_M p) (p_rand p))
       | _, _ => None
       end
  else None.

(** A message reaches the parties it is meant for. *)
Definition take_one (p : party) (m : round_Message Content) : option party :=
  let self := SelfID (info (r_helper (p_round p))) in
  if decide (rm_From m = self) then Some p
  else if rm_Broadcast m then take_broadcast p m
  else if decide (rm_To m = self) then take_message p m
  else Some p.

Fixpoint take_all (p : party) (ms : list (round_Message Content)) : option party :=
  match ms with
  | [] => Some p
  | m :: ms => match take_one p m with Some p => take_all p ms | None => None end
  end.

Definition complete_b (p : party) : bool :=
  let r := p_round p in
  negb ((2 <=? r_Number r) && (r_Number r <=? r_Final r))
  || forallb (fun id => (negb (r_is_broadcast r) || bool_decide (id ∈ p_B p))
                        && (negb (is_some (r_MessageContent r)) || bool_decide (id ∈ p_M p)))
       (r_others r).

Definition advance (p : party) : option (list (round_Message Content) * party) :=
  if complete_b p then
    match r_Finalize (p_round p) (p_rand p) (fresh_out (p_round p)) with
    | (Ret (Running r'), out, rand) => Some (ch_buf out, mkParty (p_first p) r' ∅ ∅ rand)
    | _ => None
    end
  else None.

(** Everybody finishes the round; broadcasts arrive first.  [tamper] is what
    the network makes of the messages. *)
Definition lockstep (tamper : list (round_Message Content) -> list (round_Message Content))
    (ps : list party) : option (list party) :=
  match mapM advance ps with
  | Some l =>
      let ms := tamper (concat l.*1) in
      mapM (fun p => take_all p (filter (fun m => rm_Broadcast m = true) ms
                                 ++ filter (fun m => rm_Broadcast m = false) ms)) l.*2
  | None => None
  end.

(** ** What it produces is reached *)

Lemma is_some_expects r : is_some (r_MessageContent r) = true -> expects r.
Proof. unfold expects. by destruct (r_MessageContent r). Qed.

Lemma take_broadcast_ok p m p' :
  party_ok p -> take_broadcast p m = Some p' -> party_ok p' /\ p_first p' = p_first p.
Proof.
  unfold take_broadcast, party_ok. intros Re.
  destruct (_ && _) eqn:Eb; [|done]. rewrite !andb_true_iff, !bool_decide_eq_true in Eb.
  destruct Eb as [[[H1 H2] H3] H4]. destruct (r_StoreBroadcastMessage _ _) as [r'| |] eqn:Es; [|done..].
  intros [= <-]. split; [|done]. by eapply reached_broadcast.
Qed.

Lemma take_message_ok p m p' :
  party_ok p -> take_message p m = Some p' -> party_ok p' /\ p_first p' = p_first p.
Proof.
  unfold take_message, party_ok. intros Re.
  destruct (_ && _) eqn:Eb; [|done].
  rewrite !andb_true_iff, orb_true_iff, !negb_true_iff, !bool_decide_eq_true in Eb.
  destruct Eb as [[[[H1 H2] H3] H4] H5]. destruct (r_VerifyMessage _ _) as [[]| |] eqn:Ev; [|done..].
  destruct (r_StoreMessage _ _) as [r'| |] eqn:Es; [|done..].
  intros [= <-]. split; [|done]. eapply reached_message; try done; [by apply is_some_expects|].
  destruct H5; [congruence|done].
Qed.

Lemma take_all_ok ms p p' :
  party_ok p -> take_all p ms = Some p' -> party_ok p' /\ p_first p' = p_first p.
Proof.
  revert p. induction ms as [|m ms IH]; intros p Re E; cbn in E; [by injection E as <-|].
  destruct (take_one p m) as [p1|] eqn:E1; [|done].
  assert (party_ok p1 /\ p_first p1 = p_first p) as [Re1 F1].
  { unfold take_one in E1. destruct (decide _); [by injection E1 as <-|].
    destruct (rm_Broadcast m); [by eapply take_broadcast_ok|].
    destruct (decide _); [by eapply take_message_ok|by injection E1 as <-]. }
  destruct (IH p1 Re1 E) as [Re' F']. split; [done|congruence].
Qed.

Lemma complete_b_ok p : complete_b p = true -> complete (p_round p) (p_B p) (p_M p).
Proof.
  unfold complete_b, complete. intros E Hn id Hid.
  apply orb_true_iff in E as [E|E].
  - rewrite negb_true_iff, andb_false_iff, !Z.leb_gt in E. lia.
  - rewrite forallb_forall in E. specialize (E id ltac:(by apply list_elem_of_In)).
    rewrite andb_true_iff, !orb_true_iff, !negb_true_iff, !bool_decide_eq_true in E.
    destruct E as [E1 E2]. split; [intros Hb; destruct E1; [congruence|done]|].
    intros He. destruct E2 as [E2|]; [|done]. unfold expects in He.
    by destruct (r_MessageContent (p_round p)), He.
Qed.

Lemma advance_ok p ms p' :
  party_ok p -> advance p = Some (ms, p') -> party_ok p' /\ p_first p' = p_first p.
Proof.
  unfold advance, party_ok. intros Re. destruct (complete_b p) eqn:Ec; [|done].
  apply complete_b_ok in Ec.
  destruct (r_Finalize _ _ _) as [[[[r'| |]| |] out] rand] eqn:Ef; [|done..].
  intros [= _ <-]. split; [|done]. by eapply reached_next.
Qed.

Definition parties_ok (firsts : list R) (ps : list party) : Prop :=
  Forall2 (fun r p => p_first p = r /\ party_ok p) firsts ps.

Lemma lockstep_ok tamper firsts ps ps' :
  parties_ok firsts ps -> lockstep tamper ps = Some ps' -> parties_ok firsts ps'.
Proof.
  unfold lockstep, parties_ok. intros F. destruct (mapM advance ps) as [l|] eqn:Ea; [|done].
  set (ms := filter _ _ ++ _). clearbody ms. intros Et.
  apply mapM_Some_1 in Ea. apply mapM_Some_1 in Et. revert firsts F ps' Et.
  induction Ea as [|p [o p1] ps l Ep Ea IH]; intros firsts F ps' Et; 
    inversion F as [|r0 ? rs ? [<- Ho] F']; subst; cbn in Et;
    inversion Et as [|? p2 ? ps2 E2 Et2]; subst; constructor; [|by apply IH].
  destruct (advance_ok _ _ _ Ho Ep) as [Ho1 <-]. destruct (take_all_ok _ _ _ Ho1 E2). done.
Qed.

Lemma new_parties_ok (l : list (R * reader)) :
  parties_ok l.*1 ((fun x => new_party x.1 x.2) <$> l).
Proof.
  unfold parties_ok. induction l as [|[r rd] l IH]; cbn; constructor; [|done].
  split; [done|]. apply reached_start.
Qed.

(** One round of all parties. *)
Definition lockstep1 (tamper : list (round_Message Content) -> list (round_Message Content))
    (l : list (R * reader)) : list party :=
  default [] (lockstep tamper ((fun x => new_party x.1 x.2) <$> l)).

Lemma lockstep1_ok t1 l i r rand p :
  l !! i = Some (r, rand) -> lockstep1 t1 l !! i = Some p -> p_first p = r /\ party_ok p.
Proof.
  unfold lockstep1. intros El Ep. destruct (lockstep t1 _) as [ps1|] eqn:E1; [|by destruct i].
  pose proof (lockstep_ok _ _ _ _ (new_parties_ok l) E1) as F.
  eapply (Forall2_lookup_lr _ _ _ i r p F); [|done]. by rewrite list_lookup_fmap, El.
Qed.

(** Two rounds of all parties. *)
Definition lockstep2 (tamper1 tamper2 : list (round_Message Content) -> list (round_Message Content))
    (l : list (R * reader)) : list party :=
  default [] (match lockstep tamper1 ((fun x => new_party x.1 x.2) <$> l) with
              | Some ps => lockstep tamper2 ps
              | None => None
              end).

Lemma lockstep2_ok t1 t2 l i r rand p :
  l !! i = Some (r, rand) -> lockstep2 t1 t2 l !! i = Some p -> p_first p = r /\ party_ok p.
Proof.
  unfold lockstep2. intros El Ep.
  destruct (lockstep t1 _) as [ps1|] eqn:E1; [|by destruct i].
  destruct (lockstep t2 ps1) as [ps2|] eqn:E2; [|by destruct i].
  pose proof (lockstep_ok _ _ _ _ (lockstep_ok _ _ _ _ (new_parties_ok l) E1) E2) as F.
  eapply (Forall2_lookup_lr _ _ _ i r p F); [|done]. by rewrite list_lookup_fmap, El.
Qed.

End Lockstep.
