(* ===== verification/Xor.v ===== *)
(** * protocols/example: a protocol on the round interface

    The example protocol: every party sends 32 random bytes and outputs the
    exclusive or of all of them.  It is the smallest instance of [RoundOps],
    and discharges the interface laws that the handler relies on. *)

From Stdlib Require Import ZArith Lia.
From Stdlib Require Import Strings.Byte.
From stdpp Require Import base gmap strings list pretty numbers.
From S2P Require Import Prelude Hash Party Round Message Handler HandlerSpec.

Local Open Scope Z_scope.

Definition xor_protocolID : string := "example/xor".
Definition xor_protocolRounds : Number := 2.

(** [Round1] and [Round2], which embeds [Round1]. *)
Inductive xor_round :=
| Round1 (h : Helper)
| Round2 (h : Helper) (received : gmap ID bytes).

Record Round2Message := mkRound2Message { XOR : bytes }.

Definition xor_helper (r : xor_round) : Helper :=
  match r with Round1 h => h | Round2 h _ => h end.

Definition xor_Number (r : xor_round) : Number :=
  match r with Round1 _ => 1 | Round2 _ _ => 2 end.

Definition xor_MessageContent (r : xor_round) : option Round2Message :=
  match r with Round1 _ => None | Round2 _ _ => Some (mkRound2Message []) end.

Definition xor_VerifyMessage (r : xor_round) (msg : round_Message Round2Message) : outcome unit :=
  match r with
  | Round1 _ => Ret tt
  | Round2 _ _ =>
      let body := rm_Content msg in
      if decide (length (XOR body) <> 32%nat) then Fail "xor should be 32 bytes long" else Ret tt
  end.

Definition xor_StoreMessage (r : xor_round) (msg : round_Message Round2Message) :
    outcome xor_round :=
  match r with
  | Round1 h => Ret (Round1 h)
  | Round2 h received => Ret (Round2 h (<[rm_From msg := XOR (rm_Content msg)]> received))
  end.

(** The loop [for _, received := range r.received { resultXOR.XOR(received) }] *)
Fixpoint xor_all (acc : bytes) (l : list bytes) : outcome bytes :=
  match l with
  | [] => Ret acc
  | b :: l => acc ← RID_XOR acc b; xor_all acc l
  end.

Section Xor.
Context {MO : MapOrder}.

Definition xor_Finalize (r : xor_round) (rand : reader) (out : chan (round_Message Round2Message)) :
    outcome (Session xor_round bytes) * chan (round_Message Round2Message) * reader :=
  match r with
  | Round1 h =>
      match NewRID rand with
      | Ret (xor, rand) =>
          match SendMessage h out (mkRound2Message xor) "" with
          | Ret out => (Ret (Running (Round2 h {[SelfID (info h) := xor]})), out, rand)
          | Fail e => (Fail e, out, rand)
          | Panic p => (Panic p, out, rand)
          end
      | Fail e => (Fail e, out, rand)
      | Panic p => (Panic p, out, rand)
      end
  | Round2 h received =>
      (x ← xor_all EmptyRID (range_order received).*2; Ret (Output h x), out, rand)
  end.

Context {CB : Cbor Round2Message}.

#[export] Instance xor_ops : RoundOps xor_round Round2Message bytes := {|
  r_helper := xor_helper;
  r_Number := xor_Number;
  r_is_broadcast := fun _ => false;
  r_MessageContent := xor_MessageContent;
  r_BroadcastContent := fun _ => None;
  r_VerifyMessage := xor_VerifyMessage;
  r_StoreMessage := xor_StoreMessage;
  r_StoreBroadcastMessage := fun r _ => Ret r;
  r_Finalize := xor_Finalize;
  c_RoundNumber := fun _ => 2;
  c_Cbor := CB
|}.

(** [StartXOR(selfID, partyIDs)(sessionID)] *)
Definition StartXOR `{Blake3} (selfID : ID) (partyIDs : list ID) (sessionID : option bytes) :
    outcome (Session xor_round bytes) :=
  let info := mkInfo xor_protocolID xor_protocolRounds selfID partyIDs 0 None in
  helper ← wrap_err "xor: " (NewSession info sessionID []);
  Ret (Running (Round1 helper)).

(** ** The interface laws *)

#[export] Instance xor_laws : RoundLaws.
Proof.
  constructor; cbn.
  - intros []; cbn; lia.
  - intros [h|h rc] m r' [= <-]; by split_and!.
  - intros r m r' [= <-]. done.
  - intros [h|h rc] rand out r' out' rand'; cbn.
    + destruct (NewRID rand) as [[x r]| |]; [|done..]. destruct (SendMessage _ _ _ _); [|done..].
      intros [= <- _ _]. done.
    + destruct (xor_all _ _); done.
  - intros [h|h rc] rand out hh res out' rand'; cbn.
    + destruct (NewRID rand) as [[x r]| |]; [|done..]. by destruct (SendMessage _ _ _ _).
    + destruct (xor_all _ _); [|done..]. by intros [= <- _ _].
  - intros [h|h rc] rand out hh e c out' rand'; cbn.
    + destruct (NewRID rand) as [[x r]| |]; [|done..]. by destruct (SendMessage _ _ _ _).
    + by destruct (xor_all _ _).
Qed.

(** ** What the protocol computes *)

Definition bytes_xor (a b : bytes) : bytes := zip_with byte_xor a b.

Lemma bytes_xor_swap a b c : bytes_xor (bytes_xor a b) c = bytes_xor (bytes_xor a c) b.
Proof.
  unfold bytes_xor. revert b c. induction a as [|x a IH]; intros [|y b] [|z c]; cbn; try done.
  by rewrite IH, <- !byte_xor_assoc, (byte_xor_comm y).
Qed.

Lemma length_bytes_xor a b : length a = 32%nat -> length b = 32%nat -> length (bytes_xor a b) = 32%nat.
Proof. unfold bytes_xor. rewrite length_zip_with. lia. Qed.

Lemma RID_XOR_ok a b :
  length a = 32%nat -> length b = 32%nat -> RID_XOR a b = Ret (bytes_xor a b).
Proof.
  intros La Lb. unfold RID_XOR, SecBytes, bytes_xor. rewrite decide_False by lia.
  rewrite !take_ge, drop_ge by lia. by rewrite app_nil_r.
Qed.

Lemma xor_all_ok acc l :
  length acc = 32%nat -> Forall (fun b => length b = 32%nat) l ->
  xor_all acc l = Ret (foldl bytes_xor acc l).
Proof.
  intros La F. revert acc La. induction F as [|b l Hb F IH]; intros acc La; [done|].
  cbn. rewrite RID_XOR_ok by done. apply IH. by apply length_bytes_xor.
Qed.

(** The exclusive or of the values of all parties. *)
Definition xor_of (received : gmap ID bytes) : bytes :=
  foldr (fun b acc => bytes_xor acc b) EmptyRID (map_to_list received).*2.

Context {MOL : MapOrderLaws} `{Blake3}.

Lemma xor_range received :
  map_Forall (fun _ b => length b = 32%nat) received ->
  xor_all EmptyRID (range_order received).*2 = Ret (xor_of received).
Proof.
  intros F. rewrite xor_all_ok; [|done|].
  - rewrite foldl_foldr_comm by apply bytes_xor_swap. unfold xor_of. f_equal.
    apply foldr_perm; [|by rewrite (range_order_perm _ received)].
    intros x y z. apply bytes_xor_swap.
  - rewrite (range_order_perm _ received). apply list.Forall_forall.
    intros b ([id b'] & -> & Hin)%list_elem_of_fmap. apply elem_of_map_to_list in Hin. by apply (F id).
Qed.

(** The state of a reached round: one 32-byte value from this party and
    from every party whose message was processed. *)
Definition xor_inv (h : Helper) (r : xor_round) (M : gset ID) : Prop :=
  match r with
  | Round1 h' => h' = h
  | Round2 h' received =>
      h' = h /\ map_Forall (fun _ b => length b = 32%nat) received /\
      dom received = {[SelfID (info h)]} ∪ M
  end.

Lemma xor_reached h r B M : reached (Round1 h) r B M -> xor_inv h r M.
Proof.
  induction 1 as [|r B M m r' _ IH Hb|r B M m r' _ IH He _ _ _ _ Ev Es|r B M rand r' o q _ IH _ E].
  - done.
  - done.
  - destruct r as [h'|h' rc]; cbn in *; [by destruct He|]. injection Es as <-.
    destruct IH as (-> & F & D). destruct (decide _) as [|Hl]; [done|]. split_and!; [done| |].
    + apply map_Forall_insert_2; [by apply dec_stable|done].
    + rewrite dom_insert_L, D. set_solver.
  - destruct r as [h'|h' rc]; cbn in E, IH.
    + subst h'. unfold NewRID in E. destruct (ReadFull rand SecBytes) as [[x|] rd] eqn:Er; [|done].
      destruct (SendMessage _ _ _ _); [|done..]. injection E as <- _ _. cbn. split_and!; [done| |].
      * apply map_Forall_singleton. by apply ReadFull_length in Er.
      * rewrite dom_singleton_L. set_solver.
    + by destruct (xor_all _ _).
Qed.

(** An output is the exclusive or of one value per party. *)
Lemma xor_delivered h res :
  session_ok h -> FinalRoundNumber (info h) = xor_protocolRounds -> delivered (Round1 h) res ->
  exists received, dom received = list_to_set (partyIDs h) /\
    map_Forall (fun _ b => length b = 32%nat) received /\ res = xor_of received.
Proof.
  intros S Hf D. inversion D as [r B M rand hh res' out' rand' Re Hc E]; subst.
  assert (forall id, id ∈ B \/ id ∈ M -> id ∈ otherPartyIDs h) as HM
    by (intros id; by apply (reached_senders _ _ _ _ id Re)). apply xor_reached in Re.
  destruct r as [h'|h' rc]; cbn in E, Re.
  { destruct (NewRID rand) as [[x r]| |]; [|done..]. by destruct (SendMessage _ _ _ _). }
  destruct Re as (-> & F & Ed). rewrite xor_range in E by done. injection E as _ <- _ _.
  exists rc. split_and!; [|done|done]. apply set_eq. intros id.
  rewrite Ed, (session_ok_split _ S), elem_of_union, elem_of_singleton, elem_of_list_to_set, elem_of_cons.
  split; [intros [?|Hid]; [by left|right; apply HM; by right]|].
  intros [?|Hid]; [by left|right]. apply Hc; [|done|by eexists].
  unfold r_Final. cbn. rewrite Hf. by vm_compute.
Qed.

(** No code of the protocol panics. *)
Lemma xor_never_panics h :
  (forall (c : Round2Message) b, no_panic (cbor_Unmarshal c b)) ->
  (forall c : Round2Message, is_ret (cbor_Marshal c) = true) ->
  never_panics (Round1 h).
Proof.
  intros Hu Hm. constructor; [done|..].
  - intros [h'|h' rc] B M m _ p; cbn; [done|]. by destruct (decide _).
  - intros [h'|h' rc] B M m _ _ p; done.
  - done.
  - intros r B M rand s out' rand' Re%xor_reached _ E. destruct r as [h'|h' rc]; cbn in E.
    + unfold NewRID in E. destruct (ReadFull rand SecBytes) as [[x|] rd]; [|by injection E as <- <- _].
      unfold SendMessage, try_send in E. cbn in E. injection E as <- <- _. split; [done|].
      cbn. by constructor.
    + destruct Re as (-> & F & _). rewrite xor_range in E by done. injection E as <- <- _. done.
Qed.

End Xor.
