(* ===== verification/GoText.v ===== *)
(** * The text functions of the Go standard library that the services use

    [strings.TrimSpace], [strings.HasPrefix], [strings.TrimPrefix], the
    comparison of [strings.ToLower], [base64.StdEncoding] and
    [hex.EncodeToString], on byte strings. *)

From Stdlib Require Import ZArith Lia.
From Stdlib Require Import Strings.Byte.
From stdpp Require Import base gmap strings list pretty numbers.
From S2P Require Import Prelude.

Local Open Scope Z_scope.

Definition string_of_bytes (b : bytes) : string := String.string_of_list_byte b.

Lemma string_of_bytes_inv s : string_of_bytes (bytes_of_string s) = s.
Proof. apply String.string_of_list_byte_of_string. Qed.

Lemma bytes_of_string_inv b : bytes_of_string (string_of_bytes b) = b.
Proof. apply String.list_byte_of_string_of_list_byte. Qed.

(** ** Prefixes and white space *)

Fixpoint strip_prefix (p b : bytes) : option bytes :=
  match p, b with
  | [], b => Some b
  | x :: p, y :: b => if Byte.eqb x y then strip_prefix p b else None
  | _ :: _, [] => None
  end.

Definition HasPrefix (s prefix : string) : bool :=
  is_some (strip_prefix (bytes_of_string prefix) (bytes_of_string s)).

Definition TrimPrefix (s prefix : string) : string :=
  match strip_prefix (bytes_of_string prefix) (bytes_of_string s) with
  | Some b => string_of_bytes b
  | None => s
  end.

(** The UTF-8 encodings of the runes that [unicode.IsSpace] accepts. *)
Definition spaces : list bytes :=
  [[x09]; [x0a]; [x0b]; [x0c]; [x0d]; [x20]; [xc2; x85]; [xc2; xa0]; [xe1; x9a; x80]]
  ++ ((fun b => [xe2; x80; b]) <$> [x80; x81; x82; x83; x84; x85; x86; x87; x88; x89; x8a; xa8; xa9; xaf])
  ++ [[xe2; x81; x9f]; [xe3; x80; x80]].

Definition strip_space (sp : list bytes) (b : bytes) : option bytes :=
  match omap (fun p => strip_prefix p b) sp with r :: _ => Some r | [] => None end.

Fixpoint trim_left (fuel : nat) (sp : list bytes) (b : bytes) : bytes :=
  match fuel with
  | O => b
  | S fuel => match strip_space sp b with Some b => trim_left fuel sp b | None => b end
  end.

(** Every step removes a byte, so the length is enough fuel. *)
Definition trim_spaces (b : bytes) : bytes :=
  let b := trim_left (length b) spaces b in
  reverse (trim_left (length b) (reverse <$> spaces) (reverse b)).

Definition TrimSpace (s : string) : string := string_of_bytes (trim_spaces (bytes_of_string s)).

(** [strings.ToLower], as far as a comparison with ASCII text can tell: apart
    from A to Z, only U+0130 and U+212A have ASCII lower-case letters. *)
Definition lower1 (c : byte) : byte :=
  if (65 <=? byteZ c) && (byteZ c <=? 90) then byte_of_Z (byteZ c + 32) else c.

Fixpoint lower (b : bytes) : bytes :=
  match b with
  | xc4 :: xb0 :: b => x69 :: lower b
  | xe2 :: x84 :: xaa :: b => x6b :: lower b
  | c :: b => lower1 c :: lower b
  | [] => []
  end.

Definition ToLower (s : string) : string := string_of_bytes (lower (bytes_of_string s)).

(** ** base64.StdEncoding *)

Definition b64_alphabet : bytes :=
  bytes_of_string "ABCDEFGHIJKLMNOPQRSTUVWXYZabcdefghijklmnopqrstuvwxyz0123456789+/".

Definition b64_char (v : Z) : byte := nth (Z.to_nat (v mod 64)) b64_alphabet x00.

Definition b64_value (c : byte) : option Z :=
  match list_find (fun d => d = c) b64_alphabet with Some (i, _) => Some (Z.of_nat i) | None => None end.

Definition b64_pad : byte := x3d.

Fixpoint b64_encode (b : bytes) : bytes :=
  match b with
  | b0 :: b1 :: b2 :: b =>
      let v := byteZ b0 * 65536 + byteZ b1 * 256 + byteZ b2 in
      b64_char (v / 262144) :: b64_char (v / 4096) :: b64_char (v / 64) :: b64_char v :: b64_encode b
  | [b0; b1] =>
      let v := byteZ b0 * 65536 + byteZ b1 * 256 in
      [b64_char (v / 262144); b64_char (v / 4096); b64_char (v / 64); b64_pad]
  | [b0] =>
      let v := byteZ b0 * 65536 in
      [b64_char (v / 262144); b64_char (v / 4096); b64_pad; b64_pad]
  | [] => []
  end.

Definition EncodeToString (b : bytes) : string := string_of_bytes (b64_encode b).

Definition CorruptInputError (at_ : Z) : string := "illegal base64 data at input byte " +:+ pretty at_.

Definition is_newline (c : byte) : bool := Byte.eqb c x0a || Byte.eqb c x0d.

Fixpoint skip_newlines (src : bytes) (si : Z) : bytes * Z :=
  match src with
  | c :: src' => if is_newline c then skip_newlines src' (si + 1) else (src, si)
  | [] => ([], si)
  end.

(** The bytes of a quantum of which [length dbuf] characters were read. *)
Definition b64_bytes (dbuf : list Z) : bytes :=
  let v := nth 0 dbuf 0 * 262144 + nth 1 dbuf 0 * 4096 + nth 2 dbuf 0 * 64 + nth 3 dbuf 0 in
  take (length dbuf - 1) [byte_of_Z (v / 65536); byte_of_Z (v / 256); byte_of_Z v].

(** After the padding only newlines may follow. *)
Definition b64_end (dbuf : list Z) (src : bytes) (si : Z) : outcome bytes :=
  match skip_newlines src si with
  | ([], _) => Ret (b64_bytes dbuf)
  | (_, si) => Fail (CorruptInputError si)
  end.

(** [DecodeString], from input byte [si] on, with the characters [dbuf] of the
    current quantum read. *)
Fixpoint b64_decode (src : bytes) (si : Z) (dbuf : list Z) : outcome bytes :=
  match src with
  | [] => match dbuf with [] => Ret [] | _ => Fail (CorruptInputError (si - Z.of_nat (length dbuf))) end
  | c :: src =>
      match b64_value c with
      | Some v =>
          let dbuf := dbuf ++ [v] in
          if (length dbuf =? 4)%nat
          then rest ← b64_decode src (si + 1) []; Ret (b64_bytes dbuf ++ rest)
          else b64_decode src (si + 1) dbuf
      | None =>
          if is_newline c then b64_decode src (si + 1) dbuf
          else if negb (Byte.eqb c b64_pad) then Fail (CorruptInputError si)
          else match length dbuf with
               | 0%nat | 1%nat => Fail (CorruptInputError si)
               | 2%nat =>
                   match skip_newlines src (si + 1) with
                   | ([], si) => Fail (CorruptInputError si)
                   | (d :: src, si) =>
                       if negb (Byte.eqb d b64_pad) then Fail (CorruptInputError (si - 1))
                       else b64_end dbuf src (si + 1)
                   end
               | _ => b64_end dbuf src (si + 1)
               end
      end
  end.

Definition DecodeString (s : string) : outcome bytes := b64_decode (bytes_of_string s) 0 [].

(** ** hex.EncodeToString *)

Definition hex_digit (v : Z) : byte := nth (Z.to_nat (v mod 16)) (bytes_of_string "0123456789abcdef") x00.

Definition hex_EncodeToString (b : bytes) : string :=
  string_of_bytes (concat ((fun c => [hex_digit (byteZ c / 16); hex_digit (byteZ c)]) <$> b)).

(** ** Properties *)

Lemma b64_value_char v : b64_value (b64_char v) = Some (v mod 64).
Proof.
  unfold b64_char. pose proof (Z.mod_pos_bound v 64 ltac:(lia)) as Hv.
  generalize dependent (v mod 64). clear v. intros v Hv.
  assert (forallb (fun i => bool_decide (b64_value (nth i b64_alphabet x00) = Some (Z.of_nat i))) (seq 0 64) = true)
    as H by by vm_compute.
  rewrite forallb_forall in H. specialize (H (Z.to_nat v)).
  rewrite bool_decide_eq_true, Z2Nat.id in H by lia. apply H, in_seq. lia.
Qed.

Lemma b64_value_pad : b64_value b64_pad = None.
Proof. by vm_compute. Qed.

(** A full quantum. *)
Lemma b64_decode_4 v0 v1 v2 v3 src si :
  b64_decode (b64_char v0 :: b64_char v1 :: b64_char v2 :: b64_char v3 :: src) si []
  = (rest ← b64_decode src (si + 4) [];
     Ret (b64_bytes [v0 mod 64; v1 mod 64; v2 mod 64; v3 mod 64] ++ rest)).
Proof.
  cbn [b64_decode]. rewrite !b64_value_char. cbn [app length Nat.eqb].
  by replace (si + 1 + 1 + 1 + 1) with (si + 4) by lia.
Qed.

Lemma sextets v : 0 <= v < 2 ^ 24 ->
  v / 262144 mod 64 * 262144 + v / 4096 mod 64 * 4096 + v / 64 mod 64 * 64 + v mod 64 = v.
Proof. intros Hv. Z.to_euclidean_division_equations. lia. Qed.

(** The three bytes of a 24-bit value. *)
Lemma value_bytes b0 b1 b2 (v := byteZ b0 * 65536 + byteZ b1 * 256 + byteZ b2) :
  0 <= v < 2 ^ 24 /\ byte_of_Z (v / 65536) = b0 /\ byte_of_Z (v / 256) = b1 /\ byte_of_Z v = b2.
Proof.
  pose proof (byteZ_range b0). pose proof (byteZ_range b1). pose proof (byteZ_range b2).
  split; [subst v; lia|].
  split_and!; apply byteZ_inj; rewrite byteZ_of_Z; subst v; Z.to_euclidean_division_equations; lia.
Qed.

Lemma b64_bytes_full b0 b1 b2 (v := byteZ b0 * 65536 + byteZ b1 * 256 + byteZ b2) :
  b64_bytes [v / 262144 mod 64; v / 4096 mod 64; v / 64 mod 64; v mod 64] = [b0; b1; b2].
Proof.
  destruct (value_bytes b0 b1 b2) as (Hv & E0 & E1 & E2). fold v in Hv, E0, E1, E2.
  unfold b64_bytes. cbn [nth length Nat.sub take]. rewrite sextets by done. by rewrite E0, E1, E2.
Qed.

Lemma b64_bytes_3 b0 b1 (v := byteZ b0 * 65536 + byteZ b1 * 256) :
  b64_bytes [v / 262144 mod 64; v / 4096 mod 64; v / 64 mod 64] = [b0; b1].
Proof.
  destruct (value_bytes b0 b1 x00) as (Hv & E0 & E1 & _). change (byteZ x00) with 0 in *.
  rewrite Z.add_0_r in *. fold v in Hv, E0, E1.
  unfold b64_bytes. cbn [nth length Nat.sub take].
  assert (v mod 64 = 0) as Em by (subst v; Z.to_euclidean_division_equations; lia).
  rewrite <- Em at 1 2. rewrite sextets by done. by rewrite E0, E1.
Qed.

Lemma b64_bytes_2 b0 (v := byteZ b0 * 65536) :
  b64_bytes [v / 262144 mod 64; v / 4096 mod 64] = [b0].
Proof.
  destruct (value_bytes b0 x00 x00) as (Hv & E0 & _). change (byteZ x00) with 0 in *.
  rewrite Z.mul_0_l, !Z.add_0_r in *. fold v in Hv, E0.
  unfold b64_bytes. cbn [nth length Nat.sub take].
  assert (v / 64 mod 64 = 0 /\ v mod 64 = 0) as [E1 E2]
    by (subst v; split; Z.to_euclidean_division_equations; lia).
  pose proof (sextets v Hv) as Hs. rewrite E1, E2 in Hs. by rewrite Hs, E0.
Qed.

Lemma b64_decode_encode b si : b64_decode (b64_encode b) si [] = Ret b.
Proof.
  revert si. induction b as [b IH] using (induction_ltof1 _ (@length byte)). unfold ltof in IH. intros si.
  destruct b as [|b0 [|b1 [|b2 b]]]; [done|..].
  - cbn [b64_encode b64_decode]. rewrite !b64_value_char, !b64_value_pad. cbn [app length Nat.eqb].
    change (Byte.eqb b64_pad b64_pad) with true. change (is_newline b64_pad) with false.
    cbn [skip_newlines negb]. change (is_newline b64_pad) with false. cbn iota.
    change (Byte.eqb b64_pad b64_pad) with true. cbn [negb]. unfold b64_end. cbn [skip_newlines].
    by rewrite b64_bytes_2.
  - cbn [b64_encode b64_decode]. rewrite !b64_value_char, !b64_value_pad. cbn [app length Nat.eqb].
    change (Byte.eqb b64_pad b64_pad) with true. change (is_newline b64_pad) with false.
    cbn [negb]. unfold b64_end. cbn [skip_newlines]. by rewrite b64_bytes_3.
  - cbn [b64_encode]. rewrite b64_decode_4, IH by (cbn; lia). cbn [mbind outcome_bind].
    by rewrite b64_bytes_full.
Qed.

Lemma DecodeString_EncodeToString b : DecodeString (EncodeToString b) = Ret b.
Proof. unfold DecodeString, EncodeToString. rewrite bytes_of_string_inv. apply b64_decode_encode. Qed.

Lemma strip_prefix_spec p b r : strip_prefix p b = Some r <-> b = p ++ r.
Proof.
  revert b. induction p as [|x p IH]; intros b; [cbn; split; congruence|].
  destruct b as [|y b]; cbn; [done|]. destruct (Byte.eqb x y) eqn:E.
  - apply Byte.byte_dec_bl in E as ->. rewrite IH. split; congruence.
  - split; [done|]. intros [= Exy _]. rewrite Byte.byte_dec_lb in E by done. done.
Qed.

Lemma HasPrefix_app s prefix : HasPrefix (prefix +:+ s) prefix = true /\ TrimPrefix (prefix +:+ s) prefix = s.
Proof.
  assert (forall p, bytes_of_string (p +:+ s) = bytes_of_string p ++ bytes_of_string s) as Ha.
  { induction p as [|c p IH]; [done|].
    change (bytes_of_string (String c p +:+ s)) with (Ascii.byte_of_ascii c :: bytes_of_string (p +:+ s)).
    by rewrite IH. }
  unfold HasPrefix, TrimPrefix.
  rewrite (proj2 (strip_prefix_spec _ _ (bytes_of_string s)) (Ha prefix)).
  split; [done|]. apply string_of_bytes_inv.
Qed.

Lemma strip_space_Some sp b r : strip_space sp b = Some r -> exists p, p ∈ sp /\ b = p ++ r.
Proof.
  unfold strip_space. destruct (omap _ sp) as [|r' l] eqn:E; [done|]. intros [= ->].
  assert (r ∈ omap (fun p => strip_prefix p b) sp) as Hr by (rewrite E; left).
  apply list_elem_of_omap in Hr as (p & Hp & Ep). apply strip_prefix_spec in Ep. eauto.
Qed.

Lemma strip_space_None sp b : strip_space sp b = None <-> forall p r, p ∈ sp -> b <> p ++ r.
Proof.
  unfold strip_space. split.
  - intros E p r Hp ->. destruct (omap _ sp) as [|r' l] eqn:Eo; [|done].
    assert (r ∈ omap (fun q => strip_prefix q (p ++ r)) sp) as Hr.
    { apply list_elem_of_omap. exists p. split; [done|]. by apply strip_prefix_spec. }
    rewrite Eo in Hr. by apply elem_of_nil in Hr.
  - intros Hn. destruct (omap _ sp) as [|r' l] eqn:Eo; [done|]. exfalso.
    assert (r' ∈ omap (fun p => strip_prefix p b) sp) as Hr by (rewrite Eo; left).
    apply list_elem_of_omap in Hr as (p & Hp & Ep%strip_prefix_spec). by eapply Hn.
Qed.

Lemma trim_left_suffix fuel sp b : exists l, b = l ++ trim_left fuel sp b.
Proof.
  revert b. induction fuel as [|fuel IH]; intros b; cbn; [by exists []|].
  destruct (strip_space sp b) as [b'|] eqn:E; [|by exists []].
  apply strip_space_Some in E as (p & _ & ->). destruct (IH b') as [l E].
  exists (p ++ l). by rewrite <- app_assoc, <- E.
Qed.

Lemma trim_left_done fuel sp b :
  (forall p, p ∈ sp -> p <> []) -> (length b <= fuel)%nat -> strip_space sp (trim_left fuel sp b) = None.
Proof.
  intros Hne. revert b. induction fuel as [|fuel IH]; intros b Hl; cbn.
  - destruct b; [|cbn in Hl; lia]. apply strip_space_None. intros p r Hp E. symmetry in E.
    apply app_eq_nil in E as [E _]. by apply (Hne p).
  - destruct (strip_space sp b) as [b'|] eqn:E; [|done]. apply IH.
    apply strip_space_Some in E as (p & Hp & ->). rewrite length_app in Hl.
    destruct p; [by destruct (Hne [] Hp)|]. cbn in Hl. lia.
Qed.

Lemma trim_left_fixed fuel sp b : strip_space sp b = None -> trim_left fuel sp b = b.
Proof. destruct fuel; cbn; [done|]. by intros ->. Qed.

(** Nothing to trim at either end. *)
Definition trimmed (b : bytes) : Prop :=
  strip_space spaces b = None /\ strip_space (reverse <$> spaces) (reverse b) = None.

Lemma spaces_nonempty p : p ∈ spaces -> p <> [].
Proof.
  assert (forallb (fun p => negb (bool_decide (p = []))) spaces = true) as H by by vm_compute.
  rewrite forallb_forall in H. intros Hp%list_elem_of_In%H. by rewrite negb_true_iff, bool_decide_eq_false in Hp.
Qed.

Lemma trim_spaces_trimmed b : trimmed (trim_spaces b).
Proof.
  unfold trimmed, trim_spaces. set (b1 := trim_left (length b) spaces b).
  assert (strip_space spaces b1 = None) as H1 by (apply trim_left_done; [apply spaces_nonempty|lia]).
  set (b2 := trim_left (length b1) (reverse <$> spaces) (reverse b1)).
  assert (strip_space (reverse <$> spaces) b2 = None) as H2.
  { apply trim_left_done; [|by rewrite length_reverse]. intros p (q & -> & Hq)%list_elem_of_fmap.
    intros E. apply (spaces_nonempty q Hq). by rewrite <- (reverse_involutive q), E. }
  rewrite reverse_involutive. split; [|done].
  destruct (trim_left_suffix (length b1) (reverse <$> spaces) (reverse b1)) as [l El]. fold b2 in El.
  assert (b1 = reverse b2 ++ reverse l) as Eb by (by rewrite <- reverse_app, <- El, reverse_involutive).
  rewrite strip_space_None in H1 |- *. intros p r Hp E. apply (H1 p (r ++ reverse l) Hp).
  by rewrite Eb, E, app_assoc.
Qed.

Lemma trimmed_fixed b : trimmed b -> trim_spaces b = b.
Proof.
  intros [H1 H2]. unfold trim_spaces. rewrite (trim_left_fixed _ _ _ H1), (trim_left_fixed _ _ _ H2).
  apply reverse_involutive.
Qed.

Lemma TrimSpace_idem s : TrimSpace (TrimSpace s) = TrimSpace s.
Proof.
  unfold TrimSpace. rewrite bytes_of_string_inv. f_equal. apply trimmed_fixed, trim_spaces_trimmed.
Qed.

(** Text without the first byte of any space is not trimmed. *)
Definition space_free (c : byte) : bool :=
  negb (existsb (fun p => match p with x :: _ => Byte.eqb x c | [] => false end) spaces)
  && negb (existsb (fun p => match reverse p with x :: _ => Byte.eqb x c | [] => false end) spaces).

Lemma space_free_trimmed b : forallb space_free b = true -> trimmed b.
Proof.
  intros H. rewrite forallb_forall in H.
  assert (forall p c r, p ∈ spaces -> space_free c = true -> p <> c :: r /\ reverse p <> c :: r) as Hp.
  { intros p c r Hin [H1 H2]%andb_true_iff. rewrite negb_true_iff, <- not_true_iff_false, existsb_exists in H1, H2.
    apply list_elem_of_In in Hin.
    split; intros E; [apply H1|apply H2]; exists p; (split; [done|]); rewrite E; by apply Byte.byte_dec_lb. }
  split; apply strip_space_None; intros p r Hin E.
  - pose proof (spaces_nonempty p Hin) as Hn. destruct p as [|c p]; [done|]. subst b.
    destruct (Hp (c :: p) c p Hin) as [N _]; [apply H; by left|done].
  - apply list_elem_of_fmap in Hin as (q & -> & Hin). pose proof (spaces_nonempty q Hin) as Hn.
    destruct (reverse q) as [|c p] eqn:Eq; [by apply Hn; rewrite <- (reverse_involutive q), Eq|].
    destruct (Hp q c p Hin) as [_ N]; [|done]. apply H, list_elem_of_In, elem_of_reverse.
    rewrite E. left.
Qed.

(** What holds of the characters of the alphabet holds of encoded text. *)
Lemma b64_char_all (P : byte -> bool) v : forallb P (b64_pad :: b64_alphabet) = true -> P (b64_char v) = true.
Proof.
  intros H. rewrite forallb_forall in H. apply H. right. unfold b64_char.
  pose proof (Z.mod_pos_bound v 64 ltac:(lia)) as Hv. apply nth_In. cbn. lia.
Qed.

Lemma b64_encode_all (P : byte -> bool) b :
  forallb P (b64_pad :: b64_alphabet) = true -> forallb P (b64_encode b) = true.
Proof.
  intros H. assert (P b64_pad = true) as Hp by (rewrite forallb_forall in H; apply H; by left).
  induction b as [b IH] using (induction_ltof1 _ (@length byte)). unfold ltof in IH.
  destruct b as [|b0 [|b1 [|b2 b]]]; [done|..]; cbn [b64_encode forallb];
    rewrite !(b64_char_all P) by done; [by rewrite Hp..|]. apply IH. cbn. lia.
Qed.

Lemma EncodeToString_trim b : TrimSpace (EncodeToString b) = EncodeToString b.
Proof.
  unfold TrimSpace, EncodeToString. rewrite bytes_of_string_inv. f_equal.
  by apply trimmed_fixed, space_free_trimmed, b64_encode_all.
Qed.

(** Trimming keeps what holds of all bytes. *)
Lemma trim_left_Forall (P : byte -> Prop) fuel sp b : Forall P b -> Forall P (trim_left fuel sp b).
Proof. intros Hb. destruct (trim_left_suffix fuel sp b) as [l E]. rewrite E in Hb. by apply Forall_app in Hb as [_ ?]. Qed.

Lemma TrimSpace_Forall (P : byte -> Prop) s :
  Forall P (bytes_of_string s) -> Forall P (bytes_of_string (TrimSpace s)).
Proof.
  intros Hs. unfold TrimSpace, trim_spaces. rewrite bytes_of_string_inv.
  by apply Forall_reverse, trim_left_Forall, Forall_reverse, trim_left_Forall.
Qed.
