(* ===== verification/FrostConfig.v ===== *)
(** * protocols/frost/keygen/config.go and internal/bip32

    The key material that a party holds after key generation, and the
    derivation of related keys.  [shared_key] says what makes it one key: a
    polynomial in the exponent, of the degree of the threshold, whose value
    at zero is the public key and whose value at a party is the party's
    verification share.  A nil chain key is the empty byte string. *)

From Stdlib Require Import ZArith Lia Zmod Field.
From Stdlib Require Import Strings.Byte.
From stdpp Require Import base gmap strings list pretty numbers.
From S2P Require Import Prelude Hash Curve Party Sample Polynomial Sha2 Taproot.

Local Open Scope curve_scope.

Section Config.
Context {C : Curve} {X : XOnly C}.

Record Config := mkConfig {
  c_ID : ID;
  c_Threshold : Z;
  c_PrivateShare : Scalar;
  c_PublicKey : Point;
  c_ChainKey : bytes;
  c_VerificationShares : gmap ID Point
}.

Record TaprootConfig := mkTaprootConfig {
  t_ID : ID;
  t_Threshold : Z;
  t_PrivateShare : Scalar;
  t_PublicKey : bytes;
  t_ChainKey : bytes;
  t_VerificationShares : gmap ID Point
}.

Definition EmptyConfig : Config := mkConfig "" 0 0 𝟎 [] ∅.

(** [bip32.DeriveScalar]: [i] is a uint32. *)
Definition DeriveScalar (public : Point) (chaining : bytes) (i : Z) : outcome (Scalar * bytes) :=
  if decide (Z.shiftr i 31 <> 0)%Z
  then Panic "DeriveScalar doesn't work with hardened keys."
  else
    let out := hmac_sha512 chaining (PMarshal public ++ be_of_Z 4 i) in
    match SUnmarshal 0 (take 32 out) with
    | (scalar, Ret _) =>
        if IsZero scalar then Fail ("bad index: " +:+ pretty i) else Ret (scalar, drop 32 out)
    | (_, Fail _) => Fail ("bad index: " +:+ pretty i)
    | (_, Panic p) => Panic p
    end.

(** The chain key that [Derive] puts in the new configuration. *)
Definition next_chain_key (old new : bytes) : outcome bytes :=
  let new := if decide (length new <= 0)%nat then old else new in
  if decide (length new <> SecBytes)
  then Fail ("expecte " +:+ pretty SecBytes +:+ " bytes for chain key, found "
             +:+ pretty (length new))
  else Ret new.

Definition Derive (r : Config) (adjust : Scalar) (newChainKey : bytes) : outcome Config :=
  newChainKey ← next_chain_key (c_ChainKey r) newChainKey;
  let adjustG := ActOnBase adjust in
  let verificationShares := (fun v => v ⊕ adjustG) <$> c_VerificationShares r in
  Ret (mkConfig (c_ID r) (c_Threshold r) (c_PrivateShare r + adjust)
         (c_PublicKey r ⊕ adjustG) newChainKey verificationShares).

Definition DeriveChild (r : Config) (i : Z) : outcome Config :=
  '(scalar, newChainKey) ← DeriveScalar (c_PublicKey r) (c_ChainKey r) i;
  Derive r scalar newChainKey.

Definition Taproot_Clone (r : TaprootConfig) : TaprootConfig :=
  mkTaprootConfig (t_ID r) (t_Threshold r) (t_PrivateShare r) (t_PublicKey r) (t_ChainKey r)
    (t_VerificationShares r).

Definition Taproot_Derive (r : TaprootConfig) (adjust : Scalar) (newChainKey : bytes) :
    outcome TaprootConfig :=
  newChainKey ← next_chain_key (t_ChainKey r) newChainKey;
  let adjustG := ActOnBase adjust in
  let verificationShares := (fun v => v ⊕ adjustG) <$> t_VerificationShares r in
  let privateShare := t_PrivateShare r + adjust in
  publicKey ← LiftX (t_PublicKey r);
  let publicKey := publicKey ⊕ adjustG in
  let even := HasEvenY publicKey in
  let privateShare := if even then privateShare else - privateShare in
  let verificationShares := if even then verificationShares else PNegate <$> verificationShares in
  Ret (mkTaprootConfig (t_ID r) (t_Threshold r) privateShare (XBytes publicKey) newChainKey
         verificationShares).

Definition Taproot_DeriveChild (r : TaprootConfig) (i : Z) : outcome TaprootConfig :=
  publicKey ← LiftX (t_PublicKey r);
  '(scalar, newChainKey) ← DeriveScalar publicKey (t_ChainKey r) i;
  Taproot_Derive r scalar newChainKey.

(** ** What makes it one key *)

(** The public key and the verification shares lie on one polynomial. *)
Definition shared_key (L : list Point) (t : Z) (Y : Point) (VS : gmap ID Point) : Prop :=
  Z.of_nat (length L) = (t + 1)%Z /\ (0 <= t)%Z /\ Y = hornerP 0 L /\
  forall k P, VS !! k = Some P -> P = hornerP (ID_Scalar k) L.

(** A private share fits the same polynomial. *)
Definition share_of (L : list Point) (id : ID) (s : Scalar) : Prop :=
  s • 𝐆 = hornerP (ID_Scalar id) L.

Definition Config_valid (L : list Point) (r : Config) : Prop :=
  shared_key L (c_Threshold r) (c_PublicKey r) (c_VerificationShares r) /\
  share_of L (c_ID r) (c_PrivateShare r).

Definition Taproot_valid (L : list Point) (r : TaprootConfig) : Prop :=
  exists Y, LiftX (t_PublicKey r) = Ret Y /\
    shared_key L (t_Threshold r) Y (t_VerificationShares r) /\
    share_of L (t_ID r) (t_PrivateShare r).

(** Adding to the constant coefficient. *)
Definition shift_key (A : Point) (L : list Point) : list Point :=
  match L with [] => [] | B :: L => (B ⊕ A) :: L end.

End Config.

(** ** Properties *)

Section ConfigProperties.
Context {C : Curve} {CL : CurveLaws C} {X : XOnly C} {XL : XOnlyLaws C X}.
Add Field scalar_field : scalar_field_theory.

Lemma hornerP_cons x A L : hornerP x (A :: L) = x • hornerP x L ⊕ A.
Proof. done. Qed.

Lemma hornerP_shift x A L : L <> [] -> hornerP x (shift_key A L) = hornerP x L ⊕ A.
Proof. destruct L as [|B L]; [done|]. intros _. cbn. by rewrite padd_assoc. Qed.

Lemma hornerP_neg x L : hornerP x (PNegate <$> L) = ⊖ hornerP x L.
Proof.
  destruct (points_base L) as [l ->]. rewrite <- list_fmap_compose, hornerP_base, <- act_opp.
  rewrite (list_fmap_ext _ (ActOnBase ∘ (fun a => - a))).
  2: { intros i a _. cbn. unfold ActOnBase. by rewrite act_opp. }
  rewrite list_fmap_compose, hornerP_base. f_equal.
  induction l as [|a l IH]; cbn; [ring|]. unfold horner in IH. rewrite IH. ring.
Qed.

Lemma hornerP_add x L1 L2 :
  length L1 = length L2 -> hornerP x (zip_with PAdd L1 L2) = hornerP x L1 ⊕ hornerP x L2.
Proof.
  revert L2. induction L1 as [|A L1 IH]; intros [|B L2] Hl; try done; cbn [zip_with].
  - cbn. by rewrite padd_0_l.
  - injection Hl as Hl. rewrite !hornerP_cons, IH by done. rewrite act_add_r, <- !padd_assoc.
    f_equal. rewrite !padd_assoc. f_equal. apply padd_comm.
Qed.

Lemma shared_key_nonempty L t Y VS : shared_key L t Y VS -> L <> [].
Proof. intros (Hl & Ht & _). destruct L; [cbn in Hl; lia|done]. Qed.

Lemma shared_key_shift L t Y VS A :
  shared_key L t Y VS -> shared_key (shift_key A L) t (Y ⊕ A) ((fun v => v ⊕ A) <$> VS).
Proof.
  intros S. pose proof (shared_key_nonempty _ _ _ _ S) as N. destruct S as (Hl & Ht & -> & HV).
  split; [by destruct L|]. split; [done|]. split; [by rewrite hornerP_shift|].
  intros k P (Q & EQ & HQ)%lookup_fmap_Some. subst P. rewrite hornerP_shift by done.
  by rewrite <- (HV k Q HQ).
Qed.

Lemma shared_key_neg L t Y VS :
  shared_key L t Y VS -> shared_key (PNegate <$> L) t (⊖ Y) (PNegate <$> VS).
Proof.
  intros (Hl & Ht & -> & HV). split; [by rewrite length_fmap|]. split; [done|].
  split; [by rewrite hornerP_neg|]. intros k P (Q & EQ & HQ)%lookup_fmap_Some. subst P.
  rewrite hornerP_neg. by rewrite <- (HV k Q HQ).
Qed.

Lemma share_of_shift L id s a :
  L <> [] -> share_of L id s -> share_of (shift_key (ActOnBase a) L) id (s + a).
Proof. unfold share_of. intros N E. by rewrite hornerP_shift, act_add, E by done. Qed.

Lemma share_of_neg L id s : share_of L id s -> share_of (PNegate <$> L) id (- s).
Proof. unfold share_of. intros E. by rewrite hornerP_neg, act_opp, E. Qed.

Lemma next_chain_key_ret old new k :
  next_chain_key old new = Ret k -> length k = SecBytes /\ (k = new \/ new = [] /\ k = old).
Proof.
  unfold next_chain_key. destruct (decide (length new <= 0)%nat) as [Hn|Hn];
    (destruct (decide _) as [|Hl%dec_stable]; [done|]); intros [= <-]; split; auto.
  right. split; [|done]. by destruct new; [|cbn in Hn; lia].
Qed.

(** Derivation moves a valid key by the adjustment. *)
Lemma Derive_valid L r adjust ck r' :
  Config_valid L r -> Derive r adjust ck = Ret r' ->
  Config_valid (shift_key (ActOnBase adjust) L) r' /\
  c_PublicKey r' = c_PublicKey r ⊕ adjust • 𝐆.
Proof.
  unfold Derive. intros [S H] (k & _ & [= <-])%bind_ret_inv. split; [|done]. split; cbn.
  - by apply shared_key_shift.
  - apply share_of_shift; [by eapply shared_key_nonempty|done].
Qed.

Lemma Taproot_Derive_valid L r adjust ck r' :
  Taproot_valid L r -> Taproot_Derive r adjust ck = Ret r' ->
  (forall Y, LiftX (t_PublicKey r) = Ret Y -> Y ⊕ adjust • 𝐆 <> 𝟎) ->
  exists L', Taproot_valid L' r' /\
    (L' = shift_key (ActOnBase adjust) L \/ L' = PNegate <$> shift_key (ActOnBase adjust) L).
Proof.
  unfold Taproot_Derive. intros (Y & EY & S & H) (k & _ & E)%bind_ret_inv Hne.
  specialize (Hne Y EY). rewrite EY in E. cbn in E. injection E as <-.
  pose proof (shared_key_shift _ _ _ _ (ActOnBase adjust) S) as S'.
  assert (share_of (shift_key (ActOnBase adjust) L) (t_ID r) (t_PrivateShare r + adjust)) as H'
    by (apply share_of_shift; [by eapply shared_key_nonempty|done]).
  destruct (HasEvenY (Y ⊕ ActOnBase adjust)) eqn:Ev.
  - eexists. split; [|by left]. exists (Y ⊕ ActOnBase adjust). split_and!; cbn; [|done..].
    by apply liftx_xbytes.
  - eexists. split; [|by right]. exists (⊖ (Y ⊕ ActOnBase adjust)). split_and!; cbn.
    + rewrite <- xbytes_neg. apply liftx_xbytes; [by intros ?%neg_eq_identity|].
      by rewrite eveny_neg, Ev.
    + by apply shared_key_neg.
    + by apply share_of_neg.
Qed.

(** Any more than [t] parties interpolate the public key from their
    verification shares, and the secret key from their private shares. *)
Lemma shared_key_interpolate L t Y VS ids m :
  shared_key L t Y VS -> ids_ok ids -> (t < Z.of_nat (length ids))%Z ->
  (forall id, id ∈ ids -> is_Some (VS !! id)) -> Lagrange ids = Ret m ->
  sumP (fun id => getS m id • getP VS id) ids = Y.
Proof.
  intros (Hl & Ht & -> & HV) Hok Hids Hd E. rewrite <- (Lagrange_hornerP ids m L) by (done || lia).
  apply sumP_ext. intros id Hid. f_equal. unfold getP. destruct (Hd id Hid) as [P HP].
  rewrite HP. cbn. by apply HV.
Qed.

Lemma shares_reconstruct L t Y VS ids m (s : ID -> Scalar) :
  shared_key L t Y VS -> ids_ok ids -> (t < Z.of_nat (length ids))%Z ->
  (forall id, id ∈ ids -> share_of L id (s id)) -> Lagrange ids = Ret m ->
  sumS (fun id => getS m id * s id) ids • 𝐆 = Y.
Proof.
  intros (Hl & Ht & -> & _) Hok Hids Hs E. rewrite <- (Lagrange_hornerP ids m L) by (done || lia).
  rewrite <- sumP_act. apply sumP_ext. intros id Hid. rewrite act_mul. f_equal. by apply Hs.
Qed.

End ConfigProperties.
