(* ===== verification/FrostKeygen.v ===== *)
(** * protocols/frost/keygen: distributed key generation and refresh

    The three rounds of the FROST key generation, for plain and Taproot keys
    and for refreshing an existing key.  Each round embeds the previous one;
    every handler of [keygen/round*.go] is one definition.  The contents of
    decoded messages keep the nil values that the code tests for. *)

From Stdlib Require Import ZArith Lia Zmod Field.
From Stdlib Require Import Strings.Byte.
From stdpp Require Import base gmap strings list pretty numbers.
From S2P Require Import Prelude Hash Curve Party Sample Polynomial Round Message Handler.
From S2P Require Import Schnorr Taproot FrostConfig.

Local Open Scope curve_scope.

Definition keygen_protocolID : string := "frost/keygen-threshold".
Definition keygen_protocolIDTaproot : string := "frost/keygen-threshold-taproot".
Definition keygen_protocolRounds : Number := 3%Z.

Section Keygen.
Context {C : Curve} {X : XOnly C} `{Blake3} {MO : MapOrder}.

(** ** Rounds and messages *)

Record round1 := mkRound1 {
  k_Helper : Helper;
  taproot : bool;
  threshold : Z;
  refresh : bool;
  privateShare : Scalar;
  verificationShares : gmap ID Point;
  publicKey : Point
}.

Record round2 := mkRound2 {
  k_round1 : round1;
  f_i : Polynomial;
  Phi : gmap ID Exponent;
  ChainKeyDecommitment : bytes;
  ChainKeys : gmap ID bytes;
  ChainKeyCommitments : gmap ID bytes
}.

Record round3 := mkRound3 {
  k_round2 : round2;
  shareFrom : gmap ID Scalar
}.

Inductive kg_round :=
| KG1 (r : round1)
| KG2 (r : round2)
| KG3 (r : round3).

(** [broadcast2], [broadcast3] and [message3] *)
Inductive kg_content :=
| Broadcast2 (Phi_i : option Exponent) (Sigma_i : option Proof) (Commitment : bytes)
| Broadcast3 (C_l Decommitment : bytes)
| Message3 (F_li : option Scalar).

Inductive kg_result :=
| RConfig (c : Config)
| RTaproot (c : TaprootConfig).

Definition kg_round1 (r : kg_round) : round1 :=
  match r with KG1 r => r | KG2 r => k_round1 r | KG3 r => k_round1 (k_round2 r) end.

Definition kg_helper (r : kg_round) : Helper := k_Helper (kg_round1 r).

Definition kg_Number (r : kg_round) : Number :=
  match r with KG1 _ => 1 | KG2 _ => 2 | KG3 _ => 3 end%Z.

(** Only [round2] and [round3] have [StoreBroadcastMessage]. *)
Definition kg_is_broadcast (r : kg_round) : bool :=
  match r with KG1 _ => false | _ => true end.

Definition kg_MessageContent (r : kg_round) : option kg_content :=
  match r with KG3 _ => Some (Message3 (Some 0)) | _ => None end.

(** [EmptyExponent] and [EmptyProof] *)
Definition EmptyExponent : Exponent := mkExponent false [].
Definition EmptyProof : Proof := mkProof 𝟎 0.

Definition kg_BroadcastContent (r : kg_round) : option kg_content :=
  match r with
  | KG1 _ => None
  | KG2 _ => Some (Broadcast2 (Some EmptyExponent) (Some EmptyProof) [])
  | KG3 _ => Some (Broadcast3 [] [])
  end.

Definition kg_RoundNumber (c : kg_content) : Number :=
  match c with Broadcast2 _ _ _ => 2 | Broadcast3 _ _ => 3 | Message3 _ => 3 end%Z.

Abbreviation kg_message := (round_Message kg_content).
Abbreviation kg_session := (Session kg_round kg_result).

Definition selfID (r : round1) : ID := SelfID (info (k_Helper r)).

(** ** Round 1 *)

Definition round1_Finalize (r : round1) (rand : reader) (out : chan kg_message) :
    outcome (round2 * chan kg_message * reader) :=
  let h := k_Helper r in
  '(a_i0, rand) ← (if refresh r then Ret (0, rand) else sample_Scalar rand);
  let a_i0_times_G := if refresh r then 𝟎 else ActOnBase a_i0 in
  '(f_i, rand) ← NewPolynomial (threshold r) (Some a_i0) rand;
  '(Sigma_i, rand) ←
    (if refresh r then Ret (None, rand)
     else '(p, rand) ← NewProof (HashForID h (selfID r)) a_i0_times_G a_i0 None rand;
          Ret (Some p, rand));
  Phi_i ← NewPolynomialExponent f_i;
  '(c_i, rand) ← (match NewRID rand with
                  | Fail _ => Fail "failed to sample ChainKey"
                  | o => o
                  end);
  '(commitment, decommitment, rand) ←
    (match Commit (HashForID h (selfID r)) rand [RID_any (Some c_i)] with
     | Fail _ => Fail "failed to commit to chain key"
     | o => o
     end);
  out ← BroadcastMessage h out (Broadcast2 (Some Phi_i) Sigma_i commitment);
  Ret (mkRound2 r f_i {[selfID r := Phi_i]} decommitment {[selfID r := c_i]} ∅, out, rand).

(** ** Round 2 *)

Definition round2_StoreBroadcastMessage (r : round2) (msg : kg_message) : outcome round2 :=
  let from := rm_From msg in
  match rm_Content msg with
  | Broadcast2 Phi_i Sigma_i Commitment =>
      let rf := refresh (k_round1 r) in
      match Phi_i with
      | None => Fail ErrNilFields
      | Some Phi_i =>
          if negb rf && negb (Proof_IsValid Sigma_i) then Fail ErrNilFields
          else
            _ ← wrap_err "commitment: " (Commitment_Validate Commitment);
            c ← Exponent_Constant Phi_i;
            _ ← (if rf
                 then guard_or (IsIdentity c)
                        ("party " +:+ from +:+ " sent a non-zero constant while refreshing")
                 else b ← Proof_Verify Sigma_i (HashForID (k_Helper (k_round1 r)) from) c None;
                      guard_or b ("failed to verify Schnorr proof for party " +:+ from));
            Ret (mkRound2 (k_round1 r) (f_i r) (<[from := Phi_i]> (Phi r)) (ChainKeyDecommitment r)
                   (ChainKeys r) (<[from := Commitment]> (ChainKeyCommitments r)))
      end
  | _ => Fail ErrInvalidContent
  end.

(** The loop that sends the shares. *)
Fixpoint send_shares (h : Helper) (f : Polynomial) (ids : list ID) (out : chan kg_message) :
    outcome (chan kg_message) :=
  match ids with
  | [] => Ret out
  | l :: ids =>
      F_li ← Evaluate f (ID_Scalar l);
      out ← SendMessage h out (Message3 (Some F_li)) l;
      send_shares h f ids out
  end.

Definition round2_Finalize (r : round2) (out : chan kg_message) :
    outcome (round3 * chan kg_message) :=
  let h := k_Helper (k_round1 r) in
  let self := selfID (k_round1 r) in
  out ← BroadcastMessage h out
          (Broadcast3 (default [] (ChainKeys r !! self)) (ChainKeyDecommitment r));
  out ← send_shares h (f_i r) (otherPartyIDs h) out;
  selfShare ← Evaluate (f_i r) (ID_Scalar self);
  Ret (mkRound3 r {[self := selfShare]}, out).

(** ** Round 3 *)

Definition round3_StoreBroadcastMessage (r : round3) (msg : kg_message) : outcome round3 :=
  let from := rm_From msg in
  let r2 := k_round2 r in
  match rm_Content msg with
  | Broadcast3 C_l Decommitment =>
      _ ← RID_Validate C_l;
      if negb (Decommit (HashForID (k_Helper (k_round1 r2)) from)
                 (default [] (ChainKeyCommitments r2 !! from)) Decommitment [RID_any (Some C_l)])
      then Fail "failed to verify chain key commitment"
      else Ret (mkRound3 (mkRound2 (k_round1 r2) (f_i r2) (Phi r2) (ChainKeyDecommitment r2)
                            (<[from := C_l]> (ChainKeys r2)) (ChainKeyCommitments r2))
                  (shareFrom r))
  | _ => Fail ErrInvalidContent
  end.

Definition round3_VerifyMessage (r : round3) (msg : kg_message) : outcome unit :=
  match rm_Content msg with
  | Message3 F_li => match F_li with None => Fail ErrNilFields | Some _ => Ret tt end
  | _ => Fail ErrInvalidContent
  end.

(** The type assertion and the uses of nil values panic. *)
Definition round3_StoreMessage (r : round3) (msg : kg_message) : outcome round3 :=
  let from := rm_From msg in
  match rm_Content msg with
  | Message3 F_li =>
      F_li ← deref F_li;
      let expected := ActOnBase F_li in
      phi ← deref (Phi (k_round2 r) !! from);
      let actual := Exponent_Evaluate phi (ID_Scalar (selfID (k_round1 (k_round2 r)))) in
      if negb (PEqual expected actual) then Fail "VSS failed to validate"
      else Ret (mkRound3 (k_round2 r) (<[from := F_li]> (shareFrom r)))
  | _ => Panic "interface conversion: round.Content is not *keygen.message3"
  end.

(** [for _, j := range r.PartyIDs() { ChainKey.XOR(r.ChainKeys[j]) }] *)
Fixpoint chain_key (keys : gmap ID bytes) (acc : bytes) (ids : list ID) : outcome bytes :=
  match ids with
  | [] => Ret acc
  | j :: ids => acc ← RID_XOR acc (default [] (keys !! j)); chain_key keys acc ids
  end.

(** [for _, phi_j := range r.Phi { r.publicKey = r.publicKey.Add(phi_j.Constant()) }] *)
Fixpoint add_constants (Y : Point) (phis : list Exponent) : outcome Point :=
  match phis with
  | [] => Ret Y
  | phi :: phis => c ← Exponent_Constant phi; add_constants (Y ⊕ c) phis
  end.

Definition add_shares (s : Scalar) (shares : list Scalar) : Scalar :=
  foldl (fun s f => s + f) s shares.

(** [panic(err)] on an error of [polynomial.Sum] *)
Definition must {A} (m : outcome A) : outcome A :=
  match m with Fail e => Panic e | o => o end.

Definition round3_Finalize (r : round3) : outcome kg_result :=
  let r2 := k_round2 r in
  let r1 := k_round1 r2 in
  let h := k_Helper r1 in
  ChainKey ← chain_key (ChainKeys r2) EmptyRID (partyIDs h);
  let privateShare := add_shares (privateShare r1) (range_order (shareFrom r)).*2 in
  let exponents := (range_order (Phi r2)).*2 in
  publicKey ← add_constants (publicKey r1) exponents;
  verificationExponent ← must (Polynomial.Sum exponents);
  let verificationShares :=
    map_imap (fun k v => Some (v ⊕ Exponent_Evaluate verificationExponent (ID_Scalar k)))
      (verificationShares r1) in
  if taproot r1 then
    let even := HasEvenY publicKey in
    let privateShare := if even then privateShare else - privateShare in
    let verificationShares := if even then verificationShares else PNegate <$> verificationShares in
    Ret (RTaproot (mkTaprootConfig (selfID r1) (threshold r1) privateShare (XBytes publicKey) []
                     verificationShares))
  else
    Ret (RConfig (mkConfig (selfID r1) (threshold r1) privateShare publicKey [] verificationShares)).

(** ** The round interface *)

Definition kg_VerifyMessage (r : kg_round) (msg : kg_message) : outcome unit :=
  match r with KG3 r => round3_VerifyMessage r msg | _ => Ret tt end.

Definition kg_StoreMessage (r : kg_round) (msg : kg_message) : outcome kg_round :=
  match r with
  | KG3 r => r' ← round3_StoreMessage r msg; Ret (KG3 r')
  | _ => Ret r
  end.

Definition kg_StoreBroadcastMessage (r : kg_round) (msg : kg_message) : outcome kg_round :=
  match r with
  | KG1 _ => Ret r
  | KG2 r => r' ← round2_StoreBroadcastMessage r msg; Ret (KG2 r')
  | KG3 r => r' ← round3_StoreBroadcastMessage r msg; Ret (KG3 r')
  end.

Definition kg_Finalize (r : kg_round) (rand : reader) (out : chan kg_message) :
    outcome kg_session * chan kg_message * reader :=
  match r with
  | KG1 r =>
      match round1_Finalize r rand out with
      | Ret (r', out, rand) => (Ret (Running (KG2 r')), out, rand)
      | Fail e => (Fail e, out, rand)
      | Panic p => (Panic p, out, rand)
      end
  | KG2 r =>
      match round2_Finalize r out with
      | Ret (r', out) => (Ret (Running (KG3 r')), out, rand)
      | Fail e => (Fail e, out, rand)
      | Panic p => (Panic p, out, rand)
      end
  | KG3 r =>
      (res ← round3_Finalize r; Ret (Output (k_Helper (k_round1 (k_round2 r))) res), out, rand)
  end.

Context {CB : Cbor kg_content}.

#[export] Instance kg_ops : RoundOps kg_round kg_content kg_result := {|
  r_helper := kg_helper;
  r_Number := kg_Number;
  r_is_broadcast := kg_is_broadcast;
  r_MessageContent := kg_MessageContent;
  r_BroadcastContent := kg_BroadcastContent;
  r_VerifyMessage := kg_VerifyMessage;
  r_StoreMessage := kg_StoreMessage;
  r_StoreBroadcastMessage := kg_StoreBroadcastMessage;
  r_Finalize := kg_Finalize;
  c_RoundNumber := kg_RoundNumber;
  c_Cbor := CB
|}.

(** ** Starting the protocol *)

(** The variables that the closure of [StartKeygenCommon] captures and
    assigns to: nil in a key generation. *)
Record captured := mkCaptured {
  cap_privateShare : option Scalar;
  cap_publicKey : option Point
}.

(** One call of the start function that [StartKeygenCommon] returns: the
    first round, and the captured variables after the call. *)
Definition StartKeygenCommon (taproot : bool) (participants : list ID) (threshold : Z) (selfID : ID)
    (verificationShares : gmap ID Point) (cap : captured) (sessionID : option bytes) :
    outcome kg_session * captured :=
  let info := mkInfo (if taproot then keygen_protocolIDTaproot else keygen_protocolID)
                keygen_protocolRounds selfID participants threshold (Some Name) in
  match NewSession info sessionID [] with
  | Fail e => (Fail ("keygen.StartKeygen: " +:+ e), cap)
  | Panic p => (Panic p, cap)
  | Ret helper =>
      match cap_privateShare cap, cap_publicKey cap with
      | Some s, Some Y =>
          (Ret (Running (KG1 (mkRound1 helper taproot threshold true s verificationShares Y))), cap)
      | _, _ =>
          let shares := foldl (fun m k => <[k := 𝟎]> m) verificationShares participants in
          (Ret (Running (KG1 (mkRound1 helper taproot threshold false 0 shares 𝟎))),
           mkCaptured (Some 0) (Some 𝟎))
      end
  end.

(** frost.go: [Keygen], [KeygenTaproot], [Refresh], [RefreshTaproot], as
    their first start call. *)
Definition fresh_start : captured := mkCaptured None None.

Definition Keygen (selfID : ID) (participants : list ID) (threshold : Z) :
    option bytes -> outcome kg_session * captured :=
  StartKeygenCommon false participants threshold selfID ∅ fresh_start.

Definition KeygenTaproot (selfID : ID) (participants : list ID) (threshold : Z) :
    option bytes -> outcome kg_session * captured :=
  StartKeygenCommon true participants threshold selfID ∅ fresh_start.

Definition Refresh (config : Config) (participants : list ID) :
    option bytes -> outcome kg_session * captured :=
  StartKeygenCommon false participants (c_Threshold config) (c_ID config)
    (c_VerificationShares config)
    (mkCaptured (Some (c_PrivateShare config)) (Some (c_PublicKey config))).

Definition RefreshTaproot (config : TaprootConfig) (participants : list ID) :
    option bytes -> outcome kg_session * captured :=
  match LiftX (t_PublicKey config) with
  | Ret publicKey =>
      StartKeygenCommon true participants (t_Threshold config) (t_ID config)
        (t_VerificationShares config)
        (mkCaptured (Some (t_PrivateShare config)) (Some publicKey))
  | Fail e => fun _ => (Fail e, fresh_start)
  | Panic p => fun _ => (Panic p, fresh_start)
  end.

End Keygen.
