(* ===== verification/FrostKeygenProps.v ===== *)
(** * What FROST key generation guarantees

    The rounds satisfy the interface laws of the handler, and an execution
    that ends, whatever the other parties sent, delivers a share of one key:
    the invariant [kg_inv] over the abstract execution of [HandlerSpec]. *)

From Stdlib Require Import ZArith Lia Zmod Field.
From stdpp Require Import base gmap strings list pretty numbers.
From S2P Require Import Prelude Hash Curve Party Sample Polynomial Round Message Handler.
From S2P Require Import HandlerSpec Schnorr Taproot FrostConfig FrostKeygen.

Local Open Scope curve_scope.

Section Laws.
Context {C : Curve} {X : XOnly C} `{Blake3} {MO : MapOrder} {CB : Cbor kg_content}.

Lemma round1_Finalize_ret r rand out r' out' rand' :
  round1_Finalize r rand out = Ret (r', out', rand') ->
  exists a e, k_round1 r' = r /\ NewPolynomialExponent (f_i r') = Ret e /\
    Phi r' = {[selfID r := e]} /\ hd 0 (coefficients (f_i r')) = a /\
    length (coefficients (f_i r')) = S (Z.to_nat (threshold r)) /\ (0 <= threshold r)%Z /\
    (refresh r = true -> a = 0) /\ (refresh r = false -> a <> 0).
Proof.
  unfold round1_Finalize. intros E. apply bind_ret_inv in E as ([a rd] & Ea & E).
  apply bind_ret_inv in E as ([f rd1] & Ef & E). apply bind_ret_inv in E as ([sg rd2] & Es & E).
  apply bind_ret_inv in E as (e & Ee & E). apply bind_ret_inv in E as ([c rd3] & _ & E).
  apply bind_ret_inv in E as ([[cm dm] rd4] & _ & E). apply bind_ret_inv in E as (o & _ & E).
  injection E as <- <- <-. cbn. unfold NewPolynomial in Ef. destruct (decide _) as [|Ht]; [done|].
  apply bind_ret_inv in Ef as ([l rd5] & El & [= <- <-]). exists a, e. cbn.
  split_and!; try done; [|lia|..].
  - f_equal. clear -El. revert rd rd5 El. generalize (Z.to_nat (threshold r)) as n.
    induction n as [|n IH] in l |- *; intros rd rd5 El; cbn in El; [by injection El as <- _|].
    apply bind_ret_inv in El as ([a rd'] & _ & El). apply bind_ret_inv in El as ([l' rd''] & El & [= <- _]).
    cbn. f_equal. by eapply IH.
  - intros Hr. rewrite Hr in Ea. by injection Ea as <- _.
  - intros Hr. rewrite Hr in Es. apply bind_ret_inv in Es as ([p rd6] & Ep & _).
    by apply NewProof_shape in Ep as (_ & _ & _ & _ & _ & _ & Na).
Qed.

Lemma kg_same_round r r' :
  kg_round1 r' = kg_round1 r -> kg_Number r' = kg_Number r -> same_round r r'.
Proof. intros E1 E2. unfold same_round. destruct r, r'; cbn in *; unfold kg_helper; cbn; by rewrite ?E1. Qed.

Lemma round2_Store_ret r m r' :
  round2_StoreBroadcastMessage r m = Ret r' ->
  exists phi sg cm c, rm_Content m = Broadcast2 (Some phi) sg cm /\ Exponent_Constant phi = Ret c /\
    (refresh (k_round1 r) = true -> c = 𝟎) /\
    (refresh (k_round1 r) = false ->
       Proof_Verify sg (HashForID (k_Helper (k_round1 r)) (rm_From m)) c None = Ret true) /\
    r' = mkRound2 (k_round1 r) (f_i r) (<[rm_From m := phi]> (Phi r)) (ChainKeyDecommitment r)
           (ChainKeys r) (<[rm_From m := cm]> (ChainKeyCommitments r)).
Proof.
  unfold round2_StoreBroadcastMessage. destruct (rm_Content m) as [[phi|] sg cm| |]; [|done..].
  destruct (_ && _); [done|]. intros E. apply bind_ret_inv in E as (u & _ & E).
  apply bind_ret_inv in E as (c & Ec & E). apply bind_ret_inv in E as (u2 & Ev & [= <-]).
  exists phi, sg, cm, c. split_and!; [done|done| | |done].
  - intros Hr. rewrite Hr in Ev. apply guard_or_ret in Ev. by apply bool_decide_eq_true in Ev.
  - intros Hr. rewrite Hr in Ev. apply bind_ret_inv in Ev as (b & Eb & ->%guard_or_ret). done.
Qed.

Lemma round3_StoreBroadcast_ret r m r' :
  round3_StoreBroadcastMessage r m = Ret r' ->
  k_round1 (k_round2 r') = k_round1 (k_round2 r) /\ f_i (k_round2 r') = f_i (k_round2 r) /\
  Phi (k_round2 r') = Phi (k_round2 r) /\ shareFrom r' = shareFrom r.
Proof.
  unfold round3_StoreBroadcastMessage. destruct (rm_Content m); [done| |done].
  intros E. apply bind_ret_inv in E as (u & _ & E). destruct (negb _); [done|].
  by injection E as <-.
Qed.

Lemma round3_Store_ret r m r' :
  round3_StoreMessage r m = Ret r' ->
  exists s phi, rm_Content m = Message3 (Some s) /\ Phi (k_round2 r) !! rm_From m = Some phi /\
    s • 𝐆 = Exponent_Evaluate phi (ID_Scalar (selfID (k_round1 (k_round2 r)))) /\
    r' = mkRound3 (k_round2 r) (<[rm_From m := s]> (shareFrom r)).
Proof.
  unfold round3_StoreMessage. destruct (rm_Content m) as [| |F]; [done..|].
  intros E. apply bind_ret_inv in E as (s & ->%deref_ret & E).
  apply bind_ret_inv in E as (phi & Ep%deref_ret & E). unfold PEqual in E.
  destruct (bool_decide_reflect (ActOnBase s = Exponent_Evaluate phi (ID_Scalar (selfID (k_round1 (k_round2 r)))))) as [Eq|];
    [|done].
  injection E as <-. by exists s, phi.
Qed.

Lemma round2_Finalize_ret r out r' out' :
  round2_Finalize r out = Ret (r', out') ->
  let x := ID_Scalar (selfID (k_round1 r)) in
  x <> 0 /\ r' = mkRound3 r {[selfID (k_round1 r) := horner x (coefficients (f_i r))]}.
Proof.
  unfold round2_Finalize. intros E. apply bind_ret_inv in E as (o1 & _ & E).
  apply bind_ret_inv in E as (o2 & _ & E). apply bind_ret_inv in E as (s & Es & [= <- _]).
  unfold Evaluate, IsZero in Es. case_bool_decide; [done|]. by injection Es as <-.
Qed.

#[export] Instance kg_laws : RoundLaws.
Proof.
  constructor; cbn.
  - intros []; cbn; lia.
  - intros [r|r|r] m r' E; cbn in E; [by injection E as <-..|].
    apply bind_ret_inv in E as (r3 & (s & phi & _ & _ & _ & ->)%round3_Store_ret & [= <-]).
    by apply kg_same_round.
  - intros [r|r|r] m r' E; cbn in E; [by injection E as <-|..].
    + apply bind_ret_inv in E as (r2 & (? & ? & ? & ? & _ & _ & _ & _ & ->)%round2_Store_ret & [= <-]).
      by apply kg_same_round.
    + apply bind_ret_inv in E as (r3 & (E1 & _)%round3_StoreBroadcast_ret & [= <-]).
      by apply kg_same_round.
  - intros [r|r|r] rand out r' out' rand' E; cbn in E.
    + destruct (round1_Finalize r rand out) as [[[r2 o] rd]| |] eqn:Ef; [|done..].
      injection E as <- _ _. apply round1_Finalize_ret in Ef as (_ & _ & E1 & _).
      split; [done|]. unfold kg_helper. cbn. by rewrite E1.
    + destruct (round2_Finalize r out) as [[r3 o]| |] eqn:Ef; [|done..].
      injection E as <- _ _. by apply round2_Finalize_ret in Ef as (_ & ->).
    + by destruct (round3_Finalize r).
  - intros [r|r|r] rand out h res out' rand' E; cbn in E.
    + by destruct (round1_Finalize r rand out) as [[[r2 o] rd]| |].
    + by destruct (round2_Finalize r out) as [[r3 o]| |].
    + destruct (round3_Finalize r); [|done..]. by injection E as <- _ _ _.
  - intros [r|r|r] rand out h e c out' rand' E; cbn in E.
    + by destruct (round1_Finalize r rand out) as [[[r2 o] rd]| |].
    + by destruct (round2_Finalize r out) as [[r3 o]| |].
    + by destruct (round3_Finalize r).
Qed.

End Laws.

(** ** The invariant of an execution *)

Section Inv.
Context {C : Curve} {CL : CurveLaws C} {X : XOnly C} `{Blake3} {MO : MapOrder} {MOL : MapOrderLaws}.
Context {CB : Cbor kg_content}.
Add Field scalar_field : scalar_field_theory.

(** The first round holds a key already: the old key in a refresh, the zero
    key otherwise. *)
Record start_ok (L0 : list Point) (r0 : round1) : Prop := {
  st_session : session_ok (k_Helper r0);
  st_final : FinalRoundNumber (info (k_Helper r0)) = keygen_protocolRounds;
  st_key : shared_key L0 (threshold r0) (publicKey r0) (verificationShares r0);
  st_share : share_of L0 (selfID r0) (privateShare r0);
  st_dom : dom (verificationShares r0) = list_to_set (partyIDs (k_Helper r0))
}.

(** What is known of the commitments that have been accepted. *)
Record phis_ok (r0 : round1) (f : Polynomial) (phis : gmap ID Exponent) (B : gset ID) : Prop := {
  ph_dom : dom phis = {[selfID r0]} ∪ B;
  ph_own : exists e, phis !! selfID r0 = Some e /\ NewPolynomialExponent f = Ret e;
  ph_degree : length (coefficients f) = S (Z.to_nat (threshold r0));
  ph_constant : map_Forall (fun _ e =>
    exists c, Exponent_Constant e = Ret c /\ (refresh r0 = true -> c = 𝟎)) phis
}.

(** Every share that has been accepted lies on the committed polynomial. *)
Definition shares_ok (r0 : round1) (phis : gmap ID Exponent) (shares : gmap ID Scalar) : Prop :=
  map_Forall (fun l s => exists e, phis !! l = Some e /\
    s • 𝐆 = Exponent_Evaluate e (ID_Scalar (selfID r0))) shares.

Definition kg_inv (r0 : round1) (r : kg_round) (B M : gset ID) : Prop :=
  match r with
  | KG1 r => r = r0
  | KG2 r => k_round1 r = r0 /\ phis_ok r0 (f_i r) (Phi r) B
  | KG3 r => k_round1 (k_round2 r) = r0 /\
      phis_ok r0 (f_i (k_round2 r)) (Phi (k_round2 r)) (list_to_set (otherPartyIDs (k_Helper r0))) /\
      dom (shareFrom r) = {[selfID r0]} ∪ M /\
      shares_ok r0 (Phi (k_round2 r)) (shareFrom r)
  end.

Lemma phis_ok_start r0 rand out r out' rand' :
  round1_Finalize r0 rand out = Ret (r, out', rand') -> phis_ok r0 (f_i r) (Phi r) ∅.
Proof.
  intros (a & e & _ & Ee & Ephi & Ea & Hl & _ & Hr & _)%round1_Finalize_ret. rewrite Ephi. constructor.
  - rewrite dom_singleton_L. set_solver.
  - exists e. by rewrite lookup_singleton_eq.
  - done.
  - apply map_Forall_singleton. unfold NewPolynomialExponent in Ee.
    destruct (coefficients (f_i r)) as [|b l]; [done|]. cbn in Ea. subst b. injection Ee as <-.
    unfold Exponent_Constant. cbn. unfold IsZero. case_bool_decide as Hz; cbn.
    + by exists 𝟎.
    + exists (ActOnBase a). split; [done|]. intros Hra%Hr. done.
Qed.

Lemma phis_ok_insert r0 f phis B id phi c :
  phis_ok r0 f phis B -> id <> selfID r0 -> Exponent_Constant phi = Ret c ->
  (refresh r0 = true -> c = 𝟎) -> phis_ok r0 f (<[id := phi]> phis) ({[id]} ∪ B).
Proof.
  intros [D (e & Ho & Ee) L F] N Ec Hc. constructor.
  - rewrite dom_insert_L, D. set_solver.
  - exists e. by rewrite lookup_insert_ne.
  - done.
  - apply map_Forall_insert_2; [eauto|done].
Qed.

Lemma kg_reached L0 r0 r B M : start_ok L0 r0 -> reached (KG1 r0) r B M -> kg_inv r0 r B M.
Proof.
  intros St Re. pose proof (st_session _ _ St) as S.
  assert (forall id, id ∈ otherPartyIDs (k_Helper r0) -> id <> selfID r0) as Hne.
  { intros id. rewrite (so_others _ S), elem_of_Remove. unfold selfID. tauto. }
  induction Re as [|r B M m r' Re IH Hb _ Ho _ Es|r B M m r' Re IH _ _ Ho _ _ _ Es|r B M rand r' o q Re IH Hc E];
    [done|..].
  - apply reached_session in Re as (_ & _ & Eo & _). unfold r_others in Ho. rewrite Eo in Ho.
    apply Hne in Ho. destruct r as [r|r|r]; [done|..]; cbn in Es, IH.
    + destruct IH as [E1 P].
      apply bind_ret_inv in Es as (r2 & (phi & sg & cm & c & _ & Ec & Hr & _ & ->)%round2_Store_ret & [= <-]).
      cbn. split; [done|]. rewrite E1 in Hr. by eapply phis_ok_insert.
    + destruct IH as (E1 & P & D & Sh).
      apply bind_ret_inv in Es as (r3 & (F1 & F2 & F3 & F4)%round3_StoreBroadcast_ret & [= <-]).
      cbn. by rewrite F1, F2, F3, F4.
  - destruct r as [r|r|r]; cbn in Es, IH; [by injection Es as <-..|].
    destruct IH as (E1 & P & D & Sh).
    apply bind_ret_inv in Es as (r3 & (s & phi & _ & Hp & Hs & ->)%round3_Store_ret & [= <-]).
    cbn. rewrite E1 in Hs. split_and!; try done.
    + rewrite dom_insert_L, D. set_solver.
    + apply map_Forall_insert_2; eauto.
  - destruct r as [r|r|r]; cbn in E, IH.
    + subst r. destruct (round1_Finalize r0 rand _) as [[[r2 o'] rd]| |] eqn:Ef; [|done..].
      injection E as <- _ _. split; [by apply round1_Finalize_ret in Ef as (? & ? & ? & _)|].
      by eapply phis_ok_start.
    + destruct IH as [E1 P]. destruct (round2_Finalize r _) as [[r3 o']| |] eqn:Ef; [|done..].
      injection E as <- _ _. apply round2_Finalize_ret in Ef as (Hx & ->). cbn. rewrite E1 in *.
      assert (B = list_to_set (otherPartyIDs (k_Helper r0))) as ->.
      { apply set_eq. intros id. rewrite elem_of_list_to_set. split.
        - intros Hid. apply (reached_senders _ _ _ _ id Re). by left.
        - intros Hid. apply Hc; [| |done]; unfold r_Final, r_others; cbn; unfold kg_helper; cbn; rewrite E1; [|done].
          rewrite (st_final _ _ St). unfold keygen_protocolRounds. lia. }
      split_and!; [done|done| |].
      * rewrite dom_singleton_L. set_solver.
      * apply map_Forall_singleton. destruct (ph_own _ _ _ _ P) as (e & He & En). exists e.
        split; [done|]. symmetry. by apply Exponent_Evaluate_base.
    + by destruct (round3_Finalize r).
Qed.

(** ** The delivered key *)

(** The polynomial of the key: the old one plus all committed ones. *)
Definition key_poly (L0 : list Point) (es : list Exponent) : list Point :=
  foldr (fun e L => zip_with PAdd (full e) L) L0 es.

Lemma key_poly_length L0 es :
  (forall e, e ∈ es -> length (full e) = length L0) -> length (key_poly L0 es) = length L0.
Proof.
  induction es as [|e es IH]; intros Hl; [done|]. cbn [key_poly foldr].
  rewrite length_zip_with. fold (key_poly L0 es).
  rewrite IH, (Hl e) by (set_solver). lia.
Qed.

Lemma key_poly_horner L0 es x :
  (forall e, e ∈ es -> length (full e) = length L0) ->
  hornerP x (key_poly L0 es) = hornerP x L0 ⊕ sumP (fun e => Exponent_Evaluate e x) es.
Proof.
  induction es as [|e es IH]; intros Hl; cbn [key_poly foldr sumP]; [by rewrite padd_0_r|].
  fold (key_poly L0 es). rewrite hornerP_add.
  - rewrite IH by set_solver. rewrite Exponent_Evaluate_full, !padd_assoc. f_equal. apply padd_comm.
  - rewrite key_poly_length by set_solver. apply Hl. set_solver.
Qed.

Lemma add_constants_ret Y es Y' :
  add_constants Y es = Ret Y' -> Y' = Y ⊕ sumP (fun e => Exponent_Evaluate e 0) es.
Proof.
  revert Y. induction es as [|e es IH]; intros Y E; cbn in E |- *.
  - injection E as <-. by rewrite padd_0_r.
  - apply bind_ret_inv in E as (c & Ec & ->%IH). rewrite Exponent_Evaluate_full.
    by rewrite (Exponent_Constant_full _ _ Ec), padd_assoc.
Qed.

(** The sum of the accepted shares, in any order of the map. *)
Lemma shares_sum r0 phis shares ids :
  NoDup ids -> dom shares = list_to_set ids -> dom phis = list_to_set ids ->
  shares_ok r0 phis shares ->
  sumP (fun f => f • 𝐆) (map_to_list shares).*2
  = sumP (fun e => Exponent_Evaluate e (ID_Scalar (selfID r0))) (map_to_list phis).*2.
Proof.
  intros ND Ds Dp Sh.
  set (g l := match phis !! l with
              | Some e => Exponent_Evaluate e (ID_Scalar (selfID r0))
              | None => 𝟎
              end).
  rewrite (sumP_map shares _ g ids), (sumP_map phis _ g ids); try done.
  - intros l e He. unfold g. by rewrite He.
  - intros l s Hs. destruct (Sh l s Hs) as (e & He & ->). unfold g. by rewrite He.
Qed.

(** The key that a Taproot execution delivers: the one whose public key has
    an even y coordinate. *)
Definition even_key (L : list Point) : list Point :=
  if HasEvenY (hornerP 0 L) then L else PNegate <$> L.

(** What a delivered result is, given the polynomial [L] of the key. *)
Definition kg_output (L : list Point) (r0 : round1) (res : kg_result) : Prop :=
  match res with
  | RConfig c =>
      taproot r0 = false /\ c_ID c = selfID r0 /\ c_Threshold c = threshold r0 /\
      dom (c_VerificationShares c) = list_to_set (partyIDs (k_Helper r0)) /\ Config_valid L c
  | RTaproot c =>
      taproot r0 = true /\ t_ID c = selfID r0 /\ t_Threshold c = threshold r0 /\
      dom (t_VerificationShares c) = list_to_set (partyIDs (k_Helper r0)) /\
      t_PublicKey c = XBytes (hornerP 0 L) /\
      shared_key (even_key L) (threshold r0) (hornerP 0 (even_key L)) (t_VerificationShares c) /\
      share_of (even_key L) (selfID r0) (t_PrivateShare c)
  end.

(** The commitments that [Sum] accepts all have the degree of the threshold. *)
Lemma phis_full r0 f phis B E e :
  phis_ok r0 f phis B -> Polynomial.Sum (range_order phis).*2 = Ret E ->
  e ∈ (map_to_list phis).*2 -> length (full e) = S (Z.to_nat (threshold r0)).
Proof.
  intros [_ (e0 & Ho & En) Hd _] Es He.
  assert (forall e', e' ∈ (map_to_list phis).*2 -> same_shape e' E) as Hs.
  { intros e' He'. apply (Sum_shape _ _ _ Es). by rewrite (range_order_perm _ phis). }
  assert (same_shape e0 E) as S0.
  { apply Hs, list_elem_of_fmap. exists (selfID r0, e0). split; [done|]. by apply elem_of_map_to_list. }
  rewrite <- Hd, <- (length_fmap ActOnBase), <- (NewPolynomialExponent_full _ _ En).
  destruct (Hs e He) as [L1 C1], S0 as [L2 C2]. unfold full. rewrite C1, C2.
  destruct (IsConstant E); cbn; lia.
Qed.

Lemma shared_key_sum L0 r0 phis E Y VS :
  shared_key L0 (threshold r0) (publicKey r0) (verificationShares r0) ->
  (forall e, e ∈ (map_to_list phis).*2 -> length (full e) = S (Z.to_nat (threshold r0))) ->
  add_constants (publicKey r0) (range_order phis).*2 = Ret Y ->
  Polynomial.Sum (range_order phis).*2 = Ret E ->
  VS = map_imap (fun k v => Some (v ⊕ Exponent_Evaluate E (ID_Scalar k))) (verificationShares r0) ->
  shared_key (key_poly L0 (map_to_list phis).*2) (threshold r0) Y VS.
Proof.
  intros (Hl & Ht & HY & HV) Hf Ec Es ->.
  assert (forall e, e ∈ (map_to_list phis).*2 -> length (full e) = length L0) as Hf'
    by (intros e He; rewrite (Hf e He); lia).
  split; [by rewrite key_poly_length|]. split; [done|]. split.
  - rewrite (add_constants_ret _ _ _ Ec), key_poly_horner, HY by done.
    by rewrite (range_order_perm _ phis).
  - intros k P. rewrite map_lookup_imap. destruct (verificationShares r0 !! k) as [v|] eqn:Ev; [|done].
    intros [= <-]. rewrite (HV k v Ev), key_poly_horner by done. f_equal.
    rewrite (Sum_ret _ _ Es). by rewrite (range_order_perm _ phis).
Qed.

Lemma round3_Finalize_output L0 r0 r M res :
  start_ok L0 r0 -> kg_inv r0 (KG3 r) ∅ M -> M = list_to_set (otherPartyIDs (k_Helper r0)) ->
  round3_Finalize r = Ret res ->
  kg_output (key_poly L0 (map_to_list (Phi (k_round2 r))).*2) r0 res.
Proof.
  intros St (E1 & P & D & Sh) -> E. unfold round3_Finalize in E. rewrite E1 in E.
  apply bind_ret_inv in E as (ck & _ & E). apply bind_ret_inv in E as (Y & Ec & E).
  apply bind_ret_inv in E as (Ex & Es & E).
  assert (Polynomial.Sum (range_order (Phi (k_round2 r))).*2 = Ret Ex) as Es'
    by (unfold must in Es; by destruct (Polynomial.Sum _)).
  set (phis := Phi (k_round2 r)) in *. set (VS := map_imap _ _) in E.
  set (s := add_shares _ _) in E. set (L := key_poly L0 (map_to_list phis).*2).
  assert (forall e, e ∈ (map_to_list phis).*2 -> length (full e) = S (Z.to_nat (threshold r0))) as Hf
    by (intros e; by apply (phis_full r0 (f_i (k_round2 r)) phis _ Ex e P)).
  assert (shared_key L (threshold r0) Y VS) as K
    by exact (shared_key_sum L0 r0 phis Ex Y VS (st_key _ _ St) Hf Ec Es' eq_refl).
  assert (share_of L (selfID r0) s) as Hs.
  { unfold share_of, s, L. destruct (st_key _ _ St) as (Hl & Ht & _).
    unfold add_shares. rewrite foldl_add_act, key_poly_horner by (intros e He; rewrite (Hf e He); lia).
    rewrite (range_order_perm _ (shareFrom r)). f_equal; [exact (st_share _ _ St)|].
    pose proof (st_session _ _ St) as So.
    eapply shares_sum; [apply session_ok_NoDup; exact So| | |done];
      rewrite (session_ok_split _ So); [exact D|exact (ph_dom _ _ _ _ P)]. }
  assert (dom VS = list_to_set (partyIDs (k_Helper r0))) as HD.
  { rewrite <- (st_dom _ _ St). apply set_eq. intros k. rewrite !elem_of_dom. unfold VS.
    rewrite map_lookup_imap. by destruct (verificationShares r0 !! k). }
  pose proof K as (_ & _ & HY & _).
  destruct (taproot r0) eqn:Et; injection E as <-; cbn; [|by rewrite HY in K |- *; split_and!].
  rewrite HY in K |- *. unfold even_key. destruct (HasEvenY (hornerP 0 L)); [by split_and!|].
  split_and!; try done.
  - by rewrite dom_fmap_L.
  - rewrite hornerP_neg. by apply shared_key_neg.
  - by apply share_of_neg.
Qed.

(** The result of an execution, with the commitments it is based on. *)
Definition kg_delivers (r0 : round1) (phis : gmap ID Exponent) (res : kg_result) : Prop :=
  exists r B M, reached (KG1 r0) (KG3 r) B M /\ complete (KG3 r) B M /\
    Phi (k_round2 r) = phis /\ round3_Finalize r = Ret res.

Lemma kg_delivered r0 res : delivered (KG1 r0) res -> exists phis, kg_delivers r0 phis res.
Proof.
  intros D. inversion D as [r B M rand h res' out' rand' Re Hc E]; subst.
  destruct r as [r|r|r]; cbn in E.
  - by destruct (round1_Finalize r rand _) as [[[r2 o] rd]| |].
  - by destruct (round2_Finalize r _) as [[r3 o]| |].
  - destruct (round3_Finalize r) eqn:Ef; [|done..]. injection E as _ <- _ _.
    exists (Phi (k_round2 r)), r, B, M. done.
Qed.

Lemma kg_delivers_output L0 r0 phis res :
  start_ok L0 r0 -> kg_delivers r0 phis res ->
  kg_output (key_poly L0 (map_to_list phis).*2) r0 res /\
  dom phis = list_to_set (partyIDs (k_Helper r0)) /\
  map_Forall (fun _ e => exists c, Exponent_Constant e = Ret c /\ (refresh r0 = true -> c = 𝟎)) phis.
Proof.
  intros St (r & B & M & Re & Hc & <- & Ef). pose proof (kg_reached _ _ _ _ _ St Re) as I.
  pose proof I as (E1 & P & D & Sh).
  assert (M = list_to_set (otherPartyIDs (k_Helper r0))) as HM.
  { apply set_eq. intros id. rewrite elem_of_list_to_set. split.
    - intros Hid. apply (reached_senders _ _ _ _ id Re). by right.
    - intros Hid. apply Hc; [| |by eexists]; unfold r_Final, r_others; cbn; unfold kg_helper; cbn;
        rewrite E1; [|done].
      rewrite (st_final _ _ St). unfold keygen_protocolRounds. lia. }
  split; [by eapply round3_Finalize_output|]. split; [|by apply (ph_constant _ _ _ _ P)].
  rewrite (ph_dom _ _ _ _ P), (session_ok_split _ (st_session _ _ St)). done.
Qed.

End Inv.
