(* ===== verification/FrostSign.v ===== *)
(** * protocols/frost/sign: threshold Schnorr signing

    The three rounds of the FROST signing protocol, plain and Taproot, with
    the generic Schnorr signature of [types.go] and the start functions of
    [frost.go].  The keyed mode of BLAKE3 that derives the nonces is a
    library function ([Blake3Keyed]). *)

From Stdlib Require Import ZArith Lia Zmod Field.
From Stdlib Require Import Strings.Byte.
From stdpp Require Import base gmap strings list pretty numbers.
From S2P Require Import Prelude Hash Curve Party Sample Polynomial Round Message Handler.
From S2P Require Import Taproot FrostConfig.

Local Open Scope curve_scope.

Definition sign_protocolID : string := "frost/sign-threshold".
Definition sign_protocolIDTaproot : string := "frost/sign-threshold-taproot".
Definition sign_protocolRounds : Number := 3%Z.

Definition deriveHashKeyContext : string :=
  "github.com/taurusgroup/multi-party-sig/frost 2021-07-30T09:48+00:00 Derive hash Key".

(** [messageHash]: a nil slice cannot be written. *)
Definition messageHash_any (m : option bytes) : any :=
  AWriterTo "sign.messageHash" "messageHash"
    (match m with Some x => Ret x | None => Fail ErrUnexpectedEOF end).

Section Sign.
Context {C : Curve} {X : XOnly C} `{Blake3} {BK : Blake3Keyed} {MO : MapOrder}.

(** ** types.go *)

Record Signature := mkSignature { sig_R : Point; sig_z : Scalar }.

(** [c = H(R, Y, m)]: the errors of the writes are dropped. *)
Definition sig_challenge (R public : Point) (m : option bytes) : outcome Scalar :=
  let challengeHash := WriteAny_ (New []) [Point_any R; Point_any public; messageHash_any m] in
  '(c, _) ← sample_Scalar (Digest challengeHash); Ret c.

Definition Signature_Verify (sig : Signature) (public : Point) (m : option bytes) : outcome bool :=
  challenge ← sig_challenge (sig_R sig) public m;
  let expected := challenge • public ⊕ sig_R sig in
  let actual := ActOnBase (sig_z sig) in
  Ret (PEqual expected actual).

(** ** Rounds and messages *)

Record sround1 := mkSround1 {
  s_Helper : Helper;
  s_taproot : bool;
  s_M : option bytes;
  s_Y : Point;
  YShares : gmap ID Point;
  s_i : Scalar
}.

Record sround2 := mkSround2 {
  s_round1 : sround1;
  d_i : Scalar;
  e_i : Scalar;
  s_D : gmap ID Point;
  s_E : gmap ID Point
}.

Record sround3 := mkSround3 {
  s_round2 : sround2;
  s_R : Point;
  RShares : gmap ID Point;
  s_c : Scalar;
  s_z : gmap ID Scalar;
  Lambda : gmap ID Scalar
}.

Inductive sg_round :=
| SG1 (r : sround1)
| SG2 (r : sround2)
| SG3 (r : sround3).

(** [broadcast2] and [broadcast3] *)
Inductive sg_content :=
| SBroadcast2 (D_i E_i : Point)
| SBroadcast3 (Z_i : option Scalar).

Inductive sg_result :=
| SigTaproot (sig : bytes)
| SigPlain (sig : Signature).

Abbreviation sg_message := (round_Message sg_content).
Abbreviation sg_session := (Session sg_round sg_result).

Definition s_self (r : sround1) : ID := SelfID (info (s_Helper r)).

Definition sg_round1 (r : sg_round) : sround1 :=
  match r with SG1 r => r | SG2 r => s_round1 r | SG3 r => s_round1 (s_round2 r) end.

Definition sg_Number (r : sg_round) : Number :=
  match r with SG1 _ => 1 | SG2 _ => 2 | SG3 _ => 3 end%Z.

Definition sg_is_broadcast (r : sg_round) : bool :=
  match r with SG1 _ => false | _ => true end.

Definition sg_BroadcastContent (r : sg_round) : option sg_content :=
  match r with
  | SG1 _ => None
  | SG2 _ => Some (SBroadcast2 𝟎 𝟎)
  | SG3 _ => Some (SBroadcast3 (Some 0))
  end.

Definition sg_RoundNumber (c : sg_content) : Number :=
  match c with SBroadcast2 _ _ => 2 | SBroadcast3 _ => 3 end%Z.

(** ** Round 1 *)

(** The stream that the nonces are read from. *)
Definition nonceDigest (r : sround1) (a : bytes) : reader :=
  let hashKey := blake3_derive_key deriveHashKeyContext (SMarshal (s_i r)) 32 in
  stream_reader (blake3_keyed_xof hashKey
    (Hash.Sum (Clone (hash (s_Helper r))) ++ default [] (s_M r) ++ a)).

(** A failing [rand.Read] leaves the zeroed buffer. *)
Definition sround1_Finalize (r : sround1) (rand : reader) (out : chan sg_message) :
    outcome (sround2 * chan sg_message * reader) :=
  let '(a, rand) := ReadFull rand 32 in
  let a := default (replicate 32 x00) a in
  '(d_i, digest) ← sample_ScalarUnit (nonceDigest r a);
  '(e_i, digest) ← sample_ScalarUnit digest;
  let D_i := ActOnBase d_i in
  let E_i := ActOnBase e_i in
  out ← BroadcastMessage (s_Helper r) out (SBroadcast2 D_i E_i);
  Ret (mkSround2 r d_i e_i {[s_self r := D_i]} {[s_self r := E_i]}, out, rand).

(** ** Round 2 *)

Definition sround2_StoreBroadcastMessage (r : sround2) (msg : sg_message) : outcome sround2 :=
  match rm_Content msg with
  | SBroadcast2 D_i E_i =>
      if IsIdentity D_i || IsIdentity E_i then Fail "nonce commitment is the identity point"
      else Ret (mkSround2 (s_round1 r) (d_i r) (e_i r) (<[rm_From msg := D_i]> (s_D r))
                  (<[rm_From msg := E_i]> (s_E r)))
  | _ => Fail ErrInvalidContent
  end.

(** A point of a map as an argument of [WriteAny]: nil is not hashable. *)
Definition lookup_any (m : gmap ID Point) (l : ID) : any :=
  match m !! l with Some P => Point_any P | None => AOther end.

(** H(m, B) *)
Definition rhoPreHash (M : option bytes) (D E : gmap ID Point) (ids : list ID) : Hash :=
  foldl (fun h l => WriteAny_ h [lookup_any D l; lookup_any E l])
    (WriteAny_ (New []) [messageHash_any M]) ids.

(** ρₗ = H(m, B, l) *)
Definition rho_of (pre : Hash) (l : ID) : outcome Scalar :=
  '(s, _) ← sample_Scalar (Digest (WriteAny_ (Clone pre) [ID_any l])); Ret s.

Fixpoint compute_rho (pre : Hash) (ids : list ID) (rho : gmap ID Scalar) : outcome (gmap ID Scalar) :=
  match ids with
  | [] => Ret rho
  | l :: ids => s ← rho_of pre l; compute_rho pre ids (<[l := s]> rho)
  end.

(** The loop that accumulates R and RShares. *)
Fixpoint compute_R (rho : gmap ID Scalar) (D E : gmap ID Point) (ids : list ID)
    (R : Point) (RShares : gmap ID Point) : outcome (Point * gmap ID Point) :=
  match ids with
  | [] => Ret (R, RShares)
  | l :: ids =>
      rho_l ← deref (rho !! l);
      E_l ← deref (E !! l);
      D_l ← deref (D !! l);
      let share := rho_l • E_l ⊕ D_l in
      compute_R rho D E ids (R ⊕ share) (<[l := share]> RShares)
  end.

(** The Taproot challenge, reduced with [SetNat]. *)
Definition taproot_c (R Y : Point) (M : option bytes) : Scalar :=
  SetNat (be_to_Z (TaggedHash "BIP0340/challenge" [XBytes R; XBytes Y; default [] M])).

Definition sround2_Finalize (r : sround2) (out : chan sg_message) :
    outcome (sround3 * chan sg_message) :=
  let r1 := s_round1 r in
  let h := s_Helper r1 in
  let self := s_self r1 in
  let pre := rhoPreHash (s_M r1) (s_D r) (s_E r) (partyIDs h) in
  rho ← compute_rho pre (partyIDs h) ∅;
  '(R, RShares) ← compute_R rho (s_D r) (s_E r) (partyIDs h) 𝟎 ∅;
  let flip := s_taproot r1 && negb (HasEvenY R) in
  let d_i := if flip then - d_i r else d_i r in
  let e_i := if flip then - e_i r else e_i r in
  let RShares := if flip then PNegate <$> RShares else RShares in
  c ← (if s_taproot r1 then Ret (taproot_c R (s_Y r1) (s_M r1))
       else sig_challenge R (s_Y r1) (s_M r1));
  Lambdas ← Lagrange (partyIDs h);
  lambda ← deref (Lambdas !! self);
  rho_i ← deref (rho !! self);
  let z_i := lambda * s_i r1 * c + d_i + rho_i * e_i in
  out ← BroadcastMessage h out (SBroadcast3 (Some z_i));
  Ret (mkSround3 (mkSround2 r1 d_i e_i (s_D r) (s_E r)) R RShares c {[self := z_i]} Lambdas, out).

(** ** Round 3 *)

Definition sround3_StoreBroadcastMessage (r : sround3) (msg : sg_message) : outcome sround3 :=
  let from := rm_From msg in
  match rm_Content msg with
  | SBroadcast3 Z_i =>
      match Z_i with
      | None => Fail ErrNilFields
      | Some Z_i =>
          lambda ← deref (Lambda r !! from);
          Y_l ← deref (YShares (s_round1 (s_round2 r)) !! from);
          R_l ← deref (RShares r !! from);
          let expected := s_c r • (lambda • Y_l) ⊕ R_l in
          let actual := ActOnBase Z_i in
          if negb (PEqual actual expected) then Fail ("failed to verify response from " +:+ from)
          else Ret (mkSround3 (s_round2 r) (s_R r) (RShares r) (s_c r) (<[from := Z_i]> (s_z r))
                      (Lambda r))
      end
  | _ => Fail ErrInvalidContent
  end.

Definition sround3_Finalize (r : sround3) : outcome sg_session :=
  let r1 := s_round1 (s_round2 r) in
  let h := s_Helper r1 in
  let z := foldl (fun z z_l => z + z_l) 0 (range_order (s_z r)).*2 in
  if s_taproot r1 then
    let sig := XBytes (s_R r) ++ SMarshal z in
    let taprootPub := XBytes (s_Y r1) in
    if negb (Verify taprootPub sig (default [] (s_M r1)))
    then Ret (Abort h "generated signature failed to verify" [])
    else Ret (Output h (SigTaproot sig))
  else
    let sig := mkSignature (s_R r) z in
    ok ← Signature_Verify sig (s_Y r1) (s_M r1);
    if negb ok then Ret (Abort h "generated signature failed to verify" [])
    else Ret (Output h (SigPlain sig)).

(** ** The round interface *)

Definition sg_StoreBroadcastMessage (r : sg_round) (msg : sg_message) : outcome sg_round :=
  match r with
  | SG1 _ => Ret r
  | SG2 r => r' ← sround2_StoreBroadcastMessage r msg; Ret (SG2 r')
  | SG3 r => r' ← sround3_StoreBroadcastMessage r msg; Ret (SG3 r')
  end.

Definition sg_Finalize (r : sg_round) (rand : reader) (out : chan sg_message) :
    outcome sg_session * chan sg_message * reader :=
  match r with
  | SG1 r =>
      match sround1_Finalize r rand out with
      | Ret (r', out, rand) => (Ret (Running (SG2 r')), out, rand)
      | Fail e => (Fail e, out, rand)
      | Panic p => (Panic p, out, rand)
      end
  | SG2 r =>
      match sround2_Finalize r out with
      | Ret (r', out) => (Ret (Running (SG3 r')), out, rand)
      | Fail e => (Fail e, out, rand)
      | Panic p => (Panic p, out, rand)
      end
  | SG3 r => (sround3_Finalize r, out, rand)
  end.

Context {CB : Cbor sg_content}.

#[export] Instance sg_ops : RoundOps sg_round sg_content sg_result := {|
  r_helper := fun r => s_Helper (sg_round1 r);
  r_Number := sg_Number;
  r_is_broadcast := sg_is_broadcast;
  r_MessageContent := fun _ => None;
  r_BroadcastContent := sg_BroadcastContent;
  r_VerifyMessage := fun _ _ => Ret tt;
  r_StoreMessage := fun r _ => Ret r;
  r_StoreBroadcastMessage := sg_StoreBroadcastMessage;
  r_Finalize := sg_Finalize;
  c_RoundNumber := sg_RoundNumber;
  c_Cbor := CB
|}.

(** ** Starting the protocol *)

Definition StartSignCommon (taproot : bool) (result : Config) (signers : list ID)
    (messageHash : option bytes) (sessionID : option bytes) : outcome sg_session :=
  let info := mkInfo (if taproot then sign_protocolIDTaproot else sign_protocolID)
                sign_protocolRounds (c_ID result) signers (c_Threshold result) (Some Name) in
  helper ← wrap_err "sign.StartSign: " (NewSession info sessionID []);
  Ret (Running (SG1 (mkSround1 helper taproot messageHash (c_PublicKey result)
                       (c_VerificationShares result) (c_PrivateShare result)))).

(** frost.go: [Sign] and [SignTaproot] *)
Definition Frost_Sign (config : Config) (signers : list ID) (messageHash : option bytes) :
    option bytes -> outcome sg_session :=
  StartSignCommon false config signers messageHash.

Definition SignTaproot (config : TaprootConfig) (signers : list ID) (messageHash : option bytes)
    (sessionID : option bytes) : outcome sg_session :=
  publicKey ← LiftX (t_PublicKey config);
  let normalResult := mkConfig (t_ID config) (t_Threshold config) (t_PrivateShare config) publicKey
                        [] (t_VerificationShares config) in
  StartSignCommon true normalResult signers messageHash sessionID.

End Sign.
