(* ===== verification/FrostSignProps.v ===== *)
(** * What FROST signing guarantees

    The signing rounds satisfy the interface laws of the handler; every
    response that is accepted contributes its part of the signature, so that
    the final check of the protocol cannot fail; and the response of an
    honest signer is accepted by the others. *)

From Stdlib Require Import ZArith Lia Zmod Field.
From Stdlib Require Import Strings.Byte.
From stdpp Require Import base gmap strings list pretty numbers.
From S2P Require Import Prelude Hash Curve Party Sample Polynomial Round Message Handler.
From S2P Require Import HandlerSpec Sha2 Taproot FrostConfig FrostSign.

Local Open Scope curve_scope.

Section Laws.
Context {C : Curve} {X : XOnly C} `{Blake3} {BK : Blake3Keyed} {MO : MapOrder} {CB : Cbor sg_content}.

Lemma sround1_Finalize_ret r rand out r' out' rand' :
  sround1_Finalize r rand out = Ret (r', out', rand') ->
  exists d e, r' = mkSround2 r d e {[s_self r := d • 𝐆]} {[s_self r := e • 𝐆]}.
Proof.
  unfold sround1_Finalize. destruct (ReadFull rand 32) as [a rd]. intros E.
  apply bind_ret_inv in E as ([d dg] & _ & E). apply bind_ret_inv in E as ([e dg'] & _ & E).
  apply bind_ret_inv in E as (o & _ & E). injection E as <- _ _. by exists d, e.
Qed.

Lemma sround2_Store_ret r m r' :
  sround2_StoreBroadcastMessage r m = Ret r' ->
  exists D E, D <> 𝟎 /\ E <> 𝟎 /\
    r' = mkSround2 (s_round1 r) (d_i r) (e_i r) (<[rm_From m := D]> (s_D r))
           (<[rm_From m := E]> (s_E r)).
Proof.
  unfold sround2_StoreBroadcastMessage. destruct (rm_Content m) as [D E|]; [|done].
  unfold IsIdentity. case_bool_decide; [done|]. case_bool_decide; [done|]. cbn.
  intros [= <-]. by exists D, E.
Qed.

Lemma sround3_Store_ret r m r' :
  sround3_StoreBroadcastMessage r m = Ret r' ->
  exists z lambda Y_l R_l, rm_Content m = SBroadcast3 (Some z) /\
    Lambda r !! rm_From m = Some lambda /\
    YShares (s_round1 (s_round2 r)) !! rm_From m = Some Y_l /\ RShares r !! rm_From m = Some R_l /\
    z • 𝐆 = s_c r • (lambda • Y_l) ⊕ R_l /\
    r' = mkSround3 (s_round2 r) (s_R r) (RShares r) (s_c r) (<[rm_From m := z]> (s_z r)) (Lambda r).
Proof.
  unfold sround3_StoreBroadcastMessage. destruct (rm_Content m) as [|[z|]]; [done| |done].
  intros E. apply bind_ret_inv in E as (la & Ela%deref_ret & E).
  apply bind_ret_inv in E as (Yl & EY%deref_ret & E).
  apply bind_ret_inv in E as (Rl & ER%deref_ret & E). unfold PEqual in E.
  case_bool_decide as Ez; [|done]. injection E as <-. by exists z, la, Yl, Rl.
Qed.

(** What the second round has computed when it ends. *)
Lemma sround2_Finalize_ret r out r' out' :
  sround2_Finalize r out = Ret (r', out') ->
  let r1 := s_round1 r in
  let ids := partyIDs (s_Helper r1) in
  exists rho R S lambda rho_i c,
    let flip := s_taproot r1 && negb (HasEvenY R) in
    let d := if flip then - d_i r else d_i r in
    let e := if flip then - e_i r else e_i r in
    compute_rho (rhoPreHash (s_M r1) (s_D r) (s_E r) ids) ids ∅ = Ret rho /\
    compute_R rho (s_D r) (s_E r) ids 𝟎 ∅ = Ret (R, S) /\
    (if s_taproot r1 then c = taproot_c R (s_Y r1) (s_M r1)
     else sig_challenge R (s_Y r1) (s_M r1) = Ret c) /\
    Lagrange ids = Ret (Lambda r') /\ Lambda r' !! s_self r1 = Some lambda /\
    rho !! s_self r1 = Some rho_i /\
    r' = mkSround3 (mkSround2 r1 d e (s_D r) (s_E r)) R (if flip then PNegate <$> S else S) c
           {[s_self r1 := lambda * s_i r1 * c + d + rho_i * e]} (Lambda r').
Proof.
  unfold sround2_Finalize. intros E. apply bind_ret_inv in E as (rho & Erho & E).
  apply bind_ret_inv in E as ([R S] & ER & E). apply bind_ret_inv in E as (c & Ec & E).
  apply bind_ret_inv in E as (m & Em & E). apply bind_ret_inv in E as (la & Ela%deref_ret & E).
  apply bind_ret_inv in E as (ri & Eri%deref_ret & E). apply bind_ret_inv in E as (o & _ & E).
  injection E as <- _. exists rho, R, S, la, ri, c. cbn. split_and!; try done.
  destruct (s_taproot (s_round1 r)); [by injection Ec as <-|done].
Qed.

Lemma sg_same_round r r' :
  sg_round1 r' = sg_round1 r -> sg_Number r' = sg_Number r -> same_round r r'.
Proof. intros E1 E2. unfold same_round. destruct r, r'; cbn in *; by rewrite ?E1. Qed.

#[export] Instance sg_laws : RoundLaws.
Proof.
  constructor; cbn.
  - intros []; cbn; lia.
  - intros r m r' [= <-]. done.
  - intros [r|r|r] m r' E; cbn in E; [by injection E as <-|..].
    + apply bind_ret_inv in E as (r2 & (? & ? & _ & _ & ->)%sround2_Store_ret & [= <-]).
      by apply sg_same_round.
    + apply bind_ret_inv in E as (r3 & (? & ? & ? & ? & _ & _ & _ & _ & _ & ->)%sround3_Store_ret & [= <-]).
      by apply sg_same_round.
  - intros [r|r|r] rand out r' out' rand' E; cbn in E.
    + destruct (sround1_Finalize r rand out) as [[[r2 o] rd]| |] eqn:Ef; [|done..].
      injection E as <- _ _. by apply sround1_Finalize_ret in Ef as (d & e & ->).
    + destruct (sround2_Finalize r out) as [[r3 o]| |] eqn:Ef; [|done..].
      injection E as <- _ _. by apply sround2_Finalize_ret in Ef as (? & ? & ? & ? & ? & ? & _ & _ & _ & _ & _ & _ & ->).
    + unfold sround3_Finalize in E. destruct (s_taproot _).
      * by destruct (negb _).
      * destruct (Signature_Verify _ _ _) as [[]| |]; done.
  - intros [r|r|r] rand out h res out' rand' E; cbn in E.
    + by destruct (sround1_Finalize r rand out) as [[[r2 o] rd]| |].
    + by destruct (sround2_Finalize r out) as [[r3 o]| |].
    + unfold sround3_Finalize in E. destruct (s_taproot _).
      * destruct (negb _); [done|]. by injection E as <- _ _ _.
      * destruct (Signature_Verify _ _ _) as [[]| |]; [|done..]. by injection E as <- _ _ _.
  - intros [r|r|r] rand out h e c out' rand' E; cbn in E.
    + by destruct (sround1_Finalize r rand out) as [[[r2 o] rd]| |].
    + by destruct (sround2_Finalize r out) as [[r3 o]| |].
    + unfold sround3_Finalize in E. destruct (s_taproot _).
      * destruct (negb _); [|done]. by injection E as <- _ _ _.
      * destruct (Signature_Verify _ _ _) as [[]| |]; [done| |done..]. by injection E as <- _ _ _.
Qed.

End Laws.

(** ** The computation of the second round *)

Section Nonces.
Context {C : Curve} {CL : CurveLaws C} {X : XOnly C} `{Blake3} {BK : Blake3Keyed}.
Add Field scalar_field : scalar_field_theory.

(** The contribution of party [l] to the group commitment. *)
Definition nonce_share (rho : gmap ID Scalar) (D E : gmap ID Point) (l : ID) : Point :=
  getS rho l • getP E l ⊕ getP D l.

Lemma compute_R_ret rho D E ids R0 S0 R S :
  NoDup ids -> compute_R rho D E ids R0 S0 = Ret (R, S) ->
  R = R0 ⊕ sumP (nonce_share rho D E) ids /\
  (forall l, S !! l = if decide (l ∈ ids) then Some (nonce_share rho D E l) else S0 !! l).
Proof.
  revert R0 S0. induction ids as [|i ids IH]; intros R0 S0 ND E0; cbn in E0.
  - injection E0 as <- <-. split; [cbn; by rewrite padd_0_r|]. intros l. by rewrite decide_False by set_solver.
  - apply list.NoDup_cons in ND as [Ni ND].
    apply bind_ret_inv in E0 as (ri & Er%deref_ret & E0).
    apply bind_ret_inv in E0 as (Ei & EE%deref_ret & E0).
    apply bind_ret_inv in E0 as (Di & ED%deref_ret & E0).
    assert (ri • Ei ⊕ Di = nonce_share rho D E i) as Es.
    { unfold nonce_share, getS, getP. by rewrite Er, EE, ED. }
    rewrite Es in E0. apply IH in E0 as [-> HS]; [|done]. cbn [sumP]. split; [by rewrite padd_assoc|].
    intros l. rewrite HS. destruct (decide (l ∈ ids)) as [Hin|Hin].
    + by rewrite decide_True by set_solver.
    + destruct (decide (l = i)) as [->|N].
      * by rewrite lookup_insert_eq, decide_True by set_solver.
      * rewrite lookup_insert_ne by done. by rewrite decide_False by set_solver.
Qed.

(** Negating all contributions negates the sum. *)
Lemma sumP_neg {A} (f : A -> Point) l : sumP (fun x => ⊖ f x) l = ⊖ sumP f l.
Proof.
  induction l as [|x l IH]; cbn; [by rewrite neg_identity|]. rewrite IH.
  destruct (base_generates (f x)) as [a ->], (base_generates (sumP f l)) as [b ->].
  rewrite <- !act_opp, <- !act_add, <- act_opp. f_equal. ring.
Qed.

Lemma taproot_c_challenge R Y M :
  taproot_c R Y M = tap_challenge (XBytes R) (XBytes Y) (default [] M).
Proof.
  unfold taproot_c, tap_challenge, SUnmarshal, SetNat, TaggedHash. rewrite sha256_length.
  rewrite decide_False by (intros N; by apply N). done.
Qed.

End Nonces.

(** ** The invariant of an execution *)

Section Inv.
Context {C : Curve} {CL : CurveLaws C} {X : XOnly C} `{Blake3} {BK : Blake3Keyed}.
Context {MO : MapOrder} {MOL : MapOrderLaws} {CB : Cbor sg_content}.
Add Field scalar_field : scalar_field_theory.

(** The first round holds a share of the key with polynomial [L], and there
    are enough signers, with distinct non-zero evaluation points. *)
Record sign_ok (L : list Point) (t : Z) (r0 : sround1) : Prop := {
  so_session : session_ok (s_Helper r0);
  so_final : FinalRoundNumber (info (s_Helper r0)) = sign_protocolRounds;
  so_key : shared_key L t (s_Y r0) (YShares r0);
  so_share : share_of L (s_self r0) (s_i r0);
  so_ids : ids_ok (partyIDs (s_Helper r0));
  so_enough : (t < Z.of_nat (length (partyIDs (s_Helper r0))))%Z;
  so_dom : forall id, id ∈ partyIDs (s_Helper r0) -> is_Some (YShares r0 !! id)
}.

(** The group commitment as it enters the signature: with an even y
    coordinate in the Taproot case. *)
Definition even_R (r0 : sround1) (R : Point) : Point :=
  if s_taproot r0 && negb (HasEvenY R) then ⊖ R else R.

Definition challenge_of (r0 : sround1) (R : Point) (c : Scalar) : Prop :=
  if s_taproot r0 then c = taproot_c R (s_Y r0) (s_M r0)
  else sig_challenge R (s_Y r0) (s_M r0) = Ret c.

(** Every stored response satisfies the verification equation. *)
Definition response_ok (r : sround3) (l : ID) (z : Scalar) : Prop :=
  z • 𝐆 = s_c r • (getS (Lambda r) l • getP (YShares (s_round1 (s_round2 r))) l)
          ⊕ getP (RShares r) l.

Record round3_ok (r0 : sround1) (r : sround3) (B : gset ID) : Prop := {
  r3_round1 : s_round1 (s_round2 r) = r0;
  r3_lambda : Lagrange (partyIDs (s_Helper r0)) = Ret (Lambda r);
  r3_R : sumP (getP (RShares r)) (partyIDs (s_Helper r0)) = even_R r0 (s_R r);
  r3_c : challenge_of r0 (s_R r) (s_c r);
  r3_dom : dom (s_z r) = {[s_self r0]} ∪ B;
  r3_z : map_Forall (response_ok r) (s_z r)
}.

Definition sg_inv (r0 : sround1) (r : sg_round) (B : gset ID) : Prop :=
  match r with
  | SG1 r => r = r0
  | SG2 r => s_round1 r = r0 /\
      s_D r !! s_self r0 = Some (d_i r • 𝐆) /\ s_E r !! s_self r0 = Some (e_i r • 𝐆)
  | SG3 r => round3_ok r0 r B
  end.

(** The party's own response satisfies the equation that others check. *)
Lemma own_response (lambda s c d e rho : Scalar) (flip : bool) :
  let d' := if flip then - d else d in
  let e' := if flip then - e else e in
  let share := rho • (e • 𝐆) ⊕ d • 𝐆 in
  (lambda * s * c + d' + rho * e') • 𝐆
  = c • (lambda • (s • 𝐆)) ⊕ (if flip then ⊖ share else share).
Proof.
  cbn zeta. rewrite <- !act_mul, <- act_add. destruct flip.
  - rewrite <- act_opp, <- act_add. f_equal. ring.
  - rewrite <- act_add. f_equal. ring.
Qed.

Lemma getP_neg (b : bool) (S : gmap ID Point) l :
  is_Some (S !! l) -> getP (if b then PNegate <$> S else S) l = if b then ⊖ getP S l else getP S l.
Proof. intros [P HP]. unfold getP. destruct b; by rewrite ?lookup_fmap, HP. Qed.

(** After the second round: the commitments add up and our response fits. *)
Lemma sround2_Finalize_ok L t r0 r out r' out' :
  sign_ok L t r0 -> sg_inv r0 (SG2 r) ∅ -> sround2_Finalize r out = Ret (r', out') ->
  round3_ok r0 r' ∅.
Proof.
  intros So (E1 & HD & HE) (rho & R & S & la & ri & c & _ & ER & Ec & EL & Ela & Eri & Er')%sround2_Finalize_ret.
  rewrite E1 in *. set (flip := s_taproot r0 && negb (HasEvenY R)) in *.
  pose proof (session_ok_NoDup _ (so_session _ _ _ So)) as ND.
  apply compute_R_ret in ER as [HR HS]; [|done]. rewrite padd_0_l in HR.
  assert (forall l, l ∈ partyIDs (s_Helper r0) -> S !! l = Some (nonce_share rho (s_D r) (s_E r) l)) as HS'
    by (intros l Hl; by rewrite HS, decide_True).
  rewrite Er'. constructor; cbn; try done.
  - unfold even_R. fold flip. rewrite HR.
    rewrite (sumP_ext _ (fun l => if flip then ⊖ nonce_share rho (s_D r) (s_E r) l
                                  else nonce_share rho (s_D r) (s_E r) l)).
    + destruct flip; [apply sumP_neg|done].
    + intros l Hl. rewrite getP_neg by (rewrite HS' by done; eauto). unfold getP. by rewrite HS'.
  - rewrite dom_singleton_L. set_solver.
  - apply map_Forall_singleton. unfold response_ok. cbn.
    assert (s_self r0 ∈ partyIDs (s_Helper r0)) as Hin by exact (so_self _ (so_session _ _ _ So)).
    rewrite getP_neg by (rewrite HS' by done; eauto).
    assert (getP S (s_self r0) = ri • (e_i r • 𝐆) ⊕ d_i r • 𝐆) as ->.
    { unfold getP at 1. rewrite HS' by done. cbn. unfold nonce_share, getS, getP. by rewrite Eri, HD, HE. }
    assert (getS (Lambda r') (s_self r0) = la) as -> by (unfold getS; by rewrite Ela).
    assert (getP (YShares r0) (s_self r0) = s_i r0 • 𝐆) as ->.
    { unfold getP. destruct (so_dom _ _ _ So _ Hin) as [P HP]. rewrite HP. cbn.
      destruct (so_key _ _ _ So) as (_ & _ & _ & HV). rewrite (HV _ _ HP). symmetry. exact (so_share _ _ _ So). }
    apply own_response.
Qed.

Lemma sg_reached L t r0 r B M : sign_ok L t r0 -> reached (SG1 r0) r B M -> sg_inv r0 r B.
Proof.
  intros So Re. pose proof (so_session _ _ _ So) as S.
  assert (forall id, id ∈ otherPartyIDs (s_Helper r0) -> id <> s_self r0) as Hne.
  { intros id. rewrite (so_others _ S), elem_of_Remove. unfold s_self. tauto. }
  induction Re as [|r B M m r' Re IH Hb _ Ho _ Es|r B M m r' Re IH He|r B M rand r' o q Re IH Hc E]; [done|..].
  - apply reached_session in Re as (_ & _ & Eo & _). unfold r_others in Ho. rewrite Eo in Ho.
    apply Hne in Ho. destruct r as [r|r|r]; [done|..]; cbn in Es, IH.
    + destruct IH as (E1 & HD & HE).
      apply bind_ret_inv in Es as (r2 & (D & E & _ & _ & ->)%sround2_Store_ret & [= <-]).
      cbn. by rewrite !lookup_insert_ne.
    + apply bind_ret_inv in Es as (r3 & (z & la & Yl & Rl & _ & Ela & EY & ER & Ez & ->)%sround3_Store_ret & [= <-]).
      destruct IH as [I1 I2 I3 I4 I5 I6]. constructor; cbn; try done.
      * rewrite dom_insert_L, I5. set_solver.
      * apply map_Forall_insert_2; [|done]. unfold response_ok, getS, getP. cbn.
        by rewrite Ela, EY, ER.
  - by destruct He.
  - destruct r as [r|r|r]; cbn in E, IH.
    + subst r. destruct (sround1_Finalize r0 rand _) as [[[r2 o'] rd]| |] eqn:Ef; [|done..].
      injection E as <- _ _. apply sround1_Finalize_ret in Ef as (d & e & ->). cbn.
      by rewrite !lookup_singleton_eq.
    + destruct (sround2_Finalize r _) as [[r3 o']| |] eqn:Ef; [|done..]. injection E as <- _ _.
      by eapply sround2_Finalize_ok.
    + unfold sround3_Finalize in E. destruct (s_taproot _); [by destruct (negb _)|].
      by destruct (Signature_Verify _ _ _) as [[]| |].
Qed.

(** Rounds never replace the data of the first one. *)
Lemma sg_reached_round1 r0 r B M : reached (SG1 r0) r B M -> sg_round1 r = r0.
Proof.
  induction 1 as [|r B M m r' _ IH _ _ _ _ Es|r B M m r' _ IH He|r B M rand r' o q _ IH _ E]; [done|..].
  - destruct r as [r|r|r]; cbn in Es; [by injection Es as <-|..].
    + by apply bind_ret_inv in Es as (r2 & (? & ? & _ & _ & ->)%sround2_Store_ret & [= <-]).
    + by apply bind_ret_inv in Es as (r3 & (? & ? & ? & ? & _ & _ & _ & _ & _ & ->)%sround3_Store_ret & [= <-]).
  - by destruct He.
  - destruct r as [r|r|r]; cbn in E, IH.
    + destruct (sround1_Finalize r rand _) as [[[r2 o'] rd]| |] eqn:Ef; [|done..].
      injection E as <- _ _. by apply sround1_Finalize_ret in Ef as (d & e & ->).
    + destruct (sround2_Finalize r _) as [[r3 o']| |] eqn:Ef; [|done..]. injection E as <- _ _.
      by apply sround2_Finalize_ret in Ef as (? & ? & ? & ? & ? & ? & _ & _ & _ & _ & _ & _ & ->).
    + unfold sround3_Finalize in E. destruct (s_taproot _); [by destruct (negb _)|].
      by destruct (Signature_Verify _ _ _) as [[]| |].
Qed.

Definition sig_verifies (r0 : sround1) (res : sg_result) : Prop :=
  match res with
  | SigTaproot sig =>
      s_taproot r0 = true /\ Verify (XBytes (s_Y r0)) sig (default [] (s_M r0)) = true
  | SigPlain sig => s_taproot r0 = false /\ Signature_Verify sig (s_Y r0) (s_M r0) = Ret true
  end.

(** An output has passed the check of the protocol. *)
Lemma sround3_Finalize_output r h res :
  sround3_Finalize r = Ret (Output h res) -> sig_verifies (s_round1 (s_round2 r)) res.
Proof.
  unfold sround3_Finalize. destruct (s_taproot _) eqn:Et.
  - destruct (Verify _ _ _) eqn:Ev; cbn; [|done]. intros [= <- <-]. by split.
  - destruct (Signature_Verify _ _ _) as [[]| |] eqn:Ev; cbn; [|done..]. intros [= <- <-]. by split.
Qed.

Lemma sg_delivered r0 res : delivered (SG1 r0) res -> sig_verifies r0 res.
Proof.
  intros D. inversion D as [r B M rand h res' out' rand' Re Hc E]; subst.
  apply sg_reached_round1 in Re. destruct r as [r|r|r]; cbn in E, Re.
  - by destruct (sround1_Finalize r rand _) as [[[r2 o] rd]| |].
  - by destruct (sround2_Finalize r _) as [[r3 o]| |].
  - injection E as E _ _. rewrite <- Re. by eapply sround3_Finalize_output.
Qed.

(** ** The accepted responses make a signature *)

Lemma responses_sum L t r0 r :
  sign_ok L t r0 -> round3_ok r0 r (list_to_set (otherPartyIDs (s_Helper r0))) ->
  foldl (fun z z_l => z + z_l) 0 (range_order (s_z r)).*2 • 𝐆
  = s_c r • s_Y r0 ⊕ even_R r0 (s_R r).
Proof.
  intros So [I1 I2 I3 I4 I5 I6]. pose proof (so_session _ _ _ So) as S.
  rewrite foldl_add_act, act_0, padd_0_l, (range_order_perm _ (s_z r)).
  rewrite (sumP_map (s_z r) _ (fun l => s_c r • (getS (Lambda r) l • getP (YShares r0) l)
                                        ⊕ getP (RShares r) l) (partyIDs (s_Helper r0))).
  - rewrite sumP_add, sumP_act_r, I3. f_equal. f_equal.
    eapply shared_key_interpolate; [apply (so_key _ _ _ So)|apply So|apply So|apply So|done].
  - by apply session_ok_NoDup.
  - rewrite I5, (session_ok_split _ S). done.
  - intros l z Hz. pose proof (I6 l z Hz) as Hr. unfold response_ok in Hr. by rewrite I1 in Hr.
Qed.

Lemma even_R_even r0 R :
  XOnlyLaws C X -> s_taproot r0 = true -> R <> 𝟎 ->
  HasEvenY (even_R r0 R) = true /\ XBytes (even_R r0 R) = XBytes R /\ even_R r0 R <> 𝟎.
Proof.
  intros XL Et N. unfold even_R. rewrite Et. cbn [andb].
  destruct (HasEvenY R) eqn:Ev; cbn [negb]; [done|].
  rewrite eveny_neg, xbytes_neg, Ev by done. split_and!; [done..|]. by intros ?%neg_eq_identity.
Qed.

(** The signature of a completed execution verifies, so [Finalize] returns it. *)
Lemma sround3_Finalize_ok L t r0 r :
  XOnlyLaws C X -> sign_ok L t r0 ->
  round3_ok r0 r (list_to_set (otherPartyIDs (s_Helper r0))) ->
  (s_taproot r0 = true -> s_Y r0 <> 𝟎 /\ HasEvenY (s_Y r0) = true /\ s_R r <> 𝟎) ->
  exists res, sround3_Finalize r = Ret (Output (s_Helper r0) res).
Proof.
  intros XL So R3 Ht. pose proof (responses_sum _ _ _ _ So R3) as Hz.
  pose proof (r3_c _ _ _ R3) as Hc. unfold challenge_of in Hc.
  unfold sround3_Finalize. rewrite (r3_round1 _ _ _ R3).
  set (z := foldl _ _ _) in *. destruct (s_taproot r0) eqn:Et.
  - destruct (Ht eq_refl) as (NY & HY & NR). destruct (even_R_even r0 (s_R r) XL Et NR) as (Ev & Ex & Ne).
    assert (Verify (XBytes (s_Y r0)) (XBytes (s_R r) ++ SMarshal z) (default [] (s_M r0)) = true) as ->.
    { apply Verify_spec. exists (s_Y r0), (even_R r0 (s_R r)), z. rewrite Ex. split_and!; try done.
      - by apply liftx_xbytes.
      - rewrite <- taproot_c_challenge, <- Hc, Hz. apply padd_comm. }
    cbn. eauto.
  - unfold Signature_Verify. cbn [sig_R sig_z]. rewrite Hc. cbn [mbind outcome_bind].
    unfold PEqual, ActOnBase. rewrite Hz. unfold even_R. rewrite Et. cbn [andb].
    rewrite bool_decide_true by done. cbn. eauto.
Qed.

(** ** Honest responses are accepted *)

(** Two signers that hold the same commitments compute the same group
    commitment, shares and challenge. *)
Lemma sround2_agree ri rj outi outj ri' rj' oi oj :
  sround2_Finalize ri outi = Ret (ri', oi) -> sround2_Finalize rj outj = Ret (rj', oj) ->
  s_D ri = s_D rj -> s_E ri = s_E rj ->
  s_M (s_round1 ri) = s_M (s_round1 rj) -> s_Y (s_round1 ri) = s_Y (s_round1 rj) ->
  s_taproot (s_round1 ri) = s_taproot (s_round1 rj) ->
  partyIDs (s_Helper (s_round1 ri)) = partyIDs (s_Helper (s_round1 rj)) ->
  s_R ri' = s_R rj' /\ RShares ri' = RShares rj' /\ s_c ri' = s_c rj' /\ Lambda ri' = Lambda rj'.
Proof.
  intros (rho & R & S & la & rhi & c & Hrho & HR & Hc & HL & _ & _ & ->)%sround2_Finalize_ret
    (rho' & R' & S' & la' & rhi' & c' & Hrho' & HR' & Hc' & HL' & _ & _ & ->)%sround2_Finalize_ret
    ED EE EM EY ET Eids. cbn in *. rewrite ED, EE, EM, Eids in Hrho. rewrite Hrho in Hrho'.
  injection Hrho' as <-. rewrite ED, EE, Eids in HR. rewrite HR in HR'. injection HR' as <- <-.
  rewrite Eids in HL. rewrite HL in HL'. injection HL' as EL. rewrite ET, EY, EM in Hc. rewrite ET.
  split_and!; [done|done| |done]. destruct (s_taproot (s_round1 rj)); congruence.
Qed.

Lemma honest_response_accepted L t ri rj outi outj ri' rj' oi oj z :
  sign_ok L t (s_round1 ri) -> sg_inv (s_round1 ri) (SG2 ri) ∅ ->
  sround2_Finalize ri outi = Ret (ri', oi) -> sround2_Finalize rj outj = Ret (rj', oj) ->
  s_D ri = s_D rj -> s_E ri = s_E rj ->
  s_M (s_round1 ri) = s_M (s_round1 rj) -> s_Y (s_round1 ri) = s_Y (s_round1 rj) ->
  s_taproot (s_round1 ri) = s_taproot (s_round1 rj) ->
  YShares (s_round1 ri) = YShares (s_round1 rj) ->
  partyIDs (s_Helper (s_round1 ri)) = partyIDs (s_Helper (s_round1 rj)) ->
  s_z ri' !! s_self (s_round1 ri) = Some z ->
  exists r, sround3_StoreBroadcastMessage rj'
    (mkRoundMessage (s_self (s_round1 ri)) "" true (SBroadcast3 (Some z))) = Ret r.
Proof.
  intros So Hi Ei Ej ED EE EM EY ET EYS Eids Hz.
  destruct (sround2_agree _ _ _ _ _ _ _ _ Ei Ej ED EE EM EY ET Eids) as (_ & ER & Ec & EL).
  pose proof (sround2_Finalize_ok _ _ _ _ _ _ _ So Hi Ei) as R3.
  pose proof (r3_z _ _ _ R3 _ _ Hz) as Hr. unfold response_ok in Hr. rewrite ER, Ec, EL in Hr.
  rewrite (r3_round1 _ _ _ R3) in Hr.
  set (i := s_self (s_round1 ri)) in *.
  assert (i ∈ partyIDs (s_Helper (s_round1 ri))) as Hin by exact (so_self _ (so_session _ _ _ So)).
  destruct (Lagrange_spec _ (so_ids _ _ _ So)) as (m & Em & Hm).
  rewrite (r3_lambda _ _ _ R3) in Em. injection Em as Em. rewrite EL in Em.
  assert (exists la, Lambda rj' !! i = Some la) as [la Ela].
  { rewrite Em, Hm, decide_True by done. eauto. }
  destruct (so_dom _ _ _ So i Hin) as [Yi EYi].
  assert (exists Ri, RShares rj' !! i = Some Ri) as [Ri ERi].
  { rewrite <- ER. destruct (sround2_Finalize_ret _ _ _ _ Ei) as (rho & R & S & ? & ? & ? & _ & HR & _ & _ & _ & _ & ->).
    cbn. apply compute_R_ret in HR as [_ HS]; [|by apply session_ok_NoDup, So].
    destruct (_ && _); rewrite ?lookup_fmap, HS, decide_True by done; cbn; eauto. }
  assert (s_round1 (s_round2 rj') = s_round1 rj) as E1.
  { by destruct (sround2_Finalize_ret _ _ _ _ Ej) as (? & ? & ? & ? & ? & ? & _ & _ & _ & _ & _ & _ & ->). }
  unfold sround3_StoreBroadcastMessage. cbn [rm_Content rm_From]. rewrite Ela, E1, <- EYS, EYi, ERi. cbn.
  unfold getS, getP in Hr. rewrite Ela, EYi, ERi in Hr. cbn in Hr.
  unfold PEqual, ActOnBase. rewrite bool_decide_true by done. cbn. eauto.
Qed.

End Inv.
