(* ===== verification/TaprootCodec.v ===== *)
(** * Encoding of Taproot configurations

    [taproot_codec.go] of the key generation package, and the versioned
    key-share envelope of [schnorrimpl].  CBOR is a parameter. *)

From Stdlib Require Import ZArith Lia Zmod.
From Stdlib Require Import Strings.Byte.
From stdpp Require Import base gmap strings list pretty numbers.
From S2P Require Import Prelude Curve Party Message GoText FrostConfig.

Local Open Scope Z_scope.

(** [taprootConfigMarshalled], and [taprootConfigWire] of [schnorrimpl]. *)
Record taprootConfigMarshalled := mkWire {
  w_ID : ID;
  w_Threshold : Z;
  w_PrivateShare : bytes;
  w_PublicKey : bytes;
  w_ChainKey : bytes;
  w_VerificationShares : gmap ID bytes
}.

Section Codec.
Context {C : Curve} {MO : MapOrder} {CW : Cbor taprootConfigMarshalled}.

(** The wire form of a configuration.  Marshalling scalars and points does not
    fail, and no share of a configuration is nil. *)
Definition to_wire (r : TaprootConfig) : taprootConfigMarshalled :=
  mkWire (t_ID r) (t_Threshold r) (SMarshal (t_PrivateShare r)) (t_PublicKey r) (t_ChainKey r)
    (PMarshal <$> t_VerificationShares r).

Fixpoint read_shares (l : list (ID * bytes)) (acc : gmap ID Point) : outcome (gmap ID Point) :=
  match l with
  | [] => Ret acc
  | (id, raw) :: l =>
      point ← wrap_err ("unmarshal verification share for " +:+ id +:+ ": ") (PUnmarshal raw);
      read_shares l (<[id := point]> acc)
  end.

Definition of_wire (wire : taprootConfigMarshalled) : outcome TaprootConfig :=
  share ← match SUnmarshal Zmod.zero (w_PrivateShare wire) with
          | (s, Ret _) => Ret s
          | (_, Fail e) => Fail ("unmarshal private share: " +:+ e)
          | (_, Panic p) => Panic p
          end;
  verificationShares ← read_shares (range_order (w_VerificationShares wire)) ∅;
  Ret (mkTaprootConfig (w_ID wire) (w_Threshold wire) share (w_PublicKey wire) (w_ChainKey wire)
         verificationShares).

(** [MarshalBinary]; the receiver may be nil. *)
Definition TaprootConfig_MarshalBinary (r : option TaprootConfig) : outcome bytes :=
  match r with
  | None => Fail "taproot config is nil"
  | Some r => cbor_Marshal (to_wire r)
  end.

Definition empty_wire : taprootConfigMarshalled := mkWire "" 0 [] [] [] ∅.

(** [UnmarshalBinary]: the configuration that replaces the receiver. *)
Definition TaprootConfig_UnmarshalBinary (data : bytes) : outcome TaprootConfig :=
  wire ← wrap_err "unmarshal taproot config: " (cbor_Unmarshal empty_wire data);
  of_wire wire.

Definition EncodeTaprootConfigToString (config : option TaprootConfig) : outcome string :=
  data ← TaprootConfig_MarshalBinary config;
  Ret (EncodeToString data).

Definition DecodeTaprootConfigFromString (encoded : string) : outcome TaprootConfig :=
  data ← wrap_err "decode taproot config base64: " (DecodeString encoded);
  TaprootConfig_UnmarshalBinary data.

(** ** schnorrimpl: the versioned envelope *)

Definition keyShareEnvelopePrefix : string := "mpsig.taproot.keyshare.v1.".

Definition quoted (s : string) : string :=
  let q := String (Ascii.ascii_of_nat 34) EmptyString in q +:+ s +:+ q.

Definition EncodeTaprootKeyShareForStorage (config : option TaprootConfig) : outcome string :=
  match config with
  | None => Fail "taproot config is nil"
  | Some config =>
      raw ← wrap_err "marshal taproot config: " (cbor_Marshal (to_wire config));
      Ret (keyShareEnvelopePrefix +:+ EncodeToString raw)
  end.

Definition DecodeTaprootKeyShareFromStorage (stored : string) : outcome TaprootConfig :=
  if negb (HasPrefix stored keyShareEnvelopePrefix)
  then Fail ("invalid key share prefix, expected " +:+ quoted keyShareEnvelopePrefix)
  else
    payload ← wrap_err "decode key share base64: " (DecodeString (TrimPrefix stored keyShareEnvelopePrefix));
    wire ← wrap_err "decode key share payload: " (cbor_Unmarshal empty_wire payload);
    of_wire wire.

(** ** Properties *)

Context {CL : CurveLaws C} {ML : MarshalLaws C} {MOL : MapOrderLaws} {CWL : CborLaws taprootConfigMarshalled}.

(** Configurations whose shares can be encoded: the identity cannot. *)
Definition encodable (r : TaprootConfig) : Prop := map_Forall (fun _ P => P <> 𝟎%C) (t_VerificationShares r).

Lemma read_shares_app l acc (m : gmap ID Point) :
  (forall id raw, (id, raw) ∈ l -> exists P, PUnmarshal raw = Ret P /\ m !! id = Some P) ->
  exists acc', read_shares l acc = Ret acc' /\
    forall id, acc' !! id = if decide (id ∈ l.*1) then m !! id else acc !! id.
Proof.
  revert acc. induction l as [|[id raw] l IH]; intros acc Hl; cbn [read_shares].
  - exists acc. split; [done|]. intros id. by rewrite decide_False by set_solver.
  - destruct (Hl id raw) as (P & EP & Em); [left|]. rewrite EP. cbn [wrap_err mbind outcome_bind].
    destruct (IH (<[id := P]> acc)) as (acc' & E & Ha); [intros; apply Hl; by right|].
    exists acc'. split; [done|]. intros k. rewrite Ha. cbn [fmap list_fmap fst].
    destruct (decide (k ∈ l.*1)) as [Hk|Hk].
    + by rewrite decide_True by (by right).
    + destruct (decide (k = id)) as [->|N].
      * by rewrite lookup_insert_eq, decide_True by left.
      * rewrite lookup_insert_ne by done. rewrite decide_False; [done|]. intros [->|?]%elem_of_cons; done.
Qed.

Lemma of_to_wire r : encodable r -> of_wire (to_wire r) = Ret r.
Proof.
  intros He. unfold of_wire, to_wire. cbn [w_PrivateShare w_VerificationShares w_ID w_Threshold w_PublicKey w_ChainKey].
  rewrite SUnmarshal_SMarshal. cbn [mbind outcome_bind].
  set (m := PMarshal <$> t_VerificationShares r).
  destruct (read_shares_app (range_order m) ∅ (t_VerificationShares r)) as (acc & E & Ha).
  { intros id raw Hin. rewrite (range_order_perm _ m), elem_of_map_to_list in Hin. unfold m in Hin.
    apply lookup_fmap_Some in Hin as (P & <- & HP). exists P. split; [|done].
    by apply pmarshal_roundtrip, (He id). }
  rewrite E. cbn [mbind outcome_bind].
  assert (acc = t_VerificationShares r) as ->; [|by destruct r].
  apply map_eq. intros id. rewrite Ha, lookup_empty.
  destruct (decide (id ∈ (range_order m).*1)) as [|N]; [done|].
  destruct (t_VerificationShares r !! id) as [P|] eqn:EP; [|done]. exfalso. apply N.
  apply list_elem_of_fmap. exists (id, PMarshal P). split; [done|].
  rewrite (range_order_perm _ m), elem_of_map_to_list. unfold m. by rewrite lookup_fmap, EP.
Qed.

Lemma config_string_roundtrip r s :
  encodable r -> EncodeTaprootConfigToString (Some r) = Ret s -> DecodeTaprootConfigFromString s = Ret r.
Proof.
  intros He. unfold EncodeTaprootConfigToString. cbn [TaprootConfig_MarshalBinary].
  intros (data & Ed & [= <-])%bind_ret_inv. unfold DecodeTaprootConfigFromString, TaprootConfig_UnmarshalBinary.
  rewrite DecodeString_EncodeToString. cbn [wrap_err mbind outcome_bind].
  rewrite (cbor_roundtrip empty_wire _ _ Ed). cbn [wrap_err mbind outcome_bind]. by apply of_to_wire.
Qed.

Lemma storage_roundtrip r s :
  encodable r -> EncodeTaprootKeyShareForStorage (Some r) = Ret s -> DecodeTaprootKeyShareFromStorage s = Ret r.
Proof.
  intros He (data & Ed%wrap_err_ret & [= <-])%bind_ret_inv. unfold DecodeTaprootKeyShareFromStorage.
  destruct (HasPrefix_app (EncodeToString data) keyShareEnvelopePrefix) as [-> ->]. cbn [negb].
  rewrite DecodeString_EncodeToString. cbn [wrap_err mbind outcome_bind].
  rewrite (cbor_roundtrip empty_wire _ _ Ed). cbn [wrap_err mbind outcome_bind]. by apply of_to_wire.
Qed.

End Codec.
