(* ===== verification/Service.v ===== *)
(** * The key generation services

    [protocols/frost/keygen/service.go] and
    [schnorrimpl/schnorr_keygen_service.go]: a mobile client drives a Taproot
    key generation call by call.  A service holds the handlers of its
    executions by state id.  Requests and responses are records; their JSON
    text is not modelled. *)

From Stdlib Require Import ZArith Lia.
From Stdlib Require Import Strings.Byte.
From stdpp Require Import base gmap strings list pretty numbers.
From S2P Require Import Prelude Hash Curve Party Polynomial Round Message Handler GoText.
From S2P Require Import FrostConfig FrostKeygen TaprootCodec.

Local Open Scope Z_scope.

(** [encoding/json] on one type. *)
Class Json (T : Type) := {
  json_Marshal : T -> outcome bytes;
  json_Unmarshal : bytes -> outcome T
}.

Section Service.
Context {C : Curve} {X : XOnly C} `{Blake3} {MO : MapOrder}.
Context {CB : Cbor kg_content} {CM : Cbor Message} {CW : Cbor taprootConfigMarshalled}.

Abbreviation handler := (@MultiHandler kg_round kg_result).

(** The executions of a service, and the source of its own randomness. *)
Record service := mkService { executions : gmap string handler; sv_rand : reader }.

(** What a call does: it returns, panics, or blocks on a full channel. *)
Inductive sres (A : Type) :=
| SRet (s : service) (a : A)
| SPanic (p : string)
| SBlocked
| SFuel.
Arguments SRet {A}.
Arguments SPanic {A}.
Arguments SBlocked {A}.
Arguments SFuel {A}.

(** ** Shared helpers *)

Definition newStateID (rand : reader) : outcome string * reader :=
  match ReadFull rand 16 with
  | (Some b, rand) => (Ret (hex_EncodeToString b), rand)
  | (None, rand) => (Fail ErrUnexpectedEOF, rand)
  end.

Definition EncodeProtocolMessageToString (msg : option Message) : outcome string :=
  match msg with
  | None => Fail "protocol message is nil"
  | Some msg => data ← Message_MarshalBinary msg; Ret (EncodeToString data)
  end.

(** [new(protocol.Message)] *)
Definition zero_message : Message := mkMessage None "" "" "" 0 None false None.

Definition DecodeProtocolMessageFromString (encoded : string) : outcome Message :=
  data ← wrap_err "decode protocol message base64: " (DecodeString encoded);
  match Message_UnmarshalBinary zero_message data with
  | (msg, Ret _) => Ret msg
  | (_, Fail e) => Fail ("decode protocol message binary: " +:+ e)
  | (_, Panic p) => Panic p
  end.

(** [drainOutbound]: the messages left in the channel, and the encoded ones. *)
Fixpoint drain_loop (buf : list Message) : list Message * outcome (list string) :=
  match buf with
  | [] => ([], Ret [])
  | msg :: buf =>
      match EncodeProtocolMessageToString (Some msg) with
      | Ret encoded =>
          match drain_loop buf with
          | (rest, Ret l) => (rest, Ret (encoded :: l))
          | r => r
          end
      | Fail e => (buf, Fail ("encode outbound message: " +:+ e))
      | Panic p => (buf, Panic p)
      end
  end.

Definition drainOutbound (h : handler) : handler * outcome (list string) :=
  let '(rest, r) := drain_loop (ch_buf (out h)) in
  (set_out h (mkChan (ch_cap (out h)) rest), r).

Definition isNotFinished (e : string) : bool := bool_decide (e = "protocol: not finished").

Definition getExecution (s : service) (stateID : string) : option handler := executions s !! stateID.

Definition deleteExecution (s : service) (stateID : string) : service :=
  mkService (delete stateID (executions s)) (sv_rand s).

Definition putExecution (s : service) (stateID : string) (h : handler) : service :=
  mkService (<[stateID := h]> (executions s)) (sv_rand s).

(** The loop over the inbound messages: the handler after the accepted ones,
    their number, and the decoding error that ended the loop. *)
Inductive accepted :=
| AOk (h : handler) (processed : nat) (e : option string)
| APanic (p : string)
| ABlocked
| AFuel.

Fixpoint accept_all (h : handler) (processed : nat) (inbound : list string) : accepted :=
  match inbound with
  | [] => AOk h processed None
  | encoded :: inbound =>
      match DecodeProtocolMessageFromString encoded with
      | Ret msg =>
          match Accept h msg with
          | HOk h => accept_all h (S processed) inbound
          | HPanic p => APanic p
          | HBlocked => ABlocked
          | HFuel => AFuel
          end
      | Fail e => AOk h processed (Some e)
      | Panic p => APanic p
      end
  end.

(** ** protocols/frost/keygen/service.go *)

Record KeyGenRequest := mkKeyGenRequest {
  Action : string;
  req_StateID : string;
  req_SelfID : string;
  Participants : list string;
  req_Threshold : Z;
  req_SessionIDBase64 : string;
  InboundMessages : list string
}.

Record KeyGenResponse := mkKeyGenResponse {
  Status : string;
  resp_StateID : string;
  resp_SessionIDBase64 : string;
  OutboundMessages : list string;
  EncodedKeyShare : string;
  resp_Error : string;
  ProcessedMessages : nat
}.

Definition keygenStatusPending : string := "PENDING".
Definition keygenStatusDone : string := "DONE".
Definition keygenStatusError : string := "ERROR".

Definition error_response (stateID e : string) : KeyGenResponse :=
  mkKeyGenResponse keygenStatusError stateID "" [] "" e 0.

Definition failAndCleanup (s : service) (stateID e : string) : sres KeyGenResponse :=
  SRet (deleteExecution s stateID) (error_response stateID e).

Definition parseOrCreateSessionID (rand : reader) (sessionIDB64 : string) :
    outcome (bytes * string) * reader :=
  if decide (TrimSpace sessionIDB64 = "") then
    match ReadFull rand 32 with
    | (Some sessionID, rand) => (Ret (sessionID, EncodeToString sessionID), rand)
    | (None, rand) => (Fail ("failed to generate session_id: " +:+ ErrUnexpectedEOF), rand)
    end
  else
    (sessionID ← wrap_err "invalid session_id_base64: " (DecodeString sessionIDB64);
     if decide (length sessionID = 0%nat)
     then Fail "session_id_base64 cannot decode to empty bytes"
     else Ret (sessionID, sessionIDB64), rand).

(** The end of both [handleInit]s: create the handler, store it, drain it. *)
Definition launch {A} (s : service) (start : option bytes -> outcome (Session kg_round kg_result))
    (sessionID : bytes) (hrand : reader) (error : string -> string -> A)
    (pending : string -> list string -> A) : sres A :=
  match NewMultiHandler start (Some sessionID) hrand with
  | Fail e => SRet s (error "" ("failed to initialize keygen: " +:+ e))
  | Panic p => SPanic p
  | Ret (HPanic p) => SPanic p
  | Ret HBlocked => SBlocked
  | Ret HFuel => SFuel
  | Ret (HOk h) =>
      match newStateID (sv_rand s) with
      | (Fail e, rand) => SRet (mkService (executions s) rand) (error "" ("failed to create state id: " +:+ e))
      | (Panic p, _) => SPanic p
      | (Ret stateID, rand) =>
          let s := mkService (executions s) rand in
          match drainOutbound h with
          | (h, Ret outbound) => SRet (putExecution s stateID h) (pending stateID outbound)
          | (_, Fail e) => SRet (deleteExecution s stateID) (error stateID e)
          | (_, Panic p) => SPanic p
          end
      end
  end.

Definition handleInit (s : service) (req : KeyGenRequest) (hrand : reader) : sres KeyGenResponse :=
  let error e := SRet s (error_response "" e) in
  if decide (TrimSpace (req_SelfID req) = "") then error "self_id is required for init"
  else if decide (length (Participants req) = 0%nat) then error "participants is required for init"
  else if existsb (fun id => bool_decide (TrimSpace id = "")) (Participants req)
  then error "participants contains empty id"
  else if negb (Contains (NewIDSlice (Participants req)) [req_SelfID req])
  then error "self_id must be included in participants"
  else
    let '(o, rand) := parseOrCreateSessionID (sv_rand s) (req_SessionIDBase64 req) in
    let s := mkService (executions s) rand in
    match o with
    | Fail e => SRet s (error_response "" e)
    | Panic p => SPanic p
    | Ret (sessionID, sessionIDB64) =>
        launch s
          (fun sid => (StartKeygenCommon true (Participants req) (req_Threshold req) (req_SelfID req) ∅
                         fresh_start sid).1)
          sessionID hrand error_response
          (fun stateID outbound =>
             mkKeyGenResponse keygenStatusPending stateID sessionIDB64 outbound "" "" 0)
    end.

(** The part of [handleContinue] after the state was found, with the encoding
    of the key share. *)
Definition continue_with (encode : option TaprootConfig -> outcome string) (s : service)
    (stateID : string) (h : handler) (inbound : list string) : sres KeyGenResponse :=
  match accept_all h 0 inbound with
  | APanic p => SPanic p
  | ABlocked => SBlocked
  | AFuel => SFuel
  | AOk h _ (Some e) =>
      SRet (putExecution s stateID h) (error_response stateID ("decode inbound message: " +:+ e))
  | AOk h processed None =>
      match drainOutbound h with
      | (_, Fail e) => failAndCleanup s stateID e
      | (_, Panic p) => SPanic p
      | (h, Ret outbound) =>
          match Result_ h with
          | Ret (RTaproot cfg) =>
              match encode (Some cfg) with
              | Ret encodedShare =>
                  SRet (deleteExecution s stateID)
                    (mkKeyGenResponse keygenStatusDone stateID "" outbound encodedShare "" processed)
              | Fail e => failAndCleanup s stateID e
              | Panic p => SPanic p
              end
          | Ret (RConfig _) =>
              failAndCleanup s stateID "unexpected keygen result type: *keygen.Config"
          | Fail e =>
              if negb (isNotFinished e) then failAndCleanup s stateID e
              else SRet (putExecution s stateID h)
                     (mkKeyGenResponse keygenStatusPending stateID "" outbound "" "" processed)
          | Panic p => SPanic p
          end
      end
  end.

Definition handleContinue (s : service) (req : KeyGenRequest) : sres KeyGenResponse :=
  let stateID := TrimSpace (req_StateID req) in
  if decide (stateID = "") then SRet s (error_response "" "state_id is required for continue")
  else match getExecution s stateID with
       | None => SRet s (error_response "" "state_id not found")
       | Some h => continue_with EncodeTaprootConfigToString s stateID h (InboundMessages req)
       end.

(** [KeyGen], given what [json.Unmarshal] made of the request. *)
Definition KeyGen (s : service) (req : outcome KeyGenRequest) (hrand : reader) : sres KeyGenResponse :=
  match req with
  | Fail e => SRet s (error_response "" ("invalid request JSON: " +:+ e))
  | Panic p => SPanic p
  | Ret req =>
      let action := ToLower (TrimSpace (Action req)) in
      if decide (action = "init") then handleInit s req hrand
      else if decide (action = "continue") then handleContinue s req
      else SRet s (error_response "" "unsupported action, expected init or continue")
  end.

End Service.

#[global] Arguments SRet {C A}.
#[global] Arguments SPanic {C A}.
#[global] Arguments SBlocked {C A}.
#[global] Arguments SFuel {C A}.
