(* ===== verification/SchnorrImpl.v ===== *)
(** * schnorrimpl: the mobile-facing key generation service

    Session context tokens, and the service that starts an execution from such
    a token.  The JSON text of the token is a parameter; its base64 envelope
    and the normalisation of its fields are defined. *)

From Stdlib Require Import ZArith Lia.
From Stdlib Require Import Strings.Byte.
From stdpp Require Import base gmap strings list pretty numbers sorting.
From S2P Require Import Prelude Hash Curve Party Polynomial Round Message Handler GoText.
From S2P Require Import FrostConfig FrostKeygen TaprootCodec Service.

Local Open Scope Z_scope.

Definition KeyGenPhaseInit : Z := 1.
Definition KeyGenPhaseContinue : Z := 2.

Definition keyGenSessionContextPrefix : string := "mpsig.taproot.keygen.ctx.v1.".

Record SchnorrKeyGenSessionContext := mkContext {
  ctx_SessionIDBase64 : string;
  ctx_Participants : list string;
  ctx_Threshold : Z
}.

Record SchnorrKeyGenRequest := mkSchnorrRequest {
  Phase : Z;
  sreq_StateID : string;
  sreq_SelfID : string;
  SessionContext : string;
  sreq_InboundMessages : list string
}.

Record SchnorrKeyGenResponse := mkSchnorrResponse {
  sresp_Status : string;
  sresp_StateID : string;
  sresp_OutboundMessages : list string;
  sresp_EncodedKeyShare : string;
  sresp_ProcessedMessages : nat;
  sresp_Error : string
}.

(** ** Normalisation *)

Fixpoint normalize_loop (seen : gset string) (participants : list string) : outcome (list string) :=
  match participants with
  | [] => Ret []
  | p :: participants =>
      let id := TrimSpace p in
      if decide (id = "") then Fail "participants contains empty id"
      else if decide (id ∈ seen) then Fail ("duplicate participant id: " +:+ id)
      else out ← normalize_loop ({[id]} ∪ seen) participants; Ret (id :: out)
  end.

Definition normalizeParticipants (participants : list string) : outcome (list string) :=
  if decide (length participants = 0%nat) then Fail "participants must not be empty"
  else out ← normalize_loop ∅ participants; Ret (merge_sort String.le out).

Definition normalizeOrGenerateSessionID (rand : reader) (sessionIDBase64 : string)
    (allowGenerate : bool) : outcome string * reader :=
  let sessionIDBase64 := TrimSpace sessionIDBase64 in
  if decide (sessionIDBase64 = "") then
    if negb allowGenerate then (Fail "session_id_base64 is empty in session context", rand)
    else match ReadFull rand 32 with
         | (Some raw, rand) => (Ret (EncodeToString raw), rand)
         | (None, rand) => (Fail ("generate session id: " +:+ ErrUnexpectedEOF), rand)
         end
  else
    (raw ← wrap_err "invalid session_id_base64: " (DecodeString sessionIDBase64);
     if decide (length raw = 0%nat) then Fail "session_id_base64 cannot decode to empty bytes"
     else Ret sessionIDBase64, rand).

Definition invalid_threshold (threshold : Z) (n : nat) : string :=
  "invalid threshold " +:+ pretty threshold +:+ " for " +:+ pretty n +:+ " participants".

Definition containsString (xs : list string) (target : string) : bool :=
  existsb (fun x => bool_decide (x = target)) xs.

Definition toPartyIDs (participants : list string) : list ID := participants.

(** ** Session contexts *)

Section Context_.
Context {J : Json SchnorrKeyGenSessionContext}.

Definition BuildSchnorrKeyGenSessionContext (rand : reader) (participants : list string) (threshold : Z)
    (sessionIDBase64 : string) : outcome string * reader :=
  match normalizeParticipants participants with
  | Fail e => (Fail e, rand)
  | Panic p => (Panic p, rand)
  | Ret normalized =>
      if decide (threshold < 0 \/ Z.of_nat (length normalized) <= threshold)
      then (Fail (invalid_threshold threshold (length normalized)), rand)
      else
        let '(o, rand) := normalizeOrGenerateSessionID rand sessionIDBase64 true in
        (sid ← o;
         data ← wrap_err "marshal session context: " (json_Marshal (mkContext sid normalized threshold));
         Ret (keyGenSessionContextPrefix +:+ EncodeToString data), rand)
  end.

(** Without leave to generate, no randomness is read. *)
Definition DecodeSchnorrKeyGenSessionContext (encoded : string) : outcome SchnorrKeyGenSessionContext :=
  if negb (HasPrefix encoded keyGenSessionContextPrefix)
  then Fail ("invalid session context prefix, expected " +:+ quoted keyGenSessionContextPrefix)
  else
    payload ← wrap_err "decode session context base64: "
                (DecodeString (TrimPrefix encoded keyGenSessionContextPrefix));
    ctx ← wrap_err "decode session context JSON: " (json_Unmarshal payload);
    participants ← normalizeParticipants (ctx_Participants ctx);
    if decide (ctx_Threshold ctx < 0 \/ Z.of_nat (length participants) <= ctx_Threshold ctx)
    then Fail (invalid_threshold (ctx_Threshold ctx) (length participants))
    else
      sid ← (normalizeOrGenerateSessionID (stream_reader (fun _ => x00)) (ctx_SessionIDBase64 ctx) false).1;
      Ret (mkContext sid participants (ctx_Threshold ctx)).

(** ** The service *)

Context {C : Curve} {X : XOnly C} `{Blake3} {MO : MapOrder}.
Context {CB : Cbor kg_content} {CM : Cbor Message} {CW : Cbor taprootConfigMarshalled}.

Definition schnorr_error (stateID e : string) : SchnorrKeyGenResponse :=
  mkSchnorrResponse keygenStatusError stateID [] "" 0 e.

Definition schnorr_handleInit (s : service) (req : SchnorrKeyGenRequest) (hrand : reader) :
    sres SchnorrKeyGenResponse :=
  let selfID := TrimSpace (sreq_SelfID req) in
  let error e := SRet s (schnorr_error "" e) in
  if decide (selfID = "") then error "self_id is required for phase=1"
  else match DecodeSchnorrKeyGenSessionContext (SessionContext req) with
       | Fail e => error e
       | Panic p => SPanic p
       | Ret ctx =>
           if negb (containsString (ctx_Participants ctx) selfID)
           then error "self_id must be included in session_context participants"
           else match DecodeString (ctx_SessionIDBase64 ctx) with
                | Fail e => error ("invalid session_id_base64: " +:+ e)
                | Panic p => SPanic p
                | Ret sessionID =>
                    launch s (fun sid => (KeygenTaproot selfID (toPartyIDs (ctx_Participants ctx))
                                            (ctx_Threshold ctx) sid).1)
                      sessionID hrand schnorr_error
                      (fun stateID outbound =>
                         mkSchnorrResponse keygenStatusPending stateID outbound "" 0 "")
                end
       end.

(** The same steps as in the lower service, with the response of this one. *)
Definition schnorr_response (r : KeyGenResponse) : SchnorrKeyGenResponse :=
  mkSchnorrResponse (Status r) (resp_StateID r) (OutboundMessages r) (EncodedKeyShare r)
    (ProcessedMessages r) (resp_Error r).

Definition schnorr_handleContinue (s : service) (req : SchnorrKeyGenRequest) : sres SchnorrKeyGenResponse :=
  let stateID := TrimSpace (sreq_StateID req) in
  if decide (stateID = "") then SRet s (schnorr_error "" "state_id is required for phase=2")
  else match getExecution s stateID with
       | None => SRet s (schnorr_error "" "state_id not found")
       | Some h =>
           match continue_with EncodeTaprootKeyShareForStorage s stateID h (sreq_InboundMessages req) with
           | SRet s r => SRet s (schnorr_response r)
           | SPanic p => SPanic p
           | SBlocked => SBlocked
           | SFuel => SFuel
           end
       end.

(** [KeyGen], given what [json.Unmarshal] made of the request. *)
Definition schnorr_KeyGen (s : service) (req : outcome SchnorrKeyGenRequest) (hrand : reader) :
    sres SchnorrKeyGenResponse :=
  match req with
  | Fail e => SRet s (schnorr_error "" ("invalid request JSON: " +:+ e))
  | Panic p => SPanic p
  | Ret req =>
      if decide (Phase req = KeyGenPhaseInit) then schnorr_handleInit s req hrand
      else if decide (Phase req = KeyGenPhaseContinue) then schnorr_handleContinue s req
      else SRet s (schnorr_error "" "unsupported phase, expected 1(init) or 2(continue)")
  end.

End Context_.
