(* ===== verification/Secp256k1.v ===== *)
(** * pkg/math/curve/secp256k1.go: the concrete group

    [Secp256k1] wraps the decred library.  A [secp256k1.JacobianPoint] is
    taken as the affine point that it stands for, a [FieldVal] as a residue
    modulo the field prime, a [ModNScalar] as a residue modulo the order.
    The group operations, the parsing of field elements and the square root
    of the library are parameters ([Decred]); the encodings, the lifting of x
    coordinates and the parity tests of this package are defined over them,
    and shown to satisfy the interface that the protocols are verified
    against. *)

From Stdlib Require Import ZArith Lia Zmod Field Eqdep_dec.
From Stdlib Require Import Strings.Byte.
From stdpp Require Import base gmap strings list pretty numbers.
From S2P Require Import Prelude Hash Primes Curve.

Local Open Scope Z_scope.

Abbreviation FieldVal := (Zmod.Zmod secp256k1_p).
Abbreviation ModNScalar := (Zmod.Zmod secp256k1_order).

Definition fieldZ (z : Z) : FieldVal := Zmod.of_Z secp256k1_p z.

(** ** Points *)

Definition cubic (x : FieldVal) : FieldVal := Zmod.add (Zmod.mul x (Zmod.mul x x)) (fieldZ 7).

Definition on_curve (x y : FieldVal) : bool := bool_decide (Zmod.mul y y = cubic x).

(** [Z = 0] is the point at infinity, which [ToAffine] turns to [X = Y = 0]. *)
Inductive Secp256k1Point :=
| Infinity
| Affine (x y : FieldVal) (ok : on_curve x y = true).

Definition point_X (p : Secp256k1Point) : FieldVal :=
  match p with Infinity => Zmod.zero | Affine x _ _ => x end.

Definition point_Y (p : Secp256k1Point) : FieldVal :=
  match p with Infinity => Zmod.zero | Affine _ y _ => y end.

Lemma Affine_eq x y ok x' y' ok' : x = x' -> y = y' -> Affine x y ok = Affine x' y' ok'.
Proof. intros <- <-. f_equal. apply UIP_dec, bool_dec. Qed.

#[export] Instance Secp256k1Point_eq_dec : EqDecision Secp256k1Point.
Proof.
  intros [|x y ok] [|x' y' ok']; [by left|by right|by right|].
  destruct (decide (x = x')) as [Ex|Nx]; [|right; intros E; exact (Nx (f_equal point_X E))].
  destruct (decide (y = y')) as [Ey|Ny]; [|right; intros E; exact (Ny (f_equal point_Y E))].
  left. by apply Affine_eq.
Defined.

(** The point with these coordinates, where the library leaves no other. *)
Definition mk_point (x y : FieldVal) : Secp256k1Point :=
  match bool_dec (on_curve x y) true with left ok => Affine x y ok | right _ => Infinity end.

Lemma mk_point_affine x y ok : mk_point x y = Affine x y ok.
Proof. unfold mk_point. destruct (bool_dec _ _); [by apply Affine_eq|done]. Qed.

(** ** The library *)

Class Decred := {
  (** [FieldVal.SetByteSlice]: the value, and whether it overflowed *)
  SetByteSlice : bytes -> FieldVal * bool;
  (** [DecompressY]: a y coordinate of the given parity *)
  DecompressY : FieldVal -> bool -> option FieldVal;
  AddNonConst : Secp256k1Point -> Secp256k1Point -> Secp256k1Point;
  ScalarMultNonConst : ModNScalar -> Secp256k1Point -> Secp256k1Point
}.

(** The documentation of the parsing functions. *)
Class DecredLaws (D : Decred) : Prop := {
  setbytes_spec b : SetByteSlice b =
    (fieldZ (be_to_Z (take 32 b)), bool_decide (secp256k1_p <= be_to_Z (take 32 b)));
  decompress_some x odd y :
    DecompressY x odd = Some y -> on_curve x y = true /\ Z.odd (Zmod.to_Z y) = odd;
  decompress_none x odd y :
    DecompressY x odd = None -> on_curve x y = true -> Z.odd (Zmod.to_Z y) <> odd
}.

Section Wrapper.
Context `{Decred}.

Definition Secp256k1_base : Secp256k1Point :=
  mk_point (fieldZ 0x79be667ef9dcbbac55a06295ce870b07029bfcdb2dce28d959f2815b16f81798)
           (fieldZ 0x483ada7726a3c4655da4fbfc0e1108a8fd17b448a68554199c47d08ffb10d4b8).

Definition Secp256k1_LiftX (data : bytes) : outcome Secp256k1Point :=
  let '(x, overflow) := SetByteSlice data in
  if (overflow : bool) then Fail "secp256k1Point.UnmarshalBinary: x coordinate out of range"
  else match DecompressY x false with
       | Some y => Ret (mk_point x y)
       | None => Fail "secp256k1Point.UnmarshalBinary: x coordinate not on curve"
       end.

Definition point_XBytes (p : Secp256k1Point) : bytes := be_of_Z 32 (Zmod.to_Z (point_X p)).

Definition point_HasEvenY (p : Secp256k1Point) : bool := negb (Z.odd (Zmod.to_Z (point_Y p))).

(** "Doing it this way is compatible with Bitcoin" *)
Definition point_MarshalBinary (p : Secp256k1Point) : bytes :=
  (if point_HasEvenY p then x02 else x03) :: point_XBytes p.

(** The first byte is only compared with 3. *)
Definition point_UnmarshalBinary (data : bytes) : outcome Secp256k1Point :=
  match data with
  | b0 :: rest =>
      if decide (length rest <> 32%nat)
      then Fail ("invalid length for secp256k1Point: " +:+ pretty (length data))
      else
        let '(x, overflow) := SetByteSlice rest in
        if (overflow : bool) then Fail "secp256k1Point.UnmarshalBinary: x coordinate out of range"
        else match DecompressY x (Byte.eqb b0 x03) with
             | Some y => Ret (mk_point x y)
             | None => Fail "secp256k1Point.UnmarshalBinary: x coordinate not on curve"
             end
  | [] => Fail "invalid length for secp256k1Point: 0"
  end.

Definition point_Negate (p : Secp256k1Point) : Secp256k1Point :=
  match p with Infinity => Infinity | Affine x y _ => mk_point x (Zmod.opp y) end.

(** [SetBytes] reduces the coordinate modulo the order. *)
Definition point_XScalar (p : Secp256k1Point) : ModNScalar :=
  Zmod.of_Z secp256k1_order (be_to_Z (point_XBytes p)).

#[export] Instance secp256k1 : Curve := {|
  Name := "secp256k1";
  order := secp256k1_order;
  ScalarBits := 256;
  SafeScalarBytes := 32;
  Point := Secp256k1Point;
  PointTypeName := "*curve.Secp256k1Point";
  Point_eq_dec := Secp256k1Point_eq_dec;
  NewPoint := Infinity;
  NewBasePoint := Secp256k1_base;
  PAdd := AddNonConst;
  PNegate := point_Negate;
  Act := ScalarMultNonConst;
  PMarshal := point_MarshalBinary;
  PUnmarshal := point_UnmarshalBinary;
  XScalar := point_XScalar
|}.

#[export] Instance secp256k1_xonly : XOnly secp256k1 := {|
  HasEvenY := (point_HasEvenY : @Point secp256k1 -> bool);
  XBytes := (point_XBytes : @Point secp256k1 -> bytes);
  LiftX := (Secp256k1_LiftX : bytes -> outcome (@Point secp256k1))
|}.

End Wrapper.

(** ** The field *)

Section Field.
Add Field p_field : (Zmod.field_theory secp256k1_p secp256k1_p_prime).

Lemma field_range (x : FieldVal) : 0 <= Zmod.to_Z x < secp256k1_p.
Proof. pose proof (Zmod.to_Z_range x). assert (1 < secp256k1_p) by by vm_compute. lia. Qed.

Lemma field_no_zero_divisors (a b : FieldVal) : Zmod.mul a b = Zmod.zero -> a = Zmod.zero \/ b = Zmod.zero.
Proof.
  intros E. destruct (decide (a = Zmod.zero)) as [|Na]; [by left|]. right.
  apply (f_equal (Zmod.mul (Zmod.inv a))) in E.
  replace (Zmod.mul (Zmod.inv a) (Zmod.mul a b)) with b in E by (field; done).
  rewrite E. ring.
Qed.

(** A square has two roots, one the negation of the other. *)
Lemma square_roots (y y' : FieldVal) : Zmod.mul y y = Zmod.mul y' y' -> y' = y \/ y' = Zmod.opp y.
Proof.
  intros E. assert (Zmod.mul (Zmod.sub y' y) (Zmod.add y' y) = Zmod.zero) as E0.
  { replace (Zmod.mul (Zmod.sub y' y) (Zmod.add y' y)) with (Zmod.sub (Zmod.mul y' y') (Zmod.mul y y)) by ring.
    rewrite E. ring. }
  apply field_no_zero_divisors in E0 as [E0|E0]; [left|right].
  - replace y' with (Zmod.add (Zmod.sub y' y) y) by ring. rewrite E0. ring.
  - replace y' with (Zmod.sub (Zmod.add y' y) y) by ring. rewrite E0. ring.
Qed.

Lemma on_curve_opp x y : on_curve x (Zmod.opp y) = on_curve x y.
Proof. unfold on_curve. by replace (Zmod.mul (Zmod.opp y) (Zmod.opp y)) with (Zmod.mul y y) by ring. Qed.

Lemma opp_opp (y : FieldVal) : Zmod.opp (Zmod.opp y) = y.
Proof. ring. Qed.

(** The negation of a coordinate that is not zero has the other parity. *)
Lemma odd_opp (y : FieldVal) : y <> Zmod.zero ->
  Z.odd (Zmod.to_Z (Zmod.opp y)) = negb (Z.odd (Zmod.to_Z y)).
Proof.
  intros N. pose proof (field_range y) as Hy.
  assert (Zmod.to_Z y <> 0) as Nz.
  { intros E. apply N, Zmod.to_Z_inj. rewrite E. by vm_compute. }
  assert (Zmod.to_Z (Zmod.opp y) = secp256k1_p - Zmod.to_Z y) as ->.
  { rewrite Zmod.to_Z_opp. symmetry. apply (Z.mod_unique _ _ (-1)); lia. }
  rewrite Z.odd_sub. replace (Z.odd secp256k1_p) with true by by vm_compute. by destruct (Z.odd _).
Qed.

(** Equal squares and equal parity. *)
Lemma root_unique x y y' :
  on_curve x y = true -> on_curve x y' = true -> Z.odd (Zmod.to_Z y) = Z.odd (Zmod.to_Z y') -> y' = y.
Proof.
  unfold on_curve. rewrite !bool_decide_eq_true. intros E E' P. rewrite <- E' in E.
  apply square_roots in E as [|E]; [done|]. destruct (decide (y = Zmod.zero)) as [->|N].
  - rewrite E. ring.
  - rewrite E, odd_opp in P by done. by destruct (Z.odd _).
Qed.

(** No point has y = 0: -7 is not a cube. *)
Lemma minus_seven_not_cube (x : FieldVal) : cubic x <> Zmod.zero.
Proof.
  intros E. assert (Zmod.mul x (Zmod.mul x x) = fieldZ (secp256k1_p - 7)) as Ex.
  { replace (Zmod.mul x (Zmod.mul x x)) with (Zmod.sub (cubic x) (fieldZ 7)) by (unfold cubic; ring).
    rewrite E. apply Zmod.to_Z_inj. by vm_compute. }
  assert (x <> Zmod.zero) as Nx.
  { intros ->. rewrite Zmod.mul_0_l in Ex. apply (f_equal Zmod.to_Z) in Ex. by vm_compute in Ex. }
  set (k := (secp256k1_p - 1) / 3).
  assert (Z.pred secp256k1_p = 3 * k) as Ek by by vm_compute.
  assert (0 < k) as Hk by by vm_compute.
  pose proof (Zmod.fermat_nz x Nx secp256k1_p_prime) as F.
  rewrite Ek, Zmod.pow_mul_r_nonneg in F by lia.
  replace (Zmod.pow x 3) with (Zmod.mul x (Zmod.mul x x)) in F.
  2: { change 3 with (Z.succ (Z.succ 1)). rewrite !Zmod.pow_succ_nonneg_r, Zmod.pow_1_r by lia. done. }
  rewrite Ex in F. unfold fieldZ in F. rewrite <- Zmod.of_Z_pow in F by lia.
  apply (f_equal Zmod.to_Z) in F. rewrite Zmod.to_Z_of_Z, <- pow_mod_correct in F by (unfold k; by vm_compute || lia).
  unfold k in F. by vm_compute in F.
Qed.

Lemma on_curve_nonzero x y : on_curve x y = true -> y <> Zmod.zero.
Proof.
  unfold on_curve. rewrite bool_decide_eq_true. intros E ->. apply (minus_seven_not_cube x). rewrite <- E. ring.
Qed.

End Field.

(** ** The interface is met *)

Section Laws.
Context {D : Decred} {DL : DecredLaws D}.

Lemma be_to_XBytes P : be_to_Z (point_XBytes P) = Zmod.to_Z (point_X P).
Proof.
  unfold point_XBytes. rewrite be_to_of_Z. apply Z.mod_small.
  pose proof (field_range (point_X P)). assert (secp256k1_p < 256 ^ Z.of_nat 32) by by vm_compute. lia.
Qed.

Lemma XBytes_length P : length (point_XBytes P) = 32%nat.
Proof. apply length_be_of_Z. Qed.

(** Parsing the x coordinate of a point gives it back. *)
Lemma setbytes_XBytes P : SetByteSlice (point_XBytes P) = (point_X P, false).
Proof.
  rewrite setbytes_spec, take_ge by (by rewrite XBytes_length). rewrite be_to_XBytes.
  pose proof (field_range (point_X P)). rewrite bool_decide_false by lia.
  unfold fieldZ. by rewrite Zmod.of_Z_to_Z.
Qed.

Lemma decompress_point x y ok odd :
  Z.odd (Zmod.to_Z y) = odd ->
  match DecompressY x odd with Some y' => Ret (mk_point x y') | None => Fail "" end = Ret (Affine x y ok).
Proof.
  intros P. destruct (DecompressY x odd) as [y'|] eqn:E.
  - apply decompress_some in E as [Oc P']. rewrite (root_unique x y y' ok Oc) by congruence.
    by rewrite (mk_point_affine x y ok).
  - by apply (decompress_none x odd y) in E.
Qed.

Lemma lift_ret b P : Secp256k1_LiftX b = Ret P ->
  exists y ok, P = Affine (SetByteSlice b).1 y ok /\ Z.odd (Zmod.to_Z y) = false /\ (SetByteSlice b).2 = false.
Proof.
  unfold Secp256k1_LiftX. destruct (SetByteSlice b) as [x [|]]; [done|].
  destruct (DecompressY x false) as [y|] eqn:E; [|done]. apply decompress_some in E as [Oc P0].
  intros [= <-]. exists y, Oc. by rewrite (mk_point_affine x y Oc).
Qed.

#[export] Instance secp256k1_xonly_laws : XOnlyLaws secp256k1 secp256k1_xonly.
Proof.
  constructor; cbn [XBytes HasEvenY LiftX NewPoint PNegate secp256k1 secp256k1_xonly].
  - apply XBytes_length.
  - intros [|x y ok]; [done|]. cbn [point_Negate]. unfold point_XBytes.
    assert (on_curve x (Zmod.opp y) = true) as ok' by by rewrite on_curve_opp.
    by rewrite (mk_point_affine _ _ ok').
  - intros [|x y ok] N; [done|]. cbn [point_Negate]. unfold point_HasEvenY.
    assert (on_curve x (Zmod.opp y) = true) as ok' by by rewrite on_curve_opp.
    rewrite (mk_point_affine _ _ ok'). cbn [point_Y]. by rewrite odd_opp by by eapply on_curve_nonzero.
  - intros [|x y ok] N Ev; [done|]. unfold Secp256k1_LiftX. rewrite setbytes_XBytes. cbn [point_X].
    apply negb_true_iff in Ev. pose proof (decompress_point x y ok false Ev) as E.
    by destruct (DecompressY x false).
  - intros b P (y & ok & -> & Ev & _)%lift_ret. split; [done|]. unfold point_HasEvenY. cbn. by rewrite Ev.
  - intros b P Hb (y & ok & -> & _ & Ov)%lift_ret. unfold point_XBytes. cbn [point_X].
    rewrite setbytes_spec, take_ge in * by lia. cbn [fst snd] in *. apply bool_decide_eq_false in Ov.
    unfold fieldZ. rewrite Zmod.to_Z_of_Z, Z.mod_small.
    + by rewrite <- Hb, be_of_to_Z.
    + pose proof (be_to_Z_bound b). lia.
Qed.

#[export] Instance secp256k1_marshal_laws : MarshalLaws secp256k1.
Proof.
  constructor. intros [|x y ok] N; [done|]. cbn -[point_XBytes]. unfold point_UnmarshalBinary, point_MarshalBinary.
  rewrite decide_False by (rewrite XBytes_length; lia). rewrite setbytes_XBytes. cbn [point_X].
  replace (Byte.eqb _ x03) with (Z.odd (Zmod.to_Z y)) by (unfold point_HasEvenY; cbn; by destruct (Z.odd _)).
  pose proof (decompress_point x y ok _ eq_refl) as E. by destruct (DecompressY _ _).
Qed.

#[export] Instance secp256k1_compressed_laws : CompressedLaws secp256k1 secp256k1_xonly.
Proof.
  constructor; cbn [XBytes HasEvenY PMarshal PUnmarshal XScalar NewPoint PNegate order secp256k1 secp256k1_xonly];
    [done| |done|by vm_compute].
  intros [|x y ok] even N; [done|]. unfold point_UnmarshalBinary.
  rewrite decide_False by (rewrite XBytes_length; lia). rewrite setbytes_XBytes. cbn [point_X point_Negate].
  assert (on_curve x (Zmod.opp y) = true) as ok' by by rewrite on_curve_opp.
  rewrite (mk_point_affine _ _ ok'). pose proof (on_curve_nonzero x y ok) as Ny.
  assert (Byte.eqb (if even then x02 else x03) x03 = negb even) as -> by by destruct even.
  unfold point_HasEvenY. cbn [point_Y]. destruct (Bool.eqb _ _) eqn:Ee.
  - apply Bool.eqb_prop in Ee. pose proof (decompress_point x y ok (negb even)) as E.
    rewrite Ee, negb_involutive in E |- *. specialize (E eq_refl). by destruct (DecompressY _ _).
  - pose proof (decompress_point x (Zmod.opp y) ok' (negb even)) as E. rewrite odd_opp in E by done.
    assert (negb (Z.odd (Zmod.to_Z y)) = negb even) as Eo by by destruct (Z.odd _), even.
    specialize (E Eo). by destruct (DecompressY _ _).
Qed.

(** The first byte of an encoding matters only through its comparison with
    3: 254 other values stand for an even y coordinate. *)
Lemma unmarshal_first_byte b0 b1 rest :
  Byte.eqb b0 x03 = Byte.eqb b1 x03 -> point_UnmarshalBinary (b0 :: rest) = point_UnmarshalBinary (b1 :: rest).
Proof. intros E. unfold point_UnmarshalBinary. by rewrite E. Qed.

End Laws.

(** What the documentation of the library says of its group operations. *)
Class DecredGroup (D : Decred) : Prop := {
  add_comm_ P Q : AddNonConst P Q = AddNonConst Q P;
  add_assoc_ P Q R : AddNonConst P (AddNonConst Q R) = AddNonConst (AddNonConst P Q) R;
  add_infinity P : AddNonConst Infinity P = P;
  add_negate P : AddNonConst P (point_Negate P) = Infinity;
  mult_1 P : ScalarMultNonConst Zmod.one P = P;
  mult_mul a b P : ScalarMultNonConst (Zmod.mul a b) P = ScalarMultNonConst a (ScalarMultNonConst b P);
  mult_add a b P :
    ScalarMultNonConst (Zmod.add a b) P = AddNonConst (ScalarMultNonConst a P) (ScalarMultNonConst b P);
  base_generates_ P : exists a, P = ScalarMultNonConst a Secp256k1_base;
  base_faithful_ a : ScalarMultNonConst a Secp256k1_base = Infinity -> a = Zmod.zero
}.

(** With a group of the documented order, everything proved against the
    interface holds of secp256k1. *)
#[export] Instance secp256k1_laws (D : Decred) (DG : DecredGroup D) : CurveLaws secp256k1.
Proof.
  constructor; cbn.
  - apply secp256k1_order_prime.
  - by vm_compute.
  - apply add_comm_.
  - apply add_assoc_.
  - apply add_infinity.
  - apply add_negate.
  - apply mult_1.
  - apply mult_mul.
  - apply mult_add.
  - apply base_generates_.
  - apply base_faithful_.
Qed.

(** ** An implementation of the parameters *)

(** The square root: p = 3 modulo 4. *)
Definition field_sqrt (a : FieldVal) : FieldVal := Zmod.pow a ((secp256k1_p + 1) / 4).

Lemma field_sqrt_spec (a y : FieldVal) : Zmod.mul y y = a -> Zmod.mul (field_sqrt a) (field_sqrt a) = a.
Proof.
  intros <-. unfold field_sqrt. set (k := (secp256k1_p + 1) / 4).
  assert (k + k + (k + k) = Z.succ secp256k1_p) as Ek by by vm_compute.
  assert (0 < k) as Hk by by vm_compute.
  rewrite <- (Zmod.pow_2_r y), <- Zmod.pow_mul_r_nonneg, <- Zmod.pow_add_r_nonneg by lia.
  replace (2 * k + 2 * k) with (Z.succ secp256k1_p) by lia.
  rewrite Zmod.pow_succ_nonneg_r by by vm_compute. rewrite Zmod.fermat by apply secp256k1_p_prime.
  by rewrite (Zmod.pow_2_r y).
Qed.

Definition simple_DecompressY (x : FieldVal) (odd : bool) : option FieldVal :=
  let y := field_sqrt (cubic x) in
  if on_curve x y then Some (if Bool.eqb (Z.odd (Zmod.to_Z y)) odd then y else Zmod.opp y) else None.

(** Affine addition. *)
Definition simple_add (P Q : Secp256k1Point) : Secp256k1Point :=
  match P, Q with
  | Infinity, _ => Q
  | _, Infinity => P
  | Affine x1 y1 _, Affine x2 y2 _ =>
      if decide (x1 = x2 /\ y2 = Zmod.opp y1) then Infinity
      else
        let slope := if decide (x1 = x2)
                     then Zmod.mdiv (Zmod.mul (fieldZ 3) (Zmod.mul x1 x1)) (Zmod.mul (fieldZ 2) y1)
                     else Zmod.mdiv (Zmod.sub y2 y1) (Zmod.sub x2 x1) in
        let x3 := Zmod.sub (Zmod.sub (Zmod.mul slope slope) x1) x2 in
        mk_point x3 (Zmod.sub (Zmod.mul slope (Zmod.sub x1 x3)) y1)
  end.

Definition simple_mult (a : ModNScalar) (P : Secp256k1Point) : Secp256k1Point :=
  match Zmod.to_Z a with Zpos n => Pos.iter_op simple_add n P | _ => Infinity end.

Definition simple_decred : Decred := {|
  SetByteSlice := fun b =>
    (fieldZ (be_to_Z (take 32 b)), bool_decide (secp256k1_p <= be_to_Z (take 32 b)));
  DecompressY := simple_DecompressY;
  AddNonConst := simple_add;
  ScalarMultNonConst := simple_mult
|}.

Lemma simple_decompress_some x odd y :
  simple_DecompressY x odd = Some y -> on_curve x y = true /\ Z.odd (Zmod.to_Z y) = odd.
Proof.
  unfold simple_DecompressY. generalize (field_sqrt (cubic x)) as r. intros r.
  destruct (on_curve x r) eqn:E; [|done]. intros [= <-].
  destruct (Bool.eqb _ odd) eqn:Eo; [by apply Bool.eqb_prop in Eo|]. rewrite on_curve_opp. split; [done|].
  rewrite odd_opp by by eapply on_curve_nonzero. by destruct (Z.odd _), odd.
Qed.

Lemma simple_decompress_none x odd y :
  simple_DecompressY x odd = None -> on_curve x y = true -> Z.odd (Zmod.to_Z y) <> odd.
Proof.
  unfold simple_DecompressY. pose proof (field_sqrt_spec (cubic x) y) as Hr. revert Hr.
  generalize (field_sqrt (cubic x)) as r. intros r Hr. destruct (on_curve x r) eqn:E; [done|].
  intros _ Hy. unfold on_curve in *. apply bool_decide_eq_false in E. apply bool_decide_eq_true in Hy. tauto.
Qed.

Lemma simple_decred_laws : DecredLaws simple_decred.
Proof. exact (Build_DecredLaws simple_decred (fun _ => eq_refl) simple_decompress_some simple_decompress_none). Qed.
