(* ===== verification/Ecdsa.v ===== *)
(** * pkg/ecdsa: signatures and presignatures

    Verification and the Ethereum form of a signature (signature.go), and the
    presignatures with which the parties of a signing session turn shares of
    the nonce and of its product with the key into shares of a signature
    (presignature.go). *)

From Stdlib Require Import ZArith Lia Zmod Field.
From Stdlib Require Import Strings.Byte.
From stdpp Require Import base gmap strings list pretty numbers.
From S2P Require Import Prelude Hash Curve Party Sample Polynomial Round.

Local Open Scope curve_scope.

Section Ecdsa.
Context {C : Curve} {MO : MapOrder}.

Record Signature := mkSignature { sig_R : Point; sig_S : Scalar }.

Definition EmptySignature : Signature := mkSignature 𝟎 0.

Definition Verify (sig : Signature) (X : Point) (hash : bytes) : bool :=
  let r := XScalar (sig_R sig) in
  if IsZero r || IsZero (sig_S sig) then false
  else
    let m := FromHash hash in
    let sInv := Invert (sig_S sig) in
    let R2 := ActOnBase m ⊕ r • X in
    PEqual (sInv • R2) (sig_R sig).

(** [SigEthereum] changes the two objects that the signature points to: the
    result carries their new values. *)
Definition SigEthereum (sig : Signature) : outcome (bytes * Signature) :=
  let over := IsOverHalfOrder (sig_S sig) in
  let S := if over then - sig_S sig else sig_S sig in
  let r := PMarshal (sig_R sig) in
  let rs := r ++ SMarshal S in
  match rs !! 0%nat, rs !! 64%nat with
  | Some b0, Some _ =>
      let v := byte_of_Z (byteZ b0 - 2) in
      let v := if over then byte_of_Z (Z.lxor (byteZ v) 1) else v in
      let rs := <[64%nat := v]> (drop 1 rs ++ drop (length rs - 1) rs) in
      let r := <[0%nat := byte_of_Z (byteZ v + 2)]> r in
      R ← PUnmarshal r;
      Ret (rs, mkSignature R S)
  | _, _ => Panic "runtime error: index out of range"
  end.

(** ** Presignatures *)

Record PreSignature := mkPreSignature {
  pre_ID : bytes;
  pre_R : Point;
  pre_RBar : gmap ID Point;
  pre_S : gmap ID Point;
  KShare : Scalar;
  ChiShare : Scalar
}.

Definition EmptyPreSignature : PreSignature := mkPreSignature [] 𝟎 ∅ ∅ 0 0.

(** σᵢ = kᵢm + rχᵢ *)
Definition SignatureShare (sig : PreSignature) (hash : bytes) : Scalar :=
  let m := FromHash hash in
  let r := XScalar (pre_R sig) in
  m * KShare sig + r * ChiShare sig.

Definition pre_Signature (sig : PreSignature) (shares : gmap ID Scalar) : Signature :=
  mkSignature (pre_R sig) (foldl (fun s p => s + p.2) 0 (range_order shares)).

Definition bad_share (sig : PreSignature) (m r : Scalar) (j : ID) (share : Scalar) : bool :=
  match pre_RBar sig !! j, pre_S sig !! j with
  | Some Rj, Some Sj => negb (PEqual (share • pre_R sig) (m • Rj ⊕ r • Sj))
  | _, _ => true
  end.

Definition VerifySignatureShares (sig : PreSignature) (shares : gmap ID Scalar) (hash : bytes) : list ID :=
  let r := XScalar (pre_R sig) in
  let m := FromHash hash in
  omap (fun p : ID * Scalar => if bad_share sig m r p.1 p.2 then Some p.1 else None) (range_order shares).

(** The loop over [RBar]. *)
Fixpoint validate_points (S : gmap ID Point) (l : list (ID * Point)) : outcome unit :=
  match l with
  | [] => Ret tt
  | (id, R) :: l =>
      if match S !! id with Some Sj => IsIdentity Sj | None => true end
      then Fail "presignature: S invalid"
      else if IsIdentity R then Fail "presignature: RBar invalid"
      else validate_points S l
  end.

Definition pre_Validate (sig : PreSignature) : outcome unit :=
  if decide (size (pre_RBar sig) <> size (pre_S sig))
  then Fail "presignature: different number of R,S shares"
  else
    _ ← validate_points (pre_S sig) (range_order (pre_RBar sig));
    if IsIdentity (pre_R sig) then Fail "presignature: R is identity"
    else
      _ ← wrap_err "presignature: " (RID_Validate (pre_ID sig));
      if IsZero (ChiShare sig) || IsZero (KShare sig) then Fail "ChiShare or KShare is invalid"
      else Ret tt.

Definition SignerIDs (sig : PreSignature) : IDSlice := NewIDSlice (range_order (pre_RBar sig)).*1.

End Ecdsa.

(** ** Properties *)

Section Props.
Context {C : Curve} {CL : CurveLaws C}.
Add Field scalar_field : scalar_field_theory.

(** The equation that [Verify] checks, free of inversions. *)
Definition ecdsa_equation (sig : Signature) (X : Point) (hash : bytes) : Prop :=
  XScalar (sig_R sig) <> 0 /\ sig_S sig <> 0 /\
  sig_S sig • sig_R sig = FromHash hash • 𝐆 ⊕ XScalar (sig_R sig) • X.

Lemma act_cancel (s : Scalar) P Q : s <> 0 -> Zmod.inv s • P = Q <-> P = s • Q.
Proof.
  intros N. split; [intros <-|intros ->]; rewrite <- act_mul.
  - replace (s * Zmod.inv s) with 1 by (field; done). by rewrite act_1.
  - replace (Zmod.inv s * s) with 1 by (field; done). by rewrite act_1.
Qed.

Lemma ecdsa_Verify_spec sig X hash : Verify sig X hash = true <-> ecdsa_equation sig X hash.
Proof.
  unfold Verify, ecdsa_equation, IsZero, PEqual, Invert, ActOnBase.
  destruct (decide (XScalar (sig_R sig) = 0)) as [E|N].
  { rewrite (bool_decide_true _ E). cbn [orb]. split; [done|by intros []]. }
  rewrite (bool_decide_false _ N). cbn [orb].
  destruct (decide (sig_S sig = 0)) as [E|Ns].
  { rewrite (bool_decide_true _ E). split; [done|by intros (_ & [] & _)]. }
  rewrite (bool_decide_false _ Ns), bool_decide_eq_true, act_cancel by done.
  split; [intros <-; done|intros (_ & _ & ->); done].
Qed.

(** A signature and its negation satisfy the same equation. *)
Lemma ecdsa_equation_neg R S X hash :
  XScalar (⊖ R) = XScalar R -> ecdsa_equation (mkSignature R S) X hash ->
  ecdsa_equation (mkSignature (⊖ R) (- S)) X hash.
Proof.
  unfold ecdsa_equation. cbn. intros Ex (Nr & Ns & E). rewrite Ex. split_and!; [done| |].
  - intros E0. apply Ns. replace S with (- - S) by ring. rewrite E0. ring.
  - by rewrite act_opp, act_neg_r, neg_involutive.
Qed.

(** ** The Ethereum form *)

Context {X : XOnly C} {XL : XOnlyLaws C X} {CC : CompressedLaws C X}.

Lemma XScalar_neg R : XScalar (⊖ R) = XScalar R.
Proof. by rewrite !xscalar_xbytes, xbytes_neg. Qed.

Lemma ecdsa_R_nonzero sig Y hash : ecdsa_equation sig Y hash -> sig_R sig <> 𝟎.
Proof.
  intros (N & _) E. apply N. rewrite E, xscalar_xbytes, xbytes_identity. apply Zmod.of_Z_0.
Qed.

(** Negating a scalar above half of the order brings it below. *)
Lemma half_order_neg (s : Scalar) : IsOverHalfOrder s = true -> IsOverHalfOrder (- s) = false.
Proof.
  unfold IsOverHalfOrder. rewrite bool_decide_eq_true, bool_decide_eq_false. intros Hs.
  pose proof (scalar_range s) as Hr. pose proof (Z.prime_ge_2 _ order_prime) as Hp.
  assert (Zmod.to_Z (- s) = order - Zmod.to_Z s)%Z as ->.
  { rewrite Zmod.to_Z_opp. symmetry. apply (Z.mod_unique _ _ (-1)); [left|]; Z.to_euclidean_division_equations; lia. }
  Z.to_euclidean_division_equations. lia.
Qed.

(** The recovery id: the parity of the y coordinate. *)
Definition recovery (R : Point) : byte := if HasEvenY R then x00 else x01.

Lemma shift_left (b0 v : byte) (l : bytes) : length l = 64%nat ->
  <[64%nat := v]> (drop 1 (b0 :: l) ++ drop (length (b0 :: l) - 1) (b0 :: l)) = l ++ [v].
Proof.
  intros Hl. cbn [length drop]. rewrite Hl. cbn [Nat.sub].
  destruct (drop 64 (b0 :: l)) as [|x [|y l']] eqn:E.
  - apply (f_equal length) in E. rewrite length_drop in E. cbn in E. lia.
  - rewrite <- Hl at 1. by rewrite <- (Nat.add_0_r (length l)), insert_app_r.
  - apply (f_equal length) in E. rewrite length_drop in E. cbn in E. lia.
Qed.

Lemma SigEthereum_shape R s :
  R <> 𝟎 ->
  let over := IsOverHalfOrder s in
  let R' := if over then ⊖ R else R in
  let s' := if over then - s else s in
  SigEthereum (mkSignature R s) = Ret (XBytes R' ++ SMarshal s' ++ [recovery R'], mkSignature R' s').
Proof.
  intros N over R' s'. unfold SigEthereum. cbn [sig_R sig_S]. fold over. fold s'.
  rewrite pmarshal_shape. set (b0 := if HasEvenY R then x02 else x03). cbn [app].
  assert (length (XBytes R ++ SMarshal s') = 64%nat) as Hl by (by rewrite length_app, xbytes_length, SMarshal_length).
  destruct (lookup_lt_is_Some_2 (XBytes R ++ SMarshal s') 63) as [b Hb]; [lia|].
  rewrite !lookup_cons. rewrite Hb. rewrite shift_left by done.
  set (v := if over then _ else _).
  assert (v = recovery R') as ->.
  { unfold v, R', recovery, b0. destruct over; [rewrite eveny_neg by done|]; by destruct (HasEvenY R). }
  assert (<[0%nat := byte_of_Z (byteZ (recovery R') + 2)]> (b0 :: XBytes R)
          = (if HasEvenY R' then x02 else x03) :: XBytes R) as ->.
  { cbn. f_equal. unfold recovery. by destruct (HasEvenY R'). }
  rewrite punmarshal_parity by done. cbn [mbind outcome_bind]. rewrite <- app_assoc.
  assert ((if Bool.eqb (HasEvenY R') (HasEvenY R) then R else ⊖ R) = R') as ->.
  { unfold R'. destruct over; [rewrite eveny_neg by done|]; by destruct (HasEvenY R). }
  assert (XBytes R = XBytes R') as -> by (unfold R'; destruct over; by rewrite ?xbytes_neg). done.
Qed.

End Props.

(** ** Signing with presignatures *)

Section Presign.
Context {C : Curve} {CL : CurveLaws C} {MO : MapOrder} {MOL : MapOrderLaws}.
Add Field scalar_field : scalar_field_theory.

(** The presignatures of the signers [ids]: [k] and [x] are shared additively
    as [ks] and, multiplied, as [chis]. *)
Record presigned (pre : PreSignature) (ids : list ID) (k x : Scalar) (ks chis : ID -> Scalar) : Prop := {
  ps_NoDup : NoDup ids;
  ps_k : k <> 0;
  ps_R : pre_R pre = Zmod.inv k • 𝐆;
  ps_RBar j : j ∈ ids -> pre_RBar pre !! j = Some (ks j • pre_R pre);
  ps_S j : j ∈ ids -> pre_S pre !! j = Some (chis j • pre_R pre);
  ps_ks : sumS ks ids = k;
  ps_chis : sumS chis ids = k * x
}.

(** The share that signer [j] should send. *)
Definition honest_share (pre : PreSignature) (ks chis : ID -> Scalar) (hash : bytes) (j : ID) : Scalar :=
  FromHash hash * ks j + XScalar (pre_R pre) * chis j.

Lemma SignatureShare_honest pre ks chis hash j :
  KShare pre = ks j -> ChiShare pre = chis j -> SignatureShare pre hash = honest_share pre ks chis hash j.
Proof. unfold SignatureShare, honest_share. by intros -> ->. Qed.

Lemma foldl_sumS {A} (f : A -> Scalar) l acc : foldl (fun s p => s + f p) acc l = acc + sumS f l.
Proof. revert acc. induction l as [|a l IH]; intros acc; cbn; [ring|]. rewrite IH. ring. Qed.

Lemma range_sum (m : gmap ID Scalar) (f : ID -> Scalar) ids :
  NoDup ids -> dom m = list_to_set ids -> (forall j, j ∈ ids -> m !! j = Some (f j)) ->
  foldl (fun s p => s + p.2) 0 (range_order m) = sumS f ids.
Proof.
  intros Nd Hd Hf. rewrite foldl_sumS.
  assert (m = list_to_map ((fun j => (j, f j)) <$> ids)) as Em.
  { apply map_eq. intros j. destruct (decide (j ∈ ids)) as [Hj|Hj].
    - rewrite Hf by done. symmetry. apply elem_of_list_to_map_1.
      + rewrite <- list_fmap_compose. by rewrite list_fmap_id.
      + apply list_elem_of_fmap. by exists j.
    - assert (j ∉ dom m) as Hn by (rewrite Hd, elem_of_list_to_set; done).
      rewrite (not_elem_of_dom_1 m j Hn). symmetry. apply not_elem_of_list_to_map_1.
      rewrite <- list_fmap_compose. by rewrite list_fmap_id. }
  assert (range_order m ≡ₚ ((fun j => (j, f j)) <$> ids)) as P.
  { rewrite range_order_perm, Em, map_to_list_to_map; [done|].
    rewrite <- list_fmap_compose. by rewrite list_fmap_id. }
  by rewrite (sumS_perm _ _ _ P), sumS_fmap, Zmod.add_0_l.
Qed.

Section Session.
Context (pre : PreSignature) (ids : list ID) (k x : Scalar) (ks chis : ID -> Scalar).
Hypothesis PS : presigned pre ids k x ks chis.

Lemma presigned_k_R : k • pre_R pre = 𝐆.
Proof.
  rewrite (ps_R _ _ _ _ _ _ PS), <- act_mul. pose proof (ps_k _ _ _ _ _ _ PS).
  replace (k * Zmod.inv k) with 1 by (field; done). apply act_1.
Qed.

Lemma honest_sum hash :
  sumS (honest_share pre ks chis hash) ids • pre_R pre
  = FromHash hash • 𝐆 ⊕ XScalar (pre_R pre) • (x • 𝐆).
Proof.
  unfold honest_share. rewrite sumS_add, !sumS_mul, (ps_ks _ _ _ _ _ _ PS), (ps_chis _ _ _ _ _ _ PS).
  rewrite <- presigned_k_R. rewrite <- !act_mul, <- act_add. f_equal. ring.
Qed.

(** A share passes the check exactly when it is the honest one. *)
Lemma bad_share_spec hash j s :
  j ∈ ids ->
  bad_share pre (FromHash hash) (XScalar (pre_R pre)) j s = false <-> s = honest_share pre ks chis hash j.
Proof.
  intros Hj. unfold bad_share. rewrite (ps_RBar _ _ _ _ _ _ PS j Hj), (ps_S _ _ _ _ _ _ PS j Hj).
  rewrite negb_false_iff. unfold PEqual. rewrite bool_decide_eq_true.
  rewrite <- !act_mul, <- act_add. unfold honest_share.
  rewrite (ps_R _ _ _ _ _ _ PS), <- !act_mul. split; [|by intros ->].
  intros E%base_act_inj. pose proof (ps_k _ _ _ _ _ _ PS) as Nk.
  apply (f_equal (fun y => y * k)) in E.
  match type of E with ?a * _ * _ = ?b * _ * _ =>
    replace (a * Zmod.inv k * k) with a in E by (field; done);
    replace (b * Zmod.inv k * k) with b in E by (field; done) end.
  done.
Qed.

Lemma culprits_spec shares hash j :
  dom shares = list_to_set ids ->
  j ∈ VerifySignatureShares pre shares hash <->
  exists s, shares !! j = Some s /\ s <> honest_share pre ks chis hash j.
Proof.
  intros Hd. unfold VerifySignatureShares. rewrite list_elem_of_omap. split.
  - intros ([j' s] & Hin & E). rewrite range_order_perm, elem_of_map_to_list in Hin. cbn in E.
    destruct (bad_share _ _ _ _ _) eqn:Eb; [|done]. injection E as ->. exists s. split; [done|].
    intros Es. apply elem_of_dom_2 in Hin. rewrite Hd, elem_of_list_to_set in Hin.
    apply (bad_share_spec hash j s Hin) in Es. congruence.
  - intros (s & Es & Ns). exists (j, s). rewrite range_order_perm, elem_of_map_to_list. split; [done|]. cbn.
    pose proof (elem_of_dom_2 _ _ _ Es) as Hj. rewrite Hd, elem_of_list_to_set in Hj.
    destruct (bad_share _ _ _ _ _) eqn:Eb; [done|]. by apply (bad_share_spec hash j s Hj) in Eb.
Qed.

End Session.
End Presign.
