(* ===== verification/Elgamal.v ===== *)
(** * internal/elgamal: ElGamal ciphertexts in the exponent *)

From Stdlib Require Import ZArith Lia Zmod Field.
From Stdlib Require Import Strings.Byte.
From stdpp Require Import base gmap strings list pretty numbers.
From S2P Require Import Prelude Hash Curve Sample.

Local Open Scope curve_scope.

Section Elgamal.
Context {C : Curve}.

Record Ciphertext := mkCiphertext { ct_L : Point; ct_M : Point }.

(** The ciphertext for a given nonce. *)
Definition elgamal_enc (public : Point) (message nonce : Scalar) : Ciphertext :=
  mkCiphertext (ActOnBase nonce) (ActOnBase message ⊕ nonce • public).

Definition elgamal_Encrypt (public : Point) (message : Scalar) (rand : reader) :
    outcome (Ciphertext * Scalar * reader) :=
  '(nonce, rand) ← sample_Scalar rand;
  Ret (elgamal_enc public message nonce, nonce, rand).

Definition elgamal_Valid (c : option Ciphertext) : bool :=
  match c with
  | None => false
  | Some c => negb (IsIdentity (ct_L c)) && negb (IsIdentity (ct_M c))
  end.

Definition elgamal_Empty : Ciphertext := mkCiphertext 𝟎 𝟎.

Definition elgamal_WriteTo (c : Ciphertext) : bytes := PMarshal (ct_L c) ++ PMarshal (ct_M c).

Definition elgamal_any (c : Ciphertext) : any :=
  AWriterTo "*elgamal.Ciphertext" "ElGamal Ciphertext" (Ret (elgamal_WriteTo c)).

Context {CL : CurveLaws C}.
Add Field scalar_field : scalar_field_theory.

(** The holder of the secret key recovers the message in the exponent. *)
Lemma elgamal_open x m nonce :
  let c := elgamal_enc (ActOnBase x) m nonce in ct_M c ⊕ ⊖ (x • ct_L c) = ActOnBase m.
Proof.
  cbn. unfold ActOnBase. rewrite <- act_opp, <- !act_mul, <- !act_add. f_equal. ring.
Qed.

(** Ciphertexts add up. *)
Lemma elgamal_homomorphic Y m1 n1 m2 n2 :
  let c1 := elgamal_enc Y m1 n1 in
  let c2 := elgamal_enc Y m2 n2 in
  mkCiphertext (ct_L c1 ⊕ ct_L c2) (ct_M c1 ⊕ ct_M c2) = elgamal_enc Y (m1 + m2) (n1 + n2).
Proof.
  cbn. unfold elgamal_enc, ActOnBase. destruct (base_generates Y) as [y ->].
  f_equal; rewrite <- ?act_mul, <- ?act_add; f_equal; ring.
Qed.

End Elgamal.
