(* ===== verification/ExponentCodec.v ===== *)
(** * Binary encoding of Exponent polynomials (exponent.go)

    The encoding is a count of coefficients in front of CBOR, because the
    decoder needs the coefficients to be allocated before it can fill them. *)

From Stdlib Require Import ZArith Lia Zmod.
From Stdlib Require Import Strings.Byte.
From stdpp Require Import base gmap strings list pretty numbers.
From S2P Require Import Prelude Hash Curve Polynomial Message.

Local Open Scope Z_scope.

Section Codec.
Context {C : Curve}.

Record rawExponentData := mkRaw { raw_IsConstant : bool; raw_Coefficients : list Point }.

Context {CR : Cbor rawExponentData}.

Definition EmptyExponent : Exponent := mkExponent false [].

Definition Exponent_MarshalBinary (e : Exponent) : outcome bytes :=
  data ← cbor_Marshal (mkRaw (IsConstant e) (e_coefficients e));
  Ret (be_of_Z 4 (Z.of_nat (length (e_coefficients e))) ++ data).

(** [binary.BigEndian.Uint32] panics on a slice of fewer than four bytes. *)
Definition Exponent_UnmarshalBinary (data : bytes) : outcome Exponent :=
  if decide (length data < 4)%nat then Panic "runtime error: index out of range"
  else
    let size := be_to_Z (take 4 data) in
    raw ← cbor_Unmarshal (mkRaw false (replicate (Z.to_nat size) 𝟎%C)) (drop 4 data);
    Ret (mkExponent (raw_IsConstant raw) (raw_Coefficients raw)).

Definition Exponent_any (p : Exponent) : any :=
  AWriterTo "*polynomial.Exponent" "Exponent" (Exponent_MarshalBinary p).

(** CBOR fills a slice of the right length; the identity is not decodable. *)
Class RawExponentLaws : Prop := {
  raw_roundtrip t0 t b :
    cbor_Marshal t = Ret b -> length (raw_Coefficients t0) = length (raw_Coefficients t) ->
    Forall (fun P => P <> 𝟎%C) (raw_Coefficients t) -> cbor_Unmarshal t0 b = Ret t
}.

Context {RL : RawExponentLaws}.

Lemma Exponent_roundtrip e b :
  (Z.of_nat (length (e_coefficients e)) < 2 ^ 32) -> Forall (fun P => P <> 𝟎%C) (e_coefficients e) ->
  Exponent_MarshalBinary e = Ret b -> Exponent_UnmarshalBinary b = Ret e.
Proof.
  intros Hl He. unfold Exponent_MarshalBinary, Exponent_UnmarshalBinary.
  assert (be_to_Z (be_of_Z 4 (Z.of_nat (length (e_coefficients e)))) = Z.of_nat (length (e_coefficients e))) as Hv.
  { rewrite be_to_of_Z, Z.mod_small; [done|]. change (256 ^ Z.of_nat 4) with (2 ^ 32). lia. }
  pose proof (length_be_of_Z 4 (Z.of_nat (length (e_coefficients e)))) as Hh. revert Hv Hh.
  generalize (be_of_Z 4 (Z.of_nat (length (e_coefficients e)))) as hd.
  intros hd Hv Hh (data & Ed & [= <-])%bind_ret_inv.
  destruct (decide _) as [Hs|_]; [rewrite length_app in Hs; lia|].
  rewrite take_app_length', drop_app_length', Hv, Nat2Z.id by done.
  rewrite (raw_roundtrip _ _ _ Ed); cbn; [by destruct e|by rewrite length_replicate|done].
Qed.

End Codec.
