(* ===== verification/OtRandom.v ===== *)
(** * internal/ot: bits and random oblivious transfer

    [bits.go] and [random.go]: a single random oblivious transfer, in which
    the sender learns two random strings and the receiver the one it chose.
    An array [[n]byte] is a byte string of that length; a byte mask, as the
    code uses it to avoid branches, is a byte.  The keyed hasher that both
    sides hold is its key and the bytes written since the last reset. *)

From Stdlib Require Import ZArith Lia Zmod Field.
From Stdlib Require Import Strings.Byte.
From stdpp Require Import base gmap strings list pretty numbers.
From S2P Require Import Prelude Hash Curve Sample Schnorr.

Local Open Scope Z_scope.

Definition OTParam : nat := 128.
Definition OTBytes : nat := 16.
Definition StatParam : nat := 80.

(** ** Bytes as bit vectors *)

Definition byte_and (a b : byte) : byte := byte_of_Z (Z.land (byteZ a) (byteZ b)).
Definition byte_or (a b : byte) : byte := byte_of_Z (Z.lor (byteZ a) (byteZ b)).
Definition byte_shl (a : byte) (n : nat) : byte := byte_of_Z (Z.shiftl (byteZ a) (Z.of_nat n)).

(** [-b] on a byte: a mask of ones for 1, of zeros for 0. *)
Definition byte_neg (b : byte) : byte := byte_of_Z (- byteZ b).

(** [bitAt(i, data)]; the callers index in range. *)
Definition bitAt (i : nat) (data : bytes) : byte :=
  byte_of_Z (Z.land (Z.shiftr (byteZ (nth (i / 8) data x00)) (Z.of_nat (i mod 8))) 1).

(** [a[i] ^= mask & (a[i] ^ b[i])] over the common indices. *)
Definition select (mask : byte) (a b : bytes) : bytes :=
  zip_with (fun x y => byte_xor x (byte_and mask (byte_xor x y))) a b ++ drop (length b) a.

(** [a[i] ^= mask & b[i]] over the indices of [b]. *)
Definition xor_masked (mask : byte) (a b : bytes) : bytes :=
  zip_with (fun x y => byte_xor x (byte_and mask y)) a b.

Definition xor_bytes (a b : bytes) : bytes := zip_with byte_xor a b.

(** The bit that [bitAt] reads, as a truth value. *)
Definition bit (i : nat) (data : bytes) : bool :=
  Z.testbit (byteZ (nth (i / 8) data x00)) (Z.of_nat (i mod 8)).

Definition bit_byte (b : bool) : byte := if b then x01 else x00.

(** ** The keyed hasher *)

Section Hasher.
Context {BK : Blake3Keyed}.

Record Hasher := mkHasher { hs_key : bytes; hs_data : bytes }.

Definition NewKeyed (key : bytes) : outcome Hasher :=
  if decide (length key <> 32%nat) then Fail "blake3: invalid key size" else Ret (mkHasher key []).

Definition hs_Reset (h : Hasher) : Hasher := mkHasher (hs_key h) [].
Definition hs_Write (h : Hasher) (b : bytes) : Hasher := mkHasher (hs_key h) (hs_data h ++ b).

(** [h.Digest().Read(buf)] for a buffer of [n] bytes. *)
Definition hs_Read (h : Hasher) (n : nat) : bytes := map (blake3_keyed_xof (hs_key h) (hs_data h)) (seq 0 n).

(** [h.Reset(); h.Write(b); h.Digest().Read(out[:])]: the hasher and [out]. *)
Definition hs_hash (h : Hasher) (b : bytes) : Hasher * bytes :=
  let h := hs_Write (hs_Reset h) b in (h, hs_Read h OTBytes).

End Hasher.

(** ** Random OT *)

Section RandomOT.
Context {C : Curve} `{B3 : Blake3} {BK : Blake3Keyed}.
Local Open Scope curve_scope.

Record RandomOTSetupSendMessage := mkSetupSendMessage { sm_B : Point; sm_BProof : option Proof }.

Definition EmptyRandomOTSetupSendMessage : RandomOTSetupSendMessage :=
  mkSetupSendMessage 𝟎 (Some (mkProof 𝟎 0)).

Record RandomOTSendSetup := mkSendSetup { ss_b : Scalar; ss_B : Point; ss_bB : Point }.

Record RandomOTReceiveSetup := mkReceiveSetup { rs_B : Point }.

(** The state in which making or verifying a Schnorr proof leaves the hash:
    [challenge] writes to the hash it is given. *)
Definition sch_hash (h : Hash) (p : Proof) (public : Point) (gen : option Point) : Hash :=
  WriteAny_ h [Point_any (prf_C p); Point_any public; Point_any (gen_or_base gen)].

(** The message, the setup, and the hash object after the call. *)
Definition RandomOTSetupSend (h : Hash) (rand : reader) :
    outcome (RandomOTSetupSendMessage * RandomOTSendSetup * Hash * reader) :=
  '(b, rand) ← sample_Scalar rand;
  let B := ActOnBase b in
  '(BProof, rand) ← NewProof h B b None rand;
  Ret (mkSetupSendMessage B (Some BProof), mkSendSetup b B (b • B), sch_hash h BProof B None, rand).

Definition RandomOTSetupReceive (h : Hash) (msg : RandomOTSetupSendMessage) :
    outcome (RandomOTReceiveSetup * Hash) :=
  ok ← Proof_Verify (sm_BProof msg) h (sm_B msg) None;
  if negb ok then Fail "RandomOTSetupReceive: Schnorr proof failed to verify"
  else p ← deref (sm_BProof msg); Ret (mkReceiveSetup (sm_B msg), sch_hash h p (sm_B msg) None).

Record RandomOTReceiever := mkRandomOTReceiever {
  rr_hash : Hasher;
  rr_choice : byte;
  rr_B : Point;
  rr_randChoice : bytes;
  rr_receivedChallenge : bytes;
  rr_hh_randChoice : bytes
}.

(** The zero value of an [[OTBytes]byte]. *)
Definition zeroOT : bytes := replicate OTBytes x00.

Definition panic_err {A} (m : outcome A) : outcome A := match m with Fail e => Panic e | o => o end.

Definition NewRandomOTReceiver (nonce : bytes) (result : RandomOTReceiveSetup) (choice : byte) :
    outcome RandomOTReceiever :=
  hash ← panic_err (NewKeyed nonce);
  Ret (mkRandomOTReceiever hash choice (rs_B result) zeroOT zeroOT zeroOT).

(** The message is [ABytes]. *)
Definition RandomOTReceiever_Round1 (r : RandomOTReceiever) (rand : reader) :
    outcome (bytes * RandomOTReceiever * reader) :=
  '(a, rand) ← sample_Scalar rand;
  let A := ActOnBase a in
  let ABytes := PMarshal A in
  let A := A ⊕ rr_B r in
  let APlusBBytes := PMarshal A in
  let mask := byte_neg (rr_choice r) in
  let ABytes := select mask ABytes APlusBBytes in
  let abBytes := PMarshal (a • rr_B r) in
  let hash := hs_Write (rr_hash r) abBytes in
  Ret (ABytes, mkRandomOTReceiever hash (rr_choice r) (rr_B r) (hs_Read hash OTBytes)
                 (rr_receivedChallenge r) (rr_hh_randChoice r), rand).

(** The message is the challenge, the answer is [Response]. *)
Definition RandomOTReceiever_Round2 (r : RandomOTReceiever) (Challenge : bytes) : bytes * RandomOTReceiever :=
  let '(hash, Response) := hs_hash (rr_hash r) (rr_randChoice r) in
  let '(hash, Response) := hs_hash hash Response in
  let mask := byte_neg (rr_choice r) in
  (xor_masked mask Response Challenge,
   mkRandomOTReceiever hash (rr_choice r) (rr_B r) (rr_randChoice r) Challenge Response).

Record RandomOTSendRound2Message := mkSendRound2Message { Decommit0 : bytes; Decommit1 : bytes }.

(** The two error returns carry the random choice too; the callers drop it. *)
Definition RandomOTReceiever_Round3 (r : RandomOTReceiever) (msg : RandomOTSendRound2Message) :
    outcome bytes :=
  let '(hash, h_decommit0) := hs_hash (rr_hash r) (Decommit0 msg) in
  let '(_, h_decommit1) := hs_hash hash (Decommit1 msg) in
  let actualChallenge := xor_bytes h_decommit0 h_decommit1 in
  if negb (bool_decide (rr_receivedChallenge r = actualChallenge))
  then Fail "RandomOTReceive Round 3: incorrect decommitment"
  else
    let mask := byte_neg (rr_choice r) in
    let h_decommitChoice := select mask h_decommit0 h_decommit1 in
    if negb (bool_decide (h_decommitChoice = rr_hh_randChoice r))
    then Fail "RandomOTReceive Round 3: incorrect decommitment"
    else Ret (rr_randChoice r).

Record RandomOTSender := mkRandomOTSender {
  rt_hash : Hasher;
  rt_b : Scalar;
  rt_B : Point;
  rt_bB : Point;
  rt_rand0 : bytes;
  rt_rand1 : bytes;
  rt_decommit0 : bytes;
  rt_decommit1 : bytes;
  rt_h_decommit0 : bytes
}.

Definition NewRandomOTSender (nonce : bytes) (result : RandomOTSendSetup) : outcome RandomOTSender :=
  hash ← panic_err (NewKeyed nonce);
  Ret (mkRandomOTSender hash (ss_b result) (ss_B result) (ss_bB result) zeroOT zeroOT zeroOT zeroOT zeroOT).

Definition RandomOTSender_Round1 (r : RandomOTSender) (ABytes : bytes) : outcome (bytes * RandomOTSender) :=
  A ← PUnmarshal ABytes;
  let bA := rt_b r • A in
  let '(hash, rand0) := hs_hash (rt_hash r) (PMarshal bA) in
  let '(hash, rand1) := hs_hash hash (PMarshal (PSub bA (rt_bB r))) in
  let '(hash, decommit0) := hs_hash hash rand0 in
  let '(hash, decommit1) := hs_hash hash rand1 in
  let '(hash, h_decommit0) := hs_hash hash decommit0 in
  let '(hash, Challenge) := hs_hash hash decommit1 in
  Ret (xor_bytes Challenge h_decommit0,
       mkRandomOTSender hash (rt_b r) (rt_B r) (rt_bB r) rand0 rand1 decommit0 decommit1 h_decommit0).

Record RandomOTSendResult := mkSendResult { Rand0 : bytes; Rand1 : bytes }.

Definition RandomOTSender_Round2 (r : RandomOTSender) (Response : bytes) :
    outcome (RandomOTSendRound2Message * RandomOTSendResult) :=
  if negb (bool_decide (Response = rt_h_decommit0 r))
  then Fail "RandomOTSender Round2: invalid response"
  else Ret (mkSendRound2Message (rt_decommit0 r) (rt_decommit1 r), mkSendResult (rt_rand0 r) (rt_rand1 r)).

End RandomOT.

(** ** Properties of masks and bits *)

Lemma byte_and_ones b : byte_and xff b = b.
Proof. by destruct b. Qed.

Lemma byte_and_zero b : byte_and x00 b = x00.
Proof. by destruct b. Qed.

Lemma byte_xor_0_r b : byte_xor b x00 = b.
Proof. by destruct b. Qed.

Lemma byte_xor_nilpotent b : byte_xor b b = x00.
Proof. by destruct b. Qed.

Lemma byte_xor_cancel a b : byte_xor a (byte_xor a b) = b.
Proof. by rewrite byte_xor_assoc, byte_xor_nilpotent, byte_xor_comm, byte_xor_0_r. Qed.

Lemma bitAt_bit i data : bitAt i data = bit_byte (bit i data).
Proof.
  unfold bitAt, bit. rewrite (Z.land_ones _ 1) by lia. change (2 ^ 1) with 2.
  rewrite <- Z.bit0_mod, Z.shiftr_spec, Z.add_0_l by lia. by destruct (Z.testbit _ _).
Qed.

Lemma byte_neg_bit (b : bool) : byte_neg (bit_byte b) = if b then xff else x00.
Proof. by destruct b. Qed.

Lemma select_bit (b : bool) l1 l2 :
  length l1 = length l2 -> select (byte_neg (bit_byte b)) l1 l2 = if b then l2 else l1.
Proof.
  intros Hl. unfold select. rewrite drop_ge, app_nil_r, byte_neg_bit by lia.
  revert l2 Hl. induction l1 as [|x l1 IH]; intros [|y l2] Hl; cbn; try done; [by destruct b|].
  injection Hl as Hl. rewrite IH by done. destruct b.
  - by rewrite byte_and_ones, byte_xor_cancel.
  - by rewrite byte_and_zero, byte_xor_0_r.
Qed.

Lemma length_xor_bytes a b : length a = length b -> length (xor_bytes a b) = length a.
Proof. unfold xor_bytes. rewrite length_zip_with. lia. Qed.

Lemma xor_masked_bit (b : bool) l1 l2 :
  length l1 = length l2 -> xor_masked (byte_neg (bit_byte b)) l1 l2 = if b then xor_bytes l1 l2 else l1.
Proof.
  intros Hl. unfold xor_masked, xor_bytes. rewrite byte_neg_bit.
  revert l2 Hl. induction l1 as [|x l1 IH]; intros [|y l2] Hl; cbn; try done; [by destruct b|].
  injection Hl as Hl. rewrite IH by done. destruct b.
  - by rewrite byte_and_ones.
  - by rewrite byte_and_zero, byte_xor_0_r.
Qed.

Lemma xor_bytes_comm a b : xor_bytes a b = xor_bytes b a.
Proof.
  unfold xor_bytes. revert b. induction a as [|x a IH]; intros [|y b]; cbn; try done.
  by rewrite byte_xor_comm, IH.
Qed.

Lemma xor_bytes_assoc a b c : xor_bytes a (xor_bytes b c) = xor_bytes (xor_bytes a b) c.
Proof.
  unfold xor_bytes. revert b c. induction a as [|x a IH]; intros [|y b] [|z c]; cbn; try done.
  by rewrite byte_xor_assoc, IH.
Qed.

Lemma xor_bytes_cancel a b : length a = length b -> xor_bytes a (xor_bytes a b) = b.
Proof.
  unfold xor_bytes. revert b. induction a as [|x a IH]; intros [|y b] Hl; cbn; try done.
  injection Hl as Hl. by rewrite byte_xor_cancel, IH.
Qed.

(** ** A random OT between honest parties *)

Section RandomOTProps.
Context {C : Curve} {CL : CurveLaws C} {X : XOnly C} {XL : XOnlyLaws C X} {CC : CompressedLaws C X}.
Context `{B3 : Blake3} {BK : Blake3Keyed}.
Local Open Scope curve_scope.
Add Field scalar_field : scalar_field_theory.

Lemma PMarshal_length P : length (PMarshal P) = 33%nat.
Proof. rewrite pmarshal_shape. cbn. by rewrite xbytes_length. Qed.

Lemma PMarshal_roundtrip P : P <> 𝟎 -> PUnmarshal (PMarshal P) = Ret P.
Proof. intros N. by rewrite pmarshal_shape, punmarshal_parity, Bool.eqb_reflx. Qed.

Lemma hs_Read_length h n : length (hs_Read h n) = n.
Proof. unfold hs_Read. by rewrite length_map, length_seq. Qed.

(** The hash of a string under the key of a session. *)
Definition H_ot (key b : bytes) : bytes := hs_Read (mkHasher key b) OTBytes.
#[local] Arguments H_ot : simpl never.

Lemma H_ot_length key b : length (H_ot key b) = OTBytes.
Proof. apply hs_Read_length. Qed.

Lemma hs_hash_eq h b : hs_hash h b = (mkHasher (hs_key h) b, H_ot (hs_key h) b).
Proof. done. Qed.

Lemma Receiver_Round2_eq r c :
  let hh := H_ot (hs_key (rr_hash r)) (H_ot (hs_key (rr_hash r)) (rr_randChoice r)) in
  RandomOTReceiever_Round2 r c
  = (xor_masked (byte_neg (rr_choice r)) hh c,
     mkRandomOTReceiever (mkHasher (hs_key (rr_hash r)) (H_ot (hs_key (rr_hash r)) (rr_randChoice r)))
       (rr_choice r) (rr_B r) (rr_randChoice r) c hh).
Proof. done. Qed.

(** A sender and a receiver of one OT, before its first round. *)
Record ot_pair (nonce : bytes) (b : Scalar) (choice : bool) (s : RandomOTSender) (r : RandomOTReceiever) : Prop := {
  op_sender : s = mkRandomOTSender (mkHasher nonce []) b (b • 𝐆) (b • (b • 𝐆)) zeroOT zeroOT zeroOT zeroOT zeroOT;
  op_receiver : r = mkRandomOTReceiever (mkHasher nonce []) (bit_byte choice) (b • 𝐆) zeroOT zeroOT zeroOT
}.

(** The point that the receiver sends, and the two strings of the sender. *)
Definition ot_point (a b : Scalar) (choice : bool) : Point :=
  if choice then a • 𝐆 ⊕ b • 𝐆 else a • 𝐆.

Definition ot_rand (nonce : bytes) (a b : Scalar) (choice which : bool) : bytes :=
  let bA := b • ot_point a b choice in
  H_ot nonce (PMarshal (if which then PSub bA (b • (b • 𝐆)) else bA)).

Lemma ot_rand_choice nonce a b choice :
  ot_rand nonce a b choice choice = H_ot nonce (PMarshal (a • (b • 𝐆))).
Proof.
  unfold ot_rand, ot_point, PSub. do 2 f_equal. destruct choice.
  - rewrite <- act_add, <- !act_mul, <- act_opp, <- act_add. f_equal. ring.
  - rewrite <- !act_mul. f_equal. ring.
Qed.

(** All the messages of an OT are accepted; the sender ends with two strings
    and the receiver with the one that it chose. *)
Lemma random_ot_run nonce b choice s r rand a rand' :
  ot_pair nonce b choice s r -> sample_Scalar rand = Ret (a, rand') -> ot_point a b choice <> 𝟎 ->
  exists m1 r1 m2 s1 m3 r2 m4,
    RandomOTReceiever_Round1 r rand = Ret (m1, r1, rand') /\
    RandomOTSender_Round1 s m1 = Ret (m2, s1) /\
    RandomOTReceiever_Round2 r1 m2 = (m3, r2) /\
    RandomOTSender_Round2 s1 m3
      = Ret (m4, mkSendResult (ot_rand nonce a b choice false) (ot_rand nonce a b choice true)) /\
    RandomOTReceiever_Round3 r2 m4 = Ret (ot_rand nonce a b choice choice).
Proof.
  intros [-> ->] Ea N. unfold RandomOTReceiever_Round1. rewrite Ea. cbn [mbind outcome_bind].
  cbn [rr_hash rr_choice rr_B rr_receivedChallenge rr_hh_randChoice]. unfold ActOnBase.
  rewrite select_bit by (by rewrite !PMarshal_length).
  assert ((if choice then PMarshal (a • 𝐆 ⊕ b • 𝐆) else PMarshal (a • 𝐆)) = PMarshal (ot_point a b choice)) as ->
    by (by destruct choice).
  eexists _, _. unfold RandomOTSender_Round1. rewrite PMarshal_roundtrip by done. cbn [mbind outcome_bind].
  rewrite !hs_hash_eq. cbn [rt_hash rt_b rt_B rt_bB hs_key].
  change (hs_Read (hs_Write (mkHasher nonce []) (PMarshal (a • (b • 𝐆)))) OTBytes)
    with (H_ot nonce (PMarshal (a • (b • 𝐆)))). rewrite <- (ot_rand_choice nonce a b choice).
  change (H_ot nonce (PMarshal (b • ot_point a b choice))) with (ot_rand nonce a b choice false).
  change (H_ot nonce (PMarshal (PSub (b • ot_point a b choice) (b • (b • 𝐆))))) with (ot_rand nonce a b choice true).
  eexists _, _, _, _, _. split_and!; [reflexivity|reflexivity|apply Receiver_Round2_eq| |].
  - unfold RandomOTSender_Round2. cbn -[xor_bytes xor_masked ot_rand].
    rewrite xor_masked_bit by (rewrite length_xor_bytes; by rewrite !H_ot_length).
    rewrite bool_decide_true; [done|]. destruct choice; [|done].
    apply xor_bytes_cancel. by rewrite !H_ot_length.
  - unfold RandomOTReceiever_Round3. rewrite !hs_hash_eq. cbn -[xor_bytes select ot_rand].
    rewrite bool_decide_true by apply xor_bytes_comm. cbn [negb].
    rewrite select_bit by (by rewrite !H_ot_length). rewrite bool_decide_true by (by destruct choice). done.
Qed.

(** An accepted opening is that of the challenge, and matches what the
    receiver holds. *)
Lemma random_ot_opening r Challenge m3 r2 m4 v :
  RandomOTReceiever_Round2 r Challenge = (m3, r2) -> RandomOTReceiever_Round3 r2 m4 = Ret v ->
  let H := H_ot (hs_key (rr_hash r)) in
  v = rr_randChoice r /\ Challenge = xor_bytes (H (Decommit0 m4)) (H (Decommit1 m4)) /\
  (forall c, rr_choice r = bit_byte c ->
     H (if c then Decommit1 m4 else Decommit0 m4) = H (H (rr_randChoice r))).
Proof.
  rewrite Receiver_Round2_eq. intros [= _ <-].
  unfold RandomOTReceiever_Round3. rewrite !hs_hash_eq. cbn -[xor_bytes select H_ot].
  case_bool_decide as Ec; [|done]. cbn [negb]. case_bool_decide as Es; [|done].
  cbn [negb]. intros [= <-]. split_and!; try done.
  intros c Hc. rewrite Hc, select_bit in Es by (by rewrite !H_ot_length). by destruct c.
Qed.

End RandomOTProps.
