(* ===== verification/OtCorrelated.v ===== *)
(** * internal/ot/correlated.go: correlated oblivious transfer

    The setup runs [OTParam] random OTs in parallel, with the roles swapped;
    the extension turns it into a batch of correlated vectors.  The hash that
    a party is given is an object that the Schnorr proof of the setup writes
    to: the state after the call is part of the party's state.  A task of
    [Parallelize] reads the random source at a place that depends on the
    schedule, so every task has a reader of its own. *)

From Stdlib Require Import ZArith Lia Zmod Field.
From Stdlib Require Import Strings.Byte.
From stdpp Require Import base gmap strings list pretty numbers.
From S2P Require Import Prelude Hash Curve Sample Schnorr OtRandom.

Local Open Scope nat_scope.

(** A loop that stops at the first error. *)
Fixpoint collect {A B} (f : A -> outcome B) (l : list A) : outcome (list B) :=
  match l with
  | [] => Ret []
  | a :: l => b ← f a; bs ← collect f l; Ret (b :: bs)
  end.

(** [rand.Read(buf)] with the error dropped: the buffer was zero. *)
Definition read_dropped (rand : reader) (n : nat) : bytes * reader :=
  match ReadFull rand n with
  | (Some b, rand) => (b, rand)
  | (None, rand) => (replicate n x00, rand)
  end.

Section CorreOT.
Context {C : Curve} `{B3 : Blake3} {BK : Blake3Keyed}.

(** ** Setup *)

Record CorreOTSendSetup := mkCorreSendSetup { cs_Delta : bytes; cs_K_Delta : list bytes }.

Record CorreOTReceiveSetup := mkCorreReceiveSetup { cr_K_0 : list bytes; cr_K_1 : list bytes }.

Record CorreOTSetupSender := mkSetupSender {
  so_hash : Hash;
  so_setup : option RandomOTReceiveSetup;
  so_Delta : bytes;
  so_receivers : list RandomOTReceiever
}.

Definition NewCorreOTSetupSender (h : Hash) : CorreOTSetupSender := mkSetupSender h None zeroOT [].

(** The 32-byte nonces of the random OTs. *)
Fixpoint read_nonces (n : nat) (rand : reader) : list bytes :=
  match n with
  | O => []
  | S n => let '(nonce, rand) := read_dropped rand 32 in nonce :: read_nonces n rand
  end.

Definition randomOTNonces (h : Hash) : list bytes :=
  read_nonces OTParam (Digest (Fork h [BytesWithDomain "CorreOT Random OT Nonces" None])).

(** One task of the first round. *)
Definition receive1 (tasks : nat -> reader) (p : nat * RandomOTReceiever) : outcome (bytes * RandomOTReceiever) :=
  '(msg, r, _) ← RandomOTReceiever_Round1 p.2 (tasks p.1); Ret (msg, r).

(** [rand] is the reader of [_Delta], [tasks i] that of the task [i]. *)
Definition CorreOTSetupSender_Round1 (r : CorreOTSetupSender) (msg : RandomOTSetupSendMessage)
    (rand : reader) (tasks : nat -> reader) : outcome (list bytes * CorreOTSetupSender) :=
  '(setup, h) ← RandomOTSetupReceive (so_hash r) msg;
  let Delta := (read_dropped rand OTBytes).1 in
  receivers ← collect (fun p => NewRandomOTReceiver p.2 setup (bitAt p.1 Delta))
                (zip (seq 0 OTParam) (randomOTNonces h));
  outs ← collect (receive1 tasks) (zip (seq 0 OTParam) receivers);
  Ret (outs.*1, mkSetupSender h (Some setup) Delta outs.*2).

Definition CorreOTSetupSender_Round2 (r : CorreOTSetupSender) (msgs : list bytes) :
    list bytes * CorreOTSetupSender :=
  let outs := zip_with RandomOTReceiever_Round2 (so_receivers r) msgs in
  (outs.*1, mkSetupSender (so_hash r) (so_setup r) (so_Delta r) outs.*2).

Definition CorreOTSetupSender_Round3 (r : CorreOTSetupSender) (msgs : list RandomOTSendRound2Message) :
    outcome CorreOTSendSetup :=
  K_Delta ← collect (fun p => RandomOTReceiever_Round3 p.1 p.2) (zip (so_receivers r) msgs);
  Ret (mkCorreSendSetup (so_Delta r) K_Delta).

Record CorreOTSetupReceiver := mkSetupReceiver {
  ro_hash : Hash;
  ro_setup : option RandomOTSendSetup;
  ro_senders : list RandomOTSender
}.

Definition NewCorreOTSetupReceiver (h : Hash) : CorreOTSetupReceiver := mkSetupReceiver h None [].

Definition CorreOTSetupReceiver_Round1 (r : CorreOTSetupReceiver) (rand : reader) :
    outcome (RandomOTSetupSendMessage * CorreOTSetupReceiver * reader) :=
  '(msg, setup, h, rand) ← RandomOTSetupSend (ro_hash r) rand;
  senders ← collect (fun nonce => NewRandomOTSender nonce setup) (randomOTNonces h);
  Ret (msg, mkSetupReceiver h (Some setup) senders, rand).

Definition CorreOTSetupReceiver_Round2 (r : CorreOTSetupReceiver) (msgs : list bytes) :
    outcome (list bytes * CorreOTSetupReceiver) :=
  outs ← collect (fun p => RandomOTSender_Round1 p.1 p.2) (zip (ro_senders r) msgs);
  Ret (outs.*1, mkSetupReceiver (ro_hash r) (ro_setup r) outs.*2).

Definition CorreOTSetupReceiver_Round3 (r : CorreOTSetupReceiver) (msgs : list bytes) :
    outcome (list RandomOTSendRound2Message * CorreOTReceiveSetup) :=
  outs ← collect (fun p => RandomOTSender_Round2 p.1 p.2) (zip (ro_senders r) msgs);
  Ret (outs.*1, mkCorreReceiveSetup (Rand0 <$> outs.*2) (Rand1 <$> outs.*2)).

(** ** Extension *)

(** One row of the transposed matrix: [MT[i][j>>3] |= bitAt(i, M[j]) << (j & 7)]. *)
Definition transposeRow (M : list bytes) (i : nat) : bytes :=
  foldl (fun row j => alter (fun b => byte_or b (byte_shl (bitAt i (nth j M [])) (j mod 8))) (j / 8) row)
    zeroOT (seq 0 OTParam).

(** A row of the original matrix with less than [l] bits is indexed out of
    its range. *)
Definition transposeBits (l : nat) (M : list bytes) : outcome (list bytes) :=
  if forallb (fun row => l <=? 8 * length row) M
  then Ret (transposeRow M <$> seq 0 l)
  else Panic "runtime error: index out of range".

Record CorreOTSendResult := mkCorreSendResult { cr_U : list bytes; cr_Q : list bytes }.

(** The hasher [prg] that both sides key from the context. *)
Definition prg_hasher (ctxHash : Hash) : Hasher :=
  mkHasher (read_dropped (Digest (Fork ctxHash [BytesWithDomain "CorreOT PRG Key" None])) 32).1 [].

(** [prg.Reset(); prg.Write(k); prg.Digest().Read(out)] *)
Definition prg_expand (prg : Hasher) (k : bytes) (n : nat) : bytes :=
  hs_Read (hs_Write (hs_Reset prg) k) n.

(** A column of [Q]: the index, the key and the column of [U]. *)
Definition corre_column (prg : Hasher) (Delta : bytes) (n : nat) (p : nat * (bytes * bytes)) : outcome bytes :=
  let '(i, (k, u)) := p in
  if decide (length u <> n) then Fail "CorreOTSend: incorrect batch size in message"
  else
    let mask := byte_neg (bitAt i Delta) in
    Ret (xor_masked mask (prg_expand prg k n) u).

Definition CorreOTSend (ctxHash : Hash) (setup : CorreOTSendSetup) (batchSize : nat) (U : list bytes) :
    outcome CorreOTSendResult :=
  let batchSizeBytes := batchSize / 8 in
  let prg := prg_hasher ctxHash in
  Q ← collect (corre_column prg (cs_Delta setup) batchSizeBytes)
        (zip (seq 0 OTParam) (zip (cs_K_Delta setup) U));
  QT ← transposeBits batchSize Q;
  Ret (mkCorreSendResult U QT).

(** The columns [U] of the message, and the rows of [T]. *)
Definition CorreOTReceive (ctxHash : Hash) (setup : CorreOTReceiveSetup) (choices : bytes) :
    outcome (list bytes * list bytes) :=
  let batchSizeBytes := length choices in
  let prg := prg_hasher ctxHash in
  let T0 := (fun k => prg_expand prg k batchSizeBytes) <$> cr_K_0 setup in
  let T1 := (fun k => prg_expand prg k batchSizeBytes) <$> cr_K_1 setup in
  let U := zip_with (fun t0 t1 => xor_bytes (xor_bytes t0 t1) choices) T0 T1 in
  T ← transposeBits (8 * batchSizeBytes) T0;
  Ret (U, T).

End CorreOT.

(** ** Loops over the instances *)

Lemma bind_ret_intro {A B} (m : outcome A) (f : A -> outcome B) a r : m = Ret a -> f a = r -> m ≫= f = r.
Proof. by intros -> <-. Qed.

Lemma collect_Forall2 {A B} (f : A -> outcome B) l l' :
  Forall2 (fun a b => f a = Ret b) l l' -> collect f l = Ret l'.
Proof. induction 1 as [|a b l l' E _ IH]; cbn; [done|]. by rewrite E, IH. Qed.

Lemma collect_inv {A B} (f : A -> outcome B) l l' :
  collect f l = Ret l' -> Forall2 (fun a b => f a = Ret b) l l'.
Proof.
  revert l'. induction l as [|a l IH]; intros l'; cbn; [intros [= <-]; constructor|].
  intros (b & Eb & E)%bind_ret_inv. apply bind_ret_inv in E as (bs & Ebs & [= <-]). constructor; auto.
Qed.

Lemma collect_map {A B} (f : A -> outcome B) (g : A -> B) l :
  (forall a, a ∈ l -> f a = Ret (g a)) -> collect f l = Ret (g <$> l).
Proof.
  intros H. apply collect_Forall2. induction l as [|a l IH]; cbn; constructor.
  - apply H, list_elem_of_here.
  - apply IH. intros x Hx. apply H, list_elem_of_further, Hx.
Qed.

(** ** Bits *)

Lemma bit_nth_nil i : bit i [] = false.
Proof. unfold bit. destruct (i / 8); apply Z.bits_0. Qed.

Lemma byte_bit_range b (k : nat) : 8 <= k -> Z.testbit (byteZ b) (Z.of_nat k) = false.
Proof.
  intros Hk. pose proof (byteZ_range b) as [H0 H1]. destruct (decide (byteZ b = 0%Z)) as [->|N]; [apply Z.bits_0|].
  apply Z.bits_above_log2; [done|]. apply Z.log2_lt_pow2; [lia|].
  assert (2 ^ 8 <= 2 ^ Z.of_nat k)%Z by (apply Z.pow_le_mono_r; lia). lia.
Qed.

Lemma byteZ_testbit z (k : nat) : k < 8 -> Z.testbit (byteZ (byte_of_Z z)) (Z.of_nat k) = Z.testbit z (Z.of_nat k).
Proof. intros Hk. rewrite byteZ_of_Z. change 256%Z with (2 ^ 8)%Z. apply Z.mod_pow2_bits_low. lia. Qed.

Lemma byte_ext a b :
  (forall k, k < 8 -> Z.testbit (byteZ a) (Z.of_nat k) = Z.testbit (byteZ b) (Z.of_nat k)) -> a = b.
Proof.
  intros H. apply byteZ_inj, Z.bits_inj'. intros n Hn. rewrite <- (Z2Nat.id n) by done.
  destruct (decide (Z.to_nat n < 8)) as [Hk|Hk]; [by apply H|]. by rewrite !byte_bit_range by lia.
Qed.

Lemma nth_nth_byte (l : bytes) q b : l !! q = Some b -> nth q l x00 = b.
Proof. apply nth_lookup_Some. Qed.

(** Vectors of the same length with the same bits are equal. *)
Lemma bit_ext (a b : bytes) :
  length a = length b -> (forall k, k < 8 * length a -> bit k a = bit k b) -> a = b.
Proof.
  intros Hl H. apply (nth_ext a b x00 x00 Hl). intros q Hq. apply byte_ext. intros k Hk.
  specialize (H (8 * q + k)). unfold bit in H.
  replace ((8 * q + k) / 8) with q in H by (apply (Nat.div_unique _ 8 q k); lia).
  replace ((8 * q + k) mod 8) with k in H by (apply (Nat.mod_unique _ 8 q k); lia).
  apply H. lia.
Qed.

Lemma nth_xor_bytes a b q :
  length a = length b -> nth q (xor_bytes a b) x00 = byte_xor (nth q a x00) (nth q b x00).
Proof.
  unfold xor_bytes. revert b q. induction a as [|x a IH]; intros [|y b] [|q] Hl; cbn; try done.
  - injection Hl as Hl. by apply IH.
Qed.

Lemma bit_xor_bytes k a b :
  length a = length b -> bit k (xor_bytes a b) = xorb (bit k a) (bit k b).
Proof.
  intros Hl. unfold bit. rewrite nth_xor_bytes by done. by rewrite byteZ_xor, Z.lxor_spec.
Qed.

(** ** Transposition *)

Lemma byte_shl_bit (b : bool) m k : m < 8 -> k < 8 ->
  Z.testbit (byteZ (byte_shl (bit_byte b) m)) (Z.of_nat k) = b && (k =? m).
Proof.
  intros Hm Hk. unfold byte_shl. rewrite byteZ_testbit, Z.shiftl_spec by lia. destruct b; cbn [bit_byte andb].
  - change (byteZ x01) with (2 ^ 0)%Z. rewrite Z.pow2_bits_eqb by lia.
    destruct (Nat.eqb_spec k m), (Z.eqb_spec 0 (Z.of_nat k - Z.of_nat m)); lia.
  - change (byteZ x00) with 0%Z. apply Z.bits_0.
Qed.

Lemma length_transposeRow M i : length (transposeRow M i) = OTBytes.
Proof.
  unfold transposeRow. generalize (seq 0 OTParam) as js. intros js.
  assert (length zeroOT = OTBytes) as Hz by done. revert Hz. generalize zeroOT as row.
  induction js as [|j js IH]; intros row Hl; cbn; [done|]. apply IH. by rewrite length_alter.
Qed.

Lemma bit_alter_row (row : bytes) (b : bool) j k :
  j / 8 < length row ->
  bit k (alter (fun x => byte_or x (byte_shl (bit_byte b) (j mod 8))) (j / 8) row)
  = bit k row || (b && (k =? j)).
Proof.
  intros Hj. unfold bit. pose proof (Nat.mod_upper_bound j 8 ltac:(lia)) as Hmj.
  pose proof (Nat.mod_upper_bound k 8 ltac:(lia)) as Hmk. destruct (lookup_lt_is_Some_2 row (j / 8) Hj) as [x Ex].
  destruct (decide (k / 8 = j / 8)) as [E|N].
  - rewrite E, (nth_nth_byte _ _ (byte_or x (byte_shl (bit_byte b) (j mod 8)))),
      (nth_nth_byte _ _ _ Ex) by (by rewrite list_lookup_alter, decide_True, Ex).
    unfold byte_or. rewrite byteZ_testbit, Z.lor_spec, byte_shl_bit by lia. do 2 f_equal.
    pose proof (Nat.div_mod_eq k 8). pose proof (Nat.div_mod_eq j 8).
    destruct (Nat.eqb_spec (k mod 8) (j mod 8)), (Nat.eqb_spec k j); subst; try done; lia.
  - rewrite !nth_lookup, list_lookup_alter_ne by done.
    assert ((k =? j) = false) as -> by (apply Nat.eqb_neq; congruence). by rewrite andb_false_r, orb_false_r.
Qed.

(** Bit [j] of row [i] is bit [i] of column [j]. *)
Lemma bit_transposeRow M i j : j < OTParam -> bit j (transposeRow M i) = bit i (nth j M []).
Proof.
  intros Hj. unfold transposeRow.
  set (step row j := alter (fun b => byte_or b (byte_shl (bitAt i (nth j M [])) (j mod 8))) (j / 8) row).
  assert (forall n, n <= OTParam -> length (foldl step zeroOT (seq 0 n)) = OTBytes /\
    forall k, bit k (foldl step zeroOT (seq 0 n)) = (k <? n) && bit i (nth k M [])) as H.
  { induction n as [|n IH]; intros Hn.
    - split; [done|]. intros k. cbn [seq foldl]. unfold bit, zeroOT.
      assert (nth (k / 8) (replicate OTBytes x00) x00 = x00) as ->; [|apply Z.bits_0].
      rewrite nth_lookup. destruct (_ !! _) as [x|] eqn:E; [|done]. apply lookup_replicate_1 in E as [-> _]. done.
    - destruct (IH ltac:(lia)) as [Hl Hb]. rewrite seq_S, foldl_app. cbn [foldl]. unfold step at 1 3. cbn [Nat.add].
      split; [by rewrite length_alter|]. intros k. rewrite bitAt_bit, bit_alter_row.
      2: { rewrite Hl. unfold OTParam, OTBytes in *. apply Nat.Div0.div_lt_upper_bound. lia. }
      rewrite Hb. destruct (Nat.eqb_spec k n) as [->|Nk].
      + rewrite Nat.ltb_irrefl. cbn [andb orb]. rewrite andb_true_r.
        by assert ((n <? S n) = true) as -> by (apply Nat.ltb_lt; lia).
      + rewrite andb_false_r, orb_false_r. f_equal.
        destruct (Nat.ltb_spec k n), (Nat.ltb_spec k (S n)); lia. }
  destruct (H OTParam (le_n _)) as [_ Hb]. rewrite Hb. by apply Nat.ltb_lt in Hj as ->.
Qed.

(** ** Correlated vectors *)

(** The two results of a setup belong together. *)
Record corre_ok (s : CorreOTSendSetup) (r : CorreOTReceiveSetup) : Prop := {
  co_Delta : length (cs_Delta s) = OTBytes;
  co_K : length (cs_K_Delta s) = OTParam;
  co_K0 : length (cr_K_0 r) = OTParam;
  co_K1 : length (cr_K_1 r) = OTParam;
  co_choice i : i < OTParam ->
    nth i (cs_K_Delta s) [] = if bit i (cs_Delta s) then nth i (cr_K_1 r) [] else nth i (cr_K_0 r) []
}.

Lemma nth_fmap_lt {A B} (f : A -> B) l i a b : i < length l -> nth i (f <$> l) b = f (nth i l a).
Proof. intros Hi. rewrite (nth_indep _ b (f a)) by (by rewrite length_fmap). apply map_nth. Qed.

Lemma nth_zip_with {A B D} (f : A -> B -> D) l1 l2 i a b d :
  i < length l1 -> i < length l2 -> nth i (zip_with f l1 l2) d = f (nth i l1 a) (nth i l2 b).
Proof.
  revert l2 i. induction l1 as [|x l1 IH]; intros [|y l2] [|i]; cbn; try lia; [done|]. intros. apply IH; lia.
Qed.

Lemma Forall2_nth_lr {A B} (P : A -> B -> Prop) l k i a b :
  Forall2 P l k -> i < length l -> P (nth i l a) (nth i k b).
Proof.
  intros F. revert i. induction F as [|x y l k Hp F IH]; intros [|i]; cbn; try lia; [done|]. intros. apply IH. lia.
Qed.

Lemma nth_seq_fmap {A} (f : nat -> A) n i d : i < n -> nth i (f <$> seq 0 n) d = f i.
Proof. intros Hi. rewrite (nth_fmap_lt _ _ _ 0) by (by rewrite length_seq). by rewrite seq_nth. Qed.

Section CorreProps.
Context {C : Curve} `{B3 : Blake3} {BK : Blake3Keyed}.

Lemma length_prg_expand prg k n : length (prg_expand prg k n) = n.
Proof. apply hs_Read_length. Qed.

Lemma transposeBits_ret l M :
  Forall (fun row => l <= 8 * length row) M -> transposeBits l M = Ret (transposeRow M <$> seq 0 l).
Proof.
  intros H. unfold transposeBits. assert (forallb (fun row => l <=? 8 * length row) M = true) as ->; [|done].
  apply forallb_forall. intros row Hin. rewrite Forall_forall in H. by apply Nat.leb_le, H.
Qed.

Section Run.
Context (ctx : Hash) (s : CorreOTSendSetup) (r : CorreOTReceiveSetup) (choices : bytes).
Hypothesis OK : corre_ok s r.

Let n := length choices.
Let T0 (j : nat) : bytes := prg_expand (prg_hasher ctx) (nth j (cr_K_0 r) []) n.
Let T1 (j : nat) : bytes := prg_expand (prg_hasher ctx) (nth j (cr_K_1 r) []) n.
Let Ucol (j : nat) : bytes := xor_bytes (xor_bytes (T0 j) (T1 j)) choices.
Let Qcol (j : nat) : bytes := if bit j (cs_Delta s) then xor_bytes (T0 j) choices else T0 j.

Definition corre_U : list bytes := Ucol <$> seq 0 OTParam.
Definition corre_T : list bytes := transposeRow (T0 <$> seq 0 OTParam) <$> seq 0 (8 * n).
Definition corre_Q : list bytes := transposeRow (Qcol <$> seq 0 OTParam) <$> seq 0 (8 * n).

Lemma list_as_seq {A} (l : list A) m d : length l = m -> l = (fun j => nth j l d) <$> seq 0 m.
Proof.
  intros Hl. apply (nth_ext _ _ d d); [by rewrite length_fmap, length_seq|].
  intros i Hi. by rewrite nth_seq_fmap by lia.
Qed.

Lemma length_T0 j : length (T0 j) = n.
Proof. apply length_prg_expand. Qed.

Lemma length_T1 j : length (T1 j) = n.
Proof. apply length_prg_expand. Qed.

Lemma length_Ucol j : length (Ucol j) = n.
Proof.
  unfold Ucol. assert (length (xor_bytes (T0 j) (T1 j)) = n) as Hl
    by (by rewrite length_xor_bytes, length_T0 by (by rewrite length_T0, length_T1)).
  by rewrite length_xor_bytes.
Qed.

Lemma length_Qcol j : length (Qcol j) = n.
Proof. unfold Qcol. destruct (bit _ _); rewrite ?length_xor_bytes, length_T0; by rewrite ?length_T0. Qed.

Lemma CorreOTReceive_eq : CorreOTReceive ctx r choices = Ret (corre_U, corre_T).
Proof.
  unfold CorreOTReceive. fold n.
  rewrite (list_as_seq (cr_K_0 r) OTParam [] (co_K0 _ _ OK)), (list_as_seq (cr_K_1 r) OTParam [] (co_K1 _ _ OK)).
  rewrite <- !list_fmap_compose, transposeBits_ret.
  - cbn [mbind outcome_bind]. do 2 f_equal.
  - apply list.Forall_forall. intros row (j & -> & _)%list_elem_of_fmap. cbn. by rewrite length_prg_expand.
Qed.

(** The column that the sender computes. *)
Lemma corre_column_eq j : j < OTParam ->
  corre_column (prg_hasher ctx) (cs_Delta s) n (j, (nth j (cs_K_Delta s) [], Ucol j)) = Ret (Qcol j).
Proof.
  intros Hj. unfold corre_column. rewrite decide_False by (intros N; by rewrite length_Ucol in N). f_equal.
  rewrite bitAt_bit, xor_masked_bit by (by rewrite length_prg_expand, length_Ucol).
  rewrite (co_choice _ _ OK j Hj). unfold Qcol. destruct (bit j (cs_Delta s)) eqn:E; [|done]. fold (T1 j). unfold Ucol.
  rewrite (xor_bytes_comm (T0 j)), <- xor_bytes_assoc, xor_bytes_cancel; [done|].
  rewrite length_xor_bytes; by rewrite ?length_T0, ?length_T1.
Qed.

Lemma CorreOTSend_eq : CorreOTSend ctx s (8 * n) corre_U = Ret (mkCorreSendResult corre_U corre_Q).
Proof.
  unfold CorreOTSend. replace (8 * n / 8) with n by (rewrite Nat.mul_comm; symmetry; by apply Nat.div_mul).
  rewrite (list_as_seq (cs_K_Delta s) OTParam [] (co_K _ _ OK)). unfold corre_U.
  assert (forall l, Forall (fun j => j < OTParam) l ->
    collect (corre_column (prg_hasher ctx) (cs_Delta s) n)
      (zip l (zip ((fun j => nth j (cs_K_Delta s) []) <$> l) (Ucol <$> l))) = Ret (Qcol <$> l)) as Hc.
  { intros l. induction 1 as [|j l Hj _ IH]; [done|]. cbn [fmap list_fmap zip zip_with collect].
    rewrite corre_column_eq by done. cbn [mbind outcome_bind].
    change ((bs ← collect (corre_column (prg_hasher ctx) (cs_Delta s) n)
              (zip l (zip ((fun j => nth j (cs_K_Delta s) []) <$> l) (Ucol <$> l)));
            Ret (Qcol j :: bs)) = Ret (Qcol j :: (Qcol <$> l))). by rewrite IH. }
  rewrite Hc; [|apply Forall_forall; intros j Hj%in_seq; lia]. cbn [mbind outcome_bind].
  rewrite transposeBits_ret; [done|]. apply list.Forall_forall.
  intros row (j & -> & _)%list_elem_of_fmap. by rewrite length_Qcol.
Qed.

Lemma corre_row_length i : i < 8 * n -> length (nth i corre_Q []) = OTBytes /\ length (nth i corre_T []) = OTBytes.
Proof. intros Hi. unfold corre_Q, corre_T. rewrite !nth_seq_fmap by done. by rewrite !length_transposeRow. Qed.

(** t = q ⊕ choice·Δ for every transfer of the batch. *)
Lemma corre_row i : i < 8 * n ->
  nth i corre_T [] = if bit i choices then xor_bytes (nth i corre_Q []) (cs_Delta s) else nth i corre_Q [].
Proof.
  intros Hi. destruct (corre_row_length i Hi) as [HQ HT].
  assert (length (if bit i choices then xor_bytes (nth i corre_Q []) (cs_Delta s) else nth i corre_Q []) = OTBytes) as Hl.
  { destruct (bit i choices); [|done]. rewrite length_xor_bytes; [done|]. by rewrite HQ, (co_Delta _ _ OK). }
  apply bit_ext; [congruence|]. rewrite HT. intros j Hj. change (8 * OTBytes) with OTParam in Hj.
  assert (bit j (nth i corre_T []) = bit i (T0 j)) as ->.
  { unfold corre_T. rewrite nth_seq_fmap, bit_transposeRow, nth_seq_fmap by done. done. }
  assert (bit j (nth i corre_Q []) = bit i (Qcol j)) as EQ.
  { unfold corre_Q. rewrite nth_seq_fmap, bit_transposeRow, nth_seq_fmap by done. done. }
  assert (bit i (Qcol j) = xorb (bit i (T0 j)) (bit j (cs_Delta s) && bit i choices)) as EQ'.
  { unfold Qcol. destruct (bit j (cs_Delta s)); cbn [andb]; [|by rewrite xorb_false_r].
    apply bit_xor_bytes. by rewrite length_T0. }
  destruct (bit i choices).
  - rewrite bit_xor_bytes, EQ, EQ' by (by rewrite HQ, (co_Delta _ _ OK)).
    by destruct (bit i (T0 j)), (bit j (cs_Delta s)).
  - by rewrite EQ, EQ', andb_false_r, xorb_false_r.
Qed.

Lemma corre_lengths :
  length corre_U = OTParam /\ length corre_T = 8 * n /\ length corre_Q = 8 * n /\
  Forall (fun u => length u = n) corre_U.
Proof.
  unfold corre_U, corre_T, corre_Q. rewrite !length_fmap, !length_seq. split_and!; try done.
  apply list.Forall_forall. intros u (j & -> & _)%list_elem_of_fmap. apply length_Ucol.
Qed.

End Run.
End CorreProps.

(** ** The setup between honest parties *)

Section SetupProps.
Context {C : Curve} {CL : CurveLaws C} {X : XOnly C} {XL : XOnlyLaws C X} {CC : CompressedLaws C X}.
Context `{B3 : Blake3} {BK : Blake3Keyed}.
Local Open Scope curve_scope.

#[local] Opaque OTParam read_nonces.

Definition ot_sender (b : Scalar) (nonce : bytes) : RandomOTSender :=
  mkRandomOTSender (mkHasher nonce []) b (b • 𝐆) (b • (b • 𝐆)) zeroOT zeroOT zeroOT zeroOT zeroOT.

Definition ot_receiver (b : Scalar) (Delta : bytes) (p : nat * bytes) : RandomOTReceiever :=
  mkRandomOTReceiever (mkHasher p.2 []) (bit_byte (bit p.1 Delta)) (b • 𝐆) zeroOT zeroOT zeroOT.

(** The point that the task [i] sends can be decoded. *)
Definition task_ok (tasks : nat -> reader) (b : Scalar) (Delta : bytes) (i : nat) : Prop :=
  exists a rand, sample_Scalar (tasks i) = Ret (a, rand) /\ ot_point a b (bit i Delta) <> 𝟎.

(** All the instances run in parallel. *)
Lemma ot_instances tasks b Delta (l : list (nat * bytes)) :
  Forall (fun p => task_ok tasks b Delta p.1) l ->
  exists o1 o2 o4 K,
    collect (receive1 tasks) (zip l.*1 (ot_receiver b Delta <$> l)) = Ret o1 /\
    collect (fun p => RandomOTSender_Round1 p.1 p.2) (zip (ot_sender b <$> l.*2) o1.*1) = Ret o2 /\
    let o3 := zip_with RandomOTReceiever_Round2 o1.*2 o2.*1 in
    collect (fun p => RandomOTSender_Round2 p.1 p.2) (zip o2.*2 o3.*1) = Ret o4 /\
    collect (fun p => RandomOTReceiever_Round3 p.1 p.2) (zip o3.*2 o4.*1) = Ret K /\
    length K = length l /\ length o4 = length l /\
    Forall2 (fun p kr => kr.1 = if bit p.1 Delta then Rand1 kr.2 else Rand0 kr.2) l (zip K o4.*2).
Proof.
  induction 1 as [|[i nonce] l (a & rd & Ea & N) _ IH]; [by exists [], [], [], []|].
  destruct IH as (o1 & o2 & o4 & K & E1 & E2 & E4 & EK & L1 & L2 & F). cbn [fst] in Ea, N.
  destruct (random_ot_run nonce b (bit i Delta) (ot_sender b nonce) (ot_receiver b Delta (i, nonce)) (tasks i) a rd)
    as (m1 & r1 & m2 & s1 & m3 & r2 & m4 & S1 & S2 & S3 & S4 & S5); [done|done|done|].
  exists ((m1, r1) :: o1), ((m2, s1) :: o2), ((m4, mkSendResult (ot_rand nonce a b (bit i Delta) false)
    (ot_rand nonce a b (bit i Delta) true)) :: o4), (ot_rand nonce a b (bit i Delta) (bit i Delta) :: K).
  assert (receive1 tasks (i, ot_receiver b Delta (i, nonce)) = Ret (m1, r1)) as R1
    by (unfold receive1; cbn [fst snd]; by rewrite S1).
  unfold zip in *. rewrite !fmap_cons. cbn [fst snd zip_with collect].
  rewrite R1. cbn [mbind outcome_bind]. rewrite E1. cbn [mbind outcome_bind].
  rewrite S2. cbn [mbind outcome_bind]. rewrite E2. cbn [mbind outcome_bind]. rewrite S3.
  cbn [fst snd zip_with collect]. rewrite S4. cbn [mbind outcome_bind]. rewrite E4. cbn [mbind outcome_bind].
  rewrite S5. cbn [mbind outcome_bind]. rewrite EK. cbn [mbind outcome_bind length].
  split_and!; try done; try congruence. constructor; [|done]. cbn. by destruct (bit i Delta).
Qed.

Lemma read_nonces_ok n rand : Forall (fun b => length b = 32) (read_nonces n rand) /\ length (read_nonces n rand) = n.
Proof.
  revert rand. induction n as [|n IH]; intros rand; cbn [read_nonces]; [by split|].
  unfold read_dropped. destruct (ReadFull rand 32) as [[b|] rd] eqn:E.
  - destruct (IH rd) as [IH1 IH2]. split; [|cbn; by rewrite IH2]. constructor; [|done]. by eapply ReadFull_length.
  - destruct (IH rd) as [IH1 IH2]. split; [|cbn; by rewrite IH2]. by constructor.
Qed.

Lemma length_read_dropped rand n : length (read_dropped rand n).1 = n.
Proof.
  unfold read_dropped. destruct (ReadFull rand n) as [[b|] rd] eqn:E; cbn; [by eapply ReadFull_length|].
  by rewrite length_replicate.
Qed.

Lemma read_dropped_reliable rand n : reliable rand -> reliable (read_dropped rand n).2.
Proof. intros H. unfold read_dropped. destruct (ReadFull_reliable rand n H) as (b & rd & -> & _ & Hr). exact Hr. Qed.

Lemma NewKeyed_ret nonce : length nonce = 32 -> NewKeyed nonce = Ret (mkHasher nonce []).
Proof. intros Hl. unfold NewKeyed. rewrite decide_False; [done|]. lia. Qed.

(** What the receiver of the setup sends first. *)
Lemma SetupReceiver_Round1_inv h rand m r rand' :
  CorreOTSetupReceiver_Round1 (NewCorreOTSetupReceiver h) rand = Ret (m, r, rand') ->
  exists b p, m = mkSetupSendMessage (b • 𝐆) (Some p) /\
    (exists rd rd', NewProof h (b • 𝐆) b None rd = Ret (p, rd')) /\
    r = mkSetupReceiver (sch_hash h p (b • 𝐆) None) (Some (mkSendSetup b (b • 𝐆) (b • (b • 𝐆))))
          (ot_sender b <$> randomOTNonces (sch_hash h p (b • 𝐆) None)).
Proof.
  unfold CorreOTSetupReceiver_Round1, RandomOTSetupSend. intros ([[[m' su] h'] rd] & E1 & E)%bind_ret_inv.
  apply bind_ret_inv in E1 as ([b rd1] & Eb & E1). apply bind_ret_inv in E1 as ([p rd2] & Ep & [= <- <- <- <-]).
  apply bind_ret_inv in E as (senders & Es & [= <- <- <-]). exists b, p. split; [done|]. split; [by eexists _, _|].
  f_equal. unfold randomOTNonces in *. destruct (read_nonces_ok OTParam (Digest (Fork (sch_hash h p (ActOnBase b) None)
    [BytesWithDomain "CorreOT Random OT Nonces" None]))) as [Hn _].
  rewrite (collect_map _ (ot_sender b)) in Es; [by injection Es as <-|].
  intros nonce Hin%list_elem_of_In. rewrite Forall_forall in Hn. unfold NewRandomOTSender. by rewrite NewKeyed_ret by auto.
Qed.

(** The rounds of the setup, from what their loops return. *)
Lemma SetupSender_Round1_ret h m setup h' randS tasks recs outs :
  RandomOTSetupReceive h m = Ret (setup, h') ->
  collect (fun p => NewRandomOTReceiver p.2 setup (bitAt p.1 (read_dropped randS OTBytes).1))
    (zip (seq 0 OTParam) (randomOTNonces h')) = Ret recs ->
  collect (receive1 tasks) (zip (seq 0 OTParam) recs) = Ret outs ->
  CorreOTSetupSender_Round1 (NewCorreOTSetupSender h) m randS tasks
  = Ret (outs.*1, mkSetupSender h' (Some setup) (read_dropped randS OTBytes).1 outs.*2).
Proof.
  intros E1 E2 E3. apply (bind_ret_intro _ _ _ _ E1). apply (bind_ret_intro _ _ _ _ E2).
  exact (bind_ret_intro _ _ _ _ E3 eq_refl).
Qed.

Lemma SetupReceiver_Round2_ret h su senders msgs outs :
  collect (fun p => RandomOTSender_Round1 p.1 p.2) (zip senders msgs) = Ret outs ->
  CorreOTSetupReceiver_Round2 (mkSetupReceiver h su senders) msgs = Ret (outs.*1, mkSetupReceiver h su outs.*2).
Proof. intros E. unfold CorreOTSetupReceiver_Round2. cbn [ro_senders]. by rewrite E. Qed.

Lemma SetupReceiver_Round3_ret h su senders msgs outs :
  collect (fun p => RandomOTSender_Round2 p.1 p.2) (zip senders msgs) = Ret outs ->
  CorreOTSetupReceiver_Round3 (mkSetupReceiver h su senders) msgs
  = Ret (outs.*1, mkCorreReceiveSetup (Rand0 <$> outs.*2) (Rand1 <$> outs.*2)).
Proof. intros E. unfold CorreOTSetupReceiver_Round3. cbn [ro_senders]. by rewrite E. Qed.

Lemma SetupSender_Round3_ret h su Delta recs msgs K :
  collect (fun p => RandomOTReceiever_Round3 p.1 p.2) (zip recs msgs) = Ret K ->
  CorreOTSetupSender_Round3 (mkSetupSender h su Delta recs) msgs = Ret (mkCorreSendSetup Delta K).
Proof. intros E. unfold CorreOTSetupSender_Round3. cbn [so_receivers]. by rewrite E. Qed.

Lemma new_receivers_ret b Delta l :
  Forall (fun nonce => length nonce = 32) l.*2 ->
  collect (fun p => NewRandomOTReceiver p.2 (mkReceiveSetup (b • 𝐆)) (bitAt p.1 Delta)) l
  = Ret (ot_receiver b Delta <$> l).
Proof.
  intros H. apply collect_map. intros q Hq. unfold NewRandomOTReceiver.
  apply (list_elem_of_fmap_2 snd), list_elem_of_In in Hq. rewrite Forall_forall in H.
  rewrite NewKeyed_ret by auto. cbn. by rewrite bitAt_bit.
Qed.

(** The results of the instances, numbered by [seq], belong together. *)
Lemma instances_corre_ok n Delta (nonces K : list bytes) (o : list (RandomOTSendRound2Message * RandomOTSendResult)) :
  n = OTParam -> length Delta = OTBytes -> length nonces = n -> length K = n -> length o = n ->
  Forall2 (fun (p : nat * bytes) (kr : bytes * RandomOTSendResult) => kr.1 = if bit p.1 Delta then Rand1 kr.2 else Rand0 kr.2)
    (zip (seq 0 n) nonces) (zip K o.*2) ->
  corre_ok (mkCorreSendSetup Delta K) (mkCorreReceiveSetup (Rand0 <$> o.*2) (Rand1 <$> o.*2)).
Proof.
  intros En HD Ln LK Lo F. constructor; cbn [cs_Delta cs_K_Delta cr_K_0 cr_K_1]; rewrite ?length_fmap; try congruence.
  intros i Hi. rewrite <- En in Hi. rewrite !(nth_fmap_lt _ _ _ (mkSendResult [] [])) by (rewrite length_fmap; lia).
  pose proof (Forall2_nth_lr _ _ _ i (0%nat, []) ([], mkSendResult [] []) F) as Fi. cbn beta in Fi.
  rewrite (nth_zip_with _ _ _ i 0%nat []), (nth_zip_with _ _ _ i [] (mkSendResult [] [])), seq_nth in Fi
    by (rewrite ?length_seq, ?length_fmap; lia).
  apply Fi. rewrite length_zip_with, length_seq. lia.
Qed.

(** Every round of the setup accepts the honest messages of the round
    before; the two results belong together. *)
Lemma corre_setup_run h rand m1 r1 rand' b randS tasks :
  CorreOTSetupReceiver_Round1 (NewCorreOTSetupReceiver h) rand = Ret (m1, r1, rand') ->
  Proof_IsValid (sm_BProof m1) = true -> sm_B m1 = b • 𝐆 ->
  (forall i, i < OTParam -> task_ok tasks b (read_dropped randS OTBytes).1 i) ->
  exists m2 s1 m3 r2 m4 s2 m5 setupR setupS,
    CorreOTSetupSender_Round1 (NewCorreOTSetupSender h) m1 randS tasks = Ret (m2, s1) /\
    CorreOTSetupReceiver_Round2 r1 m2 = Ret (m3, r2) /\
    CorreOTSetupSender_Round2 s1 m3 = (m4, s2) /\
    CorreOTSetupReceiver_Round3 r2 m4 = Ret (m5, setupR) /\
    CorreOTSetupSender_Round3 s2 m5 = Ret setupS /\
    corre_ok setupS setupR /\ cs_Delta setupS = (read_dropped randS OTBytes).1.
Proof.
  intros (b' & p & -> & (rd & rd' & Ep) & ->)%SetupReceiver_Round1_inv V Eb%base_act_inj T. subst b'.
  assert (RandomOTSetupReceive h (mkSetupSendMessage (b • 𝐆) (Some p))
          = Ret (mkReceiveSetup (b • 𝐆), sch_hash h p (b • 𝐆) None)) as ER.
  { unfold RandomOTSetupReceive. cbn [sm_B sm_BProof] in *. by rewrite (sch_complete h (b • 𝐆) b None rd p rd' eq_refl Ep V). }
  revert ER. generalize (sch_hash h p (b • 𝐆) None) as h'. intros h' ER. clear V Ep.
  destruct (read_nonces_ok OTParam (Digest (Fork h' [BytesWithDomain "CorreOT Random OT Nonces" None]))) as [Hn Ln].
  fold (randomOTNonces h') in Hn, Ln. pose proof (length_read_dropped randS OTBytes) as HD.
  pose proof (fun K o => instances_corre_ok OTParam (read_dropped randS OTBytes).1 (randomOTNonces h') K o eq_refl HD Ln) as CO.
  pose proof (fun recs outs => SetupSender_Round1_ret h _ _ _ randS tasks recs outs ER) as R1.
  revert T Hn Ln HD CO R1. generalize ((read_dropped randS OTBytes).1) as Delta. intros Delta.
  generalize (randomOTNonces h') as nonces. generalize OTParam as n. intros n nonces T Hn Ln HD CO R1.
  assert ((zip (seq 0 n) nonces).*1 = seq 0 n) as El1 by (apply fst_zip; by rewrite Ln, length_seq).
  assert ((zip (seq 0 n) nonces).*2 = nonces) as El2 by (apply snd_zip; by rewrite Ln, length_seq).
  assert (length (zip (seq 0 n) nonces) = n) as Ll by (rewrite length_zip_with, length_seq; lia).
  destruct (ot_instances tasks b Delta (zip (seq 0 n) nonces)) as (o1 & o2 & o4 & K & E1 & E2 & E4 & EK & L1 & L2 & F).
  { apply list.Forall_forall. intros q Hq%(list_elem_of_fmap_2 fst). apply T.
    rewrite El1 in Hq. apply list_elem_of_In, in_seq in Hq. lia. }
  rewrite El1 in E1. rewrite El2 in E2. rewrite Ll in L1, L2.
  eexists _, _, _, _, _, _, _, _, _. split_and!.
  - apply (R1 (ot_receiver b Delta <$> zip (seq 0 n) nonces)); [|exact E1]. apply new_receivers_ret. by rewrite El2.
  - apply SetupReceiver_Round2_ret. exact E2.
  - reflexivity.
  - apply SetupReceiver_Round3_ret. exact E4.
  - apply SetupSender_Round3_ret. exact EK.
  - by apply CO.
  - reflexivity.
Qed.

End SetupProps.
