(* ===== verification/OtExtended.v ===== *)
(** * internal/ot/extended.go: extended oblivious transfer

    A large batch of random OTs from one correlated setup, with the check
    that the receiver used the same choice in every column.  The check
    computes with polynomials over the field of two elements, packed into
    64-bit words: [accumulate] adds their product, without reduction.  A word
    is an integer below 2^64, with the wrap-around written out. *)

From Stdlib Require Import ZArith Lia.
From Stdlib Require Import Strings.Byte.
From stdpp Require Import base gmap strings list pretty numbers.
From S2P Require Import Prelude Hash Curve Sample OtRandom OtCorrelated.

Local Open Scope Z_scope.

(** ** Packed polynomials *)

Definition fieldElementLen : nat := 2.
Definition doubleFieldElementLen : nat := 4.

(** [uint64] arithmetic *)
Definition w64 (z : Z) : Z := z mod 2 ^ 64.

Abbreviation fieldElement := (list Z).
Abbreviation doubleFieldElement := (list Z).

Definition zeroFe : fieldElement := replicate fieldElementLen 0.
Definition zeroDouble : doubleFieldElement := replicate doubleFieldElementLen 0.

(** [binary.Read(r, binary.LittleEndian, &word)] *)
Definition read_word (r : reader) : Z * reader :=
  let '(b, r) := read_dropped r 8 in (be_to_Z (reverse b), r).

Definition randFe (r : reader) : fieldElement * reader :=
  let '(w0, r) := read_word r in
  let '(w1, r) := read_word r in
  ([w0; w1], r).

Definition fe_eq (f a : doubleFieldElement) : byte :=
  let acc := foldl (fun acc p => Z.lor acc (Z.lxor p.1 p.2)) 0 (zip f a) in
  byte_xor (byte_of_Z (Z.shiftr (Z.lor acc (w64 (- acc))) 63)) x01.

(** [shl1] of both types: the top bit of a word moves into the next. *)
Fixpoint shl1_carry (carry : Z) (f : list Z) : list Z :=
  match f with
  | [] => []
  | x :: f => Z.lor (w64 (Z.shiftl x 1)) carry :: shl1_carry (Z.shiftr x 63) f
  end.

Definition shl1 (f : list Z) : list Z := shl1_carry 0 f.

(** The two inner loops of [accumulate], for bit [i] of the words of [a]. *)
Definition accumulate_bit (a b : fieldElement) (i : nat) (scratch : doubleFieldElement) : doubleFieldElement :=
  foldl (fun scratch j =>
    let mask := w64 (- Z.land (Z.shiftr (nth j a 0) (Z.of_nat i)) 1) in
    foldl (fun scratch k => alter (fun w => Z.lxor w (Z.land mask (nth k b 0))) (j + k)%nat scratch)
      scratch (seq 0 fieldElementLen))
    scratch (seq 0 fieldElementLen).

(** The outer loop, from bit [i] down to 0. *)
Fixpoint accumulate_loop (a b : fieldElement) (i : nat) (scratch : doubleFieldElement) : doubleFieldElement :=
  let scratch := accumulate_bit a b i scratch in
  match i with
  | O => scratch
  | S i => accumulate_loop a b i (shl1 scratch)
  end.

Definition accumulate (f : doubleFieldElement) (a b : fieldElement) : doubleFieldElement :=
  zip_with Z.lxor f (accumulate_loop a b 63 zeroDouble).

Definition conditionalAdd (f : doubleFieldElement) (choice : byte) (x : doubleFieldElement) : doubleFieldElement :=
  zip_with (fun w y => Z.lxor w (Z.land (w64 (- byteZ (byte_and choice x01))) y)) f x.

(** [out.shl1(); out[0] |= bit] *)
Definition push_bit (out : fieldElement) (b : byte) : fieldElement :=
  alter (fun w => Z.lor w (byteZ b)) 0%nat (shl1 out).

Definition pluckColumnToFieldElement (data : list bytes) (c : nat) : fieldElement :=
  foldl (fun out i => push_bit out (bitAt c (nth i data []))) zeroFe (seq 0 OTParam).

Definition pluckBitsToFieldElements (data : bytes) : list fieldElement :=
  (fun i => foldl (fun out j => push_bit out (bitAt (OTParam * i + j) data)) zeroFe (seq 0 OTParam))
  <$> seq 0 (8 * length data / OTParam).

Definition transposeToFieldSizeElements (data : list bytes) : list (list fieldElement) :=
  (fun i => (fun c => pluckColumnToFieldElement (take OTParam (drop (OTParam * i) data)) c) <$> seq 0 OTParam)
  <$> seq 0 (length data / OTParam).

Definition adjustBatchSize (desired : nat) : nat :=
  let r := (desired mod OTParam)%nat in
  let padded := if decide (r <> 0%nat) then (desired + (OTParam - r))%nat else desired in
  (padded + 2 * OTParam)%nat.

(** ** The protocol *)

Section ExtendedOT.
Context `{B3 : Blake3} {BK : Blake3Keyed}.

Record ExtendedOTReceiveMessage := mkExtendedMessage {
  em_CorreMsg : option (list bytes);
  em_X : doubleFieldElement;
  em_T : list doubleFieldElement
}.

Record ExtendedOTSendResult := mkExtendedSendResult { es_V0 : list bytes; es_V1 : list bytes }.

(** [for i := 0; i < OTParam; i++ { ctxHash.WriteAny(U[i]) }] *)
Definition write_columns (ctxHash : Hash) (U : list bytes) : Hash :=
  foldl (fun h u => WriteAny_ h [ABytes (Some u)]) ctxHash U.

Fixpoint read_chi (n : nat) (r : reader) : list fieldElement :=
  match n with
  | O => []
  | S n => let '(fe, r) := randFe r in fe :: read_chi n r
  end.

(** [for i { acc.accumulate(hats[i], chi[i]) }] *)
Definition weighted_sum (hats chi : list fieldElement) : doubleFieldElement :=
  foldl (fun acc p => accumulate acc p.1 p.2) zeroDouble (zip hats chi).

(** Column [j] of a transposed matrix. *)
Definition hat_column (hat : list (list fieldElement)) (j : nat) : list fieldElement := (fun row => nth j row zeroFe) <$> hat.

(** [hasher.Reset(); Write(ctr); Write(row); Digest().Read(out)] *)
Definition row_hash (i : nat) (row : bytes) : bytes :=
  map (blake3_xof (be_of_Z 4 (Z.of_nat i mod 2 ^ 32) ++ row)) (seq 0 OTBytes).

(** The check of one column. *)
Definition column_good (Qhat : list (list fieldElement)) (chi : list fieldElement) (Delta : bytes)
    (msg : ExtendedOTReceiveMessage) (j : nat) : byte :=
  let q := weighted_sum (hat_column Qhat j) chi in
  let expected := conditionalAdd (nth j (em_T msg) zeroDouble) (bitAt j Delta) (em_X msg) in
  fe_eq q expected.

(** The result, and the context hash after the call. *)
Definition ExtendedOTSend (ctxHash : Hash) (setup : CorreOTSendSetup) (batchSize : nat)
    (msg : ExtendedOTReceiveMessage) : outcome (ExtendedOTSendResult * Hash) :=
  let adjustedBatchSize := adjustBatchSize batchSize in
  U ← deref (em_CorreMsg msg);
  correResult ← CorreOTSend ctxHash setup adjustedBatchSize U;
  let ctxHash := write_columns ctxHash (cr_U correResult) in
  let chi := read_chi (adjustedBatchSize / OTParam) (Digest ctxHash) in
  let Qhat := transposeToFieldSizeElements (cr_Q correResult) in
  let good := foldl (fun good j => byte_and good (column_good Qhat chi (cs_Delta setup) msg j)) x01 (seq 0 OTParam) in
  if negb (bool_decide (good = x01)) then Fail "ExtendedOTSend: monochrome check failed"
  else
    let Q i := nth i (cr_Q correResult) [] in
    Ret (mkExtendedSendResult ((fun i => row_hash i (Q i)) <$> seq 0 batchSize)
           ((fun i => row_hash i (xor_bytes (Q i) (cs_Delta setup))) <$> seq 0 batchSize), ctxHash).

(** The message, [_VChoices], the context hash after the call, and the reader. *)
Definition ExtendedOTReceive (ctxHash : Hash) (setup : CorreOTReceiveSetup) (choices : bytes) (rand : reader) :
    outcome (ExtendedOTReceiveMessage * list bytes * Hash * reader) :=
  let adjustedBatchSize := adjustBatchSize (8 * length choices) in
  let '(extra, rand) := read_dropped rand (adjustedBatchSize / 8 - length choices) in
  let extraChoices := choices ++ extra in
  '(U, T) ← CorreOTReceive ctxHash setup extraChoices;
  let ctxHash := write_columns ctxHash U in
  let chi := read_chi (adjustedBatchSize / OTParam) (Digest ctxHash) in
  let bHat := pluckBitsToFieldElements extraChoices in
  let THat := transposeToFieldSizeElements T in
  let X := weighted_sum bHat chi in
  let Tsum := (fun j => weighted_sum (hat_column THat j) chi) <$> seq 0 OTParam in
  let VChoices := (fun i => row_hash i (nth i T [])) <$> seq 0 (8 * length choices) in
  Ret (mkExtendedMessage (Some U) X Tsum, VChoices, ctxHash, rand).

End ExtendedOT.

(** ** Words and the polynomials they hold *)

Definition words (l : list Z) : Prop := Forall (fun w => 0 <= w < 2 ^ 64) l.

(** The polynomial of a list of words, as the integer with its bits. *)
Fixpoint val (l : list Z) : Z := match l with [] => 0 | w :: l => w + 2 ^ 64 * val l end.

Lemma val_bound l : words l -> 0 <= val l < 2 ^ (64 * Z.of_nat (length l)).
Proof.
  induction 1 as [|w l Hw _ IH]; [cbn; lia|]. cbn [val length]. rewrite Nat2Z.inj_succ.
  replace (64 * Z.succ (Z.of_nat (length l))) with (64 + 64 * Z.of_nat (length l)) by lia.
  rewrite Z.pow_add_r by lia. nia.
Qed.

Lemma val_inj l1 l2 : words l1 -> words l2 -> length l1 = length l2 -> val l1 = val l2 -> l1 = l2.
Proof.
  intros W1. revert l2. induction W1 as [|w l Hw _ IH]; intros [|w2 l2] W2 Hl E; try done.
  inversion W2 as [|? ? Hw2 W2']; subst. cbn [val] in E. injection Hl as Hl.
  assert (w = w2 /\ val l = val l2) as [-> Ev] by nia. f_equal. by apply IH.
Qed.

(** The bits of a word put in front of others. *)
Lemma join_testbit w v n : 0 <= w < 2 ^ 64 -> 0 <= n ->
  Z.testbit (w + 2 ^ 64 * v) n = if n <? 64 then Z.testbit w n else Z.testbit v (n - 64).
Proof.
  intros Hw Hn. destruct (Z.ltb_spec n 64) as [Hlt|Hge].
  - rewrite <- (Z.mod_pow2_bits_low (w + 2 ^ 64 * v) 64 n) by lia.
    rewrite Z.add_comm, Z.mul_comm, Z.add_comm, Z.mod_add, Z.mod_small by lia. done.
  - replace n with (n - 64 + 64) at 1 by lia. rewrite <- Z.div_pow2_bits by lia. f_equal.
    rewrite Z.mul_comm, Z.div_add by lia. rewrite (Z.div_small w) by lia. lia.
Qed.

Lemma word_lxor a b : 0 <= a < 2 ^ 64 -> 0 <= b < 2 ^ 64 -> 0 <= Z.lxor a b < 2 ^ 64.
Proof.
  intros Ha Hb. rewrite <- (Z.mod_small a (2 ^ 64)), <- (Z.mod_small b (2 ^ 64)) by lia.
  rewrite <- !Z.land_ones by lia. 
  replace (Z.lxor (Z.land a (Z.ones 64)) (Z.land b (Z.ones 64))) with (Z.land (Z.lxor a b) (Z.ones 64)).
  - rewrite Z.land_ones by lia. apply Z.mod_pos_bound. lia.
  - apply Z.bits_inj'. intros n Hn. rewrite !Z.land_spec, !Z.lxor_spec, !Z.land_spec.
    by destruct (Z.testbit a n), (Z.testbit b n), (Z.testbit (Z.ones 64) n).
Qed.

Lemma join_lxor w1 v1 w2 v2 : 0 <= w1 < 2 ^ 64 -> 0 <= w2 < 2 ^ 64 ->
  Z.lxor (w1 + 2 ^ 64 * v1) (w2 + 2 ^ 64 * v2) = Z.lxor w1 w2 + 2 ^ 64 * Z.lxor v1 v2.
Proof.
  intros H1 H2. apply Z.bits_inj'. intros n Hn.
  rewrite Z.lxor_spec, !join_testbit by (try apply word_lxor; done).
  destruct (n <? 64); by rewrite Z.lxor_spec.
Qed.

Lemma val_lxor l1 l2 : words l1 -> words l2 -> length l1 = length l2 ->
  val (zip_with Z.lxor l1 l2) = Z.lxor (val l1) (val l2).
Proof.
  intros W1. revert l2. induction W1 as [|w l Hw _ IH]; intros [|w2 l2] W2 Hl; try done.
  inversion W2 as [|? ? Hw2 W2']; subst. injection Hl as Hl. cbn [zip_with val]. 
  rewrite join_lxor by done. by rewrite IH.
Qed.

Lemma words_lxor l1 l2 : words l1 -> words l2 -> words (zip_with Z.lxor l1 l2).
Proof.
  intros W1. revert l2. induction W1 as [|w l Hw _ IH]; intros [|w2 l2] W2; try constructor;
    inversion W2; subst; [by apply word_lxor|by apply IH].
Qed.

(** A shift doubles the value, modulo the width. *)
Lemma val_shl1_carry c f : 0 <= c < 2 -> words f ->
  words (shl1_carry c f) /\ length (shl1_carry c f) = length f /\
  val (shl1_carry c f) = (2 * val f + c) mod 2 ^ (64 * Z.of_nat (length f)).
Proof.
  intros Hc W. revert c Hc. induction W as [|x f Hx W IH]; intros c Hc.
  - cbn. split_and!; [constructor|done|]. by rewrite Z.mod_1_r.
  - cbn [shl1_carry length val].
    assert (Z.shiftr x 63 = x / 2 ^ 63) as Es by (apply Z.shiftr_div_pow2; lia).
    assert (0 <= Z.shiftr x 63 < 2) as Hs by (rewrite Es; split; [apply Z.div_pos|apply Z.div_lt_upper_bound]; lia).
    destruct (IH (Z.shiftr x 63) Hs) as (W' & Hl & Hv).
    assert (Z.lor (w64 (Z.shiftl x 1)) c = (2 * x + c) mod 2 ^ 64) as El.
    { unfold w64. rewrite Z.shiftl_mul_pow2 by lia. change (2 ^ 1) with 2. rewrite Z.mul_comm.
      assert ((2 * x) mod 2 ^ 64 = 2 * (x mod 2 ^ 63)) as Em by (change (2 ^ 64) with (2 * 2 ^ 63); by rewrite Z.mul_mod_distr_l by lia).
      assert (0 <= x mod 2 ^ 63 < 2 ^ 63) as Hm by (apply Z.mod_pos_bound; lia).
      rewrite <- Z.add_mod_idemp_l, Em by lia. rewrite (Z.mod_small (2 * (x mod 2 ^ 63) + c)) by lia.
      assert (c = 0 \/ c = 1) as [-> | ->] by lia; [by rewrite Z.lor_0_r, Z.add_0_r|].
      generalize (x mod 2 ^ 63) as y. intros y. apply Z.bits_inj'. intros n Hn.
      destruct (decide (n = 0)) as [->|N].
      - rewrite Z.lor_spec, Z.testbit_odd_0, Z.testbit_even_0. done.
      - replace n with (Z.succ (n - 1)) by lia. rewrite Z.lor_spec, Z.testbit_odd_succ, Z.testbit_even_succ by lia.
        assert (Z.testbit 1 (Z.succ (n - 1)) = false) as -> by (apply Z.bits_above_log2; cbn; lia).
        by rewrite orb_false_r. }
    split_and!.
    + constructor; [|done]. rewrite El. apply Z.mod_pos_bound. lia.
    + by rewrite Hl.
    + rewrite Hv, El, Es, Nat2Z.inj_succ.
      replace (64 * Z.succ (Z.of_nat (length f))) with (64 + 64 * Z.of_nat (length f)) by lia.
      rewrite Z.pow_add_r, Z.rem_mul_r by lia.
      replace (2 * (x + 2 ^ 64 * val f) + c) with (2 * x + c + 2 * val f * 2 ^ 64) by ring.
      rewrite Z.mod_add, Z.div_add by lia. do 3 f_equal. rewrite (Z.add_comm (2 * val f)). f_equal.
      change (2 ^ 64) with (2 * 2 ^ 63). rewrite <- Z.div_div by lia. f_equal.
      rewrite Z.mul_comm, Z.add_comm, Z.div_add by lia. rewrite (Z.div_small c) by lia. lia.
Qed.

Lemma val_shl1 f : words f -> 2 * val f < 2 ^ (64 * Z.of_nat (length f)) ->
  words (shl1 f) /\ length (shl1 f) = length f /\ val (shl1 f) = 2 * val f.
Proof.
  intros W Hb. destruct (val_shl1_carry 0 f ltac:(lia) W) as (W' & Hl & Hv). split_and!; try done.
  unfold shl1. rewrite Hv, Z.add_0_r. apply Z.mod_small. pose proof (val_bound f W). lia.
Qed.

(** ** The product *)

(** The product of polynomials over the field of two elements: the sum of
    the shifts of [y] that the first [n] bits of [x] select. *)
Fixpoint clmul (n : nat) (x y : Z) : Z :=
  match n with
  | O => 0
  | S n => Z.lxor (if Z.testbit x (Z.of_nat n) then Z.shiftl y (Z.of_nat n) else 0) (clmul n x y)
  end.

Lemma clmul_lxor_l n x1 x2 y : clmul n (Z.lxor x1 x2) y = Z.lxor (clmul n x1 y) (clmul n x2 y).
Proof.
  induction n as [|n IH]; [done|]. cbn [clmul]. rewrite IH, Z.lxor_spec.
  destruct (Z.testbit x1 _), (Z.testbit x2 _); cbn [xorb];
    apply Z.bits_inj'; intros k Hk; rewrite !Z.lxor_spec, ?Z.bits_0;
    by destruct (Z.testbit (clmul n x1 y) k), (Z.testbit (clmul n x2 y) k), (Z.testbit (Z.shiftl y (Z.of_nat n)) k).
Qed.

Lemma clmul_0_l n y : clmul n 0 y = 0.
Proof. induction n as [|n IH]; [done|]. cbn [clmul]. by rewrite Z.bits_0, IH. Qed.

Lemma mask_land (b : bool) w : 0 <= w < 2 ^ 64 -> Z.land (w64 (- Z.b2z b)) w = if b then w else 0.
Proof.
  intros Hw. destruct b; [|done]. change (w64 (- Z.b2z true)) with (Z.ones 64).
  rewrite Z.land_comm, Z.land_ones by lia. by apply Z.mod_small.
Qed.

Lemma val_alter s k m : words s -> 0 <= m < 2 ^ 64 -> (k < length s)%nat ->
  words (alter (fun w => Z.lxor w m) k s) /\ length (alter (fun w => Z.lxor w m) k s) = length s /\
  val (alter (fun w => Z.lxor w m) k s) = Z.lxor (val s) (Z.shiftl m (64 * Z.of_nat k)).
Proof.
  intros W Hm. revert k. induction W as [|w s Hw W IH]; intros [|k] Hk; cbn [length] in Hk; try lia.
  - cbn [alter list_alter val length]. split_and!; [constructor; [by apply word_lxor|done]|done|].
    change (64 * Z.of_nat 0) with 0. rewrite Z.shiftl_0_r.
    replace m with (m + 2 ^ 64 * 0) at 2 by lia. rewrite join_lxor by done. by rewrite Z.lxor_0_r.
  - destruct (IH k ltac:(lia)) as (W' & Hl & Hv).
    change (alter (fun w0 => Z.lxor w0 m) (S k) (w :: s)) with (w :: alter (fun w0 => Z.lxor w0 m) k s).
    cbn [length val]. split_and!; [by constructor|by rewrite Hl|]. rewrite Hv.
    replace (Z.shiftl m (64 * Z.of_nat (S k))) with (0 + 2 ^ 64 * Z.shiftl m (64 * Z.of_nat k)).
    + rewrite join_lxor by (done || lia). by rewrite Z.lxor_0_r.
    + rewrite !Z.shiftl_mul_pow2 by lia. replace (64 * Z.of_nat (S k)) with (64 + 64 * Z.of_nat k) by lia.
      rewrite Z.pow_add_r by lia. ring.
Qed.

(** What bit [t] of the words of [a] adds. *)
Definition bit_term (A B : Z) (t : nat) : Z :=
  Z.lxor (if Z.testbit A (Z.of_nat t) then B else 0)
    (if Z.testbit A (64 + Z.of_nat t) then Z.shiftl B 64 else 0).

Lemma join_shiftl w v : 0 <= w < 2 ^ 64 -> w + 2 ^ 64 * v = Z.lxor w (Z.shiftl v 64).
Proof.
  intros Hw. rewrite Z.shiftl_mul_pow2 by lia.
  replace w with (w + 2 ^ 64 * 0) at 2 by lia. replace (v * 2 ^ 64) with (0 + 2 ^ 64 * v) by lia.
  rewrite join_lxor by lia. by rewrite Z.lxor_0_r.
Qed.

Lemma accumulate_bit_spec a b i s : words a -> words b -> words s ->
  length a = fieldElementLen -> length b = fieldElementLen -> length s = doubleFieldElementLen -> (i < 64)%nat ->
  words (accumulate_bit a b i s) /\ length (accumulate_bit a b i s) = doubleFieldElementLen /\
  val (accumulate_bit a b i s) = Z.lxor (val s) (bit_term (val a) (val b) i).
Proof.
  intros Wa Wb Ws La Lb Ls Hi. destruct a as [|a0 [|a1 [|]]]; try done. destruct b as [|b0 [|b1 [|]]]; try done.
  inversion Wa as [|? ? Ha0 Wa']; subst. inversion Wa' as [|? ? Ha1 _]; subst.
  inversion Wb as [|? ? Hb0 Wb']; subst. inversion Wb' as [|? ? Hb1 _]; subst.
  unfold accumulate_bit. cbn [seq fieldElementLen foldl nth Nat.add].
  assert (forall w, Z.land (Z.shiftr w (Z.of_nat i)) 1 = Z.b2z (Z.testbit w (Z.of_nat i))) as Eb.
  { intros w. rewrite (Z.land_ones _ 1) by lia. change (2 ^ 1) with 2.
    by rewrite <- Z.bit0_mod, Z.shiftr_spec, Z.add_0_l by lia. }
  rewrite !Eb, !mask_land by done. unfold bit_term. cbn [val]. rewrite !Z.mul_0_r, !Z.add_0_r.
  rewrite !join_testbit by lia. assert ((Z.of_nat i <? 64) = true) as -> by (apply Z.ltb_lt; lia).
  assert ((64 + Z.of_nat i <? 64) = false) as -> by (apply Z.ltb_ge; lia).
  replace (64 + Z.of_nat i - 64) with (Z.of_nat i) by lia. rewrite !join_shiftl by done.
  assert (forall (t : bool) w, 0 <= w < 2 ^ 64 -> 0 <= (if t then w else 0) < 2 ^ 64) as Hif by (intros [] w; lia).
  set (t0 := Z.testbit a0 (Z.of_nat i)). set (t1 := Z.testbit a1 (Z.of_nat i)).
  destruct (val_alter s 0 (if t0 then b0 else 0) Ws (Hif _ _ Hb0)) as (W1 & L1 & V1); [rewrite Ls; unfold doubleFieldElementLen; lia|].
  set (s1 := alter _ 0%nat s) in *.
  destruct (val_alter s1 1 (if t0 then b1 else 0) W1 (Hif _ _ Hb1)) as (W2 & L2 & V2); [rewrite L1, Ls; unfold doubleFieldElementLen; lia|].
  set (s2 := alter _ 1%nat s1) in *.
  destruct (val_alter s2 1 (if t1 then b0 else 0) W2 (Hif _ _ Hb0)) as (W3 & L3 & V3); [rewrite L2, L1, Ls; unfold doubleFieldElementLen; lia|].
  set (s3 := alter _ 1%nat s2) in *.
  destruct (val_alter s3 2 (if t1 then b1 else 0) W3 (Hif _ _ Hb1)) as (W4 & L4 & V4); [rewrite L3, L2, L1, Ls; unfold doubleFieldElementLen; lia|].
  split_and!; [done|by rewrite L4, L3, L2, L1|]. rewrite V4, V3, V2, V1. cbn [Z.of_nat Z.mul].
  change (64 * Z.pos (Pos.of_succ_nat 1)) with (64 + 64). change (64 * Z.pos (Pos.of_succ_nat 0)) with 64.
  apply Z.bits_inj'. intros n Hn. destruct t0, t1;
    rewrite ?Z.shiftl_0_l, ?Z.shiftl_0_r, ?Z.lxor_0_r, ?Z.lxor_0_l, ?Z.shiftl_lxor, <- ?Z.shiftl_shiftl, ?Z.lxor_assoc by lia; done.
Qed.

(** The terms of the bits below [n], shifted to their places. *)
Fixpoint terms (A B : Z) (n : nat) : Z :=
  match n with
  | O => 0
  | S n => Z.lxor (Z.shiftl (bit_term A B n) (Z.of_nat n)) (terms A B n)
  end.

Lemma lxor_bound a b n : 0 <= n -> 0 <= a < 2 ^ n -> 0 <= b < 2 ^ n -> 0 <= Z.lxor a b < 2 ^ n.
Proof.
  intros Hn Ha Hb. split; [apply Z.lxor_nonneg; lia|].
  destruct (decide (Z.lxor a b = 0)) as [->|N]; [lia|].
  assert (0 <= Z.lxor a b) by (apply Z.lxor_nonneg; lia). apply Z.log2_lt_pow2; [lia|].
  eapply Z.le_lt_trans; [apply Z.log2_lxor; lia|].
  destruct (decide (n = 0)) as [->|]; [change (2 ^ 0) with 1 in *; assert (a = 0 /\ b = 0) as [-> ->] by lia; done|].
  assert (forall c, 0 <= c < 2 ^ n -> Z.log2 c < n) as Hl; [|by apply Z.max_lub_lt; apply Hl].
  intros c Hc. destruct (decide (c = 0)) as [->|]; [cbn; lia|]. apply Z.log2_lt_pow2; lia.
Qed.

Lemma bit_term_bound A B t : 0 <= B < 2 ^ 128 -> 0 <= bit_term A B t < 2 ^ 192.
Proof.
  intros HB. unfold bit_term. apply lxor_bound; [lia|destruct (Z.testbit _ _); lia|].
  destruct (Z.testbit _ _); [|lia]. rewrite Z.shiftl_mul_pow2 by lia. change (2 ^ 192) with (2 ^ 128 * 2 ^ 64). nia.
Qed.

Lemma accumulate_loop_spec a b i s : words a -> words b -> words s ->
  length a = fieldElementLen -> length b = fieldElementLen -> length s = doubleFieldElementLen -> (i < 64)%nat ->
  val s < 2 ^ (255 - Z.of_nat i) ->
  words (accumulate_loop a b i s) /\ length (accumulate_loop a b i s) = doubleFieldElementLen /\
  val (accumulate_loop a b i s) = Z.lxor (Z.shiftl (val s) (Z.of_nat i)) (terms (val a) (val b) (S i)).
Proof.
  intros Wa Wb. revert s. induction i as [|i IH]; intros s Ws La Lb Ls Hi Hs.
  all: destruct (accumulate_bit_spec a b _ s Wa Wb Ws La Lb Ls Hi) as (W1 & L1 & V1).
  all: pose proof (val_bound b Wb) as HB; rewrite Lb in HB; change (64 * Z.of_nat fieldElementLen) with 128 in HB.
  - cbn [accumulate_loop terms]. split_and!; [done..|]. rewrite V1. by rewrite !Z.shiftl_0_r, Z.lxor_0_r.
  - cbn [accumulate_loop]. set (s1 := accumulate_bit a b (S i) s) in *.
    assert (0 <= val s1 < 2 ^ (255 - Z.of_nat (S i))) as Hb1.
    { rewrite V1. apply lxor_bound; [lia|pose proof (val_bound s Ws); lia|].
      pose proof (bit_term_bound (val a) (val b) (S i) HB).
      assert (2 ^ 192 <= 2 ^ (255 - Z.of_nat (S i))) by (apply Z.pow_le_mono_r; lia). lia. }
    assert (2 * val s1 < 2 ^ (255 - Z.of_nat i)) as Hb2.
    { replace (255 - Z.of_nat i) with (1 + (255 - Z.of_nat (S i))) by lia. rewrite Z.pow_add_r by lia. lia. }
    destruct (val_shl1 s1 W1) as (W2 & L2 & V2).
    { rewrite L1. change (64 * Z.of_nat doubleFieldElementLen) with 256.
      assert (2 ^ (255 - Z.of_nat i) <= 2 ^ 256) by (apply Z.pow_le_mono_r; lia). lia. }
    destruct (IH (shl1 s1)) as (W3 & L3 & V3); [done..|congruence|lia|by rewrite V2|]. split_and!; [done..|].
    rewrite V3, V2, V1. change (terms (val a) (val b) (S (S i)))
      with (Z.lxor (Z.shiftl (bit_term (val a) (val b) (S i)) (Z.of_nat (S i))) (terms (val a) (val b) (S i))).
    rewrite <- Z.lxor_assoc, <- Z.shiftl_lxor. f_equal.
    rewrite !Z.shiftl_mul_pow2 by lia. rewrite Nat2Z.inj_succ, Z.pow_succ_r by lia. ring.
Qed.

(** The upper half of the bits. *)
Lemma clmul_upper A B n :
  terms A B n = Z.lxor (clmul n A B) (Z.lxor (clmul (64 + n) A B) (clmul 64 A B)).
Proof.
  induction n as [|n IH].
  - cbn [terms]. change (64 + 0)%nat with 64%nat. by rewrite Z.lxor_nilpotent.
  - cbn [terms]. rewrite IH. replace (64 + S n)%nat with (S (64 + n)) by lia. set (c64 := clmul 64 A B).
    cbn [clmul]. replace (Z.of_nat (64 + n)) with (64 + Z.of_nat n) by lia. unfold bit_term.
    rewrite Z.shiftl_lxor.
    assert (Z.shiftl (if Z.testbit A (64 + Z.of_nat n) then Z.shiftl B 64 else 0) (Z.of_nat n)
            = if Z.testbit A (64 + Z.of_nat n) then Z.shiftl B (64 + Z.of_nat n) else 0) as ->.
    { destruct (Z.testbit _ _); [by rewrite Z.shiftl_shiftl by lia|apply Z.shiftl_0_l]. }
    assert (Z.shiftl (if Z.testbit A (Z.of_nat n) then B else 0) (Z.of_nat n)
            = if Z.testbit A (Z.of_nat n) then Z.shiftl B (Z.of_nat n) else 0) as ->
      by (destruct (Z.testbit _ _); [done|apply Z.shiftl_0_l]).
    generalize (if Z.testbit A (Z.of_nat n) then Z.shiftl B (Z.of_nat n) else 0) as u.
    generalize (if Z.testbit A (64 + Z.of_nat n) then Z.shiftl B (64 + Z.of_nat n) else 0) as v.
    generalize (clmul n A B), (clmul (64 + n) A B), c64. intros x y z v u.
    apply Z.bits_inj'. intros k _. rewrite !Z.lxor_spec.
    by destruct (Z.testbit u k), (Z.testbit v k), (Z.testbit x k), (Z.testbit y k), (Z.testbit z k).
Qed.

Lemma terms_clmul A B : terms A B 64 = clmul 128 A B.
Proof. rewrite clmul_upper, (Z.lxor_comm (clmul (64 + 64) A B)), <- Z.lxor_assoc, Z.lxor_nilpotent. apply Z.lxor_0_l. Qed.

(** [accumulate] adds the product of two polynomials of 128 coefficients. *)
Lemma accumulate_spec f a b : words f -> words a -> words b ->
  length f = doubleFieldElementLen -> length a = fieldElementLen -> length b = fieldElementLen ->
  words (accumulate f a b) /\ length (accumulate f a b) = doubleFieldElementLen /\
  val (accumulate f a b) = Z.lxor (val f) (clmul 128 (val a) (val b)).
Proof.
  intros Wf Wa Wb Lf La Lb.
  assert (words zeroDouble) as Wz by (repeat constructor; lia).
  destruct (accumulate_loop_spec a b 63 zeroDouble Wa Wb Wz La Lb eq_refl) as (W & L & V); [lia|done|].
  unfold accumulate. split_and!; [by apply words_lxor|rewrite length_zip_with, Lf, L; done|].
  rewrite val_lxor by congruence. rewrite V. change (val zeroDouble) with 0.
  rewrite Z.shiftl_0_l, Z.lxor_0_l. by rewrite terms_clmul.
Qed.

(** ** Comparison and conditional addition *)

Lemma word_lor a b : 0 <= a < 2 ^ 64 -> 0 <= b < 2 ^ 64 -> 0 <= Z.lor a b < 2 ^ 64.
Proof.
  intros Ha Hb. rewrite <- (Z.mod_small a (2 ^ 64)), <- (Z.mod_small b (2 ^ 64)) by lia.
  rewrite <- !Z.land_ones, <- Z.land_lor_distr_l, Z.land_ones by lia. apply Z.mod_pos_bound. lia.
Qed.

(** The accumulated difference is zero for equal elements only. *)
Lemma fe_acc_spec f a acc : words f -> words a -> length f = length a -> 0 <= acc < 2 ^ 64 ->
  let acc' := foldl (fun acc p => Z.lor acc (Z.lxor p.1 p.2)) acc (zip f a) in
  0 <= acc' < 2 ^ 64 /\ (acc' = 0 <-> acc = 0 /\ f = a).
Proof.
  intros Wf. revert a acc. induction Wf as [|x f Hx _ IH]; intros [|y a] acc Wa Hl Hacc; try done; cbn zeta.
  - cbn. split; [done|]. naive_solver.
  - inversion Wa as [|? ? Hy Wa']; subst. injection Hl as Hl. cbn [zip zip_with foldl fst snd].
    destruct (IH a (Z.lor acc (Z.lxor x y)) Wa' Hl) as [H1 H2]; [apply word_lor; [done|by apply word_lxor]|].
    split; [exact H1|]. rewrite H2, Z.lor_eq_0_iff, Z.lxor_eq_0_iff. naive_solver.
Qed.

Lemma fe_eq_spec f a : words f -> words a -> length f = length a -> fe_eq f a = bit_byte (bool_decide (f = a)).
Proof.
  intros Wf Wa Hl. unfold fe_eq. destruct (fe_acc_spec f a 0 Wf Wa Hl ltac:(lia)) as [Hr Hz]. cbn zeta in *.
  set (acc := foldl _ 0 _) in *. destruct (decide (acc = 0)) as [E|N].
  - rewrite E. rewrite bool_decide_true; [done|]. by apply Hz.
  - rewrite bool_decide_false by (intros Efa; apply N, Hz; done).
    assert (w64 (- acc) = 2 ^ 64 - acc) as Ew.
    { unfold w64. symmetry. apply (Z.mod_unique _ _ (-1)); lia. }
    assert (Z.shiftr (Z.lor acc (w64 (- acc))) 63 = 1) as ->; [|done].
    assert (0 <= w64 (- acc) < 2 ^ 64) as Hw by (unfold w64; apply Z.mod_pos_bound; lia).
    pose proof (word_lor _ _ Hr Hw) as Hlor.
    assert (Z.testbit (Z.lor acc (w64 (- acc))) 63 = true) as Hb.
    { rewrite Z.lor_spec. apply orb_true_iff.
      assert (forall w, 2 ^ 63 <= w < 2 ^ 64 -> Z.testbit w 63 = true) as Ht.
      { intros w Hw'. rewrite Z.testbit_true by lia. assert (w / 2 ^ 63 = 1) as -> by (symmetry; apply (Z.div_unique _ _ 1 (w - 2 ^ 63)); lia). done. }
      destruct (Z.le_gt_cases (2 ^ 63) acc); [left|right]; apply Ht; lia. }
    rewrite Z.shiftr_div_pow2 by lia. rewrite Z.testbit_true in Hb by lia.
    assert (0 <= Z.lor acc (w64 (- acc)) / 2 ^ 63 < 2) as Hd.
    { split; [apply Z.div_pos; lia|apply Z.div_lt_upper_bound; lia]. }
    set (q := Z.lor acc (w64 (- acc)) / 2 ^ 63) in *. assert (q = 0 \/ q = 1) as [Eq|Eq] by lia; [|done].
    rewrite Eq in Hb. done.
Qed.

Lemma conditionalAdd_bit f (b : bool) x : words x -> length f = length x ->
  conditionalAdd f (bit_byte b) x = if b then zip_with Z.lxor f x else f.
Proof.
  intros Wx. unfold conditionalAdd.
  assert (byteZ (byte_and (bit_byte b) x01) = Z.b2z b) as -> by (by destruct b).
  revert f. induction Wx as [|w x Hw _ IH]; intros [|y f] Hl; try done; [by destruct b|].
  injection Hl as Hl. cbn [zip_with]. rewrite mask_land, IH by done. destruct b; [done|]. by rewrite Z.lxor_0_r.
Qed.

(** ** Bits packed into an element *)

Definition bits_val (l : list bool) : Z := foldl (fun v (b : bool) => 2 * v + Z.b2z b) 0 l.

Lemma bits_val_snoc l b : bits_val (l ++ [b]) = 2 * bits_val l + Z.b2z b.
Proof. unfold bits_val. by rewrite foldl_app. Qed.

Lemma bits_val_bound l : 0 <= bits_val l < 2 ^ Z.of_nat (length l).
Proof.
  induction l as [|b l IH] using rev_ind; [cbn; lia|]. rewrite bits_val_snoc, length_app. cbn [length].
  rewrite Nat2Z.inj_add, Z.pow_add_r by lia. change (2 ^ Z.of_nat 1) with 2. destruct b; cbn [Z.b2z]; lia.
Qed.

Lemma bits_val_xorb l1 l2 : length l1 = length l2 ->
  bits_val (zip_with xorb l1 l2) = Z.lxor (bits_val l1) (bits_val l2).
Proof.
  revert l2. induction l1 as [|b1 l1 IH] using rev_ind; intros l2 Hl.
  - by destruct l2.
  - destruct l2 as [|b2 l2 _] using rev_ind; rewrite !length_app in Hl; cbn in Hl; [lia|].
    rewrite zip_with_app by lia. cbn [zip_with]. rewrite !bits_val_snoc, IH by lia.
    apply Z.bits_inj'. intros n Hn. rewrite Z.lxor_spec. destruct (decide (n = 0)) as [->|N].
    + rewrite !Z.testbit_0_r. done.
    + replace n with (Z.succ (n - 1)) by lia. rewrite !Z.testbit_succ_r by lia. by rewrite Z.lxor_spec.
Qed.

Lemma push_bit_spec out (b : bool) : words out -> length out = fieldElementLen -> 2 * val out < 2 ^ 128 ->
  words (push_bit out (bit_byte b)) /\ length (push_bit out (bit_byte b)) = fieldElementLen /\
  val (push_bit out (bit_byte b)) = 2 * val out + Z.b2z b.
Proof.
  intros W L Hb. destruct (val_shl1 out W) as (W1 & L1 & V1); [by rewrite L|]. unfold push_bit.
  rewrite L in L1. destruct (shl1 out) as [|w0 [|w1 [|]]] eqn:E; try done.
  inversion W1 as [|? ? H0 W1']; subst. inversion W1' as [|? ? H1 _]; subst. cbn [alter list_alter val] in *.
  assert (byteZ (bit_byte b) = Z.b2z b) as -> by (by destruct b).
  assert (Z.lor w0 (Z.b2z b) = w0 + Z.b2z b) as El.
  { assert (w0 = 2 * (w0 / 2)) as E2.
    { pose proof (Z.div_mod w0 2 ltac:(lia)) as Hd. assert (w0 mod 2 = 0); [|lia].
      apply (f_equal (fun z => z mod 2)) in V1. rewrite (Z.mul_comm 2 (val out)), Z.mod_mul in V1 by lia.
      replace (w0 + 2 ^ 64 * (w1 + 2 ^ 64 * 0)) with (w0 + (2 ^ 63 * w1) * 2) in V1 by lia. by rewrite Z.mod_add in V1 by lia. }
    destruct b; cbn [Z.b2z]; [|by rewrite Z.lor_0_r, Z.add_0_r]. rewrite E2. generalize (w0 / 2) as y. intros y.
    apply Z.bits_inj'. intros n Hn. destruct (decide (n = 0)) as [->|N].
    - rewrite Z.lor_spec, Z.testbit_odd_0, Z.testbit_even_0. done.
    - replace n with (Z.succ (n - 1)) by lia. rewrite Z.lor_spec, Z.testbit_odd_succ, Z.testbit_even_succ by lia.
      assert (Z.testbit 1 (Z.succ (n - 1)) = false) as -> by (apply Z.bits_above_log2; cbn; lia). by rewrite orb_false_r. }
  rewrite El. assert (0 <= w0 + Z.b2z b < 2 ^ 64) as Hw.
  { rewrite <- El. apply word_lor; [done|destruct b; cbn; lia]. }
  split_and!; [|done|rewrite <- V1; lia]. constructor; [exact Hw|exact W1'].
Qed.

(** A loop that pushes the bits of a function. *)
Lemma push_bits_spec (f : nat -> bool) (g : nat -> byte) n :
  (forall j, g j = bit_byte (f j)) -> (n <= OTParam)%nat ->
  let r := foldl (fun out j => push_bit out (g j)) zeroFe (seq 0 n) in
  words r /\ length r = fieldElementLen /\ val r = bits_val (f <$> seq 0 n).
Proof.
  intros Hg. cbn zeta. induction n as [|n IH]; intros Hn; [split_and!; [repeat constructor; lia|done|done]|].
  rewrite seq_S, foldl_app, fmap_app. cbn [foldl fmap list_fmap]. rewrite bits_val_snoc.
  destruct (IH ltac:(lia)) as (W & L & V). rewrite Hg, <- V. apply push_bit_spec; [done..|]. rewrite V.
  pose proof (bits_val_bound (f <$> seq 0 n)) as Hb. rewrite length_fmap, length_seq in Hb.
  assert (2 ^ Z.of_nat n <= 2 ^ 127) by (apply Z.pow_le_mono_r; unfold OTParam in Hn; lia).
  change (2 ^ 128) with (2 * 2 ^ 127). lia.
Qed.

(** ** The check between honest parties *)

Definition fe_ok (f : fieldElement) : Prop := words f /\ length f = fieldElementLen.

Lemma read_word_ok r : 0 <= (read_word r).1 < 2 ^ 64.
Proof.
  unfold read_word. pose proof (length_read_dropped r 8) as Hl. destruct (read_dropped r 8) as [b r'].
  cbn [fst] in Hl |- *. pose proof (be_to_Z_bound (reverse b)) as Hb. by rewrite length_reverse, Hl in Hb.
Qed.

Lemma read_chi_ok n r : Forall fe_ok (read_chi n r) /\ length (read_chi n r) = n.
Proof.
  revert r. induction n as [|n IH]; intros r; [by split|]. cbn [read_chi]. unfold randFe.
  pose proof (read_word_ok r) as H0. destruct (read_word r) as [w0 r0]. pose proof (read_word_ok r0) as H1.
  destruct (read_word r0) as [w1 r1]. destruct (IH r1) as [F L]. cbn [fst] in *. split; [|by cbn; rewrite L].
  constructor; [|done]. split; [|done]. constructor; [exact H0|]. constructor; [exact H1|constructor].
Qed.

Definition xsum (hats chi : list fieldElement) : Z :=
  foldr (fun p v => Z.lxor (clmul 128 (val p.1) (val p.2)) v) 0 (zip hats chi).

Lemma weighted_sum_spec hats chi : Forall fe_ok hats -> Forall fe_ok chi ->
  words (weighted_sum hats chi) /\ length (weighted_sum hats chi) = doubleFieldElementLen /\
  val (weighted_sum hats chi) = xsum hats chi.
Proof.
  intros Fh Fc. unfold weighted_sum, xsum.
  assert (words zeroDouble /\ length zeroDouble = doubleFieldElementLen) as [W0 L0] by (split; [repeat constructor; lia|done]).
  rewrite <- (Z.lxor_0_l (foldr _ 0 _)). change 0 with (val zeroDouble) at 1. revert W0 L0. generalize zeroDouble as acc.
  revert chi Fc. induction Fh as [|h hats [Wh Lh] _ IH]; intros chi Fc acc Wacc Lacc.
  - cbn. by rewrite Z.lxor_0_r.
  - destruct Fc as [|c chi [Wc Lc] Fc]; [cbn; by rewrite Z.lxor_0_r|]. cbn [zip zip_with foldl foldr fst snd].
    destruct (accumulate_spec acc h c) as (W & L & V); [done..|].
    destruct (IH chi Fc (accumulate acc h c) W L) as (W' & L' & V'). split_and!; [done..|].
    etransitivity; [exact V'|]. rewrite V. apply Z.lxor_assoc.
Qed.

(** The sum is linear in the elements that it weighs. *)
Lemma xsum_linear (d : bool) (q t b : nat -> fieldElement) l chi :
  (forall i, i ∈ l -> val (q i) = Z.lxor (val (t i)) (if d then val (b i) else 0)) ->
  xsum (q <$> l) chi = Z.lxor (xsum (t <$> l) chi) (if d then xsum (b <$> l) chi else 0).
Proof.
  intros H. revert chi. induction l as [|i l IH]; intros chi; [by destruct d|].
  destruct chi as [|c chi]; [by destruct d|]. rewrite !fmap_cons. unfold xsum in *. cbn [zip zip_with foldr fst snd].
  rewrite (H i) by apply list_elem_of_here.
  assert (forall i, i ∈ l -> val (q i) = Z.lxor (val (t i)) (if d then val (b i) else 0)) as H'
    by (intros k Hk; by apply H, list_elem_of_further).
  etransitivity; [apply f_equal, (IH H' chi)|]. rewrite clmul_lxor_l. destruct d; [|by rewrite clmul_0_l, !Z.lxor_0_r].
  apply Z.bits_inj'. intros n _. rewrite !Z.lxor_spec.
  by destruct (Z.testbit (clmul 128 (val (t i)) (val c)) n), (Z.testbit (clmul 128 (val (b i)) (val c)) n),
    (Z.testbit (foldr _ 0 (zip (t <$> l) chi)) n), (Z.testbit (foldr _ 0 (zip (b <$> l) chi)) n).
Qed.

Lemma pluckColumn_spec data c :
  fe_ok (pluckColumnToFieldElement data c) /\
  val (pluckColumnToFieldElement data c) = bits_val ((fun k => bit c (nth k data [])) <$> seq 0 OTParam).
Proof.
  destruct (push_bits_spec (fun k => bit c (nth k data [])) (fun k => bitAt c (nth k data [])) OTParam) as (W & L & V).
  - intros j. apply bitAt_bit.
  - done.
  - by repeat split.
Qed.

Definition pluck_bits (data : bytes) (i : nat) : fieldElement :=
  foldl (fun out j => push_bit out (bitAt (OTParam * i + j) data)) zeroFe (seq 0 OTParam).

Lemma pluck_bits_spec data i :
  fe_ok (pluck_bits data i) /\
  val (pluck_bits data i) = bits_val ((fun k => bit (OTParam * i + k) data) <$> seq 0 OTParam).
Proof.
  destruct (push_bits_spec (fun k => bit (OTParam * i + k) data) (fun k => bitAt (OTParam * i + k) data) OTParam) as (W & L & V).
  - intros j. apply bitAt_bit.
  - done.
  - by repeat split.
Qed.

(** Block [i] of the rows, in the column [j]. *)
Definition hat (data : list bytes) (j i : nat) : fieldElement :=
  pluckColumnToFieldElement (take OTParam (drop (OTParam * i) data)) j.

Lemma hat_column_eq data j : (j < OTParam)%nat ->
  hat_column (transposeToFieldSizeElements data) j = hat data j <$> seq 0 (length data / OTParam).
Proof.
  intros Hj. unfold hat_column, transposeToFieldSizeElements. rewrite <- list_fmap_compose.
  apply list_fmap_ext. intros _ i _. cbn [compose]. unfold compose. by rewrite nth_seq_fmap by done.
Qed.

Lemma nth_block (data : list bytes) i k : (k < OTParam)%nat ->
  nth k (take OTParam (drop (OTParam * i) data)) [] = nth (OTParam * i + k) data [].
Proof. intros Hk. rewrite !nth_lookup, lookup_take_lt, lookup_drop by done. done. Qed.

Lemma hat_spec data j i :
  fe_ok (hat data j i) /\
  val (hat data j i) = bits_val ((fun k => bit j (nth (OTParam * i + k) data [])) <$> seq 0 OTParam).
Proof.
  destruct (pluckColumn_spec (take OTParam (drop (OTParam * i) data)) j) as [W V]. split; [done|].
  etransitivity; [exact V|]. f_equal. apply list_fmap_ext. intros _ k Hk%list_elem_of_lookup_2%list_elem_of_In%in_seq.
  by rewrite nth_block by lia.
Qed.

Lemma adjustBatchSize_spec n : exists m,
  adjustBatchSize n = (OTParam * m)%nat /\ (n + 2 * OTParam <= adjustBatchSize n < n + 3 * OTParam)%nat.
Proof.
  unfold adjustBatchSize. pose proof (Nat.div_mod_eq n OTParam) as Hd.
  pose proof (Nat.mod_upper_bound n OTParam ltac:(done)) as Hm. destruct (decide _) as [N|E%dec_stable].
  - exists (n / OTParam + 3)%nat. split; lia.
  - exists (n / OTParam + 2)%nat. rewrite E in Hd. split; unfold OTParam in *; lia.
Qed.

Lemma fold_good (f : nat -> byte) l :
  (forall j, j ∈ l -> f j = x01) -> foldl (fun good j => byte_and good (f j)) x01 l = x01.
Proof.
  intros H. induction l as [|j l IH]; [done|]. cbn [foldl]. rewrite (H j) by apply list_elem_of_here.
  apply IH. intros k Hk. by apply H, list_elem_of_further.
Qed.

#[local] Opaque OTParam weighted_sum xsum hat pluck_bits clmul.

Section ExtendedRun.
Context {C : Curve} `{B3 : Blake3} {BK : Blake3Keyed}.
Context (ctx : Hash) (s : CorreOTSendSetup) (r : CorreOTReceiveSetup) (ec : bytes) (m : nat).
Hypothesis OK : corre_ok s r.
Hypothesis Hec : (8 * length ec = OTParam * m)%nat.

Let T := corre_T ctx r ec.
Let Q := corre_Q ctx s r ec.

Lemma rows_length : length T = (OTParam * m)%nat /\ length Q = (OTParam * m)%nat.
Proof. destruct (corre_lengths ctx s r ec) as (_ & HT & HQ & _). rewrite <- Hec. by split. Qed.

(** The columns of the sender and of the receiver differ by the choices
    where the bit of Δ is set. *)
Lemma hat_relation j i : (j < OTParam)%nat -> (i < m)%nat ->
  val (hat Q j i) = Z.lxor (val (hat T j i)) (if bit j (cs_Delta s) then val (pluck_bits ec i) else 0).
Proof.
  intros Hj Hi. destruct (hat_spec Q j i) as [_ ->]. destruct (hat_spec T j i) as [_ ->].
  destruct (pluck_bits_spec ec i) as [_ ->].
  assert (forall k, k ∈ seq 0 OTParam -> bit j (nth (OTParam * i + k) Q []) =
    xorb (bit j (nth (OTParam * i + k) T [])) (bit (OTParam * i + k) ec && bit j (cs_Delta s))) as Hb.
  { intros k Hk%list_elem_of_In%in_seq. assert (OTParam * i + k < 8 * length ec)%nat as Hlt by (rewrite Hec; nia).
    destruct (corre_row_length ctx s r ec _ Hlt) as [LQ _]. unfold T. rewrite (corre_row ctx s r ec OK _ Hlt). fold Q in LQ |- *.
    destruct (bit (OTParam * i + k) ec); cbn [andb]; [|by rewrite xorb_false_r].
    rewrite bit_xor_bytes by (by rewrite LQ, (co_Delta _ _ OK)).
    by destruct (bit j (nth _ Q [])), (bit j (cs_Delta s)). }
  assert (((fun k => bit j (nth (OTParam * i + k) Q [])) <$> seq 0 OTParam)
          = zip_with xorb ((fun k => bit j (nth (OTParam * i + k) T [])) <$> seq 0 OTParam)
              ((fun k => bit (OTParam * i + k) ec && bit j (cs_Delta s)) <$> seq 0 OTParam)) as ->.
  { rewrite zip_with_fmap_l, zip_with_fmap_r. revert Hb. generalize (seq 0 OTParam) as l. clear. intros l Hb.
    induction l as [|k l IH]; [done|]. cbn. f_equal; [apply Hb, list_elem_of_here|].
    apply IH. intros k' Hk'. by apply Hb, list_elem_of_further. }
  rewrite bits_val_xorb by (by rewrite !length_fmap). f_equal. destruct (bit j (cs_Delta s)).
  - f_equal. apply list_fmap_ext. intros. apply andb_true_r.
  - generalize (seq 0 OTParam) as l. intros l. induction l as [|k l IH] using rev_ind; [done|].
    rewrite fmap_app. cbn [fmap list_fmap]. rewrite bits_val_snoc, IH, andb_false_r. done.
Qed.

(** The column passes the sender's check. *)
Lemma column_honest chi j U : (j < OTParam)%nat -> Forall fe_ok chi ->
  column_good (transposeToFieldSizeElements Q) chi (cs_Delta s)
    (mkExtendedMessage U (weighted_sum (pluckBitsToFieldElements ec) chi)
       ((fun j => weighted_sum (hat_column (transposeToFieldSizeElements T) j) chi) <$> seq 0 OTParam)) j = x01.
Proof.
  intros Hj Fc. unfold column_good. cbn [em_T em_X]. rewrite nth_seq_fmap by done.
  rewrite !hat_column_eq by done. destruct rows_length as [-> ->].
  replace (OTParam * m / OTParam)%nat with m by (rewrite Nat.mul_comm; symmetry; by apply Nat.div_mul).
  assert (pluckBitsToFieldElements ec = pluck_bits ec <$> seq 0 m) as ->.
  { unfold pluckBitsToFieldElements. rewrite Hec, Nat.mul_comm, Nat.div_mul by done. done. }
  assert (forall f, (forall i, fe_ok (f i)) -> Forall fe_ok (f <$> seq 0 m)) as Ff.
  { intros f Hf. apply list.Forall_forall. intros x (i & -> & _)%list_elem_of_fmap. apply Hf. }
  destruct (weighted_sum_spec (hat Q j <$> seq 0 m) chi) as (WQ & LQ & VQ); [apply Ff; intros; apply hat_spec|done|].
  destruct (weighted_sum_spec (hat T j <$> seq 0 m) chi) as (WT & LT & VT); [apply Ff; intros; apply hat_spec|done|].
  destruct (weighted_sum_spec (pluck_bits ec <$> seq 0 m) chi) as (WB & LB & VB); [apply Ff; intros; apply pluck_bits_spec|done|].
  rewrite bitAt_bit, conditionalAdd_bit by congruence.
  set (e := if bit j (cs_Delta s) then _ else _).
  assert (words e /\ length e = doubleFieldElementLen /\
          val e = Z.lxor (xsum (hat T j <$> seq 0 m) chi) (if bit j (cs_Delta s) then xsum (pluck_bits ec <$> seq 0 m) chi else 0)) as (We & Le & Ve).
  { unfold e. destruct (bit j (cs_Delta s)).
    - split_and!; [by apply words_lxor|rewrite length_zip_with, LT, LB; done|]. rewrite val_lxor by congruence. apply f_equal2; [exact VT|exact VB].
    - split_and!; [done..|]. rewrite Z.lxor_0_r. exact VT. }
  rewrite fe_eq_spec by (assumption || by rewrite LQ, Le). rewrite bool_decide_true; [reflexivity|].
  apply val_inj; [exact WQ|exact We|by rewrite LQ, Le|]. rewrite VQ, Ve. apply xsum_linear.
  intros i Hi%list_elem_of_In%in_seq. apply hat_relation; [done|lia].
Qed.

Lemma honest_good chi U :
  Forall fe_ok chi ->
  foldl (fun good j => byte_and good (column_good (transposeToFieldSizeElements Q) chi (cs_Delta s)
    (mkExtendedMessage U (weighted_sum (pluckBitsToFieldElements ec) chi)
       ((fun j => weighted_sum (hat_column (transposeToFieldSizeElements T) j) chi) <$> seq 0 OTParam)) j)) x01 (seq 0 OTParam) = x01.
Proof.
  intros Fc. apply (fold_good (fun j => column_good _ _ _ _ j)).
  intros j Hj%list_elem_of_In%in_seq. apply column_honest; [lia|done].
Qed.

End ExtendedRun.

Section ExtendedProps.
Context {C : Curve} `{B3 : Blake3} {BK : Blake3Keyed}.

Lemma bit_app_l i (a b : bytes) : (i < 8 * length a)%nat -> bit i (a ++ b) = bit i a.
Proof.
  intros Hi. unfold bit. rewrite app_nth1; [done|]. apply Nat.Div0.div_lt_upper_bound. lia.
Qed.

(** The rows that the two sides hash. *)
Lemma row_hash_choice ctx s r ec i : corre_ok s r -> (i < 8 * length ec)%nat ->
  row_hash i (nth i (corre_T ctx r ec) [])
  = if bit i ec then row_hash i (xor_bytes (nth i (corre_Q ctx s r ec) []) (cs_Delta s))
    else row_hash i (nth i (corre_Q ctx s r ec) []).
Proof. intros OK Hi. rewrite (corre_row ctx s r ec OK i Hi). by destruct (bit i ec). Qed.

Record extended_ok (choices : bytes) (V : list bytes) (res : ExtendedOTSendResult) : Prop := {
  eo_V : length V = (8 * length choices)%nat;
  eo_V0 : length (es_V0 res) = (8 * length choices)%nat;
  eo_V1 : length (es_V1 res) = (8 * length choices)%nat;
  eo_choice i : (i < 8 * length choices)%nat ->
    nth i V [] = if bit i choices then nth i (es_V1 res) [] else nth i (es_V0 res) []
}.

(** The sender accepts what an honest receiver sends, both leave the context
    hash in the same state, and the receiver holds the vectors that it chose. *)
Lemma extended_ot_run ctx s r choices rand :
  corre_ok s r -> exists msg V ctx' res,
    ExtendedOTReceive ctx r choices rand
      = Ret (msg, V, ctx', (read_dropped rand (adjustBatchSize (8 * length choices) / 8 - length choices)).2) /\
    ExtendedOTSend ctx s (8 * length choices) msg = Ret (res, ctx') /\ extended_ok choices V res.
Proof.
  intros OK. destruct (adjustBatchSize_spec (8 * length choices)) as (m & Em & Hm).
  unfold ExtendedOTReceive, ExtendedOTSend. rewrite Em in *.
  pose proof (length_read_dropped rand (OTParam * m / 8 - length choices)) as Le.
  destruct (read_dropped rand _) as [extra rand'] eqn:Er. cbn [fst snd] in Le |- *.
  assert (OTParam * m = 8 * (16 * m))%nat as E8 by (rewrite Nat.mul_assoc; reflexivity).
  assert (length (choices ++ extra) = 16 * m)%nat as Lec.
  { rewrite length_app, Le, E8, (Nat.mul_comm 8), Nat.div_mul by done. lia. }
  assert (8 * length (choices ++ extra) = OTParam * m)%nat as Hec by (rewrite Lec; lia).
  assert (8 * length choices <= 8 * length (choices ++ extra))%nat as Hle by (rewrite length_app; lia).
  set (ec := choices ++ extra) in *. rewrite (CorreOTReceive_eq ctx s r ec OK). cbn [mbind outcome_bind].
  eexists _, _, _, _. split; [reflexivity|]. cbn [em_CorreMsg deref mbind outcome_bind].
  rewrite <- Hec at 1. rewrite (CorreOTSend_eq ctx s r ec OK). cbn [mbind outcome_bind cr_U cr_Q].
  rewrite (honest_good ctx s r ec m OK Hec) by apply read_chi_ok. cbn [negb bool_decide]. 
  split; [reflexivity|]. constructor; cbn [es_V0 es_V1]; rewrite ?length_fmap, ?length_seq; try done.
  intros i Hi. rewrite !nth_seq_fmap by done. rewrite (row_hash_choice ctx s r ec i OK) by lia.
  unfold ec. by rewrite bit_app_l.
Qed.

End ExtendedProps.
