(* ===== verification/OtMultiply.v ===== *)
(** * internal/ot/additive.go and multiply.go: shares of a product

    Additive OT transfers the sender's scalars under the receiver's choices;
    the multiplication encodes one factor in the choices and ends with
    additive shares of the product.  The context hash is one object that the
    layers share: the extension writes to it, and the challenges of the
    multiplication are read from it afterwards. *)

From Stdlib Require Import ZArith Lia Zmod Field.
From Stdlib Require Import Strings.Byte.
From stdpp Require Import base gmap strings list pretty numbers.
From S2P Require Import Prelude Hash Curve Sample OtRandom OtCorrelated OtExtended.

Local Open Scope curve_scope.

Definition index_panic : string := "runtime error: index out of range".

(** [l[i]] *)
Definition index {A} (l : list A) (i : nat) : outcome A :=
  match l !! i with Some a => Ret a | None => Panic index_panic end.

(** [for j := 0; j < len(pads[j]); j++ { cur[j] &= mask }]: the bound is read
    from row [j], not from the row that is masked. *)
Fixpoint mask_pads (mask : byte) (rows : list bytes) (j : nat) (cur : bytes) : outcome bytes :=
  match rows with
  | [] => Panic index_panic
  | row :: rows =>
      if decide (j < length row)%nat
      then b ← index cur j; mask_pads mask rows (S j) (<[j := byte_and b mask]> cur)
      else Ret cur
  end.

Section Additive.
Context {C : Curve} `{B3 : Blake3} {BK : Blake3Keyed}.

(** ** Additive OT *)

(** Two scalars from the stream [prg.Digest()] after writing [v]. *)
Definition sample_pads (v : bytes) : outcome (Scalar * Scalar) :=
  '(p0, digest) ← sample_Scalar (stream_reader (blake3_xof v));
  '(p1, _) ← sample_Scalar digest;
  Ret (p0, p1).

Record AdditiveOTSender := mkAdditiveSender {
  as_ctxHash : Hash;
  as_setup : CorreOTSendSetup;
  as_batchSize : nat;
  as_alpha : Scalar * Scalar
}.

Definition NewAdditiveOTSender (ctxHash : Hash) (setup : CorreOTSendSetup) (batchSize : nat)
    (alpha : Scalar * Scalar) : AdditiveOTSender := mkAdditiveSender ctxHash setup batchSize alpha.

(** The combined pads and the result of one transfer. *)
Definition additive_pads (alpha : Scalar * Scalar) (v : bytes * bytes) : outcome ((bytes * bytes) * (Scalar * Scalar)) :=
  '(r0, r1) ← sample_pads v.1;
  '(c0, c1) ← sample_pads v.2;
  let c0 := Sub c0 r0 + alpha.1 in
  let c1 := Sub c1 r1 + alpha.2 in
  Ret ((SMarshal c0, SMarshal c1), (r0, r1)).

(** [CombinedPads], the result, and the sender with the context hash as the
    call leaves it. *)
Definition AdditiveOTSender_Round1 (r : AdditiveOTSender) (msg : option ExtendedOTReceiveMessage) :
    outcome (list (bytes * bytes) * list (Scalar * Scalar) * AdditiveOTSender) :=
  msg ← deref msg;
  '(ext, h) ← ExtendedOTSend (as_ctxHash r) (as_setup r) (as_batchSize r) msg;
  outs ← collect (additive_pads (as_alpha r)) (zip (es_V0 ext) (es_V1 ext));
  Ret (outs.*1, outs.*2, mkAdditiveSender h (as_setup r) (as_batchSize r) (as_alpha r)).

Record AdditiveOTReceiver := mkAdditiveReceiver {
  ar_ctxHash : Hash;
  ar_setup : CorreOTReceiveSetup;
  ar_choices : bytes;
  ar_result : option (list bytes)
}.

Definition NewAdditiveOTReceiver (ctxHash : Hash) (setup : CorreOTReceiveSetup) (choices : bytes) :
    AdditiveOTReceiver := mkAdditiveReceiver ctxHash setup choices None.

Definition AdditiveOTReceiver_Round1 (r : AdditiveOTReceiver) (rand : reader) :
    outcome (option ExtendedOTReceiveMessage * AdditiveOTReceiver * reader) :=
  '(msg, V, h, rand) ← ExtendedOTReceive (ar_ctxHash r) (ar_setup r) (ar_choices r) rand;
  Ret (Some msg, mkAdditiveReceiver h (ar_setup r) (ar_choices r) (Some V), rand).

(** [UnmarshalBinary] into a new scalar. *)
Definition decode_pad (b : bytes) : outcome Scalar :=
  let '(s, err) := SUnmarshal 0 b in _ ← err; Ret s.

(** The body of the loop of [Round2]. *)
Definition additive_receive (pads : list (bytes * bytes)) (choices : bytes) (V : list bytes) (i : nat) :
    outcome (Scalar * Scalar) :=
  let mask := byte_neg (bitAt i choices) in
  v ← index V i;
  '(p0, p1) ← sample_pads v;
  cur ← index pads i;
  pad0 ← mask_pads mask pads.*1 0 cur.1;
  pad1 ← mask_pads mask pads.*2 0 cur.2;
  combinedPad0 ← decode_pad pad0;
  combinedPad1 ← decode_pad pad1;
  Ret (- p0 + combinedPad0, - p1 + combinedPad1).

Definition AdditiveOTReceiver_Round2 (r : AdditiveOTReceiver) (pads : option (list (bytes * bytes))) :
    outcome (list (Scalar * Scalar)) :=
  pads ← deref pads;
  V ← deref (ar_result r);
  collect (additive_receive pads (ar_choices r) V) (seq 0 (8 * length (ar_choices r))).

(** ** Multiplication *)

(** The number of bits, in spite of its name. *)
Definition scalarBytes : nat := (8 * ((ScalarBits + 7) / 8))%nat.

(** [mul.SetNat(bit).Mul(noise[i])] is subtracted for every noise scalar. *)
Definition sub_noise (gamma : bytes) (acc : Scalar) (noise : list Scalar) : Scalar :=
  foldl (fun acc p => Sub acc (SetNat (byteZ (bitAt p.1 gamma)) * p.2)) acc (zip (seq 0 (length noise)) noise).

(** A noise vector whose length is no multiple of 8 indexes [gamma] out of
    its range. *)
Definition ot_encode (beta : Scalar) (noise : list Scalar) (rand : reader) : outcome (bytes * reader) :=
  let '(gamma, rand) := read_dropped rand (length noise / 8) in
  if decide (length noise mod 8 <> 0)%nat then Panic index_panic
  else Ret (SMarshal (sub_noise gamma beta noise) ++ gamma, rand).

(** [n] successive doublings, and the accumulator after them. *)
Fixpoint doublings (n : nat) (acc : Scalar) : list Scalar * Scalar :=
  match n with
  | O => ([], acc)
  | S n => let '(l, acc') := doublings n (acc + acc) in (acc :: l, acc')
  end.

(** The powers of two of [n] bytes, in big-endian order: the loop goes from
    the last byte to the first. *)
Fixpoint gadget_powers (n : nat) (acc : Scalar) : list Scalar :=
  match n with
  | O => []
  | S n => let '(row, acc) := doublings 8 acc in gadget_powers n acc ++ row
  end.

Fixpoint sample_scalars (n : nat) (r : reader) : outcome (list Scalar) :=
  match n with
  | O => Ret []
  | S n => '(s, r) ← sample_Scalar r; l ← sample_scalars n r; Ret (s :: l)
  end.

Definition makeGadget (ctxHash : Hash) : outcome (list Scalar) :=
  let scalarEnd := scalarBytes in
  let len := (8 * ((ScalarBits + 7) / 8 + (ScalarBits + 2 * StatParam + 7) / 8))%nat in
  let digest := Digest (Fork ctxHash [BytesWithDomain "Multiply Gadget Sampling" None]) in
  noise ← sample_scalars (len - scalarEnd) digest;
  Ret (gadget_powers (scalarEnd / 8) (SetNat 1) ++ noise).

(** The two challenges of the integrity check. *)
Definition sample_chi (ctxHash : Hash) : outcome (Scalar * Scalar) :=
  let digest := Digest (Fork ctxHash [BytesWithDomain "Multiply Chi Sampling" None]) in
  '(chi0, digest) ← sample_Scalar digest;
  '(chi1, _) ← sample_Scalar digest;
  Ret (chi0, chi1).

(** [share.Add(mul.Set(result[i][0]).Mul(r.gadget[i]))] over all [i] *)
Definition dot_share (result : list (Scalar * Scalar)) (gadget : list Scalar) : Scalar :=
  foldl (fun share p => share + p.1.1 * p.2) 0 (zip result gadget).

Record MultiplySender := mkMultiplySender {
  mp_doubleAlpha : Scalar * Scalar;
  mp_gadget : list Scalar;
  mp_sender : AdditiveOTSender
}.

Definition NewMultiplySender (ctxHash : Hash) (setup : CorreOTSendSetup) (alpha : Scalar) (rand : reader) :
    outcome (MultiplySender * reader) :=
  gadget ← makeGadget ctxHash;
  '(alpha1, rand) ← sample_Scalar rand;
  let doubleAlpha := (alpha, alpha1) in
  Ret (mkMultiplySender doubleAlpha gadget (NewAdditiveOTSender ctxHash setup (length gadget) doubleAlpha), rand).

Record MultiplySendRound1Message := mkMultiplySendMessage {
  mm_Msg : option (list (bytes * bytes));
  mm_RCheck : list Scalar;
  mm_UCheck : Scalar
}.

Definition MultiplySender_Round1 (r : MultiplySender) (msg : option (option ExtendedOTReceiveMessage)) :
    outcome (MultiplySendRound1Message * Scalar) :=
  msg ← deref msg;
  '(additiveMsg, result, sender) ← AdditiveOTSender_Round1 (mp_sender r) msg;
  '(chi0, chi1) ← sample_chi (as_ctxHash sender);
  let '(alpha0, alpha1) := mp_doubleAlpha r in
  let uCheck := 0 + alpha0 * chi0 + alpha1 * chi1 in
  let rCheck := (fun p : Scalar * Scalar => 0 + p.1 * chi0 + p.2 * chi1) <$> result in
  Ret (mkMultiplySendMessage (Some additiveMsg) rCheck uCheck, dot_share result (mp_gadget r)).

Record MultiplyReceiver := mkMultiplyReceiver {
  mr_beta : Scalar;
  mr_gadget : list Scalar;
  mr_choices : bytes;
  mr_receiver : AdditiveOTReceiver
}.

Definition EmptyMultiplySendRound1Message (r : MultiplyReceiver) : MultiplySendRound1Message :=
  mkMultiplySendMessage None (replicate (length (mr_gadget r)) 0) 0.

Definition NewMultiplyReceiver (ctxHash : Hash) (setup : CorreOTReceiveSetup) (beta : Scalar) (rand : reader) :
    outcome (MultiplyReceiver * reader) :=
  gadget ← makeGadget ctxHash;
  '(choices, rand) ← ot_encode beta (drop scalarBytes gadget) rand;
  Ret (mkMultiplyReceiver beta gadget choices (NewAdditiveOTReceiver ctxHash setup choices), rand).

(** The message wraps that of the additive OT. *)
Definition MultiplyReceiver_Round1 (r : MultiplyReceiver) (rand : reader) :
    outcome (option (option ExtendedOTReceiveMessage) * MultiplyReceiver * reader) :=
  '(msg, receiver, rand) ← AdditiveOTReceiver_Round1 (mr_receiver r) rand;
  Ret (Some msg, mkMultiplyReceiver (mr_beta r) (mr_gadget r) (mr_choices r) receiver, rand).

(** The integrity check of transfer [i]. *)
Definition multiply_check (choices : bytes) (msg : MultiplySendRound1Message) (chi : Scalar * Scalar)
    (p : nat * (Scalar * Scalar)) : outcome unit :=
  let '(i, (r0, r1)) := p in
  let checkLeft := r0 * chi.1 + r1 * chi.2 in
  RCheck ← index (mm_RCheck msg) i;
  let checkRight := Sub (SetNat (byteZ (bitAt i choices)) * mm_UCheck msg) RCheck in
  guard_or (SEqual checkLeft checkRight) "multiply receive round 2: integrity check failed".

Definition MultiplyReceiver_Round2 (r : MultiplyReceiver) (msg : MultiplySendRound1Message) : outcome Scalar :=
  result ← AdditiveOTReceiver_Round2 (mr_receiver r) (mm_Msg msg);
  chi ← sample_chi (ar_ctxHash (mr_receiver r));
  _ ← collect (multiply_check (mr_choices r) msg chi) (zip (seq 0 (length result)) result);
  Ret (dot_share result (mr_gadget r)).

End Additive.

(** ** Masking the pads *)

Lemma mask_pads_ok mask rows j (pre rest : bytes) :
  Forall (fun row => length row = (length pre + length rest)%nat) rows -> j = length pre ->
  (length rest < length rows)%nat ->
  mask_pads mask rows j (pre ++ rest) = Ret (pre ++ ((fun b => byte_and b mask) <$> rest)).
Proof.
  revert j pre rest. induction rows as [|row rows IH]; intros j pre rest F -> Hl; [cbn in Hl; lia|].
  inversion F as [|? ? Hr F']; subst. cbn [mask_pads]. rewrite Hr.
  destruct rest as [|b rest]; [rewrite decide_False by (cbn; lia); done|].
  rewrite decide_True by (cbn; lia). unfold index.
  rewrite lookup_app_r, Nat.sub_diag by done. cbn [lookup list_lookup mbind outcome_bind].
  rewrite insert_app_r_alt, Nat.sub_diag by done. cbn [insert list_insert].
  change (pre ++ byte_and b mask :: rest) with (pre ++ [byte_and b mask] ++ rest). rewrite app_assoc.
  rewrite IH; [by rewrite <- app_assoc| |rewrite length_app; cbn; lia|cbn in Hl; lia].
  eapply list.Forall_impl; [exact F'|]. intros row' Hrow. rewrite length_app. cbn in Hrow |- *. lia.
Qed.

Lemma byte_and_comm a b : byte_and a b = byte_and b a.
Proof. unfold byte_and. by rewrite Z.land_comm. Qed.

Lemma mask_bit (b : bool) (l : bytes) :
  (fun x => byte_and x (byte_neg (bit_byte b))) <$> l = if b then l else replicate (length l) x00.
Proof.
  rewrite byte_neg_bit. induction l as [|x l IH]; [by destruct b|]. rewrite fmap_cons, IH.
  destruct b; rewrite byte_and_comm; [by rewrite byte_and_ones|by rewrite byte_and_zero].
Qed.

(** ** Bits against a vector of scalars *)

Section MultiplyProps.
Context {C : Curve} {CL : CurveLaws C} `{B3 : Blake3} {BK : Blake3Keyed}.
Add Field scalar_field : scalar_field_theory.

(** Σ bit i · g i, the indices starting at [k]. *)
Fixpoint dotb (choices : bytes) (k : nat) (g : list Scalar) : Scalar :=
  match g with
  | [] => 0
  | x :: g => (if bit k choices then x else 0) + dotb choices (S k) g
  end.

Lemma dotb_app choices k g1 g2 : dotb choices k (g1 ++ g2) = dotb choices k g1 + dotb choices (k + length g1) g2.
Proof.
  revert k. induction g1 as [|x g1 IH]; intros k; cbn [app dotb length].
  - rewrite Nat.add_0_r. ring.
  - rewrite IH. replace (S k + length g1)%nat with (k + S (length g1))%nat by lia. ring.
Qed.

Lemma bit_app_r i (a b : bytes) : bit (8 * length a + i) (a ++ b) = bit i b.
Proof.
  unfold bit. replace ((8 * length a + i) / 8)%nat with (length a + i / 8)%nat
    by (rewrite Nat.mul_comm, Nat.div_add_l by lia; done).
  rewrite app_nth2_plus. do 2 f_equal. rewrite Nat.mul_comm, Nat.add_comm. apply Nat.Div0.mod_add.
Qed.

Lemma dotb_app_r a b k g : dotb (a ++ b) (8 * length a + k) g = dotb b k g.
Proof.
  revert k. induction g as [|x g IH]; intros k; cbn [dotb]; [done|]. rewrite bit_app_r.
  replace (S (8 * length a + k)) with (8 * length a + S k)%nat by lia. by rewrite IH.
Qed.

Lemma dotb_app_l a b k g : (k + length g <= 8 * length a)%nat -> dotb (a ++ b) k g = dotb a k g.
Proof.
  revert k. induction g as [|x g IH]; intros k Hk; cbn [dotb length] in *; [done|].
  rewrite bit_app_l, IH by lia. done.
Qed.

Lemma SetNat_add x y : SetNat (x + y)%Z = SetNat x + SetNat y.
Proof. apply Zmod.of_Z_add. Qed.

Lemma SetNat_mul x y : SetNat (x * y)%Z = SetNat x * SetNat y.
Proof. apply Zmod.of_Z_mul. Qed.

Lemma SetNat_1 : SetNat 1%Z = 1.
Proof. apply Zmod.of_Z_1. Qed.

Lemma SetNat_bit (b : bool) : SetNat (byteZ (bit_byte b)) = if b then 1 else 0.
Proof. destruct b; [apply SetNat_1|apply Zmod.of_Z_0]. Qed.

(** The number in the [n] bits from index [k] on. *)
Fixpoint bits_from (data : bytes) (n k : nat) : Z :=
  match n with O => 0%Z | S n => (Z.b2z (bit k data) + 2 * bits_from data n (S k))%Z end.

Lemma SetNat_b2z (b : bool) : SetNat (Z.b2z b) = if b then 1 else 0.
Proof. destruct b; [apply SetNat_1|apply Zmod.of_Z_0]. Qed.

Lemma SetNat_double z : SetNat (2 * z) = SetNat z + SetNat z.
Proof. rewrite <- SetNat_add. f_equal. lia. Qed.

Lemma dotb_doublings data n k acc : dotb data k (doublings n acc).1 = SetNat (bits_from data n k) * acc.
Proof.
  revert k acc. induction n as [|n IH]; intros k acc.
  - cbn [doublings fst dotb bits_from]. assert (SetNat 0%Z = 0) as -> by apply Zmod.of_Z_0. ring.
  - cbn [doublings bits_from]. specialize (IH (S k) (acc + acc)). destruct (doublings n (acc + acc)) as [l acc'].
    cbn [fst dotb] in *. rewrite IH, SetNat_add, SetNat_double, SetNat_b2z. destruct (bit k data); ring.
Qed.

(** The weights of one byte. *)
Lemma dotb_byte b acc : dotb [b] 0 (doublings 8 acc).1 = SetNat (byteZ b) * acc.
Proof. rewrite dotb_doublings. do 2 f_equal. by destruct b. Qed.

Lemma doublings_8 acc : (doublings 8 acc).2 = SetNat 256 * acc /\ length (doublings 8 acc).1 = 8%nat.
Proof.
  split; [|done]. change 256%Z with (2 * (2 * (2 * (2 * (2 * (2 * (2 * (2 * 1))))))))%Z. rewrite !SetNat_double, SetNat_1.
  cbn [doublings snd]. ring.
Qed.

Lemma length_gadget_powers n acc : length (gadget_powers n acc) = (8 * n)%nat.
Proof.
  revert acc. induction n as [|n IH]; intros acc; [done|]. cbn [gadget_powers].
  destruct (doublings_8 acc) as [_ Hl]. destruct (doublings 8 acc) as [row acc']. cbn [fst] in Hl.
  rewrite length_app, IH, Hl. lia.
Qed.

(** The powers of the gadget decode a big-endian number. *)
Lemma dotb_powers data acc : dotb data 0 (gadget_powers (length data) acc) = SetNat (be_to_Z data) * acc.
Proof.
  revert acc. induction data as [|b data IH] using rev_ind; intros acc.
  - cbn [length gadget_powers dotb]. change (be_to_Z []) with 0%Z.
    assert (SetNat 0%Z = 0) as -> by apply Zmod.of_Z_0. ring.
  - rewrite length_app, Nat.add_comm. cbn [length Nat.add gadget_powers].
    destruct (doublings_8 acc) as [E8 L8]. pose proof (dotb_byte b acc) as Eb.
    destruct (doublings 8 acc) as [row acc']. cbn [fst snd] in *.
    rewrite dotb_app, length_gadget_powers, dotb_app_l by (rewrite length_gadget_powers; lia).
    rewrite <- (Nat.add_0_r (8 * length data)) at 1. rewrite Nat.add_0_l, dotb_app_r, IH, Eb, E8.
    unfold be_to_Z. rewrite foldl_app. cbn [foldl]. fold (be_to_Z data). rewrite SetNat_add, SetNat_mul. ring.
Qed.

(** Encoding a scalar and decoding it with the gadget. *)
Lemma sub_noise_spec gamma beta noise : sub_noise gamma beta noise = beta - dotb gamma 0 noise.
Proof.
  unfold sub_noise. generalize 0%nat as k. revert beta. induction noise as [|x noise IH]; intros beta k.
  - cbn. ring.
  - cbn [length seq zip zip_with foldl fst snd dotb]. etransitivity; [apply IH|].
    rewrite bitAt_bit, SetNat_bit. unfold Sub. destruct (bit k gamma); ring.
Qed.

Lemma SetNat_marshal (s : Scalar) : SetNat (be_to_Z (SMarshal s)) = s.
Proof. rewrite be_to_SMarshal. apply Zmod.of_Z_to_Z. Qed.

Lemma ot_encode_spec beta noise rand choices rand' :
  ot_encode beta noise rand = Ret (choices, rand') ->
  length choices = (32 + length noise / 8)%nat /\ (length noise mod 8 = 0)%nat /\
  dotb choices 0 (gadget_powers 32 (SetNat 1) ++ noise) = beta.
Proof.
  unfold ot_encode. pose proof (length_read_dropped rand (length noise / 8)) as Lg.
  destruct (read_dropped rand _) as [gamma rd]. cbn [fst] in Lg. destruct (decide _) as [|E%dec_stable]; [done|].
  intros Ei. assert (choices = SMarshal (sub_noise gamma beta noise) ++ gamma) as -> by congruence. clear Ei. rewrite length_app, SMarshal_length. split; [lia|]. split; [done|].
  set (acc := sub_noise gamma beta noise). rewrite dotb_app, length_gadget_powers.
  rewrite dotb_app_l by (rewrite length_gadget_powers, SMarshal_length; lia).
  pose proof (dotb_powers (SMarshal acc) (SetNat 1)) as Ep. pose proof (dotb_app_r (SMarshal acc) gamma 0 noise) as En.
  rewrite SMarshal_length in Ep, En. rewrite Nat.add_0_r in En. rewrite Nat.add_0_l, Ep, En, SetNat_marshal, SetNat_1.
  unfold acc. rewrite sub_noise_spec. ring.
Qed.

(** ** Additive OT between honest parties *)

Definition pads_of (v : bytes) : Scalar * Scalar := match sample_pads v with Ret p => p | _ => (0, 0) end.

Lemma sample_pads_eq v : sample_pads v = Ret (pads_of v).
Proof.
  unfold pads_of, sample_pads.
  destruct (sample_Scalar_reliable (stream_reader (blake3_xof v))) as (p0 & d & -> & Hd); [done|]. cbn [mbind outcome_bind].
  by destruct (sample_Scalar_reliable d Hd) as (p1 & d' & -> & _).
Qed.

Lemma decode_pad_marshal (s : Scalar) : decode_pad (SMarshal s) = Ret s.
Proof. unfold decode_pad. by rewrite SUnmarshal_SMarshal. Qed.

Lemma decode_pad_zero : decode_pad (replicate 32 x00) = Ret 0.
Proof.
  assert (replicate 32 x00 = SMarshal 0) as ->; [|apply decode_pad_marshal].
  unfold SMarshal. by rewrite Zmod.to_Z_0.
Qed.

Lemma index_nth {A} (l : list A) i d : (i < length l)%nat -> index l i = Ret (nth i l d).
Proof.
  intros Hi. unfold index. destruct (lookup_lt_is_Some_2 l i Hi) as [a Ha]. rewrite Ha.
  by rewrite (nth_lookup_Some _ _ _ _ Ha).
Qed.

(** What the sender keeps, and what it sends, for a transfer. *)
Definition sent_pads (alpha : Scalar * Scalar) (v : bytes * bytes) : (bytes * bytes) * (Scalar * Scalar) :=
  ((SMarshal (Sub (pads_of v.2).1 (pads_of v.1).1 + alpha.1), SMarshal (Sub (pads_of v.2).2 (pads_of v.1).2 + alpha.2)),
   pads_of v.1).

Lemma additive_pads_eq alpha v : additive_pads alpha v = Ret (sent_pads alpha v).
Proof.
  unfold additive_pads, sent_pads. rewrite !sample_pads_eq. cbn [mbind outcome_bind].
  destruct (pads_of v.1) as [r0 r1]. cbn [mbind outcome_bind]. by destruct (pads_of v.2).
Qed.

(** choice·α − pad *)
Definition received (choice : bool) (alpha pad : Scalar * Scalar) : Scalar * Scalar :=
  ((if choice then alpha.1 else 0) - pad.1, (if choice then alpha.2 else 0) - pad.2).

Lemma additive_receive_eq alpha choices (vs : list (bytes * bytes)) V i :
  (32 < length vs)%nat -> (i < length vs)%nat -> (i < length V)%nat ->
  nth i V [] = (if bit i choices then (nth i vs ([], [])).2 else (nth i vs ([], [])).1) ->
  additive_receive (sent_pads alpha <$> vs).*1 choices V i
  = Ret (received (bit i choices) alpha (pads_of (nth i vs ([], [])).1)).
Proof.
  intros Hn Hi HV EV. unfold additive_receive. rewrite (index_nth V i []) by done. cbn [mbind outcome_bind].
  rewrite sample_pads_eq. cbn [mbind outcome_bind]. rewrite (index_nth _ i ([], [])) by (by rewrite !length_fmap).
  destruct (pads_of (nth i V [])) as [p0 p1] eqn:Ep. cbn [mbind outcome_bind].
  assert (nth i (sent_pads alpha <$> vs).*1 ([], []) = (sent_pads alpha (nth i vs ([], []))).1) as ->.
  { rewrite (nth_fmap_lt _ _ _ (sent_pads alpha ([], []))) by (by rewrite length_fmap). f_equal. apply map_nth. }
  assert (forall (f : bytes * bytes -> bytes), (forall v, length (f (sent_pads alpha v).1) = 32%nat) ->
    Forall (fun row => length row = 32%nat) (f <$> (sent_pads alpha <$> vs).*1)) as HF.
  { intros f Hf. rewrite <- !list_fmap_compose. apply list.Forall_forall. intros row (v & -> & _)%list_elem_of_fmap. apply Hf. }
  rewrite bitAt_bit. set (mask := byte_neg (bit_byte (bit i choices))). set (v := nth i vs ([], [])) in *.
  pose proof (SMarshal_length (Sub (pads_of v.2).1 (pads_of v.1).1 + alpha.1)) as L0.
  pose proof (SMarshal_length (Sub (pads_of v.2).2 (pads_of v.1).2 + alpha.2)) as L1.
  pose proof (mask_pads_ok mask (sent_pads alpha <$> vs).*1.*1 0 [] (sent_pads alpha v).1.1) as M0.
  pose proof (mask_pads_ok mask (sent_pads alpha <$> vs).*1.*2 0 [] (sent_pads alpha v).1.2) as M1.
  cbn [app] in M0, M1. rewrite M0; [|rewrite (L0 : length (sent_pads alpha v).1.1 = 32%nat); apply (HF fst); intros; apply SMarshal_length
    |done|rewrite (L0 : length (sent_pads alpha v).1.1 = 32%nat), !length_fmap; done].
  cbn [mbind outcome_bind]. rewrite M1; [|rewrite (L1 : length (sent_pads alpha v).1.2 = 32%nat); apply (HF snd); intros; apply SMarshal_length
    |done|rewrite (L1 : length (sent_pads alpha v).1.2 = 32%nat), !length_fmap; done].
  cbn [mbind outcome_bind]. unfold mask. rewrite !mask_bit.
  rewrite (L0 : length (sent_pads alpha v).1.1 = 32%nat), (L1 : length (sent_pads alpha v).1.2 = 32%nat).
  unfold received. destruct (bit i choices).
  - cbn [sent_pads fst snd]. rewrite !decode_pad_marshal. cbn [mbind outcome_bind].
    rewrite EV in Ep. rewrite Ep. cbn [fst snd]. unfold Sub. do 2 f_equal; ring.
  - rewrite !decode_pad_zero. cbn [mbind outcome_bind]. rewrite EV in Ep. rewrite Ep. cbn [fst snd]. do 2 f_equal; ring.
Qed.

(** The pads [res] of the sender and what the receiver gets. *)
Record additive_ok (choices : bytes) (alpha : Scalar * Scalar) (res rres : list (Scalar * Scalar)) : Prop := {
  ao_res : length res = (8 * length choices)%nat;
  ao_rres : length rres = (8 * length choices)%nat;
  ao_sum i : (i < 8 * length choices)%nat ->
    nth i rres (0, 0) = received (bit i choices) alpha (nth i res (0, 0))
}.

Lemma additive_ot_run ctx s r choices alpha rand :
  corre_ok s r -> (32 < 8 * length choices)%nat -> exists msg r1 rand' pads res s1 rres,
    AdditiveOTReceiver_Round1 (NewAdditiveOTReceiver ctx r choices) rand = Ret (Some msg, r1, rand') /\
    (reliable rand -> reliable rand') /\
    AdditiveOTSender_Round1 (NewAdditiveOTSender ctx s (8 * length choices) alpha) (Some msg) = Ret (pads, res, s1) /\
    ar_ctxHash r1 = as_ctxHash s1 /\
    AdditiveOTReceiver_Round2 r1 (Some pads) = Ret rres /\ additive_ok choices alpha res rres.
Proof.
  intros OK Hn. destruct (extended_ot_run ctx s r choices rand OK) as (msg & V & h & ext & ER & ES & [LV L0 L1 EV]).
  unfold AdditiveOTReceiver_Round1, AdditiveOTSender_Round1. cbn [ar_ctxHash ar_setup ar_choices NewAdditiveOTReceiver].
  rewrite ER. cbn [mbind outcome_bind]. set (vs := zip (es_V0 ext) (es_V1 ext)).
  assert (length vs = 8 * length choices)%nat as Lvs by (unfold vs; rewrite length_zip_with; lia).
  exists msg, (mkAdditiveReceiver h r choices (Some V)). eexists _. exists (sent_pads alpha <$> vs).*1, (sent_pads alpha <$> vs).*2.
  exists (mkAdditiveSender h s (8 * length choices) alpha).
  exists ((fun i => received (bit i choices) alpha (pads_of (nth i vs ([], [])).1)) <$> seq 0 (8 * length choices)).
  split; [reflexivity|]. split; [apply read_dropped_reliable|]. split_and!.
  - cbn [deref mbind outcome_bind as_ctxHash as_setup as_batchSize as_alpha NewAdditiveOTSender]. rewrite ES. cbn [mbind outcome_bind].
    fold vs. rewrite (collect_map _ (sent_pads alpha)) by (intros; apply additive_pads_eq). reflexivity.
  - reflexivity.
  - unfold AdditiveOTReceiver_Round2. cbn [deref mbind outcome_bind ar_result ar_choices]. apply collect_map.
    intros i Hi%list_elem_of_In%in_seq. apply additive_receive_eq; [lia..|].
    rewrite EV by lia. unfold vs. rewrite (nth_zip_with _ _ _ i [] []) by lia. done.
  - constructor; rewrite ?length_fmap, ?length_seq; [done..|]. intros i Hi. rewrite nth_seq_fmap by done. f_equal.
    rewrite (nth_fmap_lt _ _ _ (sent_pads alpha ([], []))) by (by rewrite length_fmap, Lvs).
    rewrite (nth_fmap_lt _ _ _ ([], [])) by (by rewrite Lvs). done.
Qed.

(** ** The multiplication between honest parties *)

Lemma sample_scalars_ret n rd : reliable rd -> exists l, sample_scalars n rd = Ret l /\ length l = n.
Proof.
  revert rd. induction n as [|n IH]; intros rd Hr; [by exists []|]. cbn [sample_scalars].
  destruct (sample_Scalar_reliable rd Hr) as (x & rd' & -> & Hr'). cbn [mbind outcome_bind].
  destruct (IH rd' Hr') as (l & -> & <-). by exists (x :: l).
Qed.

#[local] Opaque gadget_powers doublings sample_scalars.

Hypothesis HS : ScalarBits = 256%nat.

Lemma makeGadget_ret ctx : exists noise,
  makeGadget ctx = Ret (gadget_powers 32 (SetNat 1) ++ noise) /\ length noise = 416%nat /\ scalarBytes = 256%nat.
Proof.
  assert (scalarBytes = 256%nat) as Eb by (unfold scalarBytes; by rewrite HS).
  unfold makeGadget. rewrite Eb, HS.
  destruct (sample_scalars_ret (8 * ((256 + 7) / 8 + (256 + 2 * StatParam + 7) / 8) - 256)
    (Digest (Fork ctx [BytesWithDomain "Multiply Gadget Sampling" None]))) as (noise & -> & Hl); [apply Digest_reliable|].
  exists noise. split_and!; [reflexivity|exact Hl|done].
Qed.

Lemma sample_chi_ret ctx : exists chi, sample_chi ctx = Ret chi.
Proof.
  unfold sample_chi. destruct (sample_Scalar_reliable (Digest (Fork ctx [BytesWithDomain "Multiply Chi Sampling" None])))
    as (c0 & d & -> & Hd); [apply Digest_reliable|]. cbn [mbind outcome_bind].
  destruct (sample_Scalar_reliable d Hd) as (c1 & d' & -> & _). by exists (c0, c1).
Qed.

Lemma ot_encode_ret beta noise rand :
  (length noise mod 8 = 0)%nat ->
  exists choices, ot_encode beta noise rand = Ret (choices, (read_dropped rand (length noise / 8)).2).
Proof.
  intros H. unfold ot_encode. destruct (read_dropped rand _) as [gamma rd]. rewrite decide_False by (intros N; by apply N).
  by eexists.
Qed.

(** A receiver that holds the encoding of its factor, and the matching sender. *)
Record receiver_ok (ctx : Hash) (r : CorreOTReceiveSetup) (beta : Scalar) (m : MultiplyReceiver) : Prop := {
  ro_gadget : makeGadget ctx = Ret (mr_gadget m);
  ro_receiver : mr_receiver m = NewAdditiveOTReceiver ctx r (mr_choices m);
  ro_length : length (mr_gadget m) = (8 * length (mr_choices m))%nat;
  ro_size : (32 < 8 * length (mr_choices m))%nat;
  ro_beta : dotb (mr_choices m) 0 (mr_gadget m) = beta
}.

Record sender_ok (ctx : Hash) (s : CorreOTSendSetup) (alpha : Scalar) (m : MultiplySender) : Prop := {
  sd_gadget : makeGadget ctx = Ret (mp_gadget m);
  sd_alpha : (mp_doubleAlpha m).1 = alpha;
  sd_sender : mp_sender m = NewAdditiveOTSender ctx s (length (mp_gadget m)) (mp_doubleAlpha m)
}.

Lemma NewMultiplyReceiver_ret ctx r beta rand : exists m rand',
  NewMultiplyReceiver ctx r beta rand = Ret (m, rand') /\ receiver_ok ctx r beta m /\ (reliable rand -> reliable rand').
Proof.
  destruct (makeGadget_ret ctx) as (noise & Eg & Ln & Eb). unfold NewMultiplyReceiver. rewrite Eg, Eb. cbn [mbind outcome_bind].
  rewrite drop_app_length' by (by rewrite length_gadget_powers).
  destruct (ot_encode_ret beta noise rand) as (choices & Ee); [by rewrite Ln|]. rewrite Ee. cbn [mbind outcome_bind].
  eexists _, _. split; [reflexivity|]. split; [|apply read_dropped_reliable].
  pose proof (ot_encode_spec _ _ _ _ _ Ee) as (Lc & _ & Ed). rewrite Ln in Lc.
  constructor; cbn [mr_gadget mr_receiver mr_choices]; [exact Eg|reflexivity| |rewrite Lc; cbn; lia|exact Ed].
  rewrite length_app, length_gadget_powers, Ln, Lc. reflexivity.
Qed.

Lemma NewMultiplySender_ret ctx s alpha rand : reliable rand -> exists m rand',
  NewMultiplySender ctx s alpha rand = Ret (m, rand') /\ sender_ok ctx s alpha m /\ reliable rand'.
Proof.
  intros Hr. destruct (makeGadget_ret ctx) as (noise & Eg & _). unfold NewMultiplySender. rewrite Eg. cbn [mbind outcome_bind].
  destruct (sample_Scalar_reliable rand Hr) as (a1 & rd & -> & Hd). cbn [mbind outcome_bind]. eexists _, _.
  split; [reflexivity|]. split; [by constructor|done].
Qed.

(** The shares weigh the pads with the gadget. *)
Lemma dot_share_sum choices alpha k g res rres :
  length res = length g -> length rres = length g ->
  (forall i, (i < length g)%nat -> nth i rres (0, 0) = received (bit (k + i) choices) alpha (nth i res (0, 0))) ->
  dot_share res g + dot_share rres g = alpha.1 * dotb choices k g.
Proof.
  unfold dot_share. intros H1 H2 H.
  assert (forall a b, foldl (fun share (p : (Scalar * Scalar) * Scalar) => share + p.1.1 * p.2) a (zip res g)
    + foldl (fun share (p : (Scalar * Scalar) * Scalar) => share + p.1.1 * p.2) b (zip rres g)
    = a + b + alpha.1 * dotb choices k g) as G; [|rewrite G; ring].
  revert k res rres H1 H2 H. induction g as [|x g IH]; intros k [|p res] [|q rres] H1 H2 H a b; try done.
  - cbn. ring.
  - cbn [zip zip_with foldl dotb fst snd]. rewrite (IH (S k)).
    + pose proof (H 0%nat ltac:(cbn; lia)) as E. rewrite Nat.add_0_r in E. cbn [nth] in E. rewrite E. unfold received. cbn [fst].
      destruct (bit k choices); ring.
    + cbn in H1. lia.
    + cbn in H2. lia.
    + intros i Hi. specialize (H (S i) ltac:(cbn; lia)). cbn [nth] in H. by replace (S k + i)%nat with (k + S i)%nat by lia.
Qed.

Lemma multiply_check_ok choices pads res rres alpha chi :
  additive_ok choices alpha res rres ->
  collect (multiply_check choices
      (mkMultiplySendMessage pads ((fun p : Scalar * Scalar => 0 + p.1 * chi.1 + p.2 * chi.2) <$> res)
         (0 + alpha.1 * chi.1 + alpha.2 * chi.2)) chi)
    (zip (seq 0 (length rres)) rres) = Ret ((fun _ => tt) <$> zip (seq 0 (length rres)) rres).
Proof.
  intros [Lr Lrr Hs]. apply collect_map. intros [i [r0 r1]] Hin.
  apply list_elem_of_lookup_1 in Hin as [k Hk]. apply lookup_zip_with_Some in Hk as (i' & q & [= -> <-] & Hi & Hq).
  apply lookup_seq in Hi as [-> Hi]. cbn [Nat.add] in *. unfold multiply_check. cbn [mm_RCheck mm_UCheck].
  rewrite (index_nth _ k 0) by (by rewrite length_fmap, Lr, <- Lrr). cbn [mbind outcome_bind].
  rewrite (nth_fmap_lt _ _ _ (0, 0)) by (by rewrite Lr, <- Lrr).
  pose proof (nth_lookup_Some _ _ (0, 0) _ Hq) as En. rewrite Hs in En by (by rewrite <- Lrr).
  unfold received in En. injection En as <- <-. unfold guard_or, SEqual. rewrite bool_decide_true; [done|].
  rewrite bitAt_bit, SetNat_bit. unfold Sub. destruct (bit k choices); ring.
Qed.

Lemma multiply_run ctx s r alpha beta mr ms rand :
  corre_ok s r -> receiver_ok ctx r beta mr -> sender_ok ctx s alpha ms -> exists m1 mr1 rand' m2 tA tB,
    MultiplyReceiver_Round1 mr rand = Ret (m1, mr1, rand') /\ (reliable rand -> reliable rand') /\
    MultiplySender_Round1 ms m1 = Ret (m2, tA) /\
    MultiplyReceiver_Round2 mr1 m2 = Ret tB /\ is_some m1 = true /\ tA + tB = alpha * beta.
Proof.
  intros OK [Rg Rr Rl Rs Rb] [Sg Sa Ss]. assert (mp_gadget ms = mr_gadget mr) as Eg by congruence.
  destruct ms as [[a0 a1] g sd]. cbn [mp_gadget mp_doubleAlpha mp_sender fst] in *. subst a0 g sd.
  destruct (additive_ot_run ctx s r (mr_choices mr) (alpha, a1) rand OK Rs)
    as (msg & r1 & rand' & pads & res & s1 & rres & E1 & Hr & E2 & Eh & E3 & AO).
  unfold MultiplyReceiver_Round1. rewrite Rr, E1. cbn [mbind outcome_bind]. eexists _, _, _.
  unfold MultiplySender_Round1. cbn [mp_gadget mp_doubleAlpha mp_sender]. rewrite Rl.
  destruct (sample_chi_ret (as_ctxHash s1)) as ([chi0 chi1] & Ec).
  eexists _, _, _. split; [reflexivity|]. split; [exact Hr|]. cbn [deref mbind outcome_bind]. rewrite E2. cbn [mbind outcome_bind].
  rewrite Ec. cbn [mbind outcome_bind].
  split; [reflexivity|]. unfold MultiplyReceiver_Round2. cbn [mr_receiver mr_choices mr_gadget mm_Msg]. rewrite E3. cbn [mbind outcome_bind].
  rewrite Eh, Ec. cbn [mbind outcome_bind].
  pose proof (multiply_check_ok (mr_choices mr) (Some pads) res rres (alpha, a1) (chi0, chi1) AO) as Hc. cbn [fst snd] in Hc.
  rewrite Hc. cbn [mbind outcome_bind]. split; [reflexivity|]. split; [reflexivity|].
  destruct AO as [Lr Lrr Hs]. rewrite (dot_share_sum (mr_choices mr) (alpha, a1) 0); [by rewrite Rb|congruence..|].
  intros i Hi. apply Hs. by rewrite <- Rl.
Qed.

End MultiplyProps.
