(* ===== verification/Arith.v ===== *)
(** * pkg/math/arith, and the numbers of saferith

    A [saferith.Nat], [saferith.Int] or [saferith.Modulus] is the integer it
    stands for: sizes and constant-time announcements are not modelled, and
    additions, multiplications and reductions are those of the integers.
    Exponentiation, inversion and the unit test are parameters of the model
    ([Saferith]) with their documented meaning.  The file defines the moduli
    of [modulus.go], which exponentiate through the factors when these are
    known, and the range checks of [int.go]. *)

From Stdlib Require Import ZArith Lia Znumtheory Zmod.
From stdpp Require Import base strings list pretty numbers.
From S2P Require Import Prelude Hash.

Local Open Scope Z_scope.

(** ** internal/params *)

Definition SecParam : nat := 256.
Definition StatParam : nat := 80.
Definition ZKModIterations : nat := 128.
Definition params_L : nat := 1 * SecParam.
Definition params_LPrime : nat := 5 * SecParam.
Definition params_Epsilon : nat := 2 * SecParam.
Definition LPlusEpsilon : nat := params_L + params_Epsilon.
Definition LPrimePlusEpsilon : nat := params_LPrime + params_Epsilon.
Definition BitsIntModN : nat := 8 * SecParam.
Definition BytesIntModN : nat := BitsIntModN / 8.
Definition BitsBlumPrime : nat := 4 * SecParam.
Definition BitsPaillier : nat := 2 * BitsBlumPrime.
Definition BytesPaillier : nat := BitsPaillier / 8.
Definition BytesCiphertext : nat := 2 * BytesPaillier.

(** ** Residues and units *)

Abbreviation residue n := (Zmod.Zmod n).

(** A residue that has an inverse. *)
Definition is_unit {n} (x : residue n) : Prop := Z.gcd (Zmod.to_Z x) n = 1.

Definition unitZ (x n : Z) : Prop := Z.gcd x n = 1.

Create HintDb units.

Lemma is_unit_of_Z x n : unitZ x n -> is_unit (Zmod.of_Z n x).
Proof. unfold is_unit, unitZ. by rewrite Zmod.to_Z_of_Z, Z.gcd_mod_l. Qed.

Lemma unitZ_to_Z {n} (x : residue n) : is_unit x -> unitZ (Zmod.to_Z x) n.
Proof. done. Qed.

(** A unit modulo m is one modulo every divisor of m. *)
Lemma unitZ_divide z n m : (n | m) -> unitZ z m -> unitZ z n.
Proof.
  unfold unitZ. intros D E. apply Z.divide_1_r_nonneg; [apply Z.gcd_nonneg|]. rewrite <- E.
  apply Z.gcd_greatest; [apply Z.gcd_divide_l|]. etrans; [apply Z.gcd_divide_r|done].
Qed.

Lemma unitZ_product z n m : unitZ z (n * m) <-> unitZ z n /\ unitZ z m.
Proof.
  split; [|intros []; by apply Z.coprime_mul_r].
  intros H. split; eapply unitZ_divide; [|done| |done]; [by exists m; lia|by exists n].
Qed.

Lemma unitZ_mul x y n : unitZ x n -> unitZ y n -> unitZ (x * y) n.
Proof. unfold unitZ. intros Hx Hy. by apply Z.coprime_mul_l. Qed.

Lemma is_unit_mul {n} (x y : residue n) : is_unit x -> is_unit y -> is_unit (Zmod.mul x y).
Proof. unfold is_unit. intros Hx Hy. rewrite Zmod.to_Z_mul, Z.gcd_mod_l. by apply unitZ_mul. Qed.

Lemma is_unit_inv {n} (x : residue n) : is_unit x -> is_unit (Zmod.inv x).
Proof. unfold is_unit. intros Hx. rewrite Zmod.to_Z_inv. by apply Z.coprime_invmod. Qed.

Lemma is_unit_pow {n} (x : residue n) e : is_unit x -> is_unit (Zmod.pow x e).
Proof.
  intros Hx. assert (forall k, 0 <= k -> is_unit (Zmod.pow x k)) as Hk.
  { intros k Hk. unfold is_unit in *. rewrite Zmod.to_Z_pow_nonneg_r, Z.gcd_mod_l by done. by apply Z.coprime_pow_l. }
  destruct (Z.le_gt_cases 0 e); [by apply Hk|]. rewrite Zmod.pow_neg by lia. apply is_unit_inv, Hk. lia.
Qed.

Lemma is_unit_one n : is_unit (@Zmod.one n).
Proof. apply Zmod.gcd_1_m. Qed.

Lemma unit_pos x n : 1 < n -> unitZ x n -> 0 <= x -> 0 < x.
Proof.
  intros Hn Hx H0. destruct (decide (x = 0)) as [->|]; [|lia]. unfold unitZ in Hx. rewrite Z.gcd_0_l in Hx. lia.
Qed.

Lemma unit_range {n} (x : residue n) : 1 < n -> is_unit x -> 0 < Zmod.to_Z x < n.
Proof.
  intros Hn Hx. pose proof (Zmod.unsigned_pos_bound x ltac:(lia)) as B. split; [|lia].
  apply (unit_pos _ n); [done|exact Hx|lia].
Qed.

Lemma unit_mod_range x n : 1 < n -> unitZ x n -> 0 < x mod n < n.
Proof. intros Hn Hx. rewrite <- Zmod.to_Z_of_Z. apply unit_range; [done|]. by apply is_unit_of_Z. Qed.

#[export] Hint Resolve is_unit_of_Z unitZ_to_Z unitZ_mul is_unit_mul is_unit_inv is_unit_pow is_unit_one : units.

(** Residues of products. *)
Lemma of_Z_mod n z : Zmod.of_Z n (z mod n) = Zmod.of_Z n z.
Proof. apply Zmod.of_Z_mod. Qed.

Lemma to_of_mul n x y : (x * y) mod n = Zmod.to_Z (Zmod.mul (Zmod.of_Z n x) (Zmod.of_Z n y)).
Proof. by rewrite <- Zmod.of_Z_mul, Zmod.to_Z_of_Z. Qed.

(** Equal integers in range are equal residues. *)
Lemma of_Z_inj_small n a b : 0 <= a < n -> 0 <= b < n -> Zmod.of_Z n a = Zmod.of_Z n b -> a = b.
Proof.
  intros Ha Hb E%(f_equal Zmod.to_Z). by rewrite !Zmod.to_Z_of_Z, !Z.mod_small in E.
Qed.

(** ** saferith *)

Class Saferith := {
  (** [Nat.Exp] *)
  sf_Exp : Z -> Z -> Z -> Z;
  (** [Nat.ExpI] *)
  sf_ExpI : Z -> Z -> Z -> Z;
  (** [Nat.ModInverse] *)
  sf_ModInverse : Z -> Z -> Z;
  (** [Nat.IsUnit] *)
  sf_IsUnit : Z -> Z -> bool;
  (** [Nat.MarshalBinary] and [Modulus.MarshalBinary] *)
  sf_MarshalBinary : Z -> bytes
}.

(** "Exp calculates z <- x^y mod m"; "ExpI calculates z <- x^i mod m", with a
    negative exponent only for an invertible x; "ModInverse calculates
    z <- x^-1 mod m", for an invertible x; "IsUnit checks if x is a unit". *)
Class SaferithLaws (S : Saferith) : Prop := {
  exp_spec x e n : 0 < n -> 0 <= e -> sf_Exp x e n = Zmod.to_Z (Zmod.pow (Zmod.of_Z n x) e);
  expi_spec x e n : 0 < n -> unitZ x n -> sf_ExpI x e n = Zmod.to_Z (Zmod.pow (Zmod.of_Z n x) e);
  inverse_spec x n : 0 < n -> unitZ x n -> sf_ModInverse x n = Zmod.to_Z (Zmod.inv (Zmod.of_Z n x));
  unit_spec x n : 0 < n -> sf_IsUnit x n = true <-> unitZ x n
}.

(** Integer arithmetic that meets the documentation. *)
Definition simple_saferith : Saferith := {|
  sf_Exp := fun x e n => Zmod.to_Z (Zmod.pow (Zmod.of_Z n x) e);
  sf_ExpI := fun x e n => Zmod.to_Z (Zmod.pow (Zmod.of_Z n x) e);
  sf_ModInverse := fun x n => Zmod.to_Z (Zmod.inv (Zmod.of_Z n x));
  sf_IsUnit := fun x n => bool_decide (Z.gcd x n = 1);
  sf_MarshalBinary := be_min
|}.

Lemma simple_saferith_laws : SaferithLaws simple_saferith.
Proof. constructor; cbn; try done. intros x n _. unfold unitZ. by rewrite bool_decide_eq_true. Qed.

(** [big.Int.Exp] with a positive modulus and an exponent that is not
    negative. *)
Definition big_Exp (x e m : Z) : Z := Zmod.to_Z (Zmod.pow (Zmod.of_Z m x) e).

(** [TrueLen]: the number of bits of the absolute value. *)
Definition TrueLen (x : Z) : Z := if decide (x = 0) then 0 else Z.log2 (Z.abs x) + 1.

Lemma TrueLen_bound x b : 0 <= b -> TrueLen x <= b <-> Z.abs x < 2 ^ b.
Proof.
  intros Hb. unfold TrueLen. destruct (decide (x = 0)) as [->|N].
  - cbn. pose proof (Z.pow_pos_nonneg 2 b). lia.
  - rewrite (Z.log2_lt_pow2 (Z.abs x) b) by lia. lia.
Qed.

(** ** modulus.go *)

Section Modulus.
Context {S : Saferith}.

Record Modulus := mkModulus {
  mod_n : Z;
  (** p, q, p as a Nat, p⁻¹ modulo q *)
  mod_factors : option (Z * Z * Z * Z)
}.

Definition ModulusFromN (n : Z) : Modulus := mkModulus n None.

Definition ModulusFromFactors (p q : Z) : Modulus :=
  mkModulus (p * q) (Some (p, q, p, sf_ModInverse p q)).

Definition hasFactorization (n : Modulus) : bool := bool_decide (is_Some (mod_factors n)).

Definition Modulus_Exp (n : Modulus) (x e : Z) : Z :=
  match mod_factors n with
  | Some (p, q, pNat, pInv) =>
      let xp := sf_Exp x e p in
      let xq := sf_Exp x e q in
      let r := (xq - xp) mod mod_n n in
      let r := (r * pInv) mod mod_n n in
      let r := (r * pNat) mod mod_n n in
      (r + xp) mod mod_n n
  | None => sf_Exp x e (mod_n n)
  end.

Definition Modulus_ExpI (n : Modulus) (x e : Z) : Z :=
  if hasFactorization n then
    let y := Modulus_Exp n x (Z.abs e) in
    let inverted := sf_ModInverse y (mod_n n) in
    if decide (e < 0) then inverted else y
  else sf_ExpI x e (mod_n n).

(** The moduli that the two constructors build from valid arguments. *)
Definition modulus_ok (n : Modulus) : Prop :=
  1 < mod_n n /\
  forall p q pNat pInv, mod_factors n = Some (p, q, pNat, pInv) ->
    1 < p /\ 1 < q /\ Z.gcd p q = 1 /\ mod_n n = p * q /\ pNat = p /\ (p * pInv) mod q = 1.

Context {SL : SaferithLaws S}.

Lemma ModulusFromN_ok n : 1 < n -> modulus_ok (ModulusFromN n).
Proof. split; done. Qed.

Lemma ModulusFromFactors_ok p q : 1 < p -> 1 < q -> Z.gcd p q = 1 -> modulus_ok (ModulusFromFactors p q).
Proof.
  intros Hp Hq Hg. split; [cbn; nia|]. intros ? ? ? ? [= <- <- <- <-]. split_and!; try done.
  rewrite inverse_spec by (done || lia).
  assert (is_unit (Zmod.of_Z q p)) as U by by apply is_unit_of_Z.
  pose proof (Zmod.mul_inv_same_r_coprime _ U) as E. apply (f_equal Zmod.to_Z) in E.
  rewrite Zmod.to_Z_mul, Zmod.to_Z_of_Z, Zmult_mod_idemp_l, Zmod.to_Z_1 in E by lia.
  rewrite E. apply Z.mod_small. lia.
Qed.

(** Divisibility by two coprime numbers. *)
Lemma coprime_divides p q z : Z.gcd p q = 1 -> (p | z) -> (q | z) -> (p * q | z).
Proof.
  intros Hg [a ->] D. rewrite (Z.mul_comm a p) in *. apply Z.mul_divide_mono_l.
  apply (Z.gauss q p a); [done|]. by rewrite Z.gcd_comm.
Qed.

(** Chinese remaindering. *)
Lemma crt_combine p q i a :
  1 < p -> 1 < q -> Z.gcd p q = 1 -> (p * i) mod q = 1 ->
  ((a mod q - a mod p) * i * p + a mod p) mod (p * q) = a mod (p * q).
Proof.
  intros Hp Hq Hg Hi. symmetry. apply Z.cong_iff_0, Z.mod_divide; [nia|].
  pose proof (Z.div_mod a p ltac:(lia)) as Ep. pose proof (Z.div_mod a q ltac:(lia)) as Eq.
  pose proof (Z.div_mod (p * i) q ltac:(lia)) as Ei. rewrite Hi in Ei.
  set (k := p * i / q) in *. clearbody k. apply coprime_divides; [done| |].
  - exists (a / p - (a mod q - a mod p) * i). lia.
  - exists (a / q - (a mod q - a mod p) * k).
    transitivity (a - ((a mod q - a mod p) * (p * i) + a mod p)); [lia|]. rewrite Ei. lia.
Qed.

Lemma Modulus_Exp_spec n x e :
  modulus_ok n -> 0 <= e -> Modulus_Exp n x e = Zmod.to_Z (Zmod.pow (Zmod.of_Z (mod_n n) x) e).
Proof.
  intros [Hn Hf] He. unfold Modulus_Exp. destruct (mod_factors n) as [[[[p q] pNat] pInv]|].
  2: { by apply exp_spec; [lia|]. }
  destruct (Hf _ _ _ _ eq_refl) as (Hp & Hq & Hg & En & -> & Hi). clear Hf.
  rewrite !exp_spec by lia. rewrite !Zmod.to_Z_pow_nonneg_r, !Zmod.to_Z_of_Z by done.
  rewrite !Z.mod_pow_l, En.
  by rewrite (Zmult_mod_idemp_l (_ - _) pInv), Zmult_mod_idemp_l, Zplus_mod_idemp_l, crt_combine.
Qed.

Lemma Modulus_ExpI_spec n x e :
  modulus_ok n -> unitZ x (mod_n n) -> Modulus_ExpI n x e = Zmod.to_Z (Zmod.pow (Zmod.of_Z (mod_n n) x) e).
Proof.
  intros Hn Hx. pose proof Hn as [H1 _]. unfold Modulus_ExpI. case_match; [|by apply expi_spec; [lia|]].
  rewrite Modulus_Exp_spec by (done || lia). destruct (decide (e < 0)).
  - rewrite inverse_spec by (auto with units; lia). rewrite Zmod.of_Z_to_Z.
    rewrite (Zmod.pow_neg _ e) by lia. by rewrite Z.abs_neq by lia.
  - by rewrite Z.abs_eq by lia.
Qed.

End Modulus.

(** ** int.go *)

Section Checks.
Context {S : Saferith}.

(** [IsValidNatModN]; the arguments are [nil]-able pointers to naturals. *)
Fixpoint IsValidNatModN (N : Z) (ints : list (option Z)) : bool :=
  match ints with
  | [] => true
  | None :: _ => false
  | Some i :: r =>
      if negb (i <? N) then false else if negb (sf_IsUnit i N) then false else IsValidNatModN N r
  end.

(** [IsValidBigModN] *)
Fixpoint IsValidBigModN (N : Z) (ints : list (option Z)) : bool :=
  match ints with
  | [] => true
  | None :: _ => false
  | Some i :: r =>
      if negb (0 <? i) then false
      else if negb (i <? N) then false
      else if negb (Z.gcd i N =? 1) then false else IsValidBigModN N r
  end.

Definition IsInIntervalLEps (n : option Z) : bool :=
  match n with None => false | Some n => TrueLen n <=? Z.of_nat LPlusEpsilon end.

Definition IsInIntervalLPrimeEps (n : option Z) : bool :=
  match n with None => false | Some n => TrueLen n <=? Z.of_nat LPrimePlusEpsilon end.

Definition IsInIntervalLEpsPlus1RootN (n : option Z) : bool :=
  match n with
  | None => false
  | Some n => TrueLen n <=? 1 + Z.of_nat LPlusEpsilon + Z.of_nat (BitsIntModN / 2)
  end.

(** The elements the two checks accept. *)
Definition valid_mod (N : Z) (i : option Z) : Prop :=
  exists z, i = Some z /\ 0 < z < N /\ unitZ z N.

Lemma IsValidNatModN_spec {SL : SaferithLaws S} N ints :
  1 < N -> Forall (fun i => forall z, i = Some z -> 0 <= z) ints ->
  IsValidNatModN N ints = true <-> Forall (valid_mod N) ints.
Proof.
  intros HN. induction 1 as [|[i|] r Hi Hr IH]; cbn.
  - by split.
  - specialize (Hi _ eq_refl). rewrite Forall_cons_iff. unfold valid_mod at 1.
    destruct (Z.ltb_spec i N); cbn; [|split; [done|]; intros [(z & [= <-] & ? & _) _]; lia].
    destruct (sf_IsUnit i N) eqn:U; cbn.
    + apply unit_spec in U; [|lia]. rewrite IH. split; [|by intros []]. intros ?. split; [|done].
      exists i. split_and!; try done. destruct (decide (i = 0)) as [->|]; [|lia].
      unfold unitZ in U. rewrite Z.gcd_0_l in U. lia.
    + split; [done|]. intros [(z & [= <-] & _ & Hz) _]. apply unit_spec in Hz; [|lia]. congruence.
  - split; [done|]. rewrite Forall_cons_iff. by intros [(z & [=] & _) _].
Qed.

Lemma IsValidBigModN_spec N ints : IsValidBigModN N ints = true <-> Forall (valid_mod N) ints.
Proof.
  induction ints as [|[i|] r IH]; cbn.
  - by split.
  - rewrite Forall_cons_iff. unfold valid_mod at 1, unitZ.
    destruct (Z.ltb_spec 0 i); cbn; [|split; [done|]; intros [(z & [= <-] & ? & _) _]; lia].
    destruct (Z.ltb_spec i N); cbn; [|split; [done|]; intros [(z & [= <-] & ? & _) _]; lia].
    destruct (Z.eqb_spec (Z.gcd i N) 1); cbn; [|split; [done|]; intros [(z & [= <-] & _ & ?) _]; lia].
    rewrite IH. split; [|by intros []]. intros ?. split; [|done]. by exists i.
  - split; [done|]. rewrite Forall_cons_iff. by intros [(z & [=] & _) _].
Qed.

Lemma IsInIntervalLEps_spec n :
  IsInIntervalLEps (Some n) = true <-> Z.abs n < 2 ^ Z.of_nat LPlusEpsilon.
Proof. unfold IsInIntervalLEps. rewrite Z.leb_le. apply TrueLen_bound. lia. Qed.

Lemma IsInIntervalLPrimeEps_spec n :
  IsInIntervalLPrimeEps (Some n) = true <-> Z.abs n < 2 ^ Z.of_nat LPrimePlusEpsilon.
Proof. unfold IsInIntervalLPrimeEps. rewrite Z.leb_le. apply TrueLen_bound. lia. Qed.

Lemma IsInIntervalLEpsPlus1RootN_spec n :
  IsInIntervalLEpsPlus1RootN (Some n) = true <->
  Z.abs n < 2 ^ (1 + Z.of_nat LPlusEpsilon + Z.of_nat (BitsIntModN / 2)).
Proof. unfold IsInIntervalLEpsPlus1RootN. rewrite Z.leb_le. apply TrueLen_bound. lia. Qed.

End Checks.
