(* ===== verification/SampleInts.v ===== *)
(** * pkg/math/sample: integers, moduli and primes

    The samplers of [sample.go] for residues, the signed intervals of
    [plus_minus.go], and the search for Blum primes of [prime.go] with its
    two sieves.  [big.Int.ProbablyPrime] is a parameter. *)

From Stdlib Require Import ZArith Lia Znumtheory Zmod.
From Stdlib Require Import Strings.Byte.
From stdpp Require Import base strings list pretty numbers.
From S2P Require Import Prelude Hash Curve Primes Arith Sample.

Local Open Scope Z_scope.

(** ** sample.go *)

(** [(n.BitLen()+7)/8] *)
Definition modulus_bytes (n : Z) : nat := Z.to_nat ((TrueLen n + 7) / 8).

Definition out_of_fuel : string := "out of fuel".

(** The loop of [ModN] has no bound in the code; [fuel] iterations are run. *)
Fixpoint ModN (fuel : nat) (rand : reader) (n : Z) : outcome (Z * reader) :=
  match fuel with
  | O => Panic out_of_fuel
  | S fuel =>
      '(buf, rand) ← mustReadBits rand (modulus_bytes n);
      let out := be_to_Z buf in
      if out <? n then Ret (out, rand) else ModN fuel rand n
  end.

Section Units.
Context {S : Saferith}.

Fixpoint UnitModN_loop (k : nat) (rand : reader) (n : Z) : outcome (Z * reader) :=
  match k with
  | O => Panic ErrMaxIterations
  | Datatypes.S k =>
      '(buf, rand) ← mustReadBits rand (modulus_bytes n);
      let out := be_to_Z buf in
      if sf_IsUnit out n then Ret (out, rand) else UnitModN_loop k rand n
  end.

Definition UnitModN (rand : reader) (n : Z) : outcome (Z * reader) :=
  UnitModN_loop maxIterations rand n.

(** [sample.Pedersen]: s = t^λ for a random square t. *)
Definition sample_Pedersen (fuel : nat) (rand : reader) (phi n : Z) : outcome (Z * Z * Z * reader) :=
  '(lambda, rand) ← ModN fuel rand phi;
  '(tau, rand) ← UnitModN rand n;
  let t := (tau * tau) mod n in
  let s := sf_Exp t lambda n in
  Ret (s, t, lambda, rand).

End Units.

(** [big.Jacobi], as the standard library computes it, for a positive odd
    [y]; the denominator shrinks at every other step, so twice its bit length
    bounds the number of steps. *)
Fixpoint trailing_zeros (a : positive) : Z :=
  match a with xO a => 1 + trailing_zeros a | _ => 0 end.

Fixpoint jacobi_loop (fuel : nat) (a b j : Z) : Z :=
  match fuel with
  | O => 0
  | S fuel =>
      if b =? 1 then j
      else match a mod b with
           | Zpos a' =>
               let s := trailing_zeros a' in
               let j := if Z.odd s && ((b mod 8 =? 3) || (b mod 8 =? 5)) then - j else j in
               let c := Z.shiftr (Zpos a') s in
               let j := if (b mod 4 =? 3) && (c mod 4 =? 3) then - j else j in
               jacobi_loop fuel b c j
           | _ => 0
           end
  end.

Definition Jacobi (x y : Z) : outcome Z :=
  if Z.even y then Panic "big: invalid 2nd argument to Int.Jacobi: need odd integer"
  else Ret (jacobi_loop (2 * Z.to_nat (TrueLen y) + 1) x y 1).

Fixpoint QNR_loop (k : nat) (rand : reader) (n : Z) : outcome (Z * reader) :=
  match k with
  | O => Panic ErrMaxIterations
  | S k =>
      '(buf, rand) ← mustReadBits rand (BitsIntModN / 8);
      let w := be_to_Z buf mod n in
      j ← Jacobi w n;
      if j =? -1 then Ret (w, rand) else QNR_loop k rand n
  end.

Definition QNR (rand : reader) (n : Z) : outcome (Z * reader) := QNR_loop maxIterations rand n.

(** ** plus_minus.go *)

Definition IntervalL (rand : reader) := sampleNeg rand params_L.
Definition IntervalLPrime (rand : reader) := sampleNeg rand params_LPrime.
Definition IntervalEps (rand : reader) := sampleNeg rand params_Epsilon.
Definition IntervalLEps (rand : reader) := sampleNeg rand LPlusEpsilon.
Definition IntervalLPrimeEps (rand : reader) := sampleNeg rand LPrimePlusEpsilon.
Definition IntervalLN (rand : reader) := sampleNeg rand (params_L + BitsIntModN).
Definition IntervalLN2 (rand : reader) := sampleNeg rand (params_L + 2 * BitsIntModN).
Definition IntervalLEpsN (rand : reader) := sampleNeg rand (LPlusEpsilon + BitsIntModN).
Definition IntervalLEpsN2 (rand : reader) := sampleNeg rand (LPlusEpsilon + 2 * BitsIntModN).
Definition IntervalLEpsRootN (rand : reader) := sampleNeg rand (LPlusEpsilon + BitsIntModN / 2).
Definition IntervalScalar `{Curve} (rand : reader) := sampleNeg rand ScalarBits.

(** ** prime.go *)

(** [for i := i; i < len(sieve); i += p { sieve[i] = false }] *)
Fixpoint cross_out (fuel : nat) (sieve : list bool) (i p : nat) : list bool :=
  match fuel with
  | O => sieve
  | S fuel =>
      if decide (i < length sieve)%nat then cross_out fuel (<[i := false]> sieve) (i + p) p else sieve
  end.

(** [for ; p*p < len(sieve); p++ { ... }] *)
Fixpoint sieve_loop (fuel : nat) (sieve : list bool) (p : nat) : list bool :=
  match fuel with
  | O => sieve
  | S fuel =>
      if decide (p * p < length sieve)%nat then
        let sieve := if (sieve !!! p : bool) then cross_out (length sieve) sieve (Nat.shiftl p 1) p else sieve in
        sieve_loop fuel sieve (S p)
      else sieve
  end.

Definition primes (below : nat) : list nat :=
  let sieve := (fun i => bool_decide (2 <= i)%nat) <$> seq 0 below in
  let sieve := sieve_loop below sieve 2 in
  filter (fun p => sieve !! p = Some true) (seq 3 (below - 3)).

Definition sieveSize : nat := Nat.shiftl 1 18.
Definition primeBound : nat := Nat.shiftl 1 20.
Definition blumPrimalityIterations : nat := 20.

(** [big.Int.ProbablyPrime(n)]: a function of the number and of [n]. *)
Class BigPrime := ProbablyPrime : Z -> nat -> bool.

(** "ProbablyPrime(n) ... if x is prime, ProbablyPrime returns true." *)
Class BigPrimeLaws (B : BigPrime) : Prop := {
  probably_prime p k : Z.prime p -> ProbablyPrime p k = true
}.

(** Two sieve entries per step: [for i := i; i+1 < len(sieve); i += p]. *)
Fixpoint cross_out2 (fuel : nat) (sieve : list bool) (i p : nat) : list bool :=
  match fuel with
  | O => sieve
  | S fuel =>
      if decide (i + 1 < length sieve)%nat
      then cross_out2 fuel (<[i + 1 := false]> (<[i := false]> sieve)) (i + p) p else sieve
  end%nat.

(** Three sieve entries per step: [for i := 1; i+2 < len(sieve); i += 4]. *)
Fixpoint cross_out3 (fuel : nat) (sieve : list bool) (i : nat) : list bool :=
  match fuel with
  | O => sieve
  | S fuel =>
      if decide (i + 2 < length sieve)%nat
      then cross_out3 fuel (<[i + 2 := false]> (<[i + 1 := false]> (<[i := false]> sieve))) (i + 4) else sieve
  end%nat.

(** One prime of the sieve. *)
Definition sieve_prime (base : Z) (sieve : list bool) (prime : nat) : list bool :=
  let r := Z.to_nat (base mod Z.of_nat prime) in
  let firstMultiple := if decide (r = 0%nat) then 0%nat else (prime - r)%nat in
  cross_out2 (length sieve) sieve firstMultiple prime.

Section Blum.
Context {B : BigPrime}.

(** The scan over the candidates that are left. *)
Fixpoint scan (bits : nat) (base : Z) (delta : Z) (sieve : list bool) : option Z :=
  match sieve with
  | [] => None
  | false :: sieve => scan bits base (delta + 1) sieve
  | true :: sieve =>
      let p := delta + base in
      if Z.of_nat bits <? TrueLen p then None
      else
        let q := Z.shiftr p 1 in
        if negb (ProbablyPrime q blumPrimalityIterations) then scan bits base (delta + 1) sieve
        else if negb (ProbablyPrime p 0) then scan bits base (delta + 1) sieve
        else Some p
  end.

(** [bytes[len(bytes)-1] |= 3; bytes[0] |= 0xC0] *)
Definition set_bits (buf : bytes) : bytes :=
  let buf := alter (fun b => byte_of_Z (Z.lor (byteZ b) 3)) (length buf - 1)%nat buf in
  alter (fun b => byte_of_Z (Z.lor (byteZ b) 192)) 0%nat buf.

(** [tryBlumPrime] for a number of bits, a sieve length and a list of
    primes. *)
Definition try_blum (bits size : nat) (thePrimes : list nat) (rand : reader) : option Z * reader :=
  match ReadFull rand ((bits + 7) / 8) with
  | (None, rand) => (None, rand)
  | (Some buf, rand) =>
      let base := be_to_Z (set_bits buf) in
      let sieve := replicate size true in
      let sieve := cross_out3 size sieve 1 in
      let sieve := foldl (sieve_prime base) sieve thePrimes in
      (scan bits base 0 sieve, rand)
  end.

Definition tryBlumPrime (rand : reader) : option Z * reader :=
  try_blum BitsBlumPrime sieveSize (primes primeBound) rand.

(** [searchAlone] on a function of the reader: the first results that are not
    nil. *)
Fixpoint searchAlone {A} (fuel : nat) (f : reader -> option A * reader) (count : nat) (rand : reader) :
    outcome (list A * reader) :=
  match count, fuel with
  | O, _ => Ret ([], rand)
  | _, O => Panic out_of_fuel
  | S count', S fuel =>
      match f rand with
      | (None, rand) => searchAlone fuel f count rand
      | (Some a, rand) => '(l, rand) ← searchAlone fuel f count' rand; Ret (a :: l, rand)
      end
  end.

(** [sample.Paillier] without a pool. *)
Definition sample_Paillier (fuel : nat) (rand : reader) : outcome (Z * Z * reader) :=
  '(results, rand) ← searchAlone fuel tryBlumPrime 2 rand;
  match results with
  | [p; q] => Ret (p, q, rand)
  | _ => Panic "interface conversion"
  end.

End Blum.

(** ** Residues *)

Lemma ModN_range fuel rand n x rand' : ModN fuel rand n = Ret (x, rand') -> 0 <= x < n.
Proof.
  revert rand. induction fuel as [|fuel IH]; cbn [ModN]; intros rand; [done|].
  intros ([buf r] & _ & E)%bind_ret_inv. destruct (Z.ltb_spec (be_to_Z buf) n); [|by eapply IH].
  injection E as <- _. pose proof (be_to_Z_bound buf). lia.
Qed.

(** The value of the [j]-th read of a sampler that reads [w] bytes at a time
    from a reader that does not fail. *)
Definition draw (rand : reader) (w j : nat) : Z :=
  be_to_Z (map (r_bytes rand) (seq (r_off rand + j * w) w)).

(** With more fuel than draws before the first one below [n], [ModN] returns
    that draw. *)
Lemma ModN_returns fuel rand n j :
  (forall k, r_fails rand k = false) -> (j < fuel)%nat ->
  draw rand (modulus_bytes n) j < n ->
  (forall i, (i < j)%nat -> n <= draw rand (modulus_bytes n) i) ->
  exists rand', ModN fuel rand n = Ret (draw rand (modulus_bytes n) j, rand').
Proof.
  unfold draw. set (w := modulus_bytes n). intros Hf. revert fuel rand Hf.
  induction j as [|j IH]; intros [|fuel] rand Hf Hj Hlt Hge; try lia; cbn [ModN];
    unfold mustReadBits; cbn [maxIterations read_loop]; unfold ReadFull; rewrite Hf; cbn; fold w.
  - rewrite Nat.add_0_r in *. destruct (Z.ltb_spec (be_to_Z (map (r_bytes rand) (seq (r_off rand) w))) n); [eauto|lia].
  - pose proof (Hge 0%nat ltac:(lia)) as H0. cbn in H0. rewrite Nat.add_0_r in H0.
    destruct (Z.ltb_spec (be_to_Z (map (r_bytes rand) (seq (r_off rand) w))) n); [lia|].
    change (S j * w)%nat with (w + j * w)%nat in Hlt. rewrite Nat.add_assoc in Hlt |- *.
    apply (IH fuel (Reader (r_bytes rand) (r_off rand + w) (r_fails rand) (S (r_calls rand)))); cbn; [done|lia|done|].
    intros i Hi. specialize (Hge (S i) ltac:(lia)).
    by replace (r_off rand + S i * w)%nat with (r_off rand + w + i * w)%nat in Hge by lia.
Qed.

Lemma UnitModN_unit {S} {SL : SaferithLaws S} rand n u rand' :
  0 < n -> UnitModN rand n = Ret (u, rand') -> 0 <= u < 256 ^ Z.of_nat (modulus_bytes n) /\ unitZ u n.
Proof.
  intros Hn. unfold UnitModN. generalize maxIterations as k. intros k. revert rand.
  induction k as [|k IH]; cbn [UnitModN_loop]; intros rand; [done|].
  intros ([buf r] & R & E)%bind_ret_inv. destruct (sf_IsUnit _ _) eqn:U; [|by eapply IH].
  apply unit_spec in U; [|done]. injection E as <- _. split; [|done].
  apply read_loop_length in R. rewrite <- R. apply be_to_Z_bound.
Qed.

Lemma sample_Pedersen_spec {S} {SL : SaferithLaws S} fuel rand phi n s t lambda rand' :
  1 < n -> sample_Pedersen fuel rand phi n = Ret (s, t, lambda, rand') ->
  0 <= lambda < phi /\ unitZ t n /\ 0 < t < n /\
  s = Zmod.to_Z (Zmod.pow (Zmod.of_Z n t) lambda) /\ unitZ s n /\ 0 < s < n.
Proof.
  intros Hn ([l r1] & El%ModN_range & E)%bind_ret_inv.
  apply bind_ret_inv in E as ([tau r2] & [_ Ht]%UnitModN_unit & E); [|lia].
  injection E as <- <- <- _.
  assert (unitZ (tau * tau) n) as Ut by auto with units. rewrite exp_spec, of_Z_mod by lia.
  assert (is_unit (Zmod.pow (Zmod.of_Z n (tau * tau)) l)) as Us by auto with units.
  split; [done|]. split; [unfold unitZ; by rewrite Z.gcd_mod_l|].
  split; [by apply unit_mod_range|]. split; [done|]. split; [done|]. by apply unit_range.
Qed.

(** ** The sieve of [primes] *)

Lemma length_cross_out fuel sieve i p : length (cross_out fuel sieve i p) = length sieve.
Proof.
  revert sieve i. induction fuel as [|fuel IH]; cbn; intros sieve i; [done|].
  destruct (decide _); [|done]. by rewrite IH, length_insert.
Qed.

(** The entries i, i+p, i+2p, ... are cleared, the others kept. *)
Lemma cross_out_lookup fuel sieve i p x :
  (0 < p)%nat -> (length sieve - i <= fuel)%nat -> (x < length sieve)%nat ->
  cross_out fuel sieve i p !! x = Some true <->
  sieve !! x = Some true /\ ~ exists k, x = (i + k * p)%nat.
Proof.
  intros Hp. revert sieve i. induction fuel as [|fuel IH]; cbn; intros sieve i Hf Hx.
  - split; [|by intros []]. intros E. split; [done|]. intros [k ->]. lia.
  - destruct (decide (i < length sieve)%nat) as [Hi|Hi].
    + rewrite IH by (rewrite length_insert; lia). split.
      * intros [E Hn]. destruct (decide (x = i)) as [->|N]; [by rewrite list_lookup_insert_eq in E by done|].
        rewrite list_lookup_insert_ne in E by done. split; [done|]. intros [[|k] Ek]; [lia|].
        apply Hn. exists k. lia.
      * intros [E Hn]. rewrite list_lookup_insert_ne.
        -- split; [done|]. intros [k Ek]. apply Hn. exists (S k). lia.
        -- intros ->. apply Hn. exists 0%nat. lia.
    + split; [|by intros []]. intros E. split; [done|]. intros [k ->]. lia.
Qed.

(** [x] has no proper divisor below [p]. *)
Definition survives (p x : nat) : Prop :=
  (2 <= x)%nat /\ forall d, (2 <= d < p)%nat -> Nat.divide d x -> d = x.

Definition sieved (p : nat) (sieve : list bool) : Prop :=
  forall x, (x < length sieve)%nat -> sieve !! x = Some true <-> survives p x.

Lemma sieved_step p sieve :
  (2 <= p)%nat -> (p < length sieve)%nat -> sieved p sieve ->
  sieved (S p) (if (sieve !!! p : bool) then cross_out (length sieve) sieve (Nat.shiftl p 1) p else sieve).
Proof.
  intros Hp Hl Hs x Hx. destruct (sieve !!! p) eqn:E.
  - rewrite length_cross_out in Hx. rewrite cross_out_lookup by lia. rewrite (Hs x Hx).
    unfold survives. rewrite Nat.shiftl_mul_pow2. change (2 ^ 1)%nat with 2%nat. split.
    + intros [[H2 Hd] Hn]. split; [done|]. intros d Hdp Hdx.
      destruct (decide (d = p)) as [->|]; [|apply Hd; [lia|done]]. destruct Hdx as [k ->].
      destruct k as [|[|k]]; [lia|lia|]. destruct Hn. exists k. lia.
    + intros [H2 Hd]. split; [split; [done|]; intros; apply Hd; [lia|done]|].
      intros [k ->]. specialize (Hd p ltac:(lia)). ospecialize (Hd _); [exists (2 + k)%nat; lia|]. lia.
  - rewrite (Hs x Hx). unfold survives. split; (intros [H2 Hd]; split; [done|]).
    2: { intros d Hdp. apply Hd. lia. }
    intros d Hdp Hdx. destruct (decide (d = p)) as [->|]; [|apply Hd; [lia|done]].
    assert (~ survives p p) as Hnp.
    { rewrite <- (Hs p Hl). apply lookup_lt_is_Some in Hl as [b Hb].
      rewrite (list_lookup_total_correct _ _ _ Hb) in E. congruence. }
    destruct (decide (p = x)) as [|N]; [done|]. destruct Hnp. split; [done|]. intros d Hd' Hdp'.
    destruct Hdx as [[|k] ->]; [lia|]. assert (d = S k * p)%nat; [|lia].
    apply Hd; [done|]. destruct Hdp' as [j ->]. exists (S k * j)%nat. lia.
Qed.

Lemma sieve_loop_sieved fuel sieve p :
  (2 <= p)%nat -> (length sieve <= fuel + p)%nat -> sieved p sieve ->
  exists p', sieved p' (sieve_loop fuel sieve p) /\ (length sieve <= p' * p')%nat /\
    length (sieve_loop fuel sieve p) = length sieve.
Proof.
  revert sieve p. induction fuel as [|fuel IH]; cbn; intros sieve p Hp Hf Hs.
  - exists p. split_and!; [done|nia|done].
  - destruct (decide (p * p < length sieve)%nat) as [H|H]; [|exists p; split_and!; [done|lia|done]].
    set (s' := if (sieve !!! p : bool) then _ else _).
    assert (length s' = length sieve) as L by (unfold s'; destruct (sieve !!! p); [apply length_cross_out|done]).
    rewrite <- L. apply IH; [lia|lia|]. apply sieved_step; [done|nia|done].
Qed.

Lemma survives_prime p x : (x < p * p)%nat -> survives p x <-> Z.prime (Z.of_nat x).
Proof.
  intros Hx. split.
  - intros [H2 Hd]. apply prime_by_divisors; [lia|]. intros q Hq Dq.
    pose proof (Z.prime_ge_2 q Hq) as Hq2. apply Z.divide_pos_le in Dq as Hle; [|lia].
    destruct (decide (q < Z.of_nat p)) as [Hlt|Hge]; [|nia].
    assert (Z.to_nat q = x) as Ex; [|nia]. apply Hd; [lia|].
    apply Nat2Z.divide. by rewrite Z2Nat.id by lia.
  - intros [H1 Hd]. split; [lia|]. intros d Hdp Dd. apply Nat2Z.divide in Dd as Dz.
    destruct (decide (d = x)) as [|N]; [done|]. apply Nat.divide_pos_le in Dd; [|lia].
    by destruct (Hd (Z.of_nat d) ltac:(lia)).
Qed.

(** [primes] returns the odd primes below its argument, in order. *)
Lemma elem_of_primes below x :
  x ∈ primes below <-> (3 <= x < below)%nat /\ Z.prime (Z.of_nat x).
Proof.
  unfold primes. set (s0 := _ <$> seq 0 below).
  assert (length s0 = below) as L0 by (unfold s0; by rewrite length_fmap, length_seq).
  assert (sieved 2 s0) as H0.
  { intros y Hy. unfold s0. rewrite list_lookup_fmap, lookup_seq_lt by lia. cbn.
    unfold survives. destruct (bool_decide_reflect (2 <= y)%nat); naive_solver lia. }
  destruct (sieve_loop_sieved below s0 2 ltac:(lia) ltac:(lia) H0) as (p' & Hs & Hl & HL).
  rewrite list_elem_of_filter, elem_of_seq. rewrite L0 in Hl, HL. split.
  - intros [E Hx]. split; [lia|]. apply (survives_prime p'); [lia|]. apply Hs; [lia|done].
  - intros [Hx Px]. split; [|lia]. apply Hs; [lia|]. apply survives_prime; [lia|done].
Qed.

(** ** Blum candidates *)

(** Clearing entries never sets one. *)
Definition shrinks (s s' : list bool) : Prop :=
  length s' = length s /\ forall x, s' !! x = Some true -> s !! x = Some true.

#[export] Instance shrinks_preorder : PreOrder shrinks.
Proof.
  split; [by split|]. intros s1 s2 s3 [L1 H1] [L2 H2]. split; [lia|auto].
Qed.

Lemma shrinks_insert s i : shrinks s (<[i := false]> s).
Proof.
  split; [apply length_insert|]. intros x. destruct (decide (i = x)) as [->|N].
  - rewrite list_lookup_insert_Some. naive_solver.
  - by rewrite list_lookup_insert_ne.
Qed.

Lemma shrinks_cross_out2 fuel s i p : shrinks s (cross_out2 fuel s i p).
Proof.
  revert s i. induction fuel as [|fuel IH]; cbn; intros s i; [done|]. destruct (decide _); [|done].
  etrans; [apply (shrinks_insert s i)|]. etrans; [apply shrinks_insert|]. apply IH.
Qed.

Lemma shrinks_primes base s l : shrinks s (foldl (sieve_prime base) s l).
Proof.
  revert s. induction l as [|p l IH]; intros s; [done|]. cbn. etrans; [|apply IH]. apply shrinks_cross_out2.
Qed.

Lemma shrinks_cross_out3 fuel s i : shrinks s (cross_out3 fuel s i).
Proof.
  revert s i. induction fuel as [|fuel IH]; cbn; intros s i; [done|]. destruct (decide _); [|done].
  etrans; [apply (shrinks_insert s i)|]. etrans; [apply shrinks_insert|]. etrans; [apply shrinks_insert|].
  apply IH.
Qed.

(** What the three-entry loop leaves is a multiple of four, when the length
    of the sieve is one. *)
Lemma cross_out3_mod4 fuel s i x :
  (i mod 4 = 1)%nat -> (length s mod 4 = 0)%nat -> (length s <= i + 4 * fuel)%nat -> (i <= x)%nat ->
  cross_out3 fuel s i !! x = Some true -> (x mod 4 = 0)%nat.
Proof.
  revert s i. induction fuel as [|fuel IH]; cbn [cross_out3]; intros s i Hi Hl Hf Hx E.
  - apply lookup_lt_Some in E. lia.
  - destruct (decide (i + 2 < length s)%nat) as [H|H].
    2: { apply lookup_lt_Some in E. pose proof (Nat.div_mod_eq i 4). pose proof (Nat.div_mod_eq (length s) 4). lia. }
    destruct (decide (i + 4 <= x)%nat) as [Hx4|Hx4].
    + apply IH in E; [done| |by rewrite !length_insert|rewrite !length_insert; lia|done].
      by rewrite Nat.Div0.add_mod, Hi.
    + destruct (decide (x = i + 3)%nat) as [->|N]; [by rewrite Nat.Div0.add_mod, Hi|].
      apply shrinks_cross_out3 in E. exfalso.
      assert (x = i \/ x = i + 1 \/ x = i + 2)%nat as [-> | [-> | ->]] by lia; revert E;
        rewrite ?list_lookup_insert_eq, ?list_lookup_insert_ne by (rewrite ?length_insert; lia);
        rewrite ?list_lookup_insert_eq, ?list_lookup_insert_ne by (rewrite ?length_insert; lia);
        rewrite ?list_lookup_insert_eq by (rewrite ?length_insert; lia); done.
Qed.

Section BlumSpec.
Context {B : BigPrime}.

Lemma scan_spec bits base delta s p :
  scan bits base delta s = Some p ->
  exists i, s !! i = Some true /\ p = base + delta + Z.of_nat i /\
    TrueLen p <= Z.of_nat bits /\
    ProbablyPrime (Z.shiftr p 1) blumPrimalityIterations = true /\ ProbablyPrime p 0 = true.
Proof.
  revert delta. induction s as [|[] s IH]; cbn; intros delta; [done| |].
  - assert (forall E : scan bits base (delta + 1) s = Some p, exists i, (true :: s) !! i = Some true /\
      p = base + delta + Z.of_nat i /\ TrueLen p <= Z.of_nat bits /\
      ProbablyPrime (Z.shiftr p 1) blumPrimalityIterations = true /\ ProbablyPrime p 0 = true) as Hr.
    { intros (i & Ei & -> & H)%IH. exists (S i). split; [done|]. split; [lia|done]. }
    destruct (Z.ltb_spec (Z.of_nat bits) (TrueLen (delta + base))); [done|].
    destruct (ProbablyPrime (Z.shiftr (delta + base) 1) _) eqn:E1; cbn; [|exact Hr].
    destruct (ProbablyPrime (delta + base) 0) eqn:E2; cbn; [|exact Hr].
    intros [= <-]. exists 0%nat. split; [done|]. split; [lia|done].
  - intros (i & Ei & -> & H)%IH. exists (S i). split; [done|]. split; [lia|done].
Qed.

Lemma be_to_Z_snoc l b : be_to_Z (l ++ [b]) = be_to_Z l * 256 + byteZ b.
Proof. unfold be_to_Z. by rewrite foldl_app. Qed.

Lemma lor3_mod b : byteZ (byte_of_Z (Z.lor (byteZ b) 3)) mod 4 = 3.
Proof. by destruct b. Qed.

Lemma lor192_mod b : byteZ (byte_of_Z (Z.lor (byteZ b) 192)) mod 4 = byteZ b mod 4.
Proof. by destruct b. Qed.

Lemma lor192_ge b : 192 <= byteZ (byte_of_Z (Z.lor (byteZ b) 192)).
Proof. destruct b; by vm_compute. Qed.

(** The bits that are set: the number is 3 modulo 4 and at least three
    quarters of the range. *)
Lemma set_bits_spec buf :
  buf <> [] ->
  be_to_Z (set_bits buf) mod 4 = 3 /\
  192 * 256 ^ (Z.of_nat (length buf) - 1) <= be_to_Z (set_bits buf) < 256 ^ Z.of_nat (length buf).
Proof.
  intros N. unfold set_bits. set (f := fun b => byte_of_Z (Z.lor (byteZ b) 3)).
  set (buf1 := alter f (length buf - 1)%nat buf).
  assert (length buf1 = length buf) as L1 by apply length_alter.
  assert (be_to_Z buf1 mod 4 = 3) as M1.
  { unfold buf1. destruct buf as [|b0 l0 _] using rev_ind; [done|].
    rewrite length_app, Nat.add_sub, alter_app_r_alt, Nat.sub_diag by (cbn; lia). cbn.
    rewrite be_to_Z_snoc, <- (lor3_mod b0). apply Z.cong_iff_0. unfold f.
    rewrite Z.add_simpl_r. apply Z.mod_divide; [done|]. by exists (be_to_Z l0 * 64); lia. }
  destruct buf1 as [|b r]; [destruct buf; [done|]; cbn in L1; lia|].
  pose proof (be_to_Z_bound (byte_of_Z (Z.lor (byteZ b) 192) :: r)) as Bd. cbn [length] in *. rewrite <- L1.
  change (alter (fun b => byte_of_Z (Z.lor (byteZ b) 192)) 0%nat (b :: r))
    with (byte_of_Z (Z.lor (byteZ b) 192) :: r).
  split; [|split; [|apply Bd]].
  - rewrite <- M1, !be_to_Z_cons, Z.add_mod, Z.mul_mod, lor192_mod by done.
    by rewrite <- Z.mul_mod, <- Z.add_mod.
  - rewrite be_to_Z_cons. replace (Z.of_nat (S (length r)) - 1) with (Z.of_nat (length r)) by lia.
    pose proof (lor192_ge b). pose proof (be_to_Z_bound r). nia.
Qed.

(** What [tryBlumPrime] returns, for any sieve whose length is a multiple of
    four. *)
Lemma try_blum_spec bits size ps rand p rand' :
  (bits mod 8 = 0)%nat -> (0 < bits)%nat -> (size mod 4 = 0)%nat ->
  try_blum bits size ps rand = (Some p, rand') ->
  p mod 4 = 3 /\ 3 * 2 ^ (Z.of_nat bits - 2) <= p < 2 ^ Z.of_nat bits /\
  ProbablyPrime ((p - 1) / 2) blumPrimalityIterations = true /\ ProbablyPrime p 0 = true.
Proof.
  intros Hb H0 Hs. unfold try_blum. destruct (ReadFull _ _) as [[buf|] r] eqn:R; [|done].
  apply ReadFull_length in R.
  assert (8 * Z.of_nat (length buf) = Z.of_nat bits) as Lb.
  { rewrite R. pose proof (Nat.div_mod_eq bits 8).
    assert ((bits + 7) / 8 = bits / 8)%nat; [|lia]. symmetry. apply (Nat.div_unique _ _ _ 7); lia. }
  destruct (set_bits_spec buf) as (M & Hlo & _); [by intros ->; cbn in Lb; lia|].
  set (base := be_to_Z (set_bits buf)) in *. clearbody base. set (s3 := cross_out3 _ _ _).
  intros [= E _]. apply scan_spec in E as (i & Ei & -> & Hl & P1 & P2). rewrite Z.add_0_r in *.
  assert (i mod 4 = 0)%nat as Hi.
  { destruct i as [|i]; [done|]. apply shrinks_primes, cross_out3_mod4 in Ei; rewrite ?length_replicate; done || lia. }
  assert (Z.of_nat i mod 4 = 0) as Hi' by (change 4 with (Z.of_nat 4); rewrite <- Nat2Z.inj_mod, Hi; done).
  assert ((base + Z.of_nat i) mod 4 = 3) as M' by (rewrite Z.add_mod, M, Hi' by done; done).
  split; [done|]. apply TrueLen_bound in Hl; [|lia]. pose proof (Z.div_mod (base + Z.of_nat i) 4 ltac:(done)) as D.
  split.
  - replace (3 * 2 ^ (Z.of_nat bits - 2)) with (192 * 256 ^ (Z.of_nat (length buf) - 1)); [lia|].
    change 256 with (2 ^ 8). rewrite <- Z.pow_mul_r by lia. change 192 with (3 * 2 ^ 6).
    rewrite <- Z.mul_assoc, <- Z.pow_add_r by lia. do 2 f_equal. lia.
  - split; [|done]. rewrite Z.shiftr_div_pow2 in P1 by done. change (2 ^ 1) with 2 in P1.
    replace ((base + Z.of_nat i - 1) / 2) with ((base + Z.of_nat i) / 2); [done|]. clear - M'.
    Z.to_euclidean_division_equations. lia.
Qed.

End BlumSpec.

Section PaillierPrimes.
Context {B : BigPrime}.

(** The numbers [sample.Paillier] may return. *)
Definition blum_candidate (p : Z) : Prop :=
  p mod 4 = 3 /\ 3 * 2 ^ (Z.of_nat BitsBlumPrime - 2) <= p < 2 ^ Z.of_nat BitsBlumPrime /\
  ProbablyPrime ((p - 1) / 2) blumPrimalityIterations = true /\ ProbablyPrime p 0 = true.

Lemma tryBlumPrime_spec rand p rand' : tryBlumPrime rand = (Some p, rand') -> blum_candidate p.
Proof.
  unfold tryBlumPrime. apply try_blum_spec; [done|by vm_compute; lia|].
  unfold sieveSize. rewrite Nat.shiftl_mul_pow2, Nat.mul_1_l. change 18%nat with (2 + 16)%nat.
  rewrite Nat.pow_add_r, Nat.mul_comm. apply Nat.Div0.mod_mul.
Qed.

(** A search returns the requested number of results of its function. *)
Lemma searchAlone_spec {A} (P : A -> Prop) fuel f count rand l rand' :
  (forall r a r', f r = (Some a, r') -> P a) ->
  searchAlone fuel f count rand = Ret (l, rand') -> length l = count /\ Forall P l.
Proof.
  intros Hf. revert count rand l rand'. induction fuel as [|fuel IH]; intros [|count] rand l rand'; cbn [searchAlone].
  - by intros [= <- _].
  - done.
  - by intros [= <- _].
  - destruct (f rand) as [[a|] r] eqn:E; [|apply IH].
    intros ([l' r'] & [Hl HF]%IH & [= <- _])%bind_ret_inv. cbn. split; [lia|]. constructor; [by eapply Hf|done].
Qed.

Lemma sample_Paillier_spec fuel rand p q rand' :
  sample_Paillier fuel rand = Ret (p, q, rand') -> blum_candidate p /\ blum_candidate q.
Proof.
  intros ([l r] & E & H)%bind_ret_inv. apply (searchAlone_spec blum_candidate) in E as [_ HF].
  - destruct l as [|a [|b [|? ?]]]; try done. injection H as <- <- _. by inversion HF as [|? ? ? H2]; inversion H2.
  - intros r0 a r' Ea. by eapply tryBlumPrime_spec.
Qed.

(** The product of two such numbers has exactly the bits of a modulus. *)
Lemma blum_product p q :
  blum_candidate p -> blum_candidate q -> TrueLen (p * q) = Z.of_nat BitsPaillier /\ Z.odd (p * q) = true.
Proof.
  intros (Mp & [Lp Up] & _) (Mq & [Lq Uq] & _).
  assert (0 < 2 ^ (Z.of_nat BitsBlumPrime - 2)) as H0 by (apply Z.pow_pos_nonneg; [done|by vm_compute]).
  assert (Z.of_nat BitsBlumPrime = 2 + (Z.of_nat BitsBlumPrime - 2)) as Eb by done.
  assert (2 ^ Z.of_nat BitsBlumPrime = 4 * 2 ^ (Z.of_nat BitsBlumPrime - 2)) as E4.
  { rewrite Eb at 1. by rewrite Z.pow_add_r by (by vm_compute). }
  rewrite E4 in *. set (m := 2 ^ (Z.of_nat BitsBlumPrime - 2)) in *.
  assert (2 ^ (Z.of_nat BitsPaillier - 1) = 8 * (m * m)) as El.
  { unfold m. rewrite <- Z.pow_add_r by (by vm_compute). change 8 with (2 ^ 3).
    rewrite <- Z.pow_add_r by (by vm_compute). done. }
  split.
  - unfold TrueLen. destruct (decide (p * q = 0)); [nia|]. rewrite Z.abs_eq by nia.
    enough (Z.log2 (p * q) = Z.of_nat BitsPaillier - 1) by lia.
    apply Z.log2_unique; [by vm_compute|].
    replace (Z.succ (Z.of_nat BitsPaillier - 1)) with (1 + (Z.of_nat BitsPaillier - 1)) by lia.
    rewrite Z.pow_add_r, El by (by vm_compute). clearbody m. nia.
  - rewrite Z.odd_mul. apply andb_true_iff. rewrite !Zodd_mod, !Z.eqb_eq.
    clear - Mp Mq. Z.to_euclidean_division_equations. lia.
Qed.

End PaillierPrimes.

(** ** Readers on which no sampler fails

    Every read succeeds, and every window of the stream is a unit modulo the
    given moduli, so that [UnitModN] returns its first draw. *)
Definition steady (Ns : list Z) (rand : reader) : Prop :=
  (forall k, r_fails rand k = false) /\
  forall n off, n ∈ Ns -> unitZ (be_to_Z (map (r_bytes rand) (seq off (modulus_bytes n)))) n.

Section Steady.
Context {S : Saferith} {SL : SaferithLaws S}.

Lemma mustReadBits_steady Ns rand n :
  steady Ns rand -> exists rand', steady Ns rand' /\
    mustReadBits rand n = Ret (map (r_bytes rand) (seq (r_off rand) n), rand').
Proof.
  intros [Hf Hu]. unfold mustReadBits, maxIterations. cbn [read_loop]. unfold ReadFull. rewrite Hf.
  eexists. split; [|reflexivity]. by split.
Qed.

Lemma sampleNeg_steady Ns rand bits :
  steady Ns rand -> exists v rand', steady Ns rand' /\ sampleNeg rand bits = Ret (v, rand').
Proof.
  intros H. destruct (mustReadBits_steady Ns rand (bits / 8 + 1) H) as (r & Hr & E).
  unfold sampleNeg. rewrite E. cbn [mbind outcome_bind]. eauto.
Qed.

Lemma sample_Scalar_steady {C : Curve} Ns rand :
  steady Ns rand -> exists s rand', steady Ns rand' /\ sample_Scalar rand = Ret (s, rand').
Proof.
  intros H. destruct (mustReadBits_steady Ns rand SafeScalarBytes H) as (r & Hr & E).
  unfold sample_Scalar. rewrite E. cbn [mbind outcome_bind]. eauto.
Qed.

Lemma UnitModN_steady Ns rand n :
  0 < n -> n ∈ Ns -> steady Ns rand -> exists u rand', steady Ns rand' /\ UnitModN rand n = Ret (u, rand').
Proof.
  intros Hn Hin H. destruct (mustReadBits_steady Ns rand (modulus_bytes n) H) as (r & Hr & E).
  unfold UnitModN, maxIterations. cbn [UnitModN_loop]. rewrite E. cbn [mbind outcome_bind].
  destruct H as [_ Hu]. pose proof (proj2 (unit_spec _ n Hn) (Hu n (r_off rand) Hin)) as U. rewrite U. eauto.
Qed.

End Steady.

(** A constant stream is steady when its value is a unit. *)
Lemma constant_steady Ns (b : byte) :
  Forall (fun n => unitZ (be_to_Z (replicate (modulus_bytes n) b)) n) Ns -> steady Ns (stream_reader (fun _ => b)).
Proof.
  intros H. split; [done|]. intros n off Hin. apply list_elem_of_In in Hin. rewrite Forall_forall in H. specialize (H n Hin). cbn [r_bytes stream_reader].
  replace (map _ _) with (replicate (modulus_bytes n) b); [done|]. generalize (modulus_bytes n) as k. clear.
  intros k. revert off. induction k as [|k IH]; intros off; cbn; [done|]. f_equal. apply IH.
Qed.
