(* ===== verification/PaillierMath.v ===== *)
(** * The arithmetic behind Paillier encryption

    The group of units modulo N²: powers of 1+kN are linear in the exponent,
    N-th powers depend on the residue modulo N only, and the exponent ϕ(N)⋅N
    annihilates every unit. *)

From Stdlib Require Import ZArith Lia Znumtheory Zmod Ring.
From stdpp Require Import base numbers.
From S2P Require Import Prelude Primes Arith.

Local Open Scope Z_scope.
Declare Scope res_scope.
Delimit Scope res_scope with R.
Infix "*" := Zmod.mul : res_scope.
Infix "+" := Zmod.add : res_scope.
Infix "^" := Zmod.pow : res_scope.
Notation "1" := Zmod.one : res_scope.
Notation "⟦ z ⟧_ n" := (Zmod.of_Z n z) (at level 1, z at level 200, n at level 0, format "⟦ z ⟧_ n") : Z_scope.

(** ** Units *)

Section Units.
Context {n : Z}.
Implicit Types x y z : residue n.

Lemma mul_one_l x : (1 * x)%R = x.
Proof. apply Zmod.mul_1_l. Qed.

Lemma inverse_unique x y z : (x * y)%R = 1%R -> (x * z)%R = 1%R -> y = z.
Proof.
  intros Hy Hz. rewrite <- (mul_one_l y), <- Hz, <- Zmod.mul_assoc, (Zmod.mul_comm z), Zmod.mul_assoc, Hy.
  apply mul_one_l.
Qed.

Lemma unit_cancel x y z : is_unit x -> (x * y)%R = (x * z)%R -> y = z.
Proof.
  intros Hx E. apply (f_equal (Zmod.mul (Zmod.inv x))) in E.
  by rewrite !Zmod.mul_assoc, (Zmod.mul_inv_same_l_coprime _ Hx), !mul_one_l in E.
Qed.

Lemma pow_pow x a b : is_unit x -> (x ^ (a * b))%R = ((x ^ a) ^ b)%R.
Proof. apply Zmod.pow_mul_r_coprime. Qed.

Lemma pow_plus x a b : is_unit x -> (x ^ (a + b))%R = (x ^ a * x ^ b)%R.
Proof. apply Zmod.pow_add_r_coprime. Qed.

Lemma mul_pow x y a : is_unit x -> is_unit y -> ((x * y) ^ a)%R = (x ^ a * y ^ a)%R.
Proof. apply Zmod.pow_mul_l_coprime. Qed.

Lemma pow_swap x a b : is_unit x -> ((x ^ a) ^ b)%R = ((x ^ b) ^ a)%R.
Proof. intros Hx. by rewrite <- !pow_pow, Z.mul_comm by done. Qed.

Lemma one_pow a : (@Zmod.one n ^ a)%R = 1%R.
Proof. apply Zmod.pow_1_l. Qed.

Lemma pow_one x : is_unit x -> (x ^ 1)%R = x.
Proof.
  intros Hx. change 1 with (Z.succ 0). rewrite Zmod.pow_succ_r_coprime, Zmod.pow_0_r by done. apply Zmod.mul_1_r.
Qed.

Lemma pow_inverse x a : is_unit x -> (x ^ a * x ^ (- a))%R = 1%R.
Proof. intros Hx. rewrite <- pow_plus, Z.add_opp_diag_r by done. apply Zmod.pow_0_r. Qed.

End Units.

Lemma unitZ_of_product a b n : 1 < n -> (a * b) mod n = 1 -> unitZ a n.
Proof.
  intros Hn E. unfold unitZ. apply Z.bezout_1_gcd. exists b, (- (a * b / n)).
  pose proof (Z.div_mod (a * b) n ltac:(lia)). lia.
Qed.

(** Reduction from a multiple of the modulus. *)
Section Reduce.
Variables n m : Z.
Hypothesis Hn : 1 < n.
Hypothesis Hm : 1 < m.
Hypothesis divides : (n | m).

Definition reduce (x : residue m) : residue n := ⟦Zmod.to_Z x⟧_n.

Lemma reduce_of_Z z : reduce ⟦z⟧_m = ⟦z⟧_n.
Proof.
  unfold reduce. rewrite Zmod.to_Z_of_Z. apply Zmod.to_Z_inj. rewrite !Zmod.to_Z_of_Z.
  by apply Z.mod_mod_divide.
Qed.

Lemma reduce_mul x y : reduce (x * y)%R = (reduce x * reduce y)%R.
Proof.
  rewrite <- (Zmod.of_Z_to_Z x), <- (Zmod.of_Z_to_Z y), <- Zmod.of_Z_mul, !reduce_of_Z. apply Zmod.of_Z_mul.
Qed.

Lemma reduce_one : reduce 1%R = 1%R.
Proof. rewrite <- Zmod.of_Z_1. apply reduce_of_Z. Qed.

Lemma reduce_unit x : is_unit x -> is_unit (reduce x).
Proof.
  intros Hx. apply is_unit_of_Z. by eapply unitZ_divide.
Qed.

Lemma reduce_pow x e : is_unit x -> reduce (x ^ e)%R = (reduce x ^ e)%R.
Proof.
  intros Hx. assert (forall k, 0 <= k -> reduce (x ^ k)%R = (reduce x ^ k)%R) as Hk.
  { apply natlike_ind; [by rewrite !Zmod.pow_0_r, reduce_one|]. intros k H IH.
    rewrite !Zmod.pow_succ_nonneg_r by done. by rewrite reduce_mul, IH. }
  destruct (Z.le_gt_cases 0 e); [by apply Hk|].
  apply (inverse_unique (reduce x ^ (- e))%R).
  - rewrite <- Hk, <- reduce_mul by lia. rewrite <- (Z.opp_involutive e) at 2.
    by rewrite pow_inverse, reduce_one.
  - rewrite <- (Z.opp_involutive e) at 2. apply pow_inverse. by apply reduce_unit.
Qed.

End Reduce.

(** ** Modulo N² *)

Section Square.
Variable N : Z.
Hypothesis HN : 1 < N.

Lemma square_gt_1 : 1 < N * N.
Proof. nia. Qed.

Lemma square_divides : (N | N * N).
Proof. by exists N. Qed.

#[local] Hint Resolve square_gt_1 square_divides HN : core.

Lemma unitZ_square a : unitZ a (N * N) <-> unitZ a N.
Proof. rewrite unitZ_product. tauto. Qed.

Lemma linear_mul a b : (⟦1 + a * N⟧_(N * N) * ⟦1 + b * N⟧_(N * N))%R = ⟦1 + (a + b) * N⟧_(N * N).
Proof.
  rewrite <- Zmod.of_Z_mul. apply Zmod.to_Z_inj. rewrite !Zmod.to_Z_of_Z.
  replace ((1 + a * N) * (1 + b * N)) with (1 + (a + b) * N + a * b * (N * N)) by ring.
  apply Z_mod_plus_full.
Qed.

Lemma linear_unit a : is_unit ⟦1 + a * N⟧_(N * N).
Proof.
  apply is_unit_of_Z, (unitZ_of_product _ (1 + - a * N)); [done|].
  rewrite to_of_mul, linear_mul, Z.add_opp_diag_r, Z.mul_0_l, Z.add_0_r. rewrite Zmod.to_Z_of_Z.
  apply Z.mod_small. pose proof square_gt_1. lia.
Qed.

Lemma linear_zero : ⟦1 + 0 * N⟧_(N * N) = 1%R.
Proof. by rewrite Z.mul_0_l, Z.add_0_r, Zmod.of_Z_1. Qed.

(** (1 + kN)^m = 1 + mkN, for every integer m. *)
Lemma linear_pow k m : (⟦1 + k * N⟧_(N * N) ^ m)%R = ⟦1 + (m * k) * N⟧_(N * N).
Proof.
  assert (forall m, 0 <= m -> (⟦1 + k * N⟧_(N * N) ^ m)%R = ⟦1 + (m * k) * N⟧_(N * N)) as Hm.
  { apply natlike_ind; [by rewrite Zmod.pow_0_r, !Z.mul_0_l, Z.add_0_r, Zmod.of_Z_1|]. intros j Hj IH.
    rewrite Zmod.pow_succ_nonneg_r, IH, linear_mul by done. do 2 f_equal. lia. }
  destruct (Z.le_gt_cases 0 m) as [|Hlt]; [by apply Hm|].
  apply (inverse_unique (⟦1 + k * N⟧_(N * N) ^ (- m))%R).
  - rewrite <- (Z.opp_involutive m) at 2. apply pow_inverse, linear_unit.
  - rewrite Hm, linear_mul by lia. rewrite <- linear_zero. do 3 f_equal. lia.
Qed.

(** A unit that is 1 modulo N is some 1 + kN. *)
Lemma reduce_one_linear (x : residue (N * N)) :
  reduce N (N * N) x = 1%R -> exists k, x = ⟦1 + k * N⟧_(N * N).
Proof.
  intros E. unfold reduce in E. rewrite <- Zmod.of_Z_1 in E. apply (f_equal Zmod.to_Z) in E.
  rewrite !Zmod.to_Z_of_Z in E. exists (Zmod.to_Z x / N - 1 / N).
  rewrite <- (Zmod.of_Z_to_Z x) at 1. f_equal.
  pose proof (Z.div_mod (Zmod.to_Z x) N ltac:(lia)). pose proof (Z.div_mod 1 N ltac:(lia)). lia.
Qed.

(** N-th powers of units depend on the residue modulo N only. *)
Lemma nth_power_cong (x y : residue (N * N)) :
  is_unit x -> is_unit y -> reduce N (N * N) x = reduce N (N * N) y -> (x ^ N)%R = (y ^ N)%R.
Proof.
  intros Hx Hy E. destruct (reduce_one_linear (x * y ^ (-1))%R) as [k Ek].
  { rewrite reduce_mul, reduce_pow, E by auto. rewrite <- (pow_one (reduce N (N * N) y)) at 1.
    - apply (pow_inverse _ 1). by apply reduce_unit.
    - by apply reduce_unit. }
  assert (x = (⟦1 + k * N⟧_(N * N) * y)%R) as ->.
  { rewrite <- Ek, <- Zmod.mul_assoc. rewrite <- (pow_one y) at 2 by done.
    rewrite (Zmod.mul_comm (y ^ (-1))%R), (pow_inverse _ 1), Zmod.mul_1_r by done. done. }
  rewrite mul_pow by (done || apply linear_unit). rewrite linear_pow.
  rewrite <- (mul_one_l (y ^ N)%R) at 2. f_equal. rewrite <- linear_zero. apply Zmod.to_Z_inj.
  rewrite !Zmod.to_Z_of_Z. replace (1 + N * k * N) with (1 + 0 * N + k * (N * N)) by ring. apply Z_mod_plus_full.
Qed.

End Square.

(** ** Encryption *)

Section Enc.
Variable N : Z.
Hypothesis HN : 1 < N.

#[local] Hint Resolve square_gt_1 square_divides HN : core.

(** (1+N)^m ρ^N, modulo N². *)
Definition enc (m ρ : Z) : residue (N * N) := (⟦N + 1⟧_(N * N) ^ m * ⟦ρ⟧_(N * N) ^ N)%R.

Lemma one_plus_N : ⟦N + 1⟧_(N * N) = ⟦1 + 1 * N⟧_(N * N).
Proof. f_equal. lia. Qed.

Lemma enc_linear m ρ : enc m ρ = (⟦1 + m * N⟧_(N * N) * ⟦ρ⟧_(N * N) ^ N)%R.
Proof. unfold enc. by rewrite one_plus_N, linear_pow, Z.mul_1_r. Qed.

Lemma nonce_unit ρ : unitZ ρ N -> is_unit ⟦ρ⟧_(N * N).
Proof. intros. by apply is_unit_of_Z, unitZ_square. Qed.

Lemma enc_unit m ρ : unitZ ρ N -> is_unit (enc m ρ).
Proof.
  intros Hρ. rewrite enc_linear. apply is_unit_mul; [by apply linear_unit|]. by apply is_unit_pow, nonce_unit.
Qed.

#[local] Hint Resolve nonce_unit enc_unit linear_unit is_unit_pow is_unit_mul is_unit_of_Z : core.

Lemma enc_cong m ρ ρ' : unitZ ρ N -> ⟦ρ⟧_N = ⟦ρ'⟧_N -> enc m ρ = enc m ρ'.
Proof.
  intros Hρ E. assert (unitZ ρ' N) as Hρ'.
  { unfold unitZ in *. apply (f_equal Zmod.to_Z) in E. rewrite !Zmod.to_Z_of_Z in E.
    by rewrite <- Z.gcd_mod_l, <- E, Z.gcd_mod_l. }
  unfold enc. f_equal. apply nth_power_cong; [done|auto..|]. by rewrite !reduce_of_Z by auto.
Qed.

(** A residue of units modulo N lifts to N². *)
Lemma lift_nonce ρ r e :
  unitZ ρ N -> unitZ r N ->
  (⟦Zmod.to_Z (⟦ρ⟧_N ^ e * ⟦r⟧_N)%R⟧_(N * N) ^ N)%R
  = ((⟦ρ⟧_(N * N) ^ N) ^ e * ⟦r⟧_(N * N) ^ N)%R.
Proof.
  intros Hρ Hr.
  rewrite <- pow_pow, (Z.mul_comm N e), pow_pow, <- mul_pow by auto.
  apply nth_power_cong; [done|apply nonce_unit, unitZ_to_Z; auto with units|auto|].
  rewrite reduce_mul, reduce_pow, !reduce_of_Z by auto. by rewrite Zmod.of_Z_to_Z.
Qed.

(** The shape of every Paillier check in the zero-knowledge proofs. *)
Lemma enc_affine m ρ α r e :
  unitZ ρ N -> unitZ r N ->
  enc (e * m + α) (Zmod.to_Z (⟦ρ⟧_N ^ e * ⟦r⟧_N)%R) = (enc m ρ ^ e * enc α r)%R.
Proof.
  intros Hρ Hr. rewrite !enc_linear, lift_nonce, mul_pow, linear_pow, <- linear_mul by auto.
  set (a := ⟦1 + e * m * N⟧_(N * N)). set (b := ⟦1 + α * N⟧_(N * N)).
  set (x := ((⟦ρ⟧_(N * N) ^ N) ^ e)%R). set (y := (⟦r⟧_(N * N) ^ N)%R).
  rewrite <- !Zmod.mul_assoc. f_equal. rewrite !Zmod.mul_assoc. f_equal. apply Zmod.mul_comm.
Qed.

Lemma enc_mul m1 ρ1 m2 ρ2 :
  unitZ ρ1 N -> unitZ ρ2 N -> (enc m1 ρ1 * enc m2 ρ2)%R = enc (m1 + m2) (ρ1 * ρ2).
Proof.
  intros H1 H2. rewrite <- (pow_one (enc m1 ρ1)), <- enc_affine, Z.mul_1_l by auto.
  symmetry. apply enc_cong; [by apply unitZ_mul|].
  by rewrite Zmod.of_Z_to_Z, pow_one, Zmod.of_Z_mul by auto.
Qed.

Lemma enc_pow m ρ e : unitZ ρ N -> (enc m ρ ^ e)%R = enc (e * m) (Zmod.to_Z (⟦ρ⟧_N ^ e)%R).
Proof.
  intros Hρ. rewrite <- (Zmod.mul_1_r (enc m ρ ^ e)%R).
  assert (unitZ 1 N) as H1 by apply Z.gcd_1_l.
  replace (@Zmod.one (N * N)) with (enc 0 1).
  - rewrite <- enc_affine, Z.add_0_r by done. apply enc_cong; [apply unitZ_to_Z; auto with units|].
    by rewrite !Zmod.of_Z_to_Z, Zmod.of_Z_1, Zmod.mul_1_r.
  - unfold enc. by rewrite Zmod.pow_0_r, Zmod.of_Z_1, one_pow, Zmod.mul_1_r.
Qed.

End Enc.

(** ** Decryption *)

Section Dec.
Variables p q : Z.
Hypothesis Hp : Z.prime p.
Hypothesis Hq : Z.prime q.
Hypothesis Hpq : p <> q.

Abbreviation N := (p * q).
Abbreviation φ := ((p - 1) * (q - 1)).

Hypothesis Hφ : unitZ φ N.

Lemma factors_coprime : Z.gcd p q = 1.
Proof.
  apply Z.coprime_prime_l; [done|]. intros D. apply Z.divide_prime_prime in D; done.
Qed.

Lemma product_gt_1 : 1 < N.
Proof using Hp Hq. pose proof (Z.prime_ge_2 _ Hp). pose proof (Z.prime_ge_2 _ Hq). clear Hpq. nia. Qed.

Lemma totient_pos : 0 < φ.
Proof using Hp Hq. pose proof (Z.prime_ge_2 _ Hp). pose proof (Z.prime_ge_2 _ Hq). clear Hpq. nia. Qed.

#[local] Hint Resolve product_gt_1 square_gt_1 square_divides nonce_unit enc_unit linear_unit is_unit_pow is_unit_mul is_unit_of_Z : core.

Lemma unit_nonzero r ρ : Z.prime r -> unitZ ρ r -> ρ mod r <> 0.
Proof.
  intros Hr Hρ E. apply Z.mod_divide in E; [|pose proof (Z.prime_ge_2 _ Hr); lia].
  unfold unitZ in Hρ. apply Z.divide_gcd_iff in E; [|pose proof (Z.prime_ge_2 _ Hr); lia].
  rewrite Z.gcd_comm, E in Hρ. pose proof (Z.prime_ge_2 _ Hr). lia.
Qed.

Lemma fermat_power r ρ k : Z.prime r -> unitZ ρ r -> 0 <= k -> (r | ρ ^ ((r - 1) * k) - 1).
Proof.
  intros Hr Hρ Hk. pose proof (Z.prime_ge_2 _ Hr). apply Z.mod_divide; [lia|]. apply Z.cong_iff_0.
  rewrite Z.pow_mul_r by lia. rewrite <- Z.mod_pow_l, Z.fermat_nz by (done || by apply unit_nonzero).
  by rewrite Z.pow_1_l.
Qed.

(** Euler's theorem for a product of two primes. *)
Lemma euler ρ : unitZ ρ N -> (⟦ρ⟧_N ^ φ)%R = 1%R.
Proof.
  intros [H1 H2]%unitZ_product. pose proof (Z.prime_ge_2 _ Hp). pose proof (Z.prime_ge_2 _ Hq).
  pose proof totient_pos. rewrite <- Zmod.of_Z_pow by lia. rewrite <- Zmod.of_Z_1. apply Zmod.to_Z_inj.
  rewrite !Zmod.to_Z_of_Z. apply Z.cong_iff_0, Z.mod_divide; [nia|].
  apply coprime_divides; [apply factors_coprime|apply fermat_power; done || lia|].
  rewrite Z.mul_comm. apply fermat_power; done || lia.
Qed.

(** Exponents count modulo ϕ. *)
Lemma euler_exponent (x : residue N) a b : is_unit x -> a mod φ = b mod φ -> (x ^ a)%R = (x ^ b)%R.
Proof.
  intros Hx E. pose proof totient_pos as H0.
  assert (forall k, (x ^ k)%R = (x ^ (k mod φ))%R) as Hk; [|by rewrite (Hk a), (Hk b), E].
  intros k. rewrite (Z.div_mod k φ) at 1 by lia. rewrite pow_plus, pow_pow by done.
  rewrite <- (Zmod.of_Z_to_Z x) at 1. rewrite euler, one_pow by done. apply mul_one_l.
Qed.

(** The exponent ϕ⋅N annihilates the units modulo N². *)
Lemma nonce_vanishes ρ : unitZ ρ N -> ((⟦ρ⟧_(N * N) ^ N) ^ φ)%R = 1%R.
Proof.
  intros Hρ. rewrite <- pow_pow, (Z.mul_comm _ φ), pow_pow by auto.
  rewrite (nth_power_cong N product_gt_1 _ 1%R); [apply one_pow|auto|apply is_unit_one|].
  rewrite reduce_pow, reduce_of_Z, reduce_one, euler; auto.
Qed.

Lemma enc_totient m ρ : unitZ ρ N -> (enc N m ρ ^ φ)%R = ⟦1 + φ * m * N⟧_(N * N).
Proof.
  intros Hρ. rewrite enc_linear, mul_pow, linear_pow, nonce_vanishes by auto. apply Zmod.mul_1_r.
Qed.

(** The logarithm to the base 1+N. *)
Lemma linear_log a : (Zmod.to_Z ⟦1 + a * N⟧_(N * N) - 1) / N = a mod N.
Proof.
  pose proof product_gt_1 as H1. rewrite Zmod.to_Z_of_Z.
  replace ((1 + a * N) mod (N * N)) with (1 + (a mod N) * N).
  - replace (1 + a mod N * N - 1) with (a mod N * N) by lia. apply Z.div_mul. lia.
  - pose proof (Z.mod_pos_bound a N ltac:(lia)). apply (Z.mod_unique _ _ (a / N)); [left; nia|].
    pose proof (Z.div_mod a N ltac:(lia)). nia.
Qed.

Lemma linear_inj a b : ⟦1 + a * N⟧_(N * N) = ⟦1 + b * N⟧_(N * N) -> a mod N = b mod N.
Proof. intros E. by rewrite <- !linear_log, E. Qed.

(** What decryption computes from a unit. *)
Definition plain (c : residue (N * N)) (φinv : Z) : Z :=
  (((Zmod.to_Z (c ^ φ)%R - 1) / N) * φinv) mod N.

Variable φinv : Z.
Hypothesis Hinv : (φ * φinv) mod N = 1.

Lemma plain_enc m ρ : unitZ ρ N -> plain (enc N m ρ) φinv = m mod N.
Proof.
  intros Hρ. unfold plain. rewrite enc_totient, linear_log, Z.mul_mod_idemp_l by (done || pose proof product_gt_1; lia).
  transitivity ((m * ((φ * φinv) mod N)) mod N); [|by rewrite Hinv, Z.mul_1_r].
  rewrite Z.mul_mod_idemp_r by (pose proof product_gt_1; lia). f_equal. ring.
Qed.

(** A unit whose ϕ-th power is trivial and that is 1 modulo N is 1. *)
Lemma torsion_free (x : residue (N * N)) :
  reduce N (N * N) x = 1%R -> (x ^ φ)%R = 1%R -> x = 1%R.
Proof.
  pose proof product_gt_1 as H1. intros [k ->]%reduce_one_linear; [|done]. rewrite linear_pow by done.
  rewrite <- linear_zero. intros E%linear_inj. rewrite Z.mod_0_l in E by lia.
  apply Z.mod_divide in E; [|lia]. apply Z.gauss in E; [|rewrite Z.gcd_comm; exact Hφ].
  apply Zmod.to_Z_inj. rewrite !Zmod.to_Z_of_Z. destruct E as [j ->].
  replace (1 + j * N * N) with (1 + 0 * N + j * (N * N)) by ring. apply Z_mod_plus_full.
Qed.

Variable Ninv : Z.
Hypothesis HNinv : (N * Ninv) mod φ = 1 mod φ.
Hypothesis HNinv0 : 0 <= Ninv.

Lemma linear_reduce a : ⟦1 + a * N⟧_N = 1%R.
Proof.
  pose proof product_gt_1. rewrite <- Zmod.of_Z_1. apply Zmod.to_Z_inj. rewrite !Zmod.to_Z_of_Z. apply Z_mod_plus_full.
Qed.

Lemma linear_cong a b : a mod N = b mod N -> ⟦1 + a * N⟧_(N * N) = ⟦1 + b * N⟧_(N * N).
Proof.
  pose proof product_gt_1. intros E. apply Z.cong_iff_0, Z.mod_divide in E as [k Ek]; [|lia].
  apply Zmod.to_Z_inj. rewrite !Zmod.to_Z_of_Z.
  replace (1 + a * N) with (1 + b * N + k * (N * N)) by (replace a with (b + k * N) by lia; ring).
  apply Z_mod_plus_full.
Qed.

Lemma totient_linear (c : residue (N * N)) : is_unit c -> exists k, (c ^ φ)%R = ⟦1 + k * N⟧_(N * N).
Proof.
  intros Hc. pose proof product_gt_1. apply reduce_one_linear; [done|]. rewrite reduce_pow by auto.
  rewrite <- (Zmod.of_Z_to_Z (reduce N (N * N) c)). apply euler. apply unitZ_to_Z, reduce_unit; auto.
Qed.

(** Every unit is an encryption of what decryption computes, under the nonce
    [DecWithRandomness] computes. *)
Lemma enc_surjective (c : residue (N * N)) m :
  is_unit c -> m mod N = plain c φinv ->
  enc N m (Zmod.to_Z (reduce N (N * N) c ^ Ninv)%R) = c.
Proof.
  pose proof product_gt_1 as H1. intros Hc Hm. set (ρ := Zmod.to_Z (reduce N (N * N) c ^ Ninv)%R).
  assert (is_unit (reduce N (N * N) c)) as Hr by (apply reduce_unit; auto).
  assert (unitZ ρ N) as Hρ by (apply unitZ_to_Z; auto).
  apply (unit_cancel (enc N m ρ ^ (-1))%R); [auto|].
  rewrite <- (pow_one (enc N m ρ)) at 2 by auto.
  rewrite (Zmod.mul_comm (enc N m ρ ^ (-1))%R (_ ^ 1)%R), (pow_inverse _ 1) by auto.
  symmetry. rewrite Zmod.mul_comm. apply torsion_free.
  - rewrite reduce_mul, reduce_pow by auto.
    replace (reduce N (N * N) (enc N m ρ)) with (reduce N (N * N) c).
    { rewrite <- (pow_one (reduce N (N * N) c)) at 1 by done. by apply pow_inverse. }
    rewrite enc_linear, reduce_mul, reduce_pow, !reduce_of_Z by auto. unfold ρ. rewrite Zmod.of_Z_to_Z.
    rewrite <- pow_pow by done. rewrite linear_reduce, mul_one_l.
    rewrite <- (pow_one (reduce N (N * N) c)) at 1 by done. apply euler_exponent; [done|].
    by rewrite (Z.mul_comm Ninv), HNinv.
  - rewrite mul_pow by auto. rewrite (pow_swap (enc N m ρ)), enc_totient, linear_pow by auto.
    destruct (totient_linear c Hc) as [k Ek]. rewrite Ek, linear_mul, <- linear_zero by done.
    unfold plain in Hm. rewrite Ek, linear_log in Hm.
    apply linear_cong. rewrite Z.mod_0_l by lia.
    replace (k + -1 * (φ * m)) with (k - φ * m) by lia. apply Z.cong_iff_0.
    rewrite Z.mul_mod_idemp_l in Hm by lia.
    rewrite <- Z.mul_mod_idemp_r, Hm, Z.mul_mod_idemp_r by lia.
    rewrite Z.mul_assoc, (Z.mul_comm φ k), <- Z.mul_assoc, <- Z.mul_mod_idemp_r, Hinv, Z.mul_1_r by lia. done.
Qed.

End Dec.
