(* ===== verification/Paillier.v ===== *)
(** * pkg/paillier: encryption, homomorphic operations, decryption

    A ciphertext is the number it holds.  The operations that update their
    receiver are functions from the old value to the new one; every caller in
    the code updates a fresh ciphertext or a clone. *)

From Stdlib Require Import ZArith Lia Znumtheory Zmod.
From Stdlib Require Import Strings.Byte.
From stdpp Require Import base strings list pretty numbers.
From S2P Require Import Prelude Hash Curve Primes Arith Sample SampleInts PaillierMath.

Local Open Scope Z_scope.

(** ** public.go *)

Definition ErrPaillierLength : string := "wrong number bit length of Paillier modulus N".
Definition ErrPaillierEven : string := "modulus N is even".
Definition ErrPaillierNil : string := "modulus N is nil".

Record PublicKey := mkPublicKey {
  pk_n : Modulus;
  pk_nSquared : Modulus;
  pk_nNat : Z;
  pk_nPlusOne : Z
}.

Definition Ciphertext := Z.

(** [PublicKey.N] *)
Definition pk_N (pk : PublicKey) : Z := mod_n (pk_n pk).

Definition NewPublicKey (n : Z) : PublicKey :=
  mkPublicKey (ModulusFromN n) (ModulusFromN (n * n)) n (n + 1).

Definition ValidateN (n : option Z) : outcome unit :=
  match n with
  | None => Fail ErrPaillierNil
  | Some n =>
      let bits := TrueLen n in
      if negb (bits =? Z.of_nat BitsPaillier)
      then Fail ("have: " +:+ pretty bits +:+ ", need " +:+ pretty BitsPaillier +:+ ": " +:+ ErrPaillierLength)
      else if negb (Z.odd n) then Fail ErrPaillierEven else Ret tt
  end.

Section Paillier.
Context {S : Saferith}.

Definition EncWithNonce (pk : PublicKey) (m nonce : Z) : outcome Ciphertext :=
  let nHalf := Z.shiftr (pk_nNat pk) 1 in
  if nHalf <? Z.abs m
  then Panic "paillier.Encrypt: tried to encrypt message outside of range [-(N-1)/2, …, (N-1)/2]"
  else
    let c := Modulus_ExpI (pk_nSquared pk) (pk_nPlusOne pk) m in
    let rhoN := Modulus_Exp (pk_nSquared pk) nonce (pk_nNat pk) in
    Ret ((c * rhoN) mod mod_n (pk_nSquared pk)).

Definition Enc (pk : PublicKey) (m : Z) (rand : reader) : outcome (Ciphertext * Z * reader) :=
  '(nonce, rand) ← UnitModN rand (pk_N pk);
  ct ← EncWithNonce pk m nonce;
  Ret (ct, nonce, rand).

(** [PublicKey.Equal] *)
Definition pk_Equal (pk other : PublicKey) : bool := pk_N pk =? pk_N other.

Fixpoint ValidateCiphertexts (pk : PublicKey) (cts : list (option Ciphertext)) : bool :=
  match cts with
  | [] => true
  | None :: _ => false
  | Some ct :: cts =>
      if negb (ct <? mod_n (pk_nSquared pk)) then false
      else if negb (sf_IsUnit ct (mod_n (pk_nSquared pk))) then false
      else ValidateCiphertexts pk cts
  end.

(** A key enters a hash as the bytes of its modulus. *)
Definition pk_any (pk : PublicKey) : any :=
  AWriterTo "*paillier.PublicKey" "Paillier PublicKey" (Ret (be_min (pk_N pk))).

(** ** ciphertext.go *)

Definition ct_Add (pk : PublicKey) (ct : Ciphertext) (ct2 : option Ciphertext) : Ciphertext :=
  match ct2 with None => ct | Some ct2 => (ct * ct2) mod mod_n (pk_nSquared pk) end.

Definition ct_Mul (pk : PublicKey) (ct : Ciphertext) (k : option Z) : Ciphertext :=
  match k with None => ct | Some k => Modulus_ExpI (pk_nSquared pk) ct k end.

Definition ct_Equal (ct ctA : Ciphertext) : bool := ct =? ctA.

Definition ct_Clone (ct : Ciphertext) : Ciphertext := ct.

(** The update of [Randomize], for a given nonce. *)
Definition randomize_with (pk : PublicKey) (ct : Ciphertext) (nonce : Z) : Ciphertext :=
  let tmp := Modulus_Exp (pk_nSquared pk) nonce (pk_nNat pk) in
  (ct * tmp) mod mod_n (pk_nSquared pk).

(** [Randomize] returns the updated ciphertext with the nonce, which is
    sampled when it is nil. *)
Definition Randomize (pk : PublicKey) (ct : Ciphertext) (nonce : option Z) (rand : reader) :
    outcome (Ciphertext * Z * reader) :=
  '(nonce, rand) ← match nonce with Some x => Ret (x, rand) | None => UnitModN rand (pk_N pk) end;
  Ret (randomize_with pk ct nonce, nonce, rand).

(** [Ciphertext.WriteTo]: a fixed number of bytes; nil is an error. *)
Definition ct_any (ct : option Ciphertext) : any :=
  AWriterTo "*paillier.Ciphertext" "Paillier Ciphertext"
    (match ct with None => Fail ErrUnexpectedEOF | Some c => Ret (be_of_Z BytesCiphertext c) end).

(** ** secret.go *)

Record SecretKey := mkSecretKey {
  sk_PublicKey : PublicKey;
  sk_p : Z;
  sk_q : Z;
  sk_phi : Z;
  sk_phiInv : Z
}.

Definition NewSecretKeyFromPrimes (P Q : Z) : SecretKey :=
  let n := ModulusFromFactors P Q in
  let nNat := mod_n n in
  let nPlusOne := nNat + 1 in
  let phi := (P - 1) * (Q - 1) in
  let phiInv := sf_ModInverse phi (mod_n n) in
  let nSquared := ModulusFromFactors (P * P) (Q * Q) in
  mkSecretKey (mkPublicKey n nSquared nNat nPlusOne) P Q phi phiInv.

(** [NewSecretKey] and [KeyGen] without a pool. *)
Definition NewSecretKey {B : BigPrime} (fuel : nat) (rand : reader) : outcome (SecretKey * reader) :=
  '(p, q, rand) ← sample_Paillier fuel rand;
  Ret (NewSecretKeyFromPrimes p q, rand).

Definition KeyGen {B : BigPrime} (fuel : nat) (rand : reader) : outcome (PublicKey * SecretKey * reader) :=
  '(sk, rand) ← NewSecretKey fuel rand;
  Ret (sk_PublicKey sk, sk, rand).

(** [SetModSymmetric]: the representative of least absolute value, the
    negative one for half of an even modulus. *)
Definition SetModSymmetric (x m : Z) : Z :=
  let r := x mod m in if 2 * r <? m then r else r - m.

Definition Dec (sk : SecretKey) (ct : option Ciphertext) : outcome Z :=
  let n := pk_N (sk_PublicKey sk) in
  if negb (ValidateCiphertexts (sk_PublicKey sk) [ct])
  then Fail "paillier: failed to decrypt invalid ciphertext"
  else
    c ← deref ct;
    let result := Modulus_Exp (pk_nSquared (sk_PublicKey sk)) c (sk_phi sk) in
    let result := result - 1 in
    let result := result / n in
    let result := (result * sk_phiInv sk) mod n in
    Ret (SetModSymmetric result n).

Definition DecWithRandomness (sk : SecretKey) (ct : option Ciphertext) : outcome (Z * Z) :=
  m ← Dec sk ct;
  c ← deref ct;
  let n := pk_n (sk_PublicKey sk) in
  let mNeg := - m in
  let x := Modulus_ExpI n (pk_nPlusOne (sk_PublicKey sk)) mNeg in
  let x := (x * c) mod mod_n n in
  let nInverse := sf_ModInverse (pk_nNat (sk_PublicKey sk)) (sk_phi sk) in
  let r := Modulus_Exp n x nInverse in
  Ret (m, r).

Definition ErrPrimeBadLength : string := "prime factor is not the right length".
Definition ErrNotBlum : string := "prime factor is not equivalent to 3 (mod 4)".
Definition ErrNotSafePrime : string := "supposed prime factor is not a safe prime".
Definition ErrPrimeNil : string := "prime is nil".

Definition ValidatePrime {B : BigPrime} (p : option Z) : outcome unit :=
  match p with
  | None => Fail ErrPrimeNil
  | Some p =>
      let bits := TrueLen p in
      if negb (bits =? Z.of_nat BitsBlumPrime)
      then Fail ("invalid prime size: have: " +:+ pretty bits +:+ ", need " +:+ pretty BitsBlumPrime
                 +:+ ": " +:+ ErrPrimeBadLength)
      else if negb (Z.land (p mod 256) 3 =? 3) then Fail ErrNotBlum
      else if negb (ProbablyPrime (Z.shiftr p 1) 1) then Fail ErrNotSafePrime
      else Ret tt
  end.

End Paillier.

(** ** Public keys *)

Section Public.
Context {S : Saferith} {SL : SaferithLaws S}.

Record pk_ok (pk : PublicKey) : Prop := {
  pk_gt_1 : 1 < pk_N pk;
  pk_n_ok : modulus_ok (pk_n pk);
  pk_sq_ok : modulus_ok (pk_nSquared pk);
  pk_sq : mod_n (pk_nSquared pk) = pk_N pk * pk_N pk;
  pk_nat : pk_nNat pk = pk_N pk;
  pk_plus : pk_nPlusOne pk = pk_N pk + 1
}.

Lemma NewPublicKey_ok n : 1 < n -> pk_ok (NewPublicKey n).
Proof. intros H. split; cbn; try done; by apply ModulusFromN_ok; nia. Qed.

(** Encryption of a message as a residue modulo N². *)
Definition pk_enc (pk : PublicKey) (m ρ : Z) : residue (pk_N pk * pk_N pk) := enc (pk_N pk) m ρ.

Section Key.
Context {pk : PublicKey} (OK : pk_ok pk).

Lemma plus_one_unit : unitZ (pk_N pk + 1) (pk_N pk * pk_N pk).
Proof.
  pose proof (pk_gt_1 _ OK) as H. pose proof (linear_unit _ H 1) as U. unfold is_unit in U.
  rewrite Zmod.to_Z_of_Z, Z.gcd_mod_l in U. unfold unitZ. rewrite <- U. f_equal. lia.
Qed.

Lemma EncWithNonce_spec m ρ :
  EncWithNonce pk m ρ =
  if pk_N pk / 2 <? Z.abs m
  then Panic "paillier.Encrypt: tried to encrypt message outside of range [-(N-1)/2, …, (N-1)/2]"
  else Ret (Zmod.to_Z (pk_enc pk m ρ)).
Proof.
  pose proof OK as [H1 Hn Hs Hsq Hnat Hpl]. unfold EncWithNonce. rewrite Hnat, Hpl, Z.shiftr_div_pow2 by done.
  change (2 ^ 1) with 2. destruct (_ <? _); [done|]. f_equal.
  rewrite Modulus_ExpI_spec; [|done|rewrite Hsq; apply plus_one_unit].
  rewrite Modulus_Exp_spec by (done || lia). rewrite Hsq. unfold pk_enc, enc. by rewrite Zmod.to_Z_mul.
Qed.

Lemma EncWithNonce_ret m ρ :
  Z.abs m <= pk_N pk / 2 -> EncWithNonce pk m ρ = Ret (Zmod.to_Z (pk_enc pk m ρ)).
Proof. intros H. rewrite EncWithNonce_spec. by destruct (Z.ltb_spec (pk_N pk / 2) (Z.abs m)); [lia|]. Qed.

Lemma EncWithNonce_inv m ρ c :
  EncWithNonce pk m ρ = Ret c -> Z.abs m <= pk_N pk / 2 /\ c = Zmod.to_Z (pk_enc pk m ρ).
Proof.
  rewrite EncWithNonce_spec. generalize (Zmod.to_Z (pk_enc pk m ρ)) as x. intros x.
  destruct (Z.ltb_spec (pk_N pk / 2) (Z.abs m)); [done|]. by intros [= <-].
Qed.

Lemma ct_Add_spec (x y : residue (pk_N pk * pk_N pk)) :
  ct_Add pk (Zmod.to_Z x) (Some (Zmod.to_Z y)) = Zmod.to_Z (Zmod.mul x y).
Proof. unfold ct_Add. rewrite (pk_sq _ OK). by rewrite Zmod.to_Z_mul. Qed.

Lemma ct_Mul_spec (x : residue (pk_N pk * pk_N pk)) k :
  is_unit x -> ct_Mul pk (Zmod.to_Z x) (Some k) = Zmod.to_Z (Zmod.pow x k).
Proof.
  intros Hx. unfold ct_Mul. pose proof (pk_sq _ OK) as Hsq. rewrite Modulus_ExpI_spec; [|apply OK|by rewrite Hsq].
  rewrite Hsq. by rewrite Zmod.of_Z_to_Z.
Qed.

Lemma pk_enc_unit m ρ : unitZ ρ (pk_N pk) -> is_unit (pk_enc pk m ρ).
Proof. apply enc_unit, OK. Qed.

(** The ciphertexts of a key: units modulo N², below N². *)
Definition valid_ct (c : option Z) : Prop :=
  exists x : residue (pk_N pk * pk_N pk), c = Some (Zmod.to_Z x) /\ is_unit x.

Lemma ValidateCiphertexts_true cts : Forall valid_ct cts -> ValidateCiphertexts pk cts = true.
Proof.
  pose proof OK as [H1 Hn Hs Hsq Hnat Hpl].
  induction 1 as [|c cts (x & -> & Hx) _ IH]; cbn; [done|]. rewrite Hsq, IH.
  pose proof (Zmod.unsigned_pos_bound x ltac:(nia)) as B. destruct (Z.ltb_spec (Zmod.to_Z x) (pk_N pk * pk_N pk)); [|lia].
  cbn. apply unit_spec in Hx; [|nia]. by rewrite Hx.
Qed.

Lemma ValidateCiphertexts_inv cts :
  Forall (fun c => forall z, c = Some z -> 0 <= z) cts ->
  ValidateCiphertexts pk cts = true -> Forall valid_ct cts.
Proof.
  pose proof OK as [H1 Hn Hs Hsq Hnat Hpl].
  induction 1 as [|[c|] cts Hc _ IH]; cbn; [done| |done]. rewrite Hsq.
  destruct (Z.ltb_spec c (pk_N pk * pk_N pk)); cbn; [|done].
  destruct (sf_IsUnit _ _) eqn:U; cbn; [|done]. intros E%IH. constructor; [|done].
  apply unit_spec in U; [|nia]. specialize (Hc _ eq_refl). exists (Zmod.of_Z _ c). split; [|by apply is_unit_of_Z].
  by rewrite Zmod.to_Z_of_Z, Z.mod_small by lia.
Qed.

(** Ciphertexts add, and multiply by integers. *)
Lemma ct_Add_enc m1 ρ1 m2 ρ2 :
  unitZ ρ1 (pk_N pk) -> unitZ ρ2 (pk_N pk) ->
  ct_Add pk (Zmod.to_Z (pk_enc pk m1 ρ1)) (Some (Zmod.to_Z (pk_enc pk m2 ρ2)))
  = Zmod.to_Z (pk_enc pk (m1 + m2) (ρ1 * ρ2)).
Proof. intros H1 H2. rewrite ct_Add_spec. unfold pk_enc. by rewrite enc_mul by (done || apply OK). Qed.

Lemma ct_Mul_enc m ρ k :
  unitZ ρ (pk_N pk) ->
  ct_Mul pk (Zmod.to_Z (pk_enc pk m ρ)) (Some k)
  = Zmod.to_Z (pk_enc pk (k * m) (Zmod.to_Z (Zmod.pow (Zmod.of_Z (pk_N pk) ρ) k))).
Proof.
  intros Hρ. rewrite ct_Mul_spec by (by apply pk_enc_unit). unfold pk_enc. by rewrite enc_pow by (done || apply OK).
Qed.

Lemma randomize_res (x : residue (pk_N pk * pk_N pk)) r :
  randomize_with pk (Zmod.to_Z x) r = Zmod.to_Z (Zmod.mul x (Zmod.pow (Zmod.of_Z _ r) (pk_N pk))).
Proof.
  pose proof OK as [H1 Hn Hs Hsq Hnat Hpl]. unfold randomize_with.
  rewrite Hnat, Modulus_Exp_spec, Hsq by (done || lia). by rewrite <- Zmod.to_Z_mul.
Qed.

(** Randomizing keeps the plaintext. *)
Lemma randomize_enc m ρ r :
  unitZ ρ (pk_N pk) -> unitZ r (pk_N pk) ->
  randomize_with pk (Zmod.to_Z (pk_enc pk m ρ)) r = Zmod.to_Z (pk_enc pk m (ρ * r)).
Proof.
  intros Hρ Hr. rewrite randomize_res. f_equal. unfold pk_enc. rewrite <- (Z.add_0_r m) at 2.
  rewrite <- enc_mul by (done || apply OK). f_equal. unfold enc. by rewrite Zmod.pow_0_r, Zmod.mul_1_l.
Qed.

End Key.
End Public.

(** ** Secret keys *)

Section Secret.
Context {S : Saferith} {SL : SaferithLaws S}.

Record sk_ok (sk : SecretKey) : Prop := {
  sk_pk_ok : pk_ok (sk_PublicKey sk);
  sk_p_prime : Z.prime (sk_p sk);
  sk_q_prime : Z.prime (sk_q sk);
  sk_distinct : sk_p sk <> sk_q sk;
  sk_N : pk_N (sk_PublicKey sk) = sk_p sk * sk_q sk;
  sk_odd : Z.odd (sk_p sk * sk_q sk) = true;
  sk_phi_eq : sk_phi sk = (sk_p sk - 1) * (sk_q sk - 1);
  sk_phi_unit : unitZ (sk_phi sk) (sk_p sk * sk_q sk);
  sk_inverse : (sk_phi sk * sk_phiInv sk) mod (sk_p sk * sk_q sk) = 1
}.

Lemma inverse_mod x n : 1 < n -> unitZ x n -> (x * sf_ModInverse x n) mod n = 1.
Proof.
  intros Hn Hx. rewrite inverse_spec by (done || lia).
  pose proof (Zmod.mul_inv_same_r_coprime _ (is_unit_of_Z x n Hx)) as E. apply (f_equal Zmod.to_Z) in E.
  rewrite Zmod.to_Z_mul, Zmod.to_Z_of_Z, Zmult_mod_idemp_l, Zmod.to_Z_1 in E by lia.
  rewrite E. apply Z.mod_small. lia.
Qed.

Lemma prime_squares_coprime p q : Z.prime p -> Z.prime q -> p <> q -> Z.gcd (p * p) (q * q) = 1.
Proof.
  intros Hp Hq N. pose proof (factors_coprime p q Hp Hq N) as G.
  apply unitZ_product. split; apply unitZ_mul; exact G.
Qed.

Lemma NewSecretKeyFromPrimes_ok p q :
  Z.prime p -> Z.prime q -> p <> q -> Z.odd (p * q) = true -> unitZ ((p - 1) * (q - 1)) (p * q) ->
  sk_ok (NewSecretKeyFromPrimes p q).
Proof.
  intros Hp Hq N Ho U. pose proof (product_gt_1 p q Hp Hq) as H1.
  pose proof (Z.prime_ge_2 _ Hp). pose proof (Z.prime_ge_2 _ Hq).
  split; cbn; try done; [|by apply inverse_mod].
  split; cbn; try done; try ring.
  - apply ModulusFromFactors_ok; [lia|lia|]. by apply factors_coprime.
  - apply ModulusFromFactors_ok; [nia|nia|]. by apply prime_squares_coprime.
Qed.

Lemma SetModSymmetric_small m n : 2 * Z.abs m < n -> SetModSymmetric (m mod n) n = m.
Proof.
  intros H. unfold SetModSymmetric. rewrite Z.mod_mod by lia. destruct (Z.le_gt_cases 0 m).
  - rewrite Z.mod_small by lia. destruct (Z.ltb_spec (2 * m) n); lia.
  - replace (m mod n) with (m + n).
    + destruct (Z.ltb_spec (2 * (m + n)) n); lia.
    + apply (Z.mod_unique _ _ (-1)); lia.
Qed.

Lemma SetModSymmetric_bound x n : 0 < n -> Z.odd n = true -> 2 * Z.abs (SetModSymmetric x n) < n.
Proof.
  intros H Ho. unfold SetModSymmetric. pose proof (Z.mod_pos_bound x n H).
  destruct (Z.ltb_spec (2 * (x mod n)) n); [lia|].
  assert (2 * (x mod n) <> n); [|lia]. intros E. rewrite <- E in Ho. by rewrite Z.odd_mul in Ho.
Qed.

Lemma SetModSymmetric_cong x n : 0 < n -> SetModSymmetric x n mod n = x mod n.
Proof.
  intros H. unfold SetModSymmetric. destruct (_ <? _); [apply Z.mod_mod; lia|].
  rewrite <- (Z.mod_mod x n) at 2 by lia. rewrite <- (Z_mod_plus_full (x mod n) (-1) n). f_equal.
Qed.

Section Key.
Context {sk : SecretKey} (OK : sk_ok sk).
Abbreviation pk := (sk_PublicKey sk).
Abbreviation p := (sk_p sk).
Abbreviation q := (sk_q sk).

Lemma totient_unit : unitZ ((p - 1) * (q - 1)) (p * q).
Proof. rewrite <- (sk_phi_eq _ OK). apply OK. Qed.

Lemma modulus_unit : unitZ (p * q) ((p - 1) * (q - 1)).
Proof. unfold unitZ. rewrite Z.gcd_comm. apply totient_unit. Qed.

Lemma Dec_unit (c : residue (p * q * (p * q))) :
  is_unit c -> Dec sk (Some (Zmod.to_Z c)) = Ret (SetModSymmetric (plain p q c (sk_phiInv sk)) (p * q)).
Proof.
  intros Hc. pose proof OK as [Hpk Hp Hq Hd HN Ho Hphi Hu Hi]. unfold Dec.
  rewrite ValidateCiphertexts_true; [|done|].
  2: { constructor; [|done]. unfold valid_ct. rewrite HN. by exists c. }
  cbn [negb deref mbind outcome_bind]. unfold plain. rewrite HN, Hphi.
  rewrite Modulus_Exp_spec, (pk_sq _ Hpk), HN; [|apply Hpk|].
  - by rewrite Zmod.of_Z_to_Z.
  - pose proof (totient_pos p q Hp Hq). lia.
Qed.

(** Decryption inverts encryption. *)
Lemma Dec_enc m ρ :
  unitZ ρ (p * q) -> Z.abs m <= p * q / 2 ->
  Dec sk (Some (Zmod.to_Z (enc (p * q) m ρ))) = Ret m.
Proof.
  intros Hρ Hm. pose proof OK as [Hpk Hp Hq Hd HN Ho Hphi Hu Hi].
  pose proof (product_gt_1 p q Hp Hq) as H1. rewrite Dec_unit by (by apply enc_unit).
  rewrite Hphi in Hi. rewrite plain_enc by done. f_equal. apply SetModSymmetric_small.
  rewrite Zodd_mod in Ho. apply Z.eqb_eq in Ho. clear - Hm Ho. Z.to_euclidean_division_equations. lia.
Qed.

Lemma DecWithRandomness_unit (c : residue (p * q * (p * q))) m :
  is_unit c -> Dec sk (Some (Zmod.to_Z c)) = Ret m ->
  DecWithRandomness sk (Some (Zmod.to_Z c))
  = Ret (m, Zmod.to_Z (Zmod.pow (reduce (p * q) _ c) (sf_ModInverse (p * q) ((p - 1) * (q - 1))))).
Proof.
  intros Hc Hm. pose proof OK as [Hpk Hp Hq Hd HN Ho Hphi Hu Hi].
  pose proof (product_gt_1 p q Hp Hq) as H1. pose proof (totient_pos p q Hp Hq) as H0.
  unfold DecWithRandomness. rewrite Hm. cbn [deref mbind outcome_bind]. do 2 f_equal.
  assert (unitZ (pk_nPlusOne pk) (mod_n (pk_n pk))) as U1.
  { rewrite (pk_plus _ Hpk). apply (unitZ_divide _ _ (pk_N pk * pk_N pk)); [by exists (pk_N pk)|].
    by apply plus_one_unit. }
  rewrite Modulus_ExpI_spec; [|apply Hpk|done]. rewrite (pk_plus _ Hpk), (pk_nat _ Hpk), Hphi.
  change (mod_n (pk_n pk)) with (pk_N pk). rewrite HN.
  rewrite Modulus_Exp_spec; [|apply Hpk|].
  2: { rewrite inverse_spec by (done || apply modulus_unit). apply Zmod.unsigned_pos_bound. lia. }
  change (mod_n (pk_n pk)) with (pk_N pk). rewrite HN. do 2 f_equal. unfold reduce. rewrite of_Z_mod.
  replace (Zmod.of_Z (p * q) (p * q + 1)) with (@Zmod.one (p * q)).
  - rewrite one_pow, Zmod.of_Z_mul, Zmod.of_Z_to_Z. apply Zmod.mul_1_l.
  - rewrite <- Zmod.of_Z_1. apply Zmod.to_Z_inj. rewrite !Zmod.to_Z_of_Z.
    replace (p * q + 1) with (1 + 1 * (p * q)) by lia. by rewrite Z_mod_plus_full.
Qed.

(** Every valid ciphertext decrypts to a message and a nonce that encrypt
    to it. *)
Lemma DecWithRandomness_spec (c : residue (p * q * (p * q))) :
  is_unit c -> exists m r,
    DecWithRandomness sk (Some (Zmod.to_Z c)) = Ret (m, r) /\ Z.abs m <= p * q / 2 /\
    unitZ r (p * q) /\ 0 < r < p * q /\ enc (p * q) m r = c.
Proof.
  intros Hc. pose proof OK as [Hpk Hp Hq Hd HN Ho Hphi Hu Hi]. rewrite Hphi in Hi.
  pose proof (product_gt_1 p q Hp Hq) as H1. pose proof (totient_pos p q Hp Hq) as H0.
  do 2 eexists. split; [apply DecWithRandomness_unit; [done|by apply Dec_unit]|].
  set (r := reduce (p * q) _ c). assert (is_unit r) as Hr by (apply reduce_unit; [by exists (p * q)|done]).
  split; [|split; [by apply unitZ_to_Z, is_unit_pow|split; [by apply unit_range; [|apply is_unit_pow]|]]].
  - pose proof (SetModSymmetric_bound (plain p q c (sk_phiInv sk)) (p * q) ltac:(lia) Ho) as B.
    apply Z.div_le_lower_bound; lia.
  - pose proof modulus_unit as U.
    apply (enc_surjective p q Hp Hq Hd totient_unit (sk_phiInv sk) Hi); try done.
    + rewrite inverse_spec by done. pose proof (Zmod.mul_inv_same_r_coprime _ (is_unit_of_Z _ _ U)) as E.
      apply (f_equal Zmod.to_Z) in E. rewrite Zmod.to_Z_mul, Zmod.to_Z_of_Z, Zmult_mod_idemp_l, Zmod.to_Z_1 in E by lia.
      exact E.
    + rewrite SetModSymmetric_cong by lia. unfold plain. apply Z.mod_mod. lia.
Qed.

Lemma Dec_total (c : residue (p * q * (p * q))) :
  is_unit c -> exists m ρ, Dec sk (Some (Zmod.to_Z c)) = Ret m /\ unitZ ρ (p * q) /\ c = enc (p * q) m ρ.
Proof.
  intros Hc. destruct (DecWithRandomness_spec c Hc) as (m & r & E & _ & Hr & _ & <-). exists m, r.
  apply bind_ret_inv in E as (m' & Em & E). apply bind_ret_inv in E as (c' & _ & E). by injection E as -> _.
Qed.

(** Two answers to different challenges determine the plaintext. *)
Lemma Dec_extract (κ a : residue (p * q * (p * q))) e e' z z' w w' :
  is_unit κ -> is_unit a -> unitZ w (p * q) -> unitZ w' (p * q) ->
  enc (p * q) z w = Zmod.mul (Zmod.pow κ e) a -> enc (p * q) z' w' = Zmod.mul (Zmod.pow κ e') a ->
  exists m, Dec sk (Some (Zmod.to_Z κ)) = Ret m /\ ((e - e') * m) mod (p * q) = (z - z') mod (p * q).
Proof.
  intros Hκ Ha Hw Hw' E1 E2. pose proof OK as [Hpk Hp Hq Hd HN Ho Hphi Hu Hi]. rewrite Hphi in Hi.
  pose proof (product_gt_1 p q Hp Hq) as H1.
  destruct (Dec_total κ Hκ) as (m & ρ & Em & Hρ & ->). exists m. split; [done|].
  assert (enc (p * q) (z - z') (Zmod.to_Z (Zmod.mul (Zmod.pow (Zmod.of_Z (p * q) w') (-1)) (Zmod.of_Z (p * q) w)))
          = enc (p * q) ((e - e') * m) (Zmod.to_Z (Zmod.pow (Zmod.of_Z (p * q) ρ) (e - e')))) as E.
  { replace (z - z') with (-1 * z' + z) by lia. rewrite enc_affine, E1, E2, <- enc_pow by done.
    rewrite mul_pow, <- pow_pow by auto using enc_unit, is_unit_pow with units.
    set (x := enc (p * q) m ρ) in *. assert (Zmod.mul a (Zmod.pow a (-1)) = Zmod.one) as Ea.
    { rewrite <- (pow_one a) at 1 by done. by apply (pow_inverse a 1). }
    rewrite <- Zmod.mul_assoc, (Zmod.mul_comm (Zmod.pow x e) a), (Zmod.mul_assoc (Zmod.pow a (-1))).
    rewrite (Zmod.mul_comm (Zmod.pow a (-1)) a), Ea, Zmod.mul_1_l.
    rewrite <- pow_plus by done. f_equal. lia. }
  apply (f_equal (fun c => plain p q c (sk_phiInv sk))) in E.
  rewrite !plain_enc in E by auto with units. by symmetry.
Qed.

End Key.
End Secret.
