(* ===== verification/Pedersen.v ===== *)
(** * pkg/pedersen: ring-Pedersen commitments *)

From Stdlib Require Import ZArith Lia Znumtheory Zmod.
From Stdlib Require Import Strings.Byte.
From stdpp Require Import base strings list pretty numbers.
From S2P Require Import Prelude Hash Curve Arith Sample SampleInts PaillierMath Paillier.

Local Open Scope Z_scope.

Definition pedersen_Error (e : string) : string := "pedersen: " +:+ e.
Definition ErrNilFields : string := pedersen_Error "contains nil field".
Definition ErrSEqualT : string := pedersen_Error "S cannot be equal to T".
Definition ErrNotValidModN : string := pedersen_Error "S and T must be in [1,…,N-1] and coprime to N".

Record Parameters := mkParameters { ped_n : Modulus; ped_s : Z; ped_t : Z }.

Section Pedersen.
Context {S : Saferith}.

Definition ValidateParameters (n s t : option Z) : outcome unit :=
  match n, s, t with
  | Some n, Some s, Some t =>
      if negb (IsValidNatModN n [Some s; Some t]) then Fail ErrNotValidModN
      else if s =? t then Fail ErrSEqualT else Ret tt
  | _, _, _ => Fail ErrNilFields
  end.

(** [Parameters.Commit] *)
Definition ped_Commit (p : Parameters) (x y : Z) : Z :=
  let sx := Modulus_ExpI (ped_n p) (ped_s p) x in
  let ty := Modulus_ExpI (ped_n p) (ped_t p) y in
  (sx * ty) mod mod_n (ped_n p).

(** [Parameters.Verify] *)
Definition ped_Verify (p : Parameters) (a b e : option Z) (S0 T0 : option Z) : bool :=
  match a, b, S0, T0, e with
  | Some a, Some b, Some S', Some T', Some e =>
      let nMod := mod_n (ped_n p) in
      if negb (IsValidNatModN nMod [Some S'; Some T']) then false
      else
        let sa := Modulus_ExpI (ped_n p) (ped_s p) a in
        let tb := Modulus_ExpI (ped_n p) (ped_t p) b in
        let lhs := (sa * tb) mod nMod in
        let te := Modulus_ExpI (ped_n p) T' e in
        let rhs := (te * S') mod nMod in
        lhs =? rhs
  | _, _, _, _, _ => false
  end.

Definition ped_WriteTo (p : Parameters) : bytes :=
  concat ((fun i => be_of_Z BytesIntModN i) <$> [mod_n (ped_n p); ped_s p; ped_t p]).

Definition ped_any (p : Parameters) : any :=
  AWriterTo "*pedersen.Parameters" "Pedersen Parameters" (Ret (ped_WriteTo p)).

(** [SecretKey.GeneratePedersen] of pkg/paillier. *)
Definition GeneratePedersen (fuel : nat) (sk : SecretKey) (rand : reader) : outcome (Parameters * Z * reader) :=
  '(s, t, lambda, rand) ← sample_Pedersen fuel rand (sk_phi sk) (pk_N (sk_PublicKey sk));
  Ret (mkParameters (pk_n (sk_PublicKey sk)) s t, lambda, rand).

End Pedersen.

(** ** Properties *)

Section PedersenProps.
Context {S : Saferith} {SL : SaferithLaws S}.

Record ped_ok (p : Parameters) : Prop := {
  ped_modulus_ok : modulus_ok (ped_n p);
  ped_s_unit : unitZ (ped_s p) (mod_n (ped_n p));
  ped_t_unit : unitZ (ped_t p) (mod_n (ped_n p))
}.

Abbreviation res p := (residue (mod_n (ped_n p))).

(** s^x t^y *)
Definition ped_com (p : Parameters) (x y : Z) : res p :=
  Zmod.mul (Zmod.pow (Zmod.of_Z _ (ped_s p)) x) (Zmod.pow (Zmod.of_Z _ (ped_t p)) y).

Section Params.
Context {p : Parameters} (OK : ped_ok p).

Lemma ped_gt_1 : 1 < mod_n (ped_n p).
Proof. apply OK. Qed.

Lemma ped_Commit_spec x y : ped_Commit p x y = Zmod.to_Z (ped_com p x y).
Proof.
  destruct OK as [Hm Hs Ht]. unfold ped_Commit, ped_com. rewrite !Modulus_ExpI_spec by done. by rewrite Zmod.to_Z_mul.
Qed.

Lemma ped_com_unit x y : is_unit (ped_com p x y).
Proof. destruct OK as [Hm Hs Ht]. unfold ped_com. auto with units. Qed.

(** The residues that [IsValidNatModN] accepts. *)
Lemma IsValidNatModN_residues n (l : list (residue n)) :
  1 < n -> Forall is_unit l -> IsValidNatModN n ((fun x => Some (Zmod.to_Z x)) <$> l) = true.
Proof.
  intros Hn Hl. apply IsValidNatModN_spec; [done| |].
  - apply Forall_fmap. eapply Forall_impl; [|exact Hl]. intros x Hx z [= <-]. pose proof (unit_range x Hn Hx). lia.
  - apply Forall_fmap. eapply Forall_impl; [|exact Hl]. intros x Hx. exists (Zmod.to_Z x).
    split; [done|]. split; [by apply unit_range|done].
Qed.

(** [Verify] decides the equation s^a t^b = S T^e between units. *)
Lemma ped_Verify_spec a b e (x y : res p) :
  is_unit x -> is_unit y ->
  ped_Verify p (Some a) (Some b) (Some e) (Some (Zmod.to_Z x)) (Some (Zmod.to_Z y)) = true <->
  ped_com p a b = Zmod.mul (Zmod.pow y e) x.
Proof.
  intros Hx Hy. pose proof OK as [Hm Hs Ht]. unfold ped_Verify.
  pose proof (IsValidNatModN_residues _ [x; y] ped_gt_1) as V. cbn [fmap list_fmap] in V.
  rewrite V by (by repeat constructor). cbn [negb].
  rewrite !Modulus_ExpI_spec by done. rewrite Zmod.of_Z_to_Z, <- !Zmod.to_Z_mul, Z.eqb_eq.
  split; [apply Zmod.to_Z_inj|apply f_equal].
Qed.

(** Commitments combine linearly. *)
Lemma ped_com_affine x y α γ e :
  ped_com p (e * x + α) (e * y + γ) = Zmod.mul (Zmod.pow (ped_com p x y) e) (ped_com p α γ).
Proof.
  destruct OK as [Hm Hs Ht]. unfold ped_com.
  pose proof (is_unit_of_Z _ _ Hs) as Us. pose proof (is_unit_of_Z _ _ Ht) as Ut. revert Us Ut.
  generalize (Zmod.of_Z (mod_n (ped_n p)) (ped_s p)) as s, (Zmod.of_Z (mod_n (ped_n p)) (ped_t p)) as t.
  intros s t Us Ut.
  rewrite !pow_plus, (mul_pow (Zmod.pow s x)), <- !pow_pow, !(Z.mul_comm _ e) by auto with units.
  rewrite <- !Zmod.mul_assoc. f_equal. rewrite !Zmod.mul_assoc. f_equal. apply Zmod.mul_comm.
Qed.

(** The check in the zero-knowledge proofs accepts an honest response. *)
Lemma ped_Verify_complete x μ α γ e :
  ped_Verify p (Some (e * x + α)) (Some (e * μ + γ)) (Some e)
    (Some (ped_Commit p α γ)) (Some (ped_Commit p x μ)) = true.
Proof. rewrite !ped_Commit_spec. apply ped_Verify_spec; [apply ped_com_unit..|apply ped_com_affine]. Qed.

End Params.

(** The parameters of a key are valid, unless s and t happen to be equal. *)
Lemma GeneratePedersen_ok fuel sk rand ped lambda rand' :
  pk_ok (sk_PublicKey sk) -> GeneratePedersen fuel sk rand = Ret (ped, lambda, rand') ->
  ped_ok ped /\ mod_n (ped_n ped) = pk_N (sk_PublicKey sk) /\ 0 <= lambda < sk_phi sk /\
  ped_s ped = Zmod.to_Z (Zmod.pow (Zmod.of_Z (mod_n (ped_n ped)) (ped_t ped)) lambda) /\
  (ped_s ped <> ped_t ped ->
   ValidateParameters (Some (mod_n (ped_n ped))) (Some (ped_s ped)) (Some (ped_t ped)) = Ret tt).
Proof.
  intros OK ([[[s t] l] r] & E & [= <- <- <-])%bind_ret_inv. cbn [ped_n ped_s ped_t].
  apply sample_Pedersen_spec in E as (Hl & Ut & Rt & Es & Us & Rs); [|apply OK].
  split; [split; [apply OK|done|done]|]. split; [done|]. split; [done|]. split; [done|]. intros N.
  assert (IsValidNatModN (pk_N (sk_PublicKey sk)) [Some s; Some t] = true) as V.
  { apply IsValidNatModN_spec; [apply OK| |].
    - repeat constructor; intros z [= <-]; lia.
    - constructor; [by exists s|]. constructor; [by exists t|done]. }
  cbn [ValidateParameters]. unfold pk_N in V. rewrite V. by destruct (Z.eqb_spec s t).
Qed.

End PedersenProps.
