(* ===== verification/Zk.v ===== *)
(** * What the zero-knowledge proofs of pkg/zk share

    Every proof follows the same pattern: commit to random masks, derive a
    challenge from the session hash, answer linearly, and let the verifier
    check equations between Paillier ciphertexts, ring-Pedersen commitments
    and curve points.  This file holds the challenge, the responses, and the
    three lemmas by which honest responses satisfy the three kinds of
    equation.

    Pointers that a decoded proof may leave nil are options; a method that
    dereferences a nil pointer panics. *)

From Stdlib Require Import ZArith Lia Znumtheory Zmod.
From Stdlib Require Import Strings.Byte.
From stdpp Require Import base strings list pretty numbers.
From S2P Require Import Prelude Hash Curve Primes Arith Sample SampleInts PaillierMath Paillier Pedersen.

Local Open Scope Z_scope.

(** [if !b { return false }] in a verifier. *)
Notation "'require' b ; k" := (if (b : bool) then k else Ret false)
  (at level 100, b at level 99, k at level 200, right associativity, only parsing).

Lemma ret_pair_inv {A B} (a a' : A) (b b' : B) : Ret (a, b) = Ret (a', b') -> a' = a /\ b' = b.
Proof. by intros [= -> ->]. Qed.

(** Goals [writes l] for a list of honest arguments. *)
Ltac solve_writes := repeat constructor; eexists; reflexivity.

Section Zk.
Context {C : Curve} {B3 : Blake3} {S : Saferith}.

(** A [*saferith.Nat] or [*saferith.Modulus] as an argument of [WriteAny]. *)
Definition Nat_any (x : option Z) : any :=
  AMarshaler "*saferith.Nat" (z ← deref x; Ret (sf_MarshalBinary z)).

Definition Modulus_any (n : Z) : any := AMarshaler "*saferith.Modulus" (Ret (sf_MarshalBinary n)).

Definition Scalar_any (s : Scalar) : any := AMarshaler "*curve.Secp256k1Scalar" (Ret (SMarshal s)).

(** The challenge of the proofs: the data is written to the hash, the
    challenge is read from the digest, and the flag tells whether [WriteAny]
    returned no error. *)
Definition zk_challenge {A} (sampler : reader -> outcome (A * reader)) (h : Hash) (data : list any) :
    outcome (A * bool) :=
  match WriteAny h data with
  | (_, Panic p) => Panic p
  | (h', err) => '(e, _) ← sampler (Digest h'); Ret (e, is_ret err)
  end.

(** [group.NewScalar().SetNat(x.Mod(group.Order()))] *)
Definition scalar_of (x : Z) : Scalar := SetNat (x mod order).

(** [z := new(saferith.Int).Mul(e, x, -1); z.Add(z, a, -1)] *)
Definition zk_response (e x a : Z) : Z := e * x + a.

(** [z := n.ExpI(rho, e); z.ModMul(z, r, n)] *)
Definition zk_nonce (n : Modulus) (rho e r : Z) : Z := (Modulus_ExpI n rho e * r) mod mod_n n.

(** ** The challenge *)

Lemma sampleNeg_digest h bits : exists z rand, sampleNeg (Digest h) bits = Ret (z, rand).
Proof.
  unfold sampleNeg. destruct (mustReadBits_ok (Digest h) (bits / 8 + 1) eq_refl) as (buf & r & -> & _). cbn. eauto.
Qed.

Lemma sampleNeg_abs rand bits v rand' :
  (bits mod 8 = 0)%nat -> sampleNeg rand bits = Ret (v, rand') -> Z.abs v < 2 ^ Z.of_nat bits.
Proof. intros Hb E%sampleNeg_range; [lia|done]. Qed.

(** Data that marshals is written without an error. *)
Definition writes (data : list any) : Prop := Forall (fun d => exists it, to_be_written d = Ret it) data.

Lemma WriteAny_ok h data : writes data -> exists h', WriteAny h data = (h', Ret tt).
Proof.
  intros W. revert h. induction W as [|d data [it E] _ IH]; intros h; cbn; [eauto|]. rewrite E. apply IH.
Qed.

Lemma zk_challenge_ok {A} (sampler : reader -> outcome (A * reader)) h data :
  (forall h, exists a rand, sampler (Digest h) = Ret (a, rand)) -> writes data ->
  exists e, zk_challenge sampler h data = Ret (e, true).
Proof.
  intros Hs W. unfold zk_challenge. destruct (WriteAny_ok h data W) as [h' ->].
  destruct (Hs h') as (a & r & ->). cbn. eauto.
Qed.

Lemma zk_challenge_flag {A} (sampler : reader -> outcome (A * reader)) h data e ok :
  writes data -> zk_challenge sampler h data = Ret (e, ok) -> ok = true.
Proof.
  intros W. unfold zk_challenge. destruct (WriteAny_ok h data W) as [h' ->].
  by intros ([a r] & _ & [= _ <-])%bind_ret_inv.
Qed.

Lemma zk_challenge_sampled {A} (sampler : reader -> outcome (A * reader)) h data e ok :
  zk_challenge sampler h data = Ret (e, ok) -> exists h' r, sampler (Digest h') = Ret (e, r).
Proof.
  unfold zk_challenge. destruct (WriteAny h data) as [h' [?|?|?]]; try done;
    intros ([] & E & [= <- _])%bind_ret_inv; eauto.
Qed.

Lemma sampleNeg_bytes rand bits v rand' :
  sampleNeg rand bits = Ret (v, rand') -> Z.abs v < 256 ^ Z.of_nat (bits / 8).
Proof.
  intros ([buf r] & R & E)%bind_ret_inv. apply read_loop_length in R. destruct buf as [|b buf]; [cbn in R; lia|].
  injection E as <- _. cbn [length tail] in *. pose proof (be_to_Z_bound buf) as B.
  replace (bits / 8)%nat with (length buf) by lia. destruct (Z.odd _); lia.
Qed.

(** ** Honest responses *)

Lemma scalar_of_eq x : scalar_of x = Zmod.of_Z order x.
Proof. apply Zmod.of_Z_mod. Qed.

Lemma scalar_of_response e x a : scalar_of (zk_response e x a) = (scalar_of e * scalar_of x + scalar_of a)%C.
Proof. unfold zk_response. by rewrite !scalar_of_eq, Zmod.of_Z_add, Zmod.of_Z_mul. Qed.

Context {SL : SaferithLaws S}.

Lemma zk_nonce_spec n rho e r :
  modulus_ok n -> unitZ rho (mod_n n) ->
  zk_nonce n rho e r = Zmod.to_Z (Zmod.mul (Zmod.pow (Zmod.of_Z (mod_n n) rho) e) (Zmod.of_Z (mod_n n) r)).
Proof.
  intros Hn Hr. unfold zk_nonce. rewrite Modulus_ExpI_spec by done.
  by rewrite Zmod.to_Z_mul, Zmod.to_Z_of_Z, Zmult_mod_idemp_r.
Qed.

Lemma zk_nonce_valid n rho e r :
  modulus_ok n -> unitZ rho (mod_n n) -> unitZ r (mod_n n) ->
  IsValidNatModN (mod_n n) [Some (zk_nonce n rho e r)] = true.
Proof.
  intros Hn Hρ Hr. rewrite zk_nonce_spec by done.
  pose proof (IsValidNatModN_residues (mod_n n)
    [Zmod.mul (Zmod.pow (Zmod.of_Z (mod_n n) rho) e) (Zmod.of_Z (mod_n n) r)]) as V. cbn [fmap list_fmap] in V.
  apply V; [apply Hn|]. constructor; [|done]. auto with units.
Qed.

Section Key.
Context {pk : PublicKey} (OK : pk_ok pk).

Lemma enc_valid m ρ : unitZ ρ (pk_N pk) -> ValidateCiphertexts pk [Some (Zmod.to_Z (pk_enc pk m ρ))] = true.
Proof.
  intros Hρ. apply ValidateCiphertexts_true; [done|]. constructor; [|done]. eexists. split; [done|].
  by apply pk_enc_unit.
Qed.

Lemma nonce_valid ρ e r :
  unitZ ρ (pk_N pk) -> unitZ r (pk_N pk) ->
  IsValidNatModN (pk_N pk) [Some (zk_nonce (pk_n pk) ρ e r)] = true.
Proof. intros. apply zk_nonce_valid; [apply OK|done..]. Qed.

(** Enc(e x + α; ρ^e r) = (e ⊙ Enc(x;ρ)) ⊕ Enc(α;r) *)
Lemma enc_check x ρ α r e :
  unitZ ρ (pk_N pk) -> unitZ r (pk_N pk) -> Z.abs (zk_response e x α) <= pk_N pk / 2 ->
  EncWithNonce pk (zk_response e x α) (zk_nonce (pk_n pk) ρ e r)
  = Ret (ct_Add pk (ct_Mul pk (Zmod.to_Z (pk_enc pk x ρ)) (Some e)) (Some (Zmod.to_Z (pk_enc pk α r)))).
Proof.
  intros Hρ Hr Hb. rewrite EncWithNonce_ret by done. f_equal.
  rewrite ct_Mul_spec by (done || by apply pk_enc_unit). rewrite ct_Add_spec by done. f_equal.
  unfold pk_enc. rewrite <- enc_affine by (done || apply OK).
  rewrite zk_nonce_spec by (done || apply OK). done.
Qed.

(** Enc(e y + β; s^e ρ) ⊕ ((e x + α) ⊙ K) = (e ⊙ D) ⊕ A, for
    D = Enc(y;s) ⊕ (x ⊙ K) and A = Enc(β;ρ) ⊕ (α ⊙ K). *)
Lemma aff_check (κ : residue (pk_N pk * pk_N pk)) x y s α β ρ e :
  is_unit κ -> unitZ s (pk_N pk) -> unitZ ρ (pk_N pk) -> Z.abs (zk_response e y β) <= pk_N pk / 2 ->
  exists lhs,
    EncWithNonce pk (zk_response e y β) (zk_nonce (pk_n pk) s e ρ) = Ret lhs /\
    ct_Add pk lhs (Some (ct_Mul pk (Zmod.to_Z κ) (Some (zk_response e x α))))
    = ct_Add pk (ct_Mul pk (ct_Add pk (Zmod.to_Z (pk_enc pk y s)) (Some (ct_Mul pk (Zmod.to_Z κ) (Some x)))) (Some e))
        (Some (ct_Add pk (Zmod.to_Z (pk_enc pk β ρ)) (Some (ct_Mul pk (Zmod.to_Z κ) (Some α))))).
Proof.
  intros Hκ Hs Hρ Hb. eexists. split; [by apply enc_check|].
  pose proof (pk_enc_unit OK y s Hs) as U1. pose proof (pk_enc_unit OK β ρ Hρ) as U2.
  rewrite !(ct_Mul_spec OK) by auto with units. rewrite !(ct_Add_spec OK).
  rewrite !(ct_Mul_spec OK) by auto with units. rewrite !(ct_Add_spec OK). f_equal.
  unfold zk_response. rewrite pow_plus, mul_pow, <- pow_pow, (Z.mul_comm x e) by auto with units.
  set (A := Zmod.pow (pk_enc pk y s) e). set (B := pk_enc pk β ρ).
  set (X := Zmod.pow κ (e * x)). set (Y := Zmod.pow κ α).
  rewrite <- !Zmod.mul_assoc. f_equal. rewrite !Zmod.mul_assoc. f_equal. apply Zmod.mul_comm.
Qed.

(** ((e x + α) ⊙ K) (ρ^e r)^N = (e ⊙ D) ⊕ A, for D = (x ⊙ K) ρ^N and
    A = (α ⊙ K) r^N. *)
Lemma mul_check (κ : residue (pk_N pk * pk_N pk)) x α ρ r e :
  is_unit κ -> unitZ ρ (pk_N pk) -> unitZ r (pk_N pk) ->
  let D := randomize_with pk (ct_Mul pk (Zmod.to_Z κ) (Some x)) ρ in
  let A := randomize_with pk (ct_Mul pk (Zmod.to_Z κ) (Some α)) r in
  randomize_with pk (ct_Mul pk (Zmod.to_Z κ) (Some (zk_response e x α))) (zk_nonce (pk_n pk) ρ e r)
  = ct_Add pk (ct_Mul pk D (Some e)) (Some A).
Proof.
  intros Hκ Hρ Hr D A. assert (1 < pk_N pk) as H1 by apply OK. unfold D, A.
  pose proof (nonce_unit _ ρ Hρ) as Uρ. pose proof (nonce_unit _ r Hr) as Ur.
  rewrite !(ct_Mul_spec OK), !(randomize_res OK) by done.
  rewrite (ct_Mul_spec OK), (ct_Add_spec OK) by auto with units. f_equal.
  rewrite zk_nonce_spec by (done || apply OK). change (mod_n (pk_n pk)) with (pk_N pk).
  rewrite (lift_nonce (pk_N pk)) by done. unfold zk_response.
  rewrite pow_plus, mul_pow, <- (pow_pow κ), (Z.mul_comm x e) by auto with units.
  set (a := Zmod.pow κ (e * x)). set (b := Zmod.pow κ α).
  rewrite <- !Zmod.mul_assoc. f_equal. rewrite !Zmod.mul_assoc. f_equal. apply Zmod.mul_comm.
Qed.

(** What a verifier learns from an accepted Paillier check. *)
Lemma enc_equation z w e (κ a : residue (pk_N pk * pk_N pk)) lhs :
  is_unit κ -> EncWithNonce pk z w = Ret lhs ->
  ct_Equal lhs (ct_Add pk (ct_Mul pk (Zmod.to_Z κ) (Some e)) (Some (Zmod.to_Z a))) = true ->
  pk_enc pk z w = Zmod.mul (Zmod.pow κ e) a.
Proof.
  intros Hκ El Eq. apply EncWithNonce_inv in El as [_ ->]; [|done].
  unfold ct_Equal in Eq. apply Z.eqb_eq in Eq. rewrite ct_Mul_spec, ct_Add_spec in Eq by done.
  by apply Zmod.to_Z_inj in Eq.
Qed.

Lemma valid_ct_inv c :
  (forall z, c = Some z -> 0 <= z) -> ValidateCiphertexts pk [c] = true ->
  exists x : residue (pk_N pk * pk_N pk), c = Some (Zmod.to_Z x) /\ is_unit x.
Proof.
  intros Hc V. apply ValidateCiphertexts_inv in V; [|done|by constructor]. inversion V as [|? ? H]. apply H.
Qed.

Lemma valid_ct_some c :
  valid_ct (pk := pk) (Some c) -> exists x : residue (pk_N pk * pk_N pk), c = Zmod.to_Z x /\ is_unit x.
Proof. intros (x & E & Hx). exists x. split; [congruence|done]. Qed.

Lemma valid_nat_inv w : IsValidNatModN (pk_N pk) [w] = true -> exists z, w = Some z /\ unitZ z (pk_N pk).
Proof.
  cbn. destruct w as [w|]; [|done]. destruct (w <? pk_N pk); cbn; [|done].
  destruct (sf_IsUnit w (pk_N pk)) eqn:U; cbn; [|done]. intros _. exists w. split; [done|].
  apply unit_spec in U; [done|destruct OK; lia].
Qed.

End Key.

(** A verifier that accepts has passed each of its checks. *)
Lemma require_inv (b : bool) (k : outcome bool) : (require b; k) = Ret true -> b = true /\ k = Ret true.
Proof. by destruct b. Qed.

End Zk.

(** Step through the samplers of a prover on a steady reader, keeping the
    bounds of the intervals. *)
Ltac zk_sample :=
  match goal with
  | H : steady ?Ns ?r |- context [sampleNeg ?r ?b] =>
      let E := fresh "E" in
      destruct (sampleNeg_steady Ns r b H) as (? & ? & ? & E); rewrite E; clear H;
      apply sampleNeg_abs in E; [|done]; cbn [mbind outcome_bind]
  | H : steady ?Ns ?r |- context [sample_Scalar ?r] =>
      let E := fresh "E" in
      destruct (sample_Scalar_steady Ns r H) as (? & ? & ? & E); rewrite E; clear H E; cbn [mbind outcome_bind]
  | H : steady ?Ns ?r |- context [UnitModN ?r ?n] =>
      let E := fresh "E" in
      destruct (UnitModN_steady Ns r n) as (? & ? & ? & E);
      [match goal with OK : pk_ok _ |- _ => destruct OK; lia end | first [by left | by right; left] | exact H |];
      rewrite E; clear H; apply UnitModN_unit in E as [_ E];
      [|match goal with OK : pk_ok _ |- _ => destruct OK; lia end]; cbn [mbind outcome_bind]
  end.

Ltac zk_intervals :=
  unfold IntervalL, IntervalLPrime, IntervalEps, IntervalLEps, IntervalLPrimeEps, IntervalLN, IntervalLN2,
    IntervalLEpsN, IntervalLEpsN2, IntervalLEpsRootN.

(** The challenge of honest data returns. *)
Ltac zk_challenged :=
  match goal with
  | |- context [zk_challenge ?s ?h ?d] =>
      let e := fresh "e" in let E := fresh "Ee" in
      destruct (zk_challenge_ok s h d) as [e E];
      [intros; first [apply sampleNeg_digest | apply sample_Scalar_digest] | solve_writes
      | rewrite E; cbn [mbind outcome_bind]]
  end.

(** Invert a prover's run into the values it sampled, with the facts that the
    verification equations need. *)
Ltac zk_inv E :=
  repeat match type of E with
  | _ = Ret _ =>
      first [ apply bind_ret_inv in E as ([? ?] & ? & E) | apply bind_ret_inv in E as (? & ? & E) ]
  end;
  repeat match goal with
  | H : sampleNeg _ _ = Ret _ |- _ => clear H
  | H : sample_Scalar _ = Ret _ |- _ => clear H
  | H : UnitModN _ _ = Ret _ |- _ =>
      apply UnitModN_unit in H as [_ H]; [|match goal with OK : pk_ok _ |- _ => destruct OK; lia end]
  | H : EncWithNonce _ _ _ = Ret _ |- _ => apply EncWithNonce_inv in H as [_ ->]; [|done]
  end.

(** Find the challenge of the run; honest data is written without error. *)
Ltac zk_flag H :=
  match goal with
  | H' : _ = Ret (_, ?ok) |- _ =>
      lazymatch type of ok with
      | bool => assert (ok = true) as -> by (eapply zk_challenge_flag; [|exact H']; solve_writes); rename H' into H
      end
  end.
