(* ===== verification/ZkEnc.v ===== *)
(** * pkg/zk/enc, encelg, logstar: range proofs for a Paillier plaintext

    - [zkenc]: the plaintext of K lies in ±2^(l+ε);
    - [zkencelg]: moreover it is the exponent of an ElGamal ciphertext;
    - [zklogstar]: moreover it is the discrete logarithm of a point. *)

From Stdlib Require Import ZArith Lia Znumtheory Zmod Field.
From Stdlib Require Import Strings.Byte.
From stdpp Require Import base strings list pretty numbers.
From S2P Require Import Prelude Hash Curve Primes Arith Sample SampleInts PaillierMath Paillier Pedersen Zk.

Local Open Scope Z_scope.

(** ** zkenc *)

Section Enc.
Context {C : Curve} {B3 : Blake3} {S : Saferith}.

Record zkenc_Public := mkEncPublic { encK : Ciphertext; encProver : PublicKey; encAux : Parameters }.
Record zkenc_Private := mkEncPrivate { encpK : Z; encpRho : Z }.
Record zkenc_Commitment := mkEncCommitment { encS : option Z; encA : option Ciphertext; encC : option Z }.
Record zkenc_Proof := mkEncProof {
  encComm : option zkenc_Commitment;
  encZ1 : option Z;
  encZ2 : option Z;
  encZ3 : option Z
}.

Definition zkenc_IsValid (p : option zkenc_Proof) (public : zkenc_Public) : outcome bool :=
  match p with
  | None => Ret false
  | Some p =>
      c ← deref (encComm p);
      require ValidateCiphertexts (encProver public) [encA c];
      require IsValidNatModN (pk_N (encProver public)) [encZ2 p];
      Ret true
  end.

Definition zkenc_challenge (h : Hash) (public : zkenc_Public) (c : zkenc_Commitment) : outcome (Z * bool) :=
  zk_challenge IntervalScalar h
    [ped_any (encAux public); pk_any (encProver public); ct_any (Some (encK public));
     Nat_any (encS c); ct_any (encA c); Nat_any (encC c)].

Definition zkenc_NewProof (h : Hash) (public : zkenc_Public) (private : zkenc_Private) (rand : reader) :
    outcome (zkenc_Proof * reader) :=
  let N := pk_N (encProver public) in
  let NModulus := pk_n (encProver public) in
  '(alpha, rand) ← IntervalLEps rand;
  '(r, rand) ← UnitModN rand N;
  '(mu, rand) ← IntervalLN rand;
  '(gamma, rand) ← IntervalLEpsN rand;
  A ← EncWithNonce (encProver public) alpha r;
  let commitment := mkEncCommitment (Some (ped_Commit (encAux public) (encpK private) mu)) (Some A)
                      (Some (ped_Commit (encAux public) alpha gamma)) in
  '(e, _) ← zkenc_challenge h public commitment;
  let z1 := zk_response e (encpK private) alpha in
  let z2 := zk_nonce NModulus (encpRho private) e r in
  let z3 := zk_response e mu gamma in
  Ret (mkEncProof (Some commitment) (Some z1) (Some z2) (Some z3), rand).

Definition zkenc_Verify (p : option zkenc_Proof) (h : Hash) (public : zkenc_Public) : outcome bool :=
  ok ← zkenc_IsValid p public;
  require ok;
  p ← deref p;
  c ← deref (encComm p);
  let prover := encProver public in
  require IsInIntervalLEps (encZ1 p);
  '(e, ok) ← zkenc_challenge h public c;
  require ok;
  require ped_Verify (encAux public) (encZ1 p) (encZ3 p) (Some e) (encC c) (encS c);
  z1 ← deref (encZ1 p);
  z2 ← deref (encZ2 p);
  lhs ← EncWithNonce prover z1 z2;
  let rhs := ct_Add prover (ct_Mul prover (ct_Clone (encK public)) (Some e)) (encA c) in
  require ct_Equal lhs rhs;
  Ret true.

(** The statement the prover knows a witness for. *)
Definition zkenc_relation (public : zkenc_Public) (private : zkenc_Private) : Prop :=
  pk_ok (encProver public) /\ ped_ok (encAux public) /\
  unitZ (encpRho private) (pk_N (encProver public)) /\
  encK public = Zmod.to_Z (pk_enc (encProver public) (encpK private) (encpRho private)).

Context {SL : SaferithLaws S}.

Lemma zkenc_NewProof_inv h public private rand p rand' :
  zkenc_relation public private -> zkenc_NewProof h public private rand = Ret (p, rand') ->
  exists α r μ γ e,
    let c := mkEncCommitment (Some (ped_Commit (encAux public) (encpK private) μ))
               (Some (Zmod.to_Z (pk_enc (encProver public) α r))) (Some (ped_Commit (encAux public) α γ)) in
    Z.abs α < 2 ^ Z.of_nat LPlusEpsilon /\
    unitZ r (pk_N (encProver public)) /\ zkenc_challenge h public c = Ret (e, true) /\
    p = mkEncProof (Some c) (Some (zk_response e (encpK private) α))
          (Some (zk_nonce (pk_n (encProver public)) (encpRho private) e r)) (Some (zk_response e μ γ)).
Proof.
  intros (Hpk & Hped & Hρ & HK). unfold zkenc_NewProof.
  intros ([α r1] & E1 & E)%bind_ret_inv. apply bind_ret_inv in E as ([r r2] & E2 & E).
  apply bind_ret_inv in E as ([μ r3] & E3 & E). apply bind_ret_inv in E as ([γ r4] & E4 & E).
  apply bind_ret_inv in E as (A & EA & E). apply bind_ret_inv in E as ([e ok] & Ee & E).
  injection E as <- <-. apply EncWithNonce_inv in EA as [_ ->]; [|done].
  apply UnitModN_unit in E2 as [_ Hr]; [|destruct Hpk; lia].
  assert (ok = true) as -> by (eapply zk_challenge_flag; [|exact Ee]; solve_writes).
  exists α, r, μ, γ, e. split; [by eapply sampleNeg_abs|]. by split.
Qed.

End Enc.

Ltac enc_simpl := cbn [deref mbind outcome_bind encComm encA encS encC encZ1 encZ2 encZ3].

Section EncProps.
Context {C : Curve} {B3 : Blake3} {S : Saferith} {SL : SaferithLaws S}.

Lemma zkenc_NewProof_total h public private rand :
  zkenc_relation public private -> 2 ^ Z.of_nat LPlusEpsilon <= pk_N (encProver public) / 2 ->
  steady [pk_N (encProver public)] rand ->
  exists p rand', zkenc_NewProof h public private rand = Ret (p, rand').
Proof.
  intros (Hpk & Hped & Hρ & HK) Hb Hs. unfold zkenc_NewProof. zk_intervals.
  do 4 zk_sample. rewrite EncWithNonce_ret by (done || lia). cbn [mbind outcome_bind].
  unfold zkenc_challenge. zk_challenged. eauto.
Qed.

(** An honest proof is accepted, unless its first response leaves the
    interval. *)
Lemma zkenc_accepts h public private rand p rand' :
  zkenc_relation public private -> 2 ^ Z.of_nat LPlusEpsilon <= pk_N (encProver public) / 2 ->
  zkenc_NewProof h public private rand = Ret (p, rand') -> IsInIntervalLEps (encZ1 p) = true ->
  zkenc_Verify (Some p) h public = Ret true.
Proof.
  intros R Hb E Hz. pose proof R as (Hpk & Hped & Hρ & HK).
  apply zkenc_NewProof_inv in E as (α & r & μ & γ & e & _ & Hr & Ech & ->); [|done].
  cbn [encZ1] in Hz. unfold zkenc_Verify, zkenc_IsValid. enc_simpl.
  rewrite enc_valid, nonce_valid by done. enc_simpl. rewrite Hz, Ech. enc_simpl.
  unfold zk_response at 1 2. rewrite ped_Verify_complete by done.
  apply IsInIntervalLEps_spec in Hz. rewrite HK, enc_check by (done || lia). enc_simpl.
  unfold ct_Equal, ct_Clone. by rewrite Z.eqb_refl.
Qed.

(** The numbers of a proof are naturals. *)
Definition zkenc_nats (p : zkenc_Proof) : Prop :=
  forall c, encComm p = Some c -> forall z, encA c = Some z -> 0 <= z.

Lemma zkenc_Verify_inv h public p (κ : residue (pk_N (encProver public) * pk_N (encProver public))) :
  pk_ok (encProver public) -> encK public = Zmod.to_Z κ -> is_unit κ -> zkenc_nats p ->
  zkenc_Verify (Some p) h public = Ret true ->
  exists c e z1 z2 (a : residue (pk_N (encProver public) * pk_N (encProver public))),
    encComm p = Some c /\ encA c = Some (Zmod.to_Z a) /\ is_unit a /\ encZ1 p = Some z1 /\
    unitZ z2 (pk_N (encProver public)) /\ zkenc_challenge h public c = Ret (e, true) /\
    Z.abs z1 < 2 ^ Z.of_nat LPlusEpsilon /\
    pk_enc (encProver public) z1 z2 = Zmod.mul (Zmod.pow κ e) a.
Proof.
  intros Hpk EK Hκ Hn. unfold zkenc_Verify, zkenc_IsValid. destruct (encComm p) as [c|] eqn:Ec; [|done].
  cbn [deref mbind outcome_bind]. destruct (ValidateCiphertexts _ _) eqn:V; [|done].
  destruct (IsValidNatModN _ _) eqn:V2; [|done]. cbn [deref mbind outcome_bind]. rewrite Ec. cbn [deref mbind outcome_bind].
  intros [HI E]%require_inv. apply bind_ret_inv in E as ([e ok] & Ech & [-> [_ E]%require_inv]%require_inv).
  apply valid_ct_inv in V as (a & Ea & Ha); [|done|by apply Hn]. apply valid_nat_inv in V2 as (z2 & Ez2 & Hz2); [|done].
  rewrite Ea, Ez2 in E. apply bind_ret_inv in E as (z1 & Ez1%deref_ret & E). cbn [deref mbind outcome_bind] in E.
  apply bind_ret_inv in E as (lhs & El & [Eq _]%require_inv). rewrite EK in Eq.
  exists c, e, z1, z2, a. split_and!; try done.
  - rewrite Ez1 in HI. by apply IsInIntervalLEps_spec.
  - by eapply enc_equation.
Qed.

(** Two accepted proofs with one commitment and different challenges
    determine the plaintext of K modulo N, up to the difference of the
    challenges. *)
Lemma zkenc_extracts h h' sk K aux p p' e e' c z z' :
  sk_ok sk -> valid_ct (pk := sk_PublicKey sk) (Some K) -> zkenc_nats p -> zkenc_nats p' ->
  let public := mkEncPublic K (sk_PublicKey sk) aux in
  zkenc_Verify (Some p) h public = Ret true -> zkenc_Verify (Some p') h' public = Ret true ->
  encComm p = Some c -> encComm p' = Some c -> encZ1 p = Some z -> encZ1 p' = Some z' ->
  zkenc_challenge h public c = Ret (e, true) -> zkenc_challenge h' public c = Ret (e', true) ->
  exists k, Dec sk (Some K) = Ret k /\
    ((e - e') * k) mod pk_N (sk_PublicKey sk) = (z - z') mod pk_N (sk_PublicKey sk) /\
    Z.abs (z - z') < 2 ^ (1 + Z.of_nat LPlusEpsilon).
Proof.
  intros OK (κ & [= ->] & Hκ) Hn Hn' public V V' Ec Ec' Ez Ez' Ee Ee'. pose proof (sk_pk_ok _ OK) as Hpk.
  apply (zkenc_Verify_inv _ public _ κ) in V as (c1 & e1 & z1 & w1 & a & Ec1 & Ea & Ha & Ez1 & Hw & Ech & Hz1 & E1); try done.
  apply (zkenc_Verify_inv _ public _ κ) in V' as (c2 & e2 & z2 & w2 & a' & Ec2 & Ea' & _ & Ez2 & Hw' & Ech' & Hz2 & E2); try done.
  rewrite Ec in Ec1; injection Ec1 as <-. rewrite Ec' in Ec2; injection Ec2 as <-.
  rewrite Ez in Ez1; injection Ez1 as <-. rewrite Ez' in Ez2; injection Ez2 as <-.
  rewrite Ee in Ech; injection Ech as <-. rewrite Ee' in Ech'; injection Ech' as <-.
  rewrite Ea in Ea'. injection Ea' as Ea'. apply Zmod.to_Z_inj in Ea'. subst a'.
  clear Ea Ee Ee' Ec Ec' c Ez Ez' p p' Hn Hn'. subst public. cbn [encProver] in *. revert κ a Hκ Ha Hw Hw' E1 E2.
  unfold pk_enc. rewrite (sk_N _ OK). intros κ a Hκ Ha Hw Hw' E1 E2.
  destruct (Dec_extract OK κ a e e' z z' w1 w2) as (m & Em & Ec); try done.
  exists m. split; [done|]. split; [done|]. rewrite Z.pow_add_r by lia. lia.
Qed.

End EncProps.

(** ** zkencelg *)

Section EncElg.
Context {C : Curve} {B3 : Blake3} {S : Saferith}.

Record zkencelg_Public := mkElgPublic {
  elgC : Ciphertext;
  elgA : Point;
  elgB : Point;
  elgX : Point;
  elgProver : PublicKey;
  elgAux : Parameters
}.

Record zkencelg_Private := mkElgPrivate { elgpX : Z; elgpRho : Z; elgpA : Scalar; elgpB : Scalar }.

Record zkencelg_Commitment := mkElgCommitment {
  elgS : option Z;
  elgD : option Ciphertext;
  elgY : Point;
  elgZ : Point;
  elgT : option Z
}.

Record zkencelg_Proof := mkElgProof {
  elgComm : option zkencelg_Commitment;
  elgZ1 : option Z;
  elgW : Scalar;
  elgZ2 : option Z;
  elgZ3 : option Z
}.

Definition zkencelg_IsValid (p : option zkencelg_Proof) (public : zkencelg_Public) : outcome bool :=
  match p with
  | None => Ret false
  | Some p =>
      c ← deref (elgComm p);
      require ValidateCiphertexts (elgProver public) [elgD c];
      require negb (IsZero (elgW p) || IsIdentity (elgY c) || IsIdentity (elgZ c));
      require IsValidNatModN (pk_N (elgProver public)) [elgZ2 p];
      Ret true
  end.

Definition zkencelg_challenge (h : Hash) (public : zkencelg_Public) (c : zkencelg_Commitment) : outcome (Z * bool) :=
  zk_challenge IntervalScalar h
    [ped_any (elgAux public); pk_any (elgProver public); ct_any (Some (elgC public)); Point_any (elgA public);
     Point_any (elgB public); Point_any (elgX public);
     Nat_any (elgS c); ct_any (elgD c); Point_any (elgY c); Point_any (elgZ c); Nat_any (elgT c)].

Definition zkencelg_NewProof (h : Hash) (public : zkencelg_Public) (private : zkencelg_Private) (rand : reader) :
    outcome (zkencelg_Proof * reader) :=
  let N := pk_N (elgProver public) in
  let NModulus := pk_n (elgProver public) in
  '(alpha, rand) ← IntervalLEps rand;
  let alphaScalar := scalar_of alpha in
  '(mu, rand) ← IntervalLN rand;
  '(r, rand) ← UnitModN rand N;
  '(beta, rand) ← sample_Scalar rand;
  '(gamma, rand) ← IntervalLEpsN rand;
  D ← EncWithNonce (elgProver public) alpha r;
  let commitment := mkElgCommitment
      (Some (ped_Commit (elgAux public) (elgpX private) mu))
      (Some D)
      (beta • elgA public ⊕ ActOnBase alphaScalar)%C
      (ActOnBase beta)
      (Some (ped_Commit (elgAux public) alpha gamma)) in
  '(e, _) ← zkencelg_challenge h public commitment;
  let z1 := zk_response e (elgpX private) alpha in
  let w := (scalar_of e * elgpB private + beta)%C in
  let z2 := zk_nonce NModulus (elgpRho private) e r in
  let z3 := zk_response e mu gamma in
  Ret (mkElgProof (Some commitment) (Some z1) w (Some z2) (Some z3), rand).

Definition zkencelg_Verify (p : option zkencelg_Proof) (h : Hash) (public : zkencelg_Public) : outcome bool :=
  ok ← zkencelg_IsValid p public;
  require ok;
  p ← deref p;
  c ← deref (elgComm p);
  let prover := elgProver public in
  require IsInIntervalLEps (elgZ1 p);
  '(e, ok) ← zkencelg_challenge h public c;
  require ok;
  let eScalar := scalar_of e in
  z1 ← deref (elgZ1 p);
  z2 ← deref (elgZ2 p);
  lhs ← EncWithNonce prover z1 z2;
  require ct_Equal lhs (ct_Add prover (ct_Mul prover (ct_Clone (elgC public)) (Some e)) (elgD c));
  require PEqual (ActOnBase (scalar_of z1) ⊕ elgW p • elgA public)%C (eScalar • elgX public ⊕ elgY c)%C;
  require PEqual (ActOnBase (elgW p)) (eScalar • elgB public ⊕ elgZ c)%C;
  require ped_Verify (elgAux public) (elgZ1 p) (elgZ3 p) (Some e) (elgT c) (elgS c);
  Ret true.

Definition zkencelg_Empty : zkencelg_Proof :=
  mkElgProof (Some (mkElgCommitment None None 𝟎%C 𝟎%C None)) None 0%C None None.

(** C encrypts x, B = b⋅G and X = b⋅A + x⋅G. *)
Definition zkencelg_relation (public : zkencelg_Public) (private : zkencelg_Private) : Prop :=
  pk_ok (elgProver public) /\ ped_ok (elgAux public) /\
  unitZ (elgpRho private) (pk_N (elgProver public)) /\
  elgC public = Zmod.to_Z (pk_enc (elgProver public) (elgpX private) (elgpRho private)) /\
  elgB public = ActOnBase (elgpB private) /\
  elgX public = (elgpB private • elgA public ⊕ ActOnBase (scalar_of (elgpX private)))%C.

Context {SL : SaferithLaws S} {CL : CurveLaws C}.
Add Field scalar_field_elg : scalar_field_theory.

Ltac elg_simpl := cbn [deref mbind outcome_bind elgComm elgD elgS elgT elgY elgZ elgZ1 elgZ2 elgZ3 elgW].

Lemma zkencelg_accepts h public private rand p rand' :
  zkencelg_relation public private -> 2 ^ Z.of_nat LPlusEpsilon <= pk_N (elgProver public) / 2 ->
  zkencelg_NewProof h public private rand = Ret (p, rand') ->
  zkencelg_IsValid (Some p) public = Ret true -> IsInIntervalLEps (elgZ1 p) = true ->
  zkencelg_Verify (Some p) h public = Ret true.
Proof.
  intros (Hpk & Hped & Hρ & HC & HB & HX) Hb E HV Hz. unfold zkencelg_NewProof in E. zk_inv E.
  apply ret_pair_inv in E as [-> ->]. cbn [elgZ1] in Hz.
  zk_flag Hc. unfold zkencelg_Verify. rewrite HV. elg_simpl. rewrite Hz, Hc. elg_simpl.
  apply IsInIntervalLEps_spec in Hz. rewrite HC, enc_check by (done || lia). elg_simpl.
  unfold ct_Equal, ct_Clone. rewrite Z.eqb_refl.
  unfold PEqual. rewrite !bool_decide_eq_true_2.
  - unfold zk_response. by rewrite ped_Verify_complete.
  - rewrite HB. unfold ActOnBase. by rewrite act_add, act_mul.
  - rewrite HX, scalar_of_response. destruct (base_generates (elgA public)) as [y ->].
    unfold ActOnBase. rewrite <- !act_mul, <- !act_add, <- !act_mul, <- !act_add. f_equal. ring.
Qed.

End EncElg.

(** ** zklogstar *)

Section LogStar.
Context {C : Curve} {B3 : Blake3} {S : Saferith}.

Record zklogstar_Public := mkLogstarPublic {
  lsC : Ciphertext;
  lsX : Point;
  lsG : option Point;
  lsProver : PublicKey;
  lsAux : Parameters
}.

Record zklogstar_Private := mkLogstarPrivate { lspX : Z; lspRho : Z }.

Record zklogstar_Commitment := mkLogstarCommitment {
  lsS : option Z;
  lsA : option Ciphertext;
  lsY : Point;
  lsD : option Z
}.

Record zklogstar_Proof := mkLogstarProof {
  lsComm : option zklogstar_Commitment;
  lsZ1 : option Z;
  lsZ2 : option Z;
  lsZ3 : option Z
}.

Definition zklogstar_IsValid (p : option zklogstar_Proof) (public : zklogstar_Public) : outcome bool :=
  match p with
  | None => Ret false
  | Some p =>
      c ← deref (lsComm p);
      require ValidateCiphertexts (lsProver public) [lsA c];
      require negb (IsIdentity (lsY c));
      require IsValidNatModN (pk_N (lsProver public)) [lsZ2 p];
      Ret true
  end.

(** [public.G], set to the base point when it is nil. *)
Definition ls_gen (public : zklogstar_Public) : Point := default 𝐆%C (lsG public).

Definition zklogstar_challenge (h : Hash) (public : zklogstar_Public) (c : zklogstar_Commitment) : outcome (Z * bool) :=
  zk_challenge IntervalScalar h
    [ped_any (lsAux public); pk_any (lsProver public); ct_any (Some (lsC public)); Point_any (lsX public);
     Point_any (ls_gen public);
     Nat_any (lsS c); ct_any (lsA c); Point_any (lsY c); Nat_any (lsD c)].

Definition zklogstar_NewProof (h : Hash) (public : zklogstar_Public) (private : zklogstar_Private) (rand : reader) :
    outcome (zklogstar_Proof * reader) :=
  let N := pk_N (lsProver public) in
  let NModulus := pk_n (lsProver public) in
  '(alpha, rand) ← IntervalLEps rand;
  '(r, rand) ← UnitModN rand N;
  '(mu, rand) ← IntervalLN rand;
  '(gamma, rand) ← IntervalLEpsN rand;
  A ← EncWithNonce (lsProver public) alpha r;
  let commitment := mkLogstarCommitment
      (Some (ped_Commit (lsAux public) (lspX private) mu))
      (Some A)
      (scalar_of alpha • ls_gen public)%C
      (Some (ped_Commit (lsAux public) alpha gamma)) in
  '(e, _) ← zklogstar_challenge h public commitment;
  let z1 := zk_response e (lspX private) alpha in
  let z2 := zk_nonce NModulus (lspRho private) e r in
  let z3 := zk_response e mu gamma in
  Ret (mkLogstarProof (Some commitment) (Some z1) (Some z2) (Some z3), rand).

Definition zklogstar_Verify (p : option zklogstar_Proof) (h : Hash) (public : zklogstar_Public) : outcome bool :=
  ok ← zklogstar_IsValid p public;
  require ok;
  p ← deref p;
  c ← deref (lsComm p);
  require IsInIntervalLEps (lsZ1 p);
  let prover := lsProver public in
  '(e, ok) ← zklogstar_challenge h public c;
  require ok;
  require ped_Verify (lsAux public) (lsZ1 p) (lsZ3 p) (Some e) (lsD c) (lsS c);
  z1 ← deref (lsZ1 p);
  z2 ← deref (lsZ2 p);
  lhs ← EncWithNonce prover z1 z2;
  require ct_Equal lhs (ct_Add prover (ct_Mul prover (ct_Clone (lsC public)) (Some e)) (lsA c));
  require PEqual (scalar_of z1 • ls_gen public)%C (scalar_of e • lsX public ⊕ lsY c)%C;
  Ret true.

Definition zklogstar_Empty : zklogstar_Proof :=
  mkLogstarProof (Some (mkLogstarCommitment None None 𝟎%C None)) None None None.

(** C encrypts x, and X = x⋅G. *)
Definition zklogstar_relation (public : zklogstar_Public) (private : zklogstar_Private) : Prop :=
  pk_ok (lsProver public) /\ ped_ok (lsAux public) /\
  unitZ (lspRho private) (pk_N (lsProver public)) /\
  lsC public = Zmod.to_Z (pk_enc (lsProver public) (lspX private) (lspRho private)) /\
  lsX public = (scalar_of (lspX private) • ls_gen public)%C.

Context {SL : SaferithLaws S} {CL : CurveLaws C}.

Ltac ls_simpl := cbn [deref mbind outcome_bind lsComm lsA lsS lsD lsY lsZ1 lsZ2 lsZ3].

Lemma zklogstar_accepts h public private rand p rand' :
  zklogstar_relation public private -> 2 ^ Z.of_nat LPlusEpsilon <= pk_N (lsProver public) / 2 ->
  zklogstar_NewProof h public private rand = Ret (p, rand') ->
  zklogstar_IsValid (Some p) public = Ret true -> IsInIntervalLEps (lsZ1 p) = true ->
  zklogstar_Verify (Some p) h public = Ret true.
Proof.
  intros (Hpk & Hped & Hρ & HC & HX) Hb E HV Hz. unfold zklogstar_NewProof in E. zk_inv E.
  apply ret_pair_inv in E as [-> ->]. cbn [lsZ1] in Hz. zk_flag Hc.
  unfold zklogstar_Verify. rewrite HV. ls_simpl. rewrite Hz, Hc. ls_simpl.
  apply IsInIntervalLEps_spec in Hz. rewrite HC, enc_check by (done || lia). ls_simpl.
  unfold ct_Equal, ct_Clone. rewrite Z.eqb_refl.
  unfold PEqual. rewrite bool_decide_eq_true_2.
  - unfold zk_response. by rewrite ped_Verify_complete.
  - by rewrite HX, scalar_of_response, act_add, act_mul.
Qed.

(** An accepted proof fixes the discrete logarithm of X like the plaintext of
    C: two answers give (e - e')⋅X = (z - z')⋅G. *)
Lemma zklogstar_Verify_point h public p :
  zklogstar_Verify (Some p) h public = Ret true ->
  exists c e z1, lsComm p = Some c /\ lsZ1 p = Some z1 /\ zklogstar_challenge h public c = Ret (e, true) /\
    (scalar_of z1 • ls_gen public = scalar_of e • lsX public ⊕ lsY c)%C.
Proof.
  unfold zklogstar_Verify. intros ([] & _ & E)%bind_ret_inv; [|done]. cbn [deref mbind outcome_bind] in E.
  apply bind_ret_inv in E as (c & Ec%deref_ret & [_ E]%require_inv).
  apply bind_ret_inv in E as ([e ok] & Ech & [-> [_ E]%require_inv]%require_inv).
  apply bind_ret_inv in E as (z1 & Ez%deref_ret & E). apply bind_ret_inv in E as (z2 & _ & E).
  apply bind_ret_inv in E as (lhs & _ & [_ [Hp _]%require_inv]%require_inv).
  exists c, e, z1. split_and!; try done. by apply bool_decide_eq_true in Hp.
Qed.

End LogStar.
