(* ===== verification/ZkGroup.v ===== *)
(** * pkg/zk/log and pkg/zk/elog: equality of discrete logarithms *)

From Stdlib Require Import ZArith Lia Znumtheory Zmod Field.
From Stdlib Require Import Strings.Byte.
From stdpp Require Import base strings list pretty numbers.
From S2P Require Import Prelude Hash Curve Arith Sample SampleInts PaillierMath Paillier Pedersen Zk Elgamal.

Local Open Scope curve_scope.

(** ** zklog: X = a⋅G, Y = a⋅H and H = b⋅G *)

Section Log.
Context {C : Curve} {B3 : Blake3}.

Record zklog_Public := mkLogPublic { logH : Point; logX : Point; logY : Point }.
Record zklog_Private := mkLogPrivate { logpA : Scalar; logpB : Scalar }.
Record zklog_Commitment := mkLogCommitment { logA : Point; logB : Point; logC : Point }.
Record zklog_Proof := mkLogProof { logComm : option zklog_Commitment; logZ1 : Scalar; logZ2 : Scalar }.

Definition zklog_IsValid (p : option zklog_Proof) : outcome bool :=
  match p with
  | None => Ret false
  | Some p =>
      c ← deref (logComm p);
      require negb (IsIdentity (logA c) || IsIdentity (logB c) || IsIdentity (logC c));
      require negb (IsZero (logZ1 p) || IsZero (logZ2 p));
      Ret true
  end.

Definition zklog_challenge (h : Hash) (public : zklog_Public) (c : zklog_Commitment) : outcome (Scalar * bool) :=
  zk_challenge sample_Scalar h
    [Point_any (logH public); Point_any (logX public); Point_any (logY public);
     Point_any (logA c); Point_any (logB c); Point_any (logC c)].

Definition zklog_NewProof (h : Hash) (public : zklog_Public) (private : zklog_Private) (rand : reader) :
    outcome (zklog_Proof * reader) :=
  '(alpha, rand) ← sample_Scalar rand;
  '(beta, rand) ← sample_Scalar rand;
  let commitment := mkLogCommitment (ActOnBase alpha) (alpha • logH public) (ActOnBase beta) in
  '(e, _) ← zklog_challenge h public commitment;
  Ret (mkLogProof (Some commitment) (e * logpA private + alpha) (e * logpB private + beta), rand).

Definition zklog_Verify (p : option zklog_Proof) (h : Hash) (public : zklog_Public) : outcome bool :=
  ok ← zklog_IsValid p;
  require ok;
  p ← deref p;
  c ← deref (logComm p);
  '(e, ok) ← zklog_challenge h public c;
  require ok;
  require PEqual (ActOnBase (logZ1 p)) (e • logX public ⊕ logA c);
  require PEqual (logZ1 p • logH public) (e • logY public ⊕ logB c);
  require PEqual (ActOnBase (logZ2 p)) (e • logH public ⊕ logC c);
  Ret true.

Definition zklog_Empty : zklog_Proof := mkLogProof (Some (mkLogCommitment 𝟎 𝟎 𝟎)) 0 0.

Context {CL : CurveLaws C}.
Add Field scalar_field_log : scalar_field_theory.

Ltac log_simpl := cbn [deref mbind outcome_bind logComm logA logB logC logZ1 logZ2].

Lemma zklog_accepts h public private rand p rand' :
  logX public = ActOnBase (logpA private) -> logY public = logpA private • logH public ->
  logH public = ActOnBase (logpB private) ->
  zklog_NewProof h public private rand = Ret (p, rand') -> zklog_IsValid (Some p) = Ret true ->
  zklog_Verify (Some p) h public = Ret true.
Proof.
  intros HX HY HH E HV. unfold zklog_NewProof in E. zk_inv E. apply ret_pair_inv in E as [-> ->]. zk_flag Hc.
  unfold zklog_Verify. rewrite HV. log_simpl. rewrite Hc. log_simpl. unfold PEqual.
  rewrite !bool_decide_eq_true_2; [done|..]; rewrite ?HX, ?HY; unfold ActOnBase; rewrite act_add, act_mul; try done.
  by rewrite HH.
Qed.

(** What an accepted proof shows. *)
Lemma zklog_Verify_inv h public p :
  zklog_Verify (Some p) h public = Ret true ->
  exists c e, logComm p = Some c /\ zklog_challenge h public c = Ret (e, true) /\
    ActOnBase (logZ1 p) = e • logX public ⊕ logA c /\
    logZ1 p • logH public = e • logY public ⊕ logB c /\
    ActOnBase (logZ2 p) = e • logH public ⊕ logC c.
Proof.
  unfold zklog_Verify. intros ([] & _ & E)%bind_ret_inv; [|done]. cbn [deref mbind outcome_bind] in E.
  apply bind_ret_inv in E as (c & Ec%deref_ret & E). apply bind_ret_inv in E as ([e ok] & Ech & [-> E]%require_inv).
  apply require_inv in E as [H1 [H2 [H3 _]%require_inv]%require_inv].
  exists c, e. unfold PEqual in *. rewrite bool_decide_eq_true in H1, H2, H3. by split_and!.
Qed.

(** Two accepted proofs with one commitment and different challenges: X and Y
    have the same discrete logarithm, to the bases G and H. *)
Lemma zklog_extracts h h' public p p' c e e' :
  zklog_Verify (Some p) h public = Ret true -> zklog_Verify (Some p') h' public = Ret true ->
  logComm p = Some c -> logComm p' = Some c ->
  zklog_challenge h public c = Ret (e, true) -> zklog_challenge h' public c = Ret (e', true) -> e <> e' ->
  let a := (logZ1 p - logZ1 p') / (e - e') in
  logX public = ActOnBase a /\ logY public = a • logH public.
Proof.
  intros V V' Ec Ec' Ee Ee' N a.
  apply zklog_Verify_inv in V as (c1 & e1 & Ec1 & Ee1 & X1 & Y1 & _).
  apply zklog_Verify_inv in V' as (c2 & e2 & Ec2 & Ee2 & X2 & Y2 & _).
  rewrite Ec in Ec1; injection Ec1 as <-. rewrite Ec' in Ec2; injection Ec2 as <-.
  rewrite Ee in Ee1; injection Ee1 as <-. rewrite Ee' in Ee2; injection Ee2 as <-.
  assert (e - e' <> 0) as Ne. { intros E. apply N. replace e with (e - e' + e') by ring. rewrite E. ring. }
  unfold a, ActOnBase in *. destruct (base_generates (logX public)) as [x Ex], (base_generates (logH public)) as [b Eb].
  destruct (base_generates (logY public)) as [y Ey], (base_generates (logA c)) as [ca Eca], (base_generates (logB c)) as [cb Ecb].
  rewrite Ex, Eca in X1, X2. rewrite Ey, Ecb, Eb in Y1, Y2. rewrite Ex, Ey, Eb.
  rewrite <- ?act_mul, <- ?act_add in *.
  apply base_act_inj in X1, X2, Y1, Y2.
  split; f_equal.
  - rewrite X1, X2. field. done.
  - replace ((logZ1 p - logZ1 p') / (e - e') * b) with ((logZ1 p * b - logZ1 p' * b) / (e - e')) by (field; done).
    rewrite Y1, Y2. field. done.
Qed.

End Log.

(** ** zkelog: an ElGamal ciphertext and a point share their exponent *)

Section Elog.
Context {C : Curve} {B3 : Blake3}.

Record zkelog_Public := mkElogPublic {
  elogE : Elgamal.Ciphertext;
  ElGamalPublic : Point;
  elogBase : Point;
  elogY : Point
}.

Record zkelog_Private := mkElogPrivate { elogpY : Scalar; elogpLambda : Scalar }.
Record zkelog_Commitment := mkElogCommitment { elogA : Point; elogN : Point; elogB : Point }.
Record zkelog_Proof := mkElogProof { elogComm : option zkelog_Commitment; elogZ : Scalar; elogU : Scalar }.

Definition zkelog_IsValid (p : option zkelog_Proof) : outcome bool :=
  match p with
  | None => Ret false
  | Some p =>
      c ← deref (elogComm p);
      require negb (IsIdentity (elogA c) || IsIdentity (elogN c) || IsIdentity (elogB c));
      require negb (IsZero (elogZ p) || IsZero (elogU p));
      Ret true
  end.

Definition zkelog_challenge (h : Hash) (public : zkelog_Public) (c : zkelog_Commitment) : outcome (Scalar * bool) :=
  zk_challenge sample_Scalar h
    [elgamal_any (elogE public); Point_any (ElGamalPublic public); Point_any (elogY public); Point_any (elogBase public);
     Point_any (elogA c); Point_any (elogN c); Point_any (elogB c)].

Definition zkelog_NewProof (h : Hash) (public : zkelog_Public) (private : zkelog_Private) (rand : reader) :
    outcome (zkelog_Proof * reader) :=
  '(alpha, rand) ← sample_Scalar rand;
  '(m, rand) ← sample_Scalar rand;
  let commitment := mkElogCommitment (ActOnBase alpha) (ActOnBase m ⊕ alpha • ElGamalPublic public)
                      (m • elogBase public) in
  '(e, _) ← zkelog_challenge h public commitment;
  Ret (mkElogProof (Some commitment) (e * elogpLambda private + alpha) (e * elogpY private + m), rand).

Definition zkelog_Verify (p : option zkelog_Proof) (h : Hash) (public : zkelog_Public) : outcome bool :=
  ok ← zkelog_IsValid p;
  require ok;
  p ← deref p;
  c ← deref (elogComm p);
  '(e, ok) ← zkelog_challenge h public c;
  require ok;
  require PEqual (ActOnBase (elogZ p)) (e • ct_L (elogE public) ⊕ elogA c);
  require PEqual (ActOnBase (elogU p) ⊕ elogZ p • ElGamalPublic public) (e • ct_M (elogE public) ⊕ elogN c);
  require PEqual (elogU p • elogBase public) (e • elogY public ⊕ elogB c);
  Ret true.

Definition zkelog_Empty : zkelog_Proof := mkElogProof (Some (mkElogCommitment 𝟎 𝟎 𝟎)) 0 0.

Context {CL : CurveLaws C}.
Add Field scalar_field_elog : scalar_field_theory.

Ltac elog_simpl := cbn [deref mbind outcome_bind elogComm elogA elogN elogB elogZ elogU].

Lemma zkelog_accepts h public private rand p rand' :
  elogE public = elgamal_enc (ElGamalPublic public) (elogpY private) (elogpLambda private) ->
  elogY public = elogpY private • elogBase public ->
  zkelog_NewProof h public private rand = Ret (p, rand') -> zkelog_IsValid (Some p) = Ret true ->
  zkelog_Verify (Some p) h public = Ret true.
Proof.
  intros HE HY E HV. unfold zkelog_NewProof in E. zk_inv E. apply ret_pair_inv in E as [-> ->]. zk_flag Hc.
  unfold zkelog_Verify. rewrite HV. elog_simpl. rewrite Hc. elog_simpl. rewrite HE, HY. unfold PEqual.
  rewrite !bool_decide_eq_true_2; [done| | |]; unfold elgamal_enc, ActOnBase; cbn [ct_L ct_M].
  - by rewrite act_add, act_mul.
  - destruct (base_generates (ElGamalPublic public)) as [y ->]. rewrite <- ?act_mul, <- ?act_add, <- ?act_mul, <- ?act_add.
    f_equal. ring.
  - by rewrite act_add, act_mul.
Qed.

End Elog.
