(* ===== verification/ZkAff.v ===== *)
(** * pkg/zk/affg and pkg/zk/affp: affine operations on ciphertexts

    The prover has multiplied a ciphertext K of the verifier by x and added an
    encryption of y.  In [zkaffg] the factor x is the discrete logarithm of a
    point, in [zkaffp] the plaintext of another ciphertext. *)

From Stdlib Require Import ZArith Lia Znumtheory Zmod Field.
From Stdlib Require Import Strings.Byte.
From stdpp Require Import base strings list pretty numbers.
From S2P Require Import Prelude Hash Curve Primes Arith Sample SampleInts PaillierMath Paillier Pedersen Zk.

Local Open Scope Z_scope.

(** ** zkaffg *)

Section AffG.
Context {C : Curve} {B3 : Blake3} {S : Saferith}.

Record zkaffg_Public := mkAffgPublic {
  gKv : Ciphertext;
  gDv : Ciphertext;
  gFp : Ciphertext;
  gXp : Point;
  gProver : PublicKey;
  gVerifier : PublicKey;
  gAux : Parameters
}.

Record zkaffg_Private := mkAffgPrivate { gpX : Z; gpY : Z; gpS : Z; gpR : Z }.

Record zkaffg_Commitment := mkAffgCommitment {
  gA : option Ciphertext;
  gBx : Point;
  gBy : option Ciphertext;
  gE : option Z;
  gS : option Z;
  gF : option Z;
  gT : option Z
}.

Record zkaffg_Proof := mkAffgProof {
  gComm : option zkaffg_Commitment;
  gZ1 : option Z;
  gZ2 : option Z;
  gZ3 : option Z;
  gZ4 : option Z;
  gW : option Z;
  gWy : option Z
}.

Definition zkaffg_IsValid (p : option zkaffg_Proof) (public : zkaffg_Public) : outcome bool :=
  match p with
  | None => Ret false
  | Some p =>
      c ← deref (gComm p);
      require ValidateCiphertexts (gVerifier public) [gA c];
      require ValidateCiphertexts (gProver public) [gBy c];
      require IsValidNatModN (pk_N (gProver public)) [gWy p];
      require IsValidNatModN (pk_N (gVerifier public)) [gW p];
      require negb (IsIdentity (gBx c));
      Ret true
  end.

Definition zkaffg_challenge (h : Hash) (public : zkaffg_Public) (c : zkaffg_Commitment) : outcome (Z * bool) :=
  zk_challenge IntervalScalar h
    [ped_any (gAux public); pk_any (gProver public); pk_any (gVerifier public);
     ct_any (Some (gKv public)); ct_any (Some (gDv public)); ct_any (Some (gFp public)); Point_any (gXp public);
     ct_any (gA c); Point_any (gBx c); ct_any (gBy c);
     Nat_any (gE c); Nat_any (gS c); Nat_any (gF c); Nat_any (gT c)].

Definition zkaffg_NewProof (h : Hash) (public : zkaffg_Public) (private : zkaffg_Private) (rand : reader) :
    outcome (zkaffg_Proof * reader) :=
  let N0 := pk_N (gVerifier public) in
  let N1 := pk_N (gProver public) in
  let N0Modulus := pk_n (gVerifier public) in
  let N1Modulus := pk_n (gProver public) in
  let verifier := gVerifier public in
  let prover := gProver public in
  '(alpha, rand) ← IntervalLEps rand;
  '(beta, rand) ← IntervalLPrimeEps rand;
  '(rho, rand) ← UnitModN rand N0;
  '(rhoY, rand) ← UnitModN rand N1;
  '(gamma, rand) ← IntervalLEpsN rand;
  '(m, rand) ← IntervalLN rand;
  '(delta, rand) ← IntervalLEpsN rand;
  '(mu, rand) ← IntervalLN rand;
  let cAlpha := ct_Mul verifier (ct_Clone (gKv public)) (Some alpha) in
  A ← EncWithNonce verifier beta rho;
  let A := ct_Add verifier A (Some cAlpha) in
  let E := ped_Commit (gAux public) alpha gamma in
  let S' := ped_Commit (gAux public) (gpX private) m in
  let F := ped_Commit (gAux public) beta delta in
  let T' := ped_Commit (gAux public) (gpY private) mu in
  By ← EncWithNonce prover beta rhoY;
  let commitment := mkAffgCommitment (Some A) (ActOnBase (scalar_of alpha)) (Some By)
                      (Some E) (Some S') (Some F) (Some T') in
  '(e, _) ← zkaffg_challenge h public commitment;
  let z1 := zk_response e (gpX private) alpha in
  let z2 := zk_response e (gpY private) beta in
  let z3 := zk_response e m gamma in
  let z4 := zk_response e mu delta in
  let w := zk_nonce N0Modulus (gpS private) e rho in
  let wY := zk_nonce N1Modulus (gpR private) e rhoY in
  Ret (mkAffgProof (Some commitment) (Some z1) (Some z2) (Some z3) (Some z4) (Some w) (Some wY), rand).

Definition zkaffg_Verify (p : option zkaffg_Proof) (h : Hash) (public : zkaffg_Public) : outcome bool :=
  ok ← zkaffg_IsValid p public;
  require ok;
  p ← deref p;
  c ← deref (gComm p);
  let verifier := gVerifier public in
  let prover := gProver public in
  require IsInIntervalLEps (gZ1 p);
  require IsInIntervalLPrimeEps (gZ2 p);
  '(e, ok) ← zkaffg_challenge h public c;
  require ok;
  require ped_Verify (gAux public) (gZ1 p) (gZ3 p) (Some e) (gE c) (gS c);
  require ped_Verify (gAux public) (gZ2 p) (gZ4 p) (Some e) (gF c) (gT c);
  z1 ← deref (gZ1 p);
  z2 ← deref (gZ2 p);
  w ← deref (gW p);
  wY ← deref (gWy p);
  let tmp := ct_Mul verifier (ct_Clone (gKv public)) (Some z1) in
  lhs ← EncWithNonce verifier z2 w;
  let lhs := ct_Add verifier lhs (Some tmp) in
  let rhs := ct_Add verifier (ct_Mul verifier (ct_Clone (gDv public)) (Some e)) (gA c) in
  require ct_Equal lhs rhs;
  require PEqual (ActOnBase (scalar_of z1)) (scalar_of e • gXp public ⊕ gBx c)%C;
  lhs ← EncWithNonce prover z2 wY;
  let rhs := ct_Add prover (ct_Mul prover (ct_Clone (gFp public)) (Some e)) (gBy c) in
  require ct_Equal lhs rhs;
  Ret true.

Definition zkaffg_Empty : zkaffg_Proof :=
  mkAffgProof (Some (mkAffgCommitment None 𝟎%C None None None None None)) None None None None None None.

(** D = Enc(y;s) ⊕ (x ⊙ K) under the verifier's key, F = Enc(y;r) under the
    prover's, and X = x⋅G. *)
Definition zkaffg_relation (public : zkaffg_Public) (private : zkaffg_Private) : Prop :=
  pk_ok (gVerifier public) /\ pk_ok (gProver public) /\ ped_ok (gAux public) /\
  unitZ (gpS private) (pk_N (gVerifier public)) /\ unitZ (gpR private) (pk_N (gProver public)) /\
  valid_ct (pk := gVerifier public) (Some (gKv public)) /\
  gDv public = ct_Add (gVerifier public) (Zmod.to_Z (pk_enc (gVerifier public) (gpY private) (gpS private)))
                 (Some (ct_Mul (gVerifier public) (gKv public) (Some (gpX private)))) /\
  gFp public = Zmod.to_Z (pk_enc (gProver public) (gpY private) (gpR private)) /\
  gXp public = ActOnBase (scalar_of (gpX private)).

Context {SL : SaferithLaws S} {CL : CurveLaws C}.

Ltac g_simpl :=
  cbn [deref mbind outcome_bind gComm gA gBx gBy gE gS gF gT gZ1 gZ2 gZ3 gZ4 gW gWy].

Lemma zkaffg_accepts h public private rand p rand' :
  zkaffg_relation public private ->
  2 ^ Z.of_nat LPrimePlusEpsilon <= pk_N (gVerifier public) / 2 ->
  2 ^ Z.of_nat LPrimePlusEpsilon <= pk_N (gProver public) / 2 ->
  zkaffg_NewProof h public private rand = Ret (p, rand') ->
  zkaffg_IsValid (Some p) public = Ret true ->
  IsInIntervalLEps (gZ1 p) = true -> IsInIntervalLPrimeEps (gZ2 p) = true ->
  zkaffg_Verify (Some p) h public = Ret true.
Proof.
  intros (Hv & Hp & Hped & Hs & Hr & (κ & HK & Hκ)%valid_ct_some & HD & HF & HX) Hb0 Hb1 E HV Hz1 Hz2.
  unfold zkaffg_NewProof in E. zk_inv E. apply ret_pair_inv in E as [-> ->].
  cbn [gZ1 gZ2] in Hz1, Hz2. zk_flag Hc.
  unfold zkaffg_Verify. rewrite HV. g_simpl. rewrite Hz1, Hz2, Hc. g_simpl.
  apply IsInIntervalLPrimeEps_spec in Hz2. rewrite HD, HF, HK. unfold ct_Clone, ct_Equal.
  unfold zk_response at 1 2 3 4. rewrite !ped_Verify_complete by done.
  match goal with |- context [EncWithNonce (gVerifier public) (zk_response ?e ?y ?β) (zk_nonce _ ?s ?e ?ρ)] =>
    match goal with |- context [ct_Mul (gVerifier public) _ (Some (zk_response e ?x ?α))] =>
      destruct (aff_check Hv κ x y s α β ρ e) as (lhs & El & Eq); [done|done|done|lia|] end end.
  rewrite El, enc_check by (done || lia). g_simpl. rewrite Eq, !Z.eqb_refl.
  unfold PEqual. rewrite bool_decide_eq_true_2; [done|].
  rewrite HX, scalar_of_response. unfold ActOnBase. by rewrite act_add, act_mul.
Qed.

End AffG.

(** ** zkaffp *)

Section AffP.
Context {C : Curve} {B3 : Blake3} {S : Saferith}.

Record zkaffp_Public := mkAffpPublic {
  pKv : Ciphertext;
  pDv : Ciphertext;
  pFp : Ciphertext;
  pXp : Ciphertext;
  pProver : PublicKey;
  pVerifier : PublicKey;
  pAux : Parameters
}.

Record zkaffp_Private := mkAffpPrivate { ppX : Z; ppY : Z; ppS : Z; ppRx : Z; ppR : Z }.

Record zkaffp_Commitment := mkAffpCommitment {
  pA : option Ciphertext;
  pBx : option Ciphertext;
  pBy : option Ciphertext;
  pE : option Z;
  pS : option Z;
  pF : option Z;
  pT : option Z
}.

Record zkaffp_Proof := mkAffpProof {
  pComm : option zkaffp_Commitment;
  pZ1 : option Z;
  pZ2 : option Z;
  pZ3 : option Z;
  pZ4 : option Z;
  pW : option Z;
  pWx : option Z;
  pWy : option Z
}.

Definition zkaffp_IsValid (p : option zkaffp_Proof) (public : zkaffp_Public) : outcome bool :=
  match p with
  | None => Ret false
  | Some p =>
      c ← deref (pComm p);
      require ValidateCiphertexts (pVerifier public) [pA c];
      require ValidateCiphertexts (pProver public) [pBx c; pBy c];
      require IsValidNatModN (pk_N (pProver public)) [pWx p; pWy p];
      require IsValidNatModN (pk_N (pVerifier public)) [pW p];
      Ret true
  end.

Definition zkaffp_challenge (h : Hash) (public : zkaffp_Public) (c : zkaffp_Commitment) : outcome (Z * bool) :=
  zk_challenge IntervalScalar h
    [ped_any (pAux public); pk_any (pProver public); pk_any (pVerifier public);
     ct_any (Some (pKv public)); ct_any (Some (pDv public)); ct_any (Some (pFp public)); ct_any (Some (pXp public));
     ct_any (pA c); ct_any (pBx c); ct_any (pBy c);
     Nat_any (pE c); Nat_any (pS c); Nat_any (pF c); Nat_any (pT c)].

Definition zkaffp_NewProof (h : Hash) (public : zkaffp_Public) (private : zkaffp_Private) (rand : reader) :
    outcome (zkaffp_Proof * reader) :=
  let N0 := pk_N (pVerifier public) in
  let N1 := pk_N (pProver public) in
  let N0Modulus := pk_n (pVerifier public) in
  let N1Modulus := pk_n (pProver public) in
  let verifier := pVerifier public in
  let prover := pProver public in
  '(alpha, rand) ← IntervalLEps rand;
  '(beta, rand) ← IntervalLPrimeEps rand;
  '(rho, rand) ← UnitModN rand N0;
  '(rhoX, rand) ← UnitModN rand N1;
  '(rhoY, rand) ← UnitModN rand N1;
  '(gamma, rand) ← IntervalLEpsN rand;
  '(m, rand) ← IntervalLN rand;
  '(delta, rand) ← IntervalLEpsN rand;
  '(mu, rand) ← IntervalLN rand;
  let cAlpha := ct_Mul verifier (ct_Clone (pKv public)) (Some alpha) in
  A ← EncWithNonce verifier beta rho;
  let A := ct_Add verifier A (Some cAlpha) in
  let E := ped_Commit (pAux public) alpha gamma in
  let S' := ped_Commit (pAux public) (ppX private) m in
  let F := ped_Commit (pAux public) beta delta in
  let T' := ped_Commit (pAux public) (ppY private) mu in
  Bx ← EncWithNonce prover alpha rhoX;
  By ← EncWithNonce prover beta rhoY;
  let commitment := mkAffpCommitment (Some A) (Some Bx) (Some By) (Some E) (Some S') (Some F) (Some T') in
  '(e, _) ← zkaffp_challenge h public commitment;
  let z1 := zk_response e (ppX private) alpha in
  let z2 := zk_response e (ppY private) beta in
  let z3 := zk_response e m gamma in
  let z4 := zk_response e mu delta in
  let w := zk_nonce N0Modulus (ppS private) e rho in
  let wX := zk_nonce N1Modulus (ppRx private) e rhoX in
  let wY := zk_nonce N1Modulus (ppR private) e rhoY in
  Ret (mkAffpProof (Some commitment) (Some z1) (Some z2) (Some z3) (Some z4) (Some w) (Some wX) (Some wY), rand).

Definition zkaffp_Verify (p : option zkaffp_Proof) (h : Hash) (public : zkaffp_Public) : outcome bool :=
  ok ← zkaffp_IsValid p public;
  require ok;
  p ← deref p;
  c ← deref (pComm p);
  let verifier := pVerifier public in
  let prover := pProver public in
  require IsInIntervalLEps (pZ1 p);
  require IsInIntervalLPrimeEps (pZ2 p);
  '(e, ok) ← zkaffp_challenge h public c;
  require ok;
  z1 ← deref (pZ1 p);
  z2 ← deref (pZ2 p);
  w ← deref (pW p);
  wX ← deref (pWx p);
  wY ← deref (pWy p);
  let tmp := ct_Mul verifier (ct_Clone (pKv public)) (Some z1) in
  lhs ← EncWithNonce verifier z2 w;
  let lhs := ct_Add verifier lhs (Some tmp) in
  let rhs := ct_Add verifier (ct_Mul verifier (ct_Clone (pDv public)) (Some e)) (pA c) in
  require ct_Equal lhs rhs;
  lhs ← EncWithNonce prover z1 wX;
  let rhs := ct_Add prover (ct_Mul prover (ct_Clone (pXp public)) (Some e)) (pBx c) in
  require ct_Equal lhs rhs;
  lhs ← EncWithNonce prover z2 wY;
  let rhs := ct_Add prover (ct_Mul prover (ct_Clone (pFp public)) (Some e)) (pBy c) in
  require ct_Equal lhs rhs;
  require ped_Verify (pAux public) (pZ1 p) (pZ3 p) (Some e) (pE c) (pS c);
  require ped_Verify (pAux public) (pZ2 p) (pZ4 p) (Some e) (pF c) (pT c);
  Ret true.

(** D = Enc(y;s) ⊕ (x ⊙ K) under the verifier's key; F = Enc(y;r) and
    X = Enc(x;rx) under the prover's. *)
Definition zkaffp_relation (public : zkaffp_Public) (private : zkaffp_Private) : Prop :=
  pk_ok (pVerifier public) /\ pk_ok (pProver public) /\ ped_ok (pAux public) /\
  unitZ (ppS private) (pk_N (pVerifier public)) /\ unitZ (ppR private) (pk_N (pProver public)) /\
  unitZ (ppRx private) (pk_N (pProver public)) /\
  valid_ct (pk := pVerifier public) (Some (pKv public)) /\
  pDv public = ct_Add (pVerifier public) (Zmod.to_Z (pk_enc (pVerifier public) (ppY private) (ppS private)))
                 (Some (ct_Mul (pVerifier public) (pKv public) (Some (ppX private)))) /\
  pFp public = Zmod.to_Z (pk_enc (pProver public) (ppY private) (ppR private)) /\
  pXp public = Zmod.to_Z (pk_enc (pProver public) (ppX private) (ppRx private)).

Context {SL : SaferithLaws S}.

Ltac p_simpl :=
  cbn [deref mbind outcome_bind pComm pA pBx pBy pE pS pF pT pZ1 pZ2 pZ3 pZ4 pW pWx pWy].

Lemma zkaffp_accepts h public private rand p rand' :
  zkaffp_relation public private ->
  2 ^ Z.of_nat LPlusEpsilon <= pk_N (pProver public) / 2 ->
  2 ^ Z.of_nat LPrimePlusEpsilon <= pk_N (pVerifier public) / 2 ->
  2 ^ Z.of_nat LPrimePlusEpsilon <= pk_N (pProver public) / 2 ->
  zkaffp_NewProof h public private rand = Ret (p, rand') ->
  zkaffp_IsValid (Some p) public = Ret true ->
  IsInIntervalLEps (pZ1 p) = true -> IsInIntervalLPrimeEps (pZ2 p) = true ->
  zkaffp_Verify (Some p) h public = Ret true.
Proof.
  intros (Hv & Hp & Hped & Hs & Hr & Hrx & (κ & HK & Hκ)%valid_ct_some & HD & HF & HX) Hb Hb0 Hb1 E HV Hz1 Hz2.
  unfold zkaffp_NewProof in E. zk_inv E. apply ret_pair_inv in E as [-> ->].
  cbn [pZ1 pZ2] in Hz1, Hz2. zk_flag Hc.
  unfold zkaffp_Verify. rewrite HV. p_simpl. rewrite Hz1, Hz2, Hc. p_simpl.
  apply IsInIntervalLPrimeEps_spec in Hz2. apply IsInIntervalLEps_spec in Hz1.
  rewrite HD, HF, HX, HK. unfold ct_Clone, ct_Equal.
  match goal with |- context [EncWithNonce (pVerifier public) (zk_response ?e ?y ?β) (zk_nonce _ ?s ?e ?ρ)] =>
    match goal with |- context [ct_Mul (pVerifier public) _ (Some (zk_response e ?x ?α))] =>
      destruct (aff_check Hv κ x y s α β ρ e) as (lhs & El & Eq); [done|done|done|lia|] end end.
  rewrite El. p_simpl. rewrite Eq, Z.eqb_refl. rewrite enc_check by (done || lia). p_simpl.
  rewrite Z.eqb_refl, enc_check by (done || lia). p_simpl. rewrite Z.eqb_refl.
  unfold zk_response. by rewrite !ped_Verify_complete.
Qed.

End AffP.
