(* ===== verification/ZkMul.v ===== *)
(** * pkg/zk/mul, mulstar, dec, nth *)

From Stdlib Require Import ZArith Lia Znumtheory Zmod Field.
From Stdlib Require Import Strings.Byte.
From stdpp Require Import base strings list pretty numbers.
From S2P Require Import Prelude Hash Curve Primes Arith Sample SampleInts PaillierMath Paillier Pedersen Zk.

Local Open Scope Z_scope.

(** ** zkmul: C is x ⊙ Y, for the plaintext x of X *)

Section Mul.
Context {C : Curve} {B3 : Blake3} {S : Saferith}.

Record zkmul_Public := mkMulPublic { mulX : Ciphertext; mulY : Ciphertext; mulC : Ciphertext; mulProver : PublicKey }.
Record zkmul_Private := mkMulPrivate { mulpX : Z; mulpRho : Z; mulpRhoX : Z }.
Record zkmul_Commitment := mkMulCommitment { mulA : option Ciphertext; mulB : option Ciphertext }.
Record zkmul_Proof := mkMulProof {
  mulComm : option zkmul_Commitment;
  mulZ : option Z;
  mulU : option Z;
  mulV : option Z
}.

Definition zkmul_IsValid (p : option zkmul_Proof) (public : zkmul_Public) : outcome bool :=
  match p with
  | None => Ret false
  | Some p =>
      require IsValidNatModN (pk_N (mulProver public)) [mulU p; mulV p];
      c ← deref (mulComm p);
      require ValidateCiphertexts (mulProver public) [mulA c; mulB c];
      Ret true
  end.

Definition zkmul_challenge (h : Hash) (public : zkmul_Public) (c : zkmul_Commitment) : outcome (Z * bool) :=
  zk_challenge IntervalScalar h
    [pk_any (mulProver public); ct_any (Some (mulX public)); ct_any (Some (mulY public)); ct_any (Some (mulC public));
     ct_any (mulA c); ct_any (mulB c)].

(** The proof for given masks. *)
Definition zkmul_prove (h : Hash) (public : zkmul_Public) (private : zkmul_Private) (alpha r s : Z) :
    outcome zkmul_Proof :=
  let NModulus := pk_n (mulProver public) in
  let prover := mulProver public in
  let A := ct_Mul prover (ct_Clone (mulY public)) (Some alpha) in
  let A := randomize_with prover A r in
  B ← EncWithNonce prover alpha s;
  let commitment := mkMulCommitment (Some A) (Some B) in
  '(e, _) ← zkmul_challenge h public commitment;
  let z := zk_response e (mulpX private) alpha in
  let u := zk_nonce NModulus (mulpRho private) e r in
  let v := zk_nonce NModulus (mulpRhoX private) e s in
  Ret (mkMulProof (Some commitment) (Some z) (Some u) (Some v)).

Definition zkmul_NewProof (h : Hash) (public : zkmul_Public) (private : zkmul_Private) (rand : reader) :
    outcome (zkmul_Proof * reader) :=
  let N := pk_N (mulProver public) in
  '(alpha, rand) ← IntervalLEps rand;
  '(r, rand) ← UnitModN rand N;
  '(s, rand) ← UnitModN rand N;
  p ← zkmul_prove h public private alpha r s;
  Ret (p, rand).

Definition zkmul_Verify (p : option zkmul_Proof) (h : Hash) (public : zkmul_Public) : outcome bool :=
  ok ← zkmul_IsValid p public;
  require ok;
  p ← deref p;
  c ← deref (mulComm p);
  let prover := mulProver public in
  '(e, ok) ← zkmul_challenge h public c;
  require ok;
  u ← deref (mulU p);
  v ← deref (mulV p);
  let lhs := ct_Mul prover (ct_Clone (mulY public)) (mulZ p) in
  let lhs := randomize_with prover lhs u in
  let rhs := ct_Add prover (ct_Mul prover (ct_Clone (mulC public)) (Some e)) (mulA c) in
  require ct_Equal lhs rhs;
  z ← deref (mulZ p);
  lhs ← EncWithNonce prover z v;
  let rhs := ct_Add prover (ct_Mul prover (ct_Clone (mulX public)) (Some e)) (mulB c) in
  require ct_Equal lhs rhs;
  Ret true.

Definition zkmul_relation (public : zkmul_Public) (private : zkmul_Private) : Prop :=
  pk_ok (mulProver public) /\
  unitZ (mulpRho private) (pk_N (mulProver public)) /\ unitZ (mulpRhoX private) (pk_N (mulProver public)) /\
  valid_ct (pk := mulProver public) (Some (mulY public)) /\
  mulX public = Zmod.to_Z (pk_enc (mulProver public) (mulpX private) (mulpRhoX private)) /\
  mulC public = randomize_with (mulProver public) (ct_Mul (mulProver public) (mulY public) (Some (mulpX private)))
                  (mulpRho private).

Context {SL : SaferithLaws S}.

Ltac mul_simpl := cbn [deref mbind outcome_bind mulComm mulA mulB mulZ mulU mulV].

(** A proof for any mask of the plaintext space is accepted as long as its
    response is in the plaintext space as well; the verifier does not check
    the response, and panics otherwise. *)
Lemma zkmul_verdict h public private α r s p :
  zkmul_relation public private -> unitZ r (pk_N (mulProver public)) -> unitZ s (pk_N (mulProver public)) ->
  zkmul_prove h public private α r s = Ret p -> zkmul_IsValid (Some p) public = Ret true ->
  zkmul_Verify (Some p) h public
  = if pk_N (mulProver public) / 2 <? Z.abs (default 0 (mulZ p))
    then Panic "paillier.Encrypt: tried to encrypt message outside of range [-(N-1)/2, …, (N-1)/2]" else Ret true.
Proof.
  intros (Hp & Hρ & Hx & (κ & HY & Hκ)%valid_ct_some & HX & HC) Hr Hs E HV.
  unfold zkmul_prove in E. zk_inv E. zk_flag Hc.
  match type of E with Ret ?q = Ret p => assert (p = q) as -> by congruence end.
  unfold zkmul_Verify. rewrite HV. mul_simpl. rewrite Hc. mul_simpl. rewrite HX, HC, HY. unfold ct_Clone, ct_Equal.
  rewrite mul_check, Z.eqb_refl by done. mul_simpl. cbn [default from_option id].
  match goal with |- _ = if ?a <? Z.abs ?r then _ else _ => destruct (Z.ltb_spec a (Z.abs r)) as [Hz|Hz] end.
  - rewrite EncWithNonce_spec by done. apply Z.ltb_lt in Hz. by rewrite Hz.
  - rewrite enc_check by done. mul_simpl. by rewrite Z.eqb_refl.
Qed.

End Mul.

(** ** zkmulstar: D is x ⊙ C, for the discrete logarithm x of X *)

Section MulStar.
Context {C : Curve} {B3 : Blake3} {S : Saferith}.

Record zkmulstar_Public := mkMsPublic { msC : Ciphertext; msD : Ciphertext; msX : Point; msVerifier : PublicKey; msAux : Parameters }.
Record zkmulstar_Private := mkMsPrivate { mspX : Z; mspRho : Z }.
Record zkmulstar_Commitment := mkMsCommitment { msA : option Ciphertext; msBx : Point; msE : option Z; msS : option Z }.
Record zkmulstar_Proof := mkMsProof {
  msComm : option zkmulstar_Commitment;
  msZ1 : option Z;
  msZ2 : option Z;
  msW : option Z
}.

Definition zkmulstar_IsValid (p : option zkmulstar_Proof) (public : zkmulstar_Public) : outcome bool :=
  match p with
  | None => Ret false
  | Some p =>
      require IsValidNatModN (pk_N (msVerifier public)) [msW p];
      c ← deref (msComm p);
      require ValidateCiphertexts (msVerifier public) [msA c];
      require negb (IsIdentity (msBx c));
      Ret true
  end.

Definition zkmulstar_challenge (h : Hash) (public : zkmulstar_Public) (c : zkmulstar_Commitment) : outcome (Z * bool) :=
  zk_challenge IntervalScalar h
    [ped_any (msAux public); pk_any (msVerifier public); ct_any (Some (msC public)); ct_any (Some (msD public));
     Point_any (msX public); ct_any (msA c); Point_any (msBx c); Nat_any (msE c); Nat_any (msS c)].

Definition zkmulstar_NewProof (h : Hash) (public : zkmulstar_Public) (private : zkmulstar_Private) (rand : reader) :
    outcome (zkmulstar_Proof * reader) :=
  let N0 := pk_N (msVerifier public) in
  let N0Modulus := pk_n (msVerifier public) in
  let verifier := msVerifier public in
  '(alpha, rand) ← IntervalLEps rand;
  '(r, rand) ← UnitModN rand N0;
  '(gamma, rand) ← IntervalLEpsN rand;
  '(m, rand) ← IntervalLEpsN rand;
  let A := ct_Mul verifier (ct_Clone (msC public)) (Some alpha) in
  let A := randomize_with verifier A r in
  let commitment := mkMsCommitment (Some A) (ActOnBase (scalar_of alpha))
      (Some (ped_Commit (msAux public) alpha gamma)) (Some (ped_Commit (msAux public) (mspX private) m)) in
  '(e, _) ← zkmulstar_challenge h public commitment;
  let z1 := zk_response e (mspX private) alpha in
  let z2 := zk_response e m gamma in
  let w := zk_nonce N0Modulus (mspRho private) e r in
  Ret (mkMsProof (Some commitment) (Some z1) (Some z2) (Some w), rand).

Definition zkmulstar_Verify (p : option zkmulstar_Proof) (h : Hash) (public : zkmulstar_Public) : outcome bool :=
  ok ← zkmulstar_IsValid p public;
  require ok;
  p ← deref p;
  c ← deref (msComm p);
  let verifier := msVerifier public in
  require IsInIntervalLEps (msZ1 p);
  '(e, ok) ← zkmulstar_challenge h public c;
  require ok;
  require ped_Verify (msAux public) (msZ1 p) (msZ2 p) (Some e) (msE c) (msS c);
  z1 ← deref (msZ1 p);
  w ← deref (msW p);
  let lhs := ct_Mul verifier (ct_Clone (msC public)) (Some z1) in
  let lhs := randomize_with verifier lhs w in
  let rhs := ct_Add verifier (ct_Mul verifier (ct_Clone (msD public)) (Some e)) (msA c) in
  require ct_Equal lhs rhs;
  require PEqual (ActOnBase (scalar_of z1)) (scalar_of e • msX public ⊕ msBx c)%C;
  Ret true.

Definition zkmulstar_Empty : zkmulstar_Proof := mkMsProof (Some (mkMsCommitment None 𝟎%C None None)) None None None.

Definition zkmulstar_relation (public : zkmulstar_Public) (private : zkmulstar_Private) : Prop :=
  pk_ok (msVerifier public) /\ ped_ok (msAux public) /\ unitZ (mspRho private) (pk_N (msVerifier public)) /\
  valid_ct (pk := msVerifier public) (Some (msC public)) /\
  msD public = randomize_with (msVerifier public) (ct_Mul (msVerifier public) (msC public) (Some (mspX private)))
                 (mspRho private) /\
  msX public = ActOnBase (scalar_of (mspX private)).

Context {SL : SaferithLaws S} {CL : CurveLaws C}.

Ltac ms_simpl := cbn [deref mbind outcome_bind msComm msA msBx msE msS msZ1 msZ2 msW].

Lemma zkmulstar_accepts h public private rand p rand' :
  zkmulstar_relation public private -> zkmulstar_NewProof h public private rand = Ret (p, rand') ->
  zkmulstar_IsValid (Some p) public = Ret true -> IsInIntervalLEps (msZ1 p) = true ->
  zkmulstar_Verify (Some p) h public = Ret true.
Proof.
  intros (Hv & Hped & Hρ & (κ & HC & Hκ)%valid_ct_some & HD & HX) E HV Hz.
  unfold zkmulstar_NewProof in E. zk_inv E. apply ret_pair_inv in E as [-> ->]. cbn [msZ1] in Hz. zk_flag Hc.
  unfold zkmulstar_Verify. rewrite HV. ms_simpl. rewrite Hz, Hc. ms_simpl. rewrite HD, HC. unfold ct_Clone, ct_Equal.
  rewrite mul_check, Z.eqb_refl by done. unfold PEqual. rewrite bool_decide_eq_true_2.
  - unfold zk_response. by rewrite ped_Verify_complete.
  - rewrite HX, scalar_of_response. unfold ActOnBase. by rewrite act_add, act_mul.
Qed.

End MulStar.

(** ** zkdec: the plaintext of C is x modulo the group order *)

Section Dec.
Context {C : Curve} {B3 : Blake3} {S : Saferith}.

Record zkdec_Public := mkDecPublic { decC : Ciphertext; decX : Scalar; decProver : PublicKey; decAux : Parameters }.
Record zkdec_Private := mkDecPrivate { decpY : Z; decpRho : Z }.
Record zkdec_Commitment := mkDecCommitment { decS : option Z; decT : option Z; decA : option Ciphertext; decGamma : option Scalar }.
Record zkdec_Proof := mkDecProof {
  decComm : option zkdec_Commitment;
  decZ1 : option Z;
  decZ2 : option Z;
  decW : option Z
}.

Definition zkdec_IsValid (p : option zkdec_Proof) (public : zkdec_Public) : outcome bool :=
  match p with
  | None => Ret false
  | Some p =>
      c ← deref (decComm p);
      require match decGamma c with None => false | Some g => negb (IsZero g) end;
      require ValidateCiphertexts (decProver public) [decA c];
      require IsValidNatModN (pk_N (decProver public)) [decW p];
      Ret true
  end.

(** A nil scalar in an interface is of no type that [WriteAny] accepts. *)
Definition Scalar_opt_any (s : option Scalar) : any :=
  match s with Some s => Scalar_any s | None => AOther end.

Definition zkdec_challenge (h : Hash) (public : zkdec_Public) (c : zkdec_Commitment) : outcome (Z * bool) :=
  zk_challenge IntervalScalar h
    [ped_any (decAux public); pk_any (decProver public); ct_any (Some (decC public)); Scalar_any (decX public);
     Nat_any (decS c); Nat_any (decT c); ct_any (decA c); Scalar_opt_any (decGamma c)].

(** The response to a challenge. *)
Definition zkdec_respond (public : zkdec_Public) (private : zkdec_Private) (c : zkdec_Commitment)
    (e alpha mu nu r : Z) : zkdec_Proof :=
  let z1 := zk_response e (decpY private) alpha in
  let z2 := zk_response e mu nu in
  let w := zk_nonce (pk_n (decProver public)) (decpRho private) e r in
  mkDecProof (Some c) (Some z1) (Some z2) (Some w).

Definition zkdec_NewProof (h : Hash) (public : zkdec_Public) (private : zkdec_Private) (rand : reader) :
    outcome (zkdec_Proof * reader) :=
  let N := pk_N (decProver public) in
  '(alpha, rand) ← IntervalLEps rand;
  '(mu, rand) ← IntervalLN rand;
  '(nu, rand) ← IntervalLEpsN rand;
  '(r, rand) ← UnitModN rand N;
  let gamma := scalar_of alpha in
  A ← EncWithNonce (decProver public) alpha r;
  let commitment := mkDecCommitment (Some (ped_Commit (decAux public) (decpY private) mu))
      (Some (ped_Commit (decAux public) alpha nu)) (Some A) (Some gamma) in
  '(e, _) ← zkdec_challenge h public commitment;
  Ret (zkdec_respond public private commitment e alpha mu nu r, rand).

Definition zkdec_Verify (p : option zkdec_Proof) (h : Hash) (public : zkdec_Public) : outcome bool :=
  ok ← zkdec_IsValid p public;
  require ok;
  p ← deref p;
  c ← deref (decComm p);
  '(e, ok) ← zkdec_challenge h public c;
  require ok;
  require ped_Verify (decAux public) (decZ1 p) (decZ2 p) (Some e) (decT c) (decS c);
  z1 ← deref (decZ1 p);
  w ← deref (decW p);
  lhs ← EncWithNonce (decProver public) z1 w;
  let rhs := ct_Add (decProver public) (ct_Mul (decProver public) (ct_Clone (decC public)) (Some e)) (decA c) in
  require ct_Equal lhs rhs;
  g ← deref (decGamma c);
  require SEqual (scalar_of z1) (scalar_of e * decX public + g)%C;
  Ret true.

Definition zkdec_Empty : zkdec_Proof := mkDecProof (Some (mkDecCommitment None None None (Some 0%C))) None None None.

Definition zkdec_relation (public : zkdec_Public) (private : zkdec_Private) : Prop :=
  pk_ok (decProver public) /\ ped_ok (decAux public) /\ unitZ (decpRho private) (pk_N (decProver public)) /\
  decC public = Zmod.to_Z (pk_enc (decProver public) (decpY private) (decpRho private)) /\
  decX public = scalar_of (decpY private).

Context {SL : SaferithLaws S} {CL : CurveLaws C}.

Ltac dec_simpl := cbn [deref mbind outcome_bind decComm decA decGamma decS decT decZ1 decZ2 decW].

(** The commitment of a prover who masks with [α], [μ], [ν] and [r]. *)
Definition zkdec_commit (public : zkdec_Public) (private : zkdec_Private) (α μ ν r : Z) : zkdec_Commitment :=
  mkDecCommitment (Some (ped_Commit (decAux public) (decpY private) μ))
    (Some (ped_Commit (decAux public) α ν)) (Some (Zmod.to_Z (pk_enc (decProver public) α r))) (Some (scalar_of α)).

(** The verifier does not check the range of the response: a response in the
    plaintext space is accepted, any other one makes it panic. *)
Lemma zkdec_verdict h public private α μ ν r e :
  zkdec_relation public private -> unitZ r (pk_N (decProver public)) -> scalar_of α <> 0%C ->
  let c := zkdec_commit public private α μ ν r in
  zkdec_challenge h public c = Ret (e, true) ->
  zkdec_Verify (Some (zkdec_respond public private c e α μ ν r)) h public
  = if pk_N (decProver public) / 2 <? Z.abs (zk_response e (decpY private) α)
    then Panic "paillier.Encrypt: tried to encrypt message outside of range [-(N-1)/2, …, (N-1)/2]" else Ret true.
Proof.
  intros (Hp & Hped & Hρ & HC & HX) Hr Hα c Hc. unfold zkdec_Verify, zkdec_IsValid, zkdec_respond. dec_simpl.
  unfold c, zkdec_commit in *. dec_simpl. unfold IsZero. rewrite bool_decide_eq_false_2 by done. cbn [negb].
  rewrite enc_valid, nonce_valid by done. dec_simpl. rewrite Hc. dec_simpl.
  unfold zk_response at 1 2. rewrite ped_Verify_complete by done. rewrite HC, HX. unfold ct_Clone, ct_Equal.
  match goal with |- _ = if ?a <? Z.abs ?r then _ else _ => destruct (Z.ltb_spec a (Z.abs r)) as [Hz|Hz] end.
  - rewrite EncWithNonce_spec by done. apply Z.ltb_lt in Hz. by rewrite Hz.
  - rewrite enc_check by done. dec_simpl. rewrite Z.eqb_refl. unfold SEqual. by rewrite bool_decide_eq_true_2 by (apply scalar_of_response).
Qed.

(** A prover with a witness can make the verifier panic. *)
Lemma zkdec_panics h public private :
  zkdec_relation public private ->
  exists p, zkdec_Verify (Some p) h public
    = Panic "paillier.Encrypt: tried to encrypt message outside of range [-(N-1)/2, …, (N-1)/2]".
Proof.
  intros R. pose proof R as (Hp & Hped & Hρ & HC & HX). pose proof (pk_gt_1 _ Hp) as HN.
  pose proof (Z.prime_ge_2 _ order_prime) as Ho.
  set (B := 256 ^ Z.of_nat (ScalarBits / 8)). assert (0 < B) as HB by (apply Z.pow_pos_nonneg; lia).
  set (b := B * Z.abs (decpY private) + pk_N (decProver public)).
  set (α := b * order + 1). set (c := zkdec_commit public private α 0 0 1).
  assert (exists e, zkdec_challenge h public c = Ret (e, true)) as [e He].
  { apply zk_challenge_ok; [intros; apply sampleNeg_digest|]. solve_writes. }
  exists (zkdec_respond public private c e α 0 0 1). unfold c in *. rewrite zkdec_verdict by
    (done || apply Z.gcd_1_l || (rewrite scalar_of_eq; intros E%(f_equal Zmod.to_Z); revert E;
      rewrite Zmod.to_Z_of_Z, Zmod.to_Z_0; unfold α; rewrite Z.add_comm, Z_mod_plus_full, Z.mod_small; lia)).
  apply zk_challenge_sampled in He as (h' & r' & He). apply sampleNeg_bytes in He. fold B in He.
  destruct (Z.ltb_spec (pk_N (decProver public) / 2) (Z.abs (zk_response e (decpY private) α))) as [|Hz]; [done|].
  exfalso. assert (Z.abs (e * decpY private) <= B * Z.abs (decpY private)) as He2 by (rewrite Z.abs_mul; nia).
  assert (pk_N (decProver public) / 2 < pk_N (decProver public)) by (apply Z.div_lt; lia).
  assert (b + pk_N (decProver public) <= α) by (unfold α; nia). unfold zk_response in Hz. lia.
Qed.

End Dec.

(** ** zknth: R is an N-th power modulo N² *)

Section Nth.
Context {B3 : Blake3} {S : Saferith}.

Record zknth_Public := mkNthPublic { nthN : PublicKey; nthR : Z }.
Record zknth_Proof := mkNthProof { nthA : option Z; nthZ : option Z }.

Definition zknth_IsValid (p : zknth_Proof) (public : zknth_Public) : bool :=
  if negb (IsValidNatModN (pk_N (nthN public)) [nthZ p]) then false
  else if negb (IsValidNatModN (mod_n (pk_nSquared (nthN public))) [nthA p]) then false
  else true.

Definition zknth_challenge (h : Hash) (public : zknth_Public) (A : option Z) : outcome (Z * bool) :=
  zk_challenge IntervalL h [pk_any (nthN public); Nat_any (Some (nthR public)); Nat_any A].

Definition zknth_NewProof (h : Hash) (public : zknth_Public) (rho : Z) (rand : reader) :
    outcome (zknth_Proof * reader) :=
  let N := pk_N (nthN public) in
  '(alpha, rand) ← UnitModN rand N;
  let A := Modulus_Exp (pk_nSquared (nthN public)) alpha N in
  '(e, _) ← zknth_challenge h public (Some A);
  let z := zk_nonce (pk_n (nthN public)) rho e alpha in
  Ret (mkNthProof (Some A) (Some z), rand).

(** The receiver is dereferenced without a test for nil. *)
Definition zknth_Verify (p : option zknth_Proof) (h : Hash) (public : zknth_Public) : outcome bool :=
  p ← deref p;
  require zknth_IsValid p public;
  '(e, ok) ← zknth_challenge h public (nthA p);
  require ok;
  z ← deref (nthZ p);
  a ← deref (nthA p);
  let NSquared := pk_nSquared (nthN public) in
  let lhs := Modulus_Exp NSquared z (pk_N (nthN public)) in
  let rhs := Modulus_ExpI NSquared (nthR public) e in
  let rhs := (rhs * a) mod mod_n NSquared in
  require lhs =? rhs;
  Ret true.

Context {SL : SaferithLaws S}.

(** R is the N-th power of ρ. *)
Definition zknth_relation (public : zknth_Public) (rho : Z) : Prop :=
  pk_ok (nthN public) /\ unitZ rho (pk_N (nthN public)) /\
  nthR public = Zmod.to_Z (Zmod.pow (Zmod.of_Z (pk_N (nthN public) * pk_N (nthN public)) rho) (pk_N (nthN public))).

Lemma zknth_accepts h public rho rand p rand' :
  zknth_relation public rho -> zknth_NewProof h public rho rand = Ret (p, rand') ->
  zknth_Verify (Some p) h public = Ret true.
Proof.
  intros (OK & Hρ & HR) E. pose proof OK as [H1 Hn Hs Hsq Hnat Hpl].
  unfold zknth_NewProof in E. zk_inv E. apply ret_pair_inv in E as [-> ->]. zk_flag Hc.
  rename z into α. rename H into Hα. rename z0 into e.
  rewrite Modulus_Exp_spec, Hsq in Hc |- * by (done || lia).
  set (A := Zmod.pow (Zmod.of_Z (pk_N (nthN public) * pk_N (nthN public)) α) (pk_N (nthN public))) in *.
  assert (is_unit A) as UA by (apply is_unit_pow, nonce_unit; done).
  unfold zknth_Verify, zknth_IsValid. cbn [deref mbind outcome_bind nthA nthZ].
  rewrite nonce_valid by done. cbn [negb]. rewrite Hsq.
  pose proof (IsValidNatModN_residues _ [A] ltac:(nia)) as V. cbn [fmap list_fmap] in V.
  rewrite V by (by constructor). cbn [negb]. rewrite Hc. cbn [mbind outcome_bind].
  rewrite Modulus_Exp_spec, Modulus_ExpI_spec, Hsq; [|done| |done|lia].
  2: { rewrite HR, Hsq. apply unitZ_to_Z, is_unit_pow, nonce_unit; done. }
  rewrite zk_nonce_spec by (done || apply OK). change (mod_n (pk_n (nthN public))) with (pk_N (nthN public)).
  rewrite lift_nonce, HR, Zmod.of_Z_to_Z by done. fold A. by rewrite <- Zmod.to_Z_mul, Z.eqb_refl.
Qed.

End Nth.
