(* ===== verification/Pool.v ===== *)
(** * pkg/pool: the worker pool

    The goroutines of a pool and the caller of [Parallelize] or [Search] are
    interleaved by a step relation.  The channels are unbuffered: a send and
    the matching receive are one step.  The atomic operations on the counter,
    the write to the shared results and each call of the function are steps
    of their own, as the goroutines perform them. *)

From Stdlib Require Import ZArith Lia.
From stdpp Require Import base list numbers relations.
From S2P Require Import Prelude.

Local Open Scope Z_scope.

(** Without a pool. *)
Definition parallelizeAlone {A} (f : nat -> A) (count : nat) : list A := f <$> seq 0 count.

(** ** Sums over the workers *)

Definition total {A} (w : A -> nat) (l : list A) : nat := sum_list_with w l.

Lemma total_insert {A} (w : A -> nat) l i (x y : A) :
  l !! i = Some x -> (total w (<[i := y]> l) + w x = total w l + w y)%nat.
Proof.
  unfold total. revert i. induction l as [|z l IH]; intros [|i] E; simplify_eq/=; [lia|].
  specialize (IH i E). lia.
Qed.

Lemma total_zero {A} (w : A -> nat) l x : total w l = 0%nat -> x ∈ l -> w x = 0%nat.
Proof.
  unfold total. induction l as [|z l IH]; cbn; [by intros _ ?%elem_of_nil|].
  intros E [->|Hx]%elem_of_cons; [lia|]. apply IH; [lia|done].
Qed.

Lemma total_pos {A} (w : A -> nat) l : (0 < total w l)%nat -> exists i x, l !! i = Some x /\ (0 < w x)%nat.
Proof.
  unfold total. induction l as [|z l IH]; cbn; [lia|]. intros H.
  destruct (decide (0 < w z)%nat) as [Hz|Hz]; [by exists 0%nat, z|].
  destruct IH as (i & x & E & Hx); [lia|]. by exists (S i), x.
Qed.

(** ** Parallelize *)

Section Parallelize.
Context {A : Type} (count : nat) (f : nat -> A).

(** A worker: waiting for a command, about to evaluate and store f(i), about
    to decrement the counter, blocked in the send on [ctrChanged], or blocked
    for ever in the send of an earlier call. *)
Inductive pworker := PIdle | PRun (i : nat) | PDec | PSend | PDead.

(** The caller: in the loop that sends the commands, about to load the
    counter, blocked in the receive from [ctrChanged], or returned. *)
Inductive pmain := PSending (cmdI : nat) | PLoading | PWaiting | PReturned.

Record pstate := mkP { p_main : pmain; p_ctr : Z; p_results : list (option A); p_workers : list pworker }.

Definition p_init (workers : list pworker) : pstate :=
  mkP (PSending 0) (Z.of_nat count) (replicate count None) workers.

Inductive p_step : pstate -> pstate -> Prop :=
| P_send k ctr res ws w :
    (k < count)%nat -> ws !! w = Some PIdle ->
    p_step (mkP (PSending k) ctr res ws) (mkP (PSending (S k)) ctr res (<[w := PRun k]> ws))
| P_recv k ctr res ws w :
    (k < count)%nat -> ws !! w = Some PSend ->
    p_step (mkP (PSending k) ctr res ws) (mkP (PSending k) ctr res (<[w := PIdle]> ws))
| P_sent k ctr res ws :
    ~ (k < count)%nat -> p_step (mkP (PSending k) ctr res ws) (mkP PLoading ctr res ws)
| P_load ctr res ws :
    p_step (mkP PLoading ctr res ws) (mkP (if decide (0 < ctr) then PWaiting else PReturned) ctr res ws)
| P_wait ctr res ws w :
    ws !! w = Some PSend -> p_step (mkP PWaiting ctr res ws) (mkP PLoading ctr res (<[w := PIdle]> ws))
| P_run m ctr res ws w i :
    ws !! w = Some (PRun i) ->
    p_step (mkP m ctr res ws) (mkP m ctr (<[i := Some (f i)]> res) (<[w := PDec]> ws))
| P_dec m ctr res ws w :
    ws !! w = Some PDec -> p_step (mkP m ctr res ws) (mkP m (ctr - 1) res (<[w := PSend]> ws)).

(** *** Invariant *)

Definition busy (w : pworker) : nat := match w with PRun _ | PDec => 1 | _ => 0 end.
Definition sent (m : pmain) : nat := match m with PSending k => k | _ => count end.

Record p_inv (s : pstate) : Prop := {
  pi_sent : (sent (p_main s) <= count)%nat;
  pi_ctr : p_ctr s = Z.of_nat count - Z.of_nat (sent (p_main s)) + Z.of_nat (total busy (p_workers s));
  pi_length : length (p_results s) = count;
  pi_run w i : p_workers s !! w = Some (PRun i) -> (i < sent (p_main s))%nat;
  pi_written i : (i < sent (p_main s))%nat ->
    p_results s !! i = Some (Some (f i)) \/ exists w, p_workers s !! w = Some (PRun i);
  pi_waiting : p_main s = PWaiting -> exists w x, p_workers s !! w = Some x /\ (x = PSend \/ busy x = 1%nat);
  pi_returned : p_main s = PReturned -> p_ctr s <= 0
}.

(** Workers of a pool at the start of a call. *)
Definition at_rest (w : pworker) : Prop := w = PIdle \/ w = PDead.

Lemma total_at_rest ws : Forall at_rest ws -> total busy ws = 0%nat.
Proof. unfold total. induction 1 as [|w ws [-> | ->] _ IH]; cbn; [done|apply IH..]. Qed.

Lemma p_init_inv ws : Forall at_rest ws -> p_inv (p_init ws).
Proof.
  intros H. split; cbn [p_init p_main p_ctr p_results p_workers sent]; try done; try lia.
  - rewrite (total_at_rest ws H). lia.
  - apply length_replicate.
  - intros w i E. eapply Forall_lookup_1 in H; [|exact E]. by destruct H.
Qed.

(** Replacing a worker that does not evaluate anything keeps the evaluations
    of the others. *)
Lemma run_kept (ws : list pworker) w x y i :
  ws !! w = Some x -> x <> PRun i -> (exists v, ws !! v = Some (PRun i)) ->
  exists v, <[w := y]> ws !! v = Some (PRun i).
Proof.
  intros Ew Nx [v Ev]. exists v. rewrite list_lookup_insert_ne; [done|]. intros ->. congruence.
Qed.

Lemma run_old (ws : list pworker) w x y v i :
  ws !! w = Some x -> <[w := y]> ws !! v = Some (PRun i) -> y = PRun i \/ ws !! v = Some (PRun i).
Proof. intros Ew [(-> & <- & _)|[_ ?]]%list_lookup_insert_Some; auto. Qed.

Lemma p_step_inv s s' : p_step s s' -> p_inv s -> p_inv s'.
Proof.
  intros St. destruct St as [k ctr res ws w Hk Ew|k ctr res ws w Hk Ew|k ctr res ws Hk|ctr res ws
    |ctr res ws w Ew|m ctr res ws w i Ew|m ctr res ws w Ew]; intros [Hs Hc Hl Hr Hw Hwt Hrt];
    cbn [p_main p_ctr p_results p_workers sent] in *.
  - pose proof (total_insert busy ws w PIdle (PRun k) Ew) as T. cbn [busy] in T.
    split; cbn [p_main p_ctr p_results p_workers sent]; try done; try lia.
    + intros v i [[= <-]|E]%(run_old _ _ _ _ _ _ Ew); [lia|]. specialize (Hr v i E). lia.
    + intros i Hi. destruct (decide (i = k)) as [->|N].
      * right. exists w. apply list_lookup_insert_eq. by apply lookup_lt_Some in Ew.
      * destruct (Hw i ltac:(lia)) as [|E]; [by left|]. right. by eapply run_kept.
  - pose proof (total_insert busy ws w PSend PIdle Ew) as T. cbn [busy] in T.
    split; cbn [p_main p_ctr p_results p_workers sent]; try done; try lia.
    + intros v i [[=]|E]%(run_old _ _ _ _ _ _ Ew). by apply (Hr v).
    + intros i Hi. destruct (Hw i Hi) as [|E]; [by left|]. right. by eapply run_kept.
  - assert (k = count) as -> by lia. split; cbn [p_main p_ctr p_results p_workers sent]; done || lia.
  - split; cbn [p_main p_ctr p_results p_workers]; destruct (decide (0 < ctr)); cbn [sent]; try done; try lia.
    intros _. destruct (total_pos busy ws) as (i & x & E & Hx); [lia|]. exists i, x. split; [done|]. right.
    destruct x; cbn in *; lia.
  - pose proof (total_insert busy ws w PSend PIdle Ew) as T. cbn [busy] in T.
    split; cbn [p_main p_ctr p_results p_workers sent]; try done; try lia.
    + intros v i [[=]|E]%(run_old _ _ _ _ _ _ Ew). by apply (Hr v).
    + intros i Hi. destruct (Hw i Hi) as [|E]; [by left|]. right. by eapply run_kept.
  - pose proof (total_insert busy ws w (PRun i) PDec Ew) as T. cbn [busy] in T. pose proof (Hr w i Ew) as Hi.
    split; cbn [p_main p_ctr p_results p_workers]; try done; try lia.
    + by rewrite length_insert.
    + intros v j [[=]|E]%(run_old _ _ _ _ _ _ Ew). by apply (Hr v).
    + intros j Hj. destruct (decide (i = j)) as [->|N].
      * left. apply list_lookup_insert_eq. lia.
      * rewrite list_lookup_insert_ne by done. destruct (Hw j Hj) as [|E]; [by left|]. right.
        eapply run_kept; [done| |done]. congruence.
    + intros _. exists w, PDec. split; [|by right]. apply list_lookup_insert_eq. by apply lookup_lt_Some in Ew.
  - pose proof (total_insert busy ws w PDec PSend Ew) as T. cbn [busy] in T.
    split; cbn [p_main p_ctr p_results p_workers]; try done; try lia.
    + intros v j [[=]|E]%(run_old _ _ _ _ _ _ Ew). by apply (Hr v).
    + intros j Hj. destruct (Hw j Hj) as [|E]; [by left|]. right. by eapply run_kept.
    + intros _. exists w, PSend. split; [|by left]. apply list_lookup_insert_eq. by apply lookup_lt_Some in Ew.
    + intros ->. specialize (Hrt eq_refl). lia.
Qed.

(** What a call returns is the value of f at every index. *)
Lemma p_inv_results s : p_inv s -> p_main s = PReturned -> p_results s = (fun i => Some (f i)) <$> seq 0 count.
Proof.
  intros [Hs Hc Hl Hr Hw _ Hrt] E. specialize (Hrt E). rewrite E in *. cbn [sent] in *.
  assert (total busy (p_workers s) = 0%nat) as T by lia.
  apply list_eq_same_length with count; [by rewrite length_fmap, length_seq|done|].
  intros i x y Hi Ex Ey. rewrite list_lookup_fmap, lookup_seq_lt in Ey by done. injection Ey as <-.
  destruct (Hw i Hi) as [E'|[w Ew]]; [congruence|].
  apply list_elem_of_lookup_2, (total_zero busy) in Ew; done.
Qed.

(** *** Progress *)

(** A worker that is not lost. *)
Definition live (ws : list pworker) : Prop := exists w x, ws !! w = Some x /\ x <> PDead.

Lemma p_progress s : p_inv s -> live (p_workers s) -> p_main s <> PReturned -> exists s', p_step s s'.
Proof.
  destruct s as [m ctr res ws]. intros I (w & x & Ew & Nx) N. cbn in *.
  assert (forall x w, ws !! w = Some x -> busy x = 1%nat -> exists s', p_step (mkP m ctr res ws) s') as Hb.
  { intros [|i| | |] v Ev Hx; try done; [by eexists; eapply P_run|by eexists; eapply P_dec]. }
  destruct m as [k| | |]; [|by eexists; apply P_load| |done].
  - destruct (decide (k < count)%nat); [|by eexists; apply P_sent].
    destruct x; try done; [by eexists; eapply P_send|by eapply (Hb (PRun i))|by eapply (Hb PDec)|by eexists; eapply P_recv].
  - destruct (pi_waiting _ I eq_refl) as (v & y & Ev & [-> |Hy]); [by eexists; eapply P_wait|by eapply Hb].
Qed.

Lemma live_step s s' : p_step s s' -> live (p_workers s) -> live (p_workers s').
Proof.
  intros St (v & x & Ev & Nx).
  assert (forall ws w a y, ws = p_workers s -> ws !! w = Some a -> y <> PDead -> live (<[w := y]> ws)) as H.
  { intros ws w a y -> Ea Hy. exists w, y. split; [|done]. apply list_lookup_insert_eq. by apply lookup_lt_Some in Ea. }
  destruct St; cbn in *; try (by eapply H); by exists v, x.
Qed.

(** *** Termination *)

Definition weight (w : pworker) : nat := match w with PRun _ => 5 | PDec => 4 | PSend => 3 | _ => 0 end.
Definition main_weight (m : pmain) : nat :=
  match m with PSending k => 6 * (count - k) + 3 | PLoading => 2 | PWaiting => 1 | PReturned => 0 end.
Definition p_measure (s : pstate) : nat := main_weight (p_main s) + total weight (p_workers s).

Lemma p_step_measure s s' : p_step s s' -> (p_measure s' < p_measure s)%nat.
Proof.
  unfold p_measure. intros St. destruct St; cbn [p_main p_workers main_weight];
    try match goal with E : ?ws !! ?w = Some ?x |- context [<[?w := ?y]> ?ws] =>
      pose proof (total_insert weight ws w x y E) as T; cbn [weight] in T end; try lia.
  destruct (decide (0 < ctr)); cbn [main_weight]; lia.
Qed.

End Parallelize.

(** *** Workers that are lost

    The caller returns as soon as it reads a counter that is not positive; a
    worker that has not been received from by then is blocked for ever in its
    send. *)

Section Lost.
Context {A : Type} (f : nat -> A).

(** The workers that the next call finds. *)
Definition next_call (w : pworker) : pworker := match w with PSend => PDead | w => w end.

(** All [n] commands are sent. *)
Lemma send_all n k :
  (k <= n)%nat ->
  rtc (p_step n f) (p_init n (replicate n PIdle))
    (mkP (PSending k) (Z.of_nat n) (replicate n None) ((PRun <$> seq 0 k) ++ replicate (n - k) PIdle)).
Proof.
  induction k as [|k IH]; intros Hk; [by rewrite Nat.sub_0_r|].
  eapply rtc_r; [apply IH; lia|]. rewrite seq_S, fmap_app, <- app_assoc. cbn [fmap list_fmap app].
  replace (n - k)%nat with (S (n - S k)) by lia. cbn [replicate].
  set (l := PRun <$> seq 0 k). assert (length l = k) as L by (unfold l; by rewrite length_fmap, length_seq).
  replace (l ++ PRun (0 + k) :: replicate (n - S k) PIdle)
    with (<[k := PRun k]> (l ++ PIdle :: replicate (n - S k) PIdle)).
  - apply P_send; [lia|]. by rewrite lookup_app_r, L, Nat.sub_diag by lia.
  - by rewrite insert_app_r_alt, L, Nat.sub_diag by lia.
Qed.

(** [k] of them are carried out, before anything is received. *)
Lemma run_all n k :
  (k <= n)%nat ->
  exists res, rtc (p_step n f) (p_init n (replicate n PIdle))
    (mkP PLoading (Z.of_nat n - Z.of_nat k) res (replicate k PSend ++ (PRun <$> seq k (n - k)))).
Proof.
  induction k as [|k IH]; intros Hk.
  - exists (replicate n None). eapply rtc_r; [apply (send_all n n); lia|].
    rewrite Nat.sub_diag, app_nil_r, Nat.sub_0_r, Z.sub_0_r. cbn [replicate app]. apply P_sent. lia.
  - destruct IH as [res H]; [lia|]. exists (<[k := Some (f k)]> res).
    eapply rtc_r; [eapply rtc_r; [exact H|apply (P_run n f PLoading _ res _ k k)]|].
    + rewrite lookup_app_r, length_replicate, Nat.sub_diag by (rewrite length_replicate; lia).
      by replace (n - k)%nat with (S (n - S k)) by lia.
    + replace (Z.of_nat n - Z.of_nat (S k)) with (Z.of_nat n - Z.of_nat k - 1) by lia.
      replace (n - k)%nat with (S (n - S k)) by lia. cbn [seq fmap list_fmap].
      rewrite insert_app_r_alt, length_replicate, Nat.sub_diag by (rewrite length_replicate; lia). cbn [insert list_insert].
      replace (replicate (S k) PSend ++ (PRun <$> seq (S k) (n - S k)))
        with (<[k := PSend]> (replicate k PSend ++ PDec :: (PRun <$> seq (S k) (n - S k)))).
      * apply P_dec. by rewrite lookup_app_r, length_replicate, Nat.sub_diag by (rewrite length_replicate; lia).
      * rewrite insert_app_r_alt, length_replicate, Nat.sub_diag by (rewrite length_replicate; lia).
        cbn [insert list_insert]. rewrite replicate_S_end, <- app_assoc. done.
Qed.

(** One call may lose every worker of the pool. *)
Lemma all_lost n :
  exists s, rtc (p_step n f) (p_init n (replicate n PIdle)) s /\
    p_main s = PReturned /\ next_call <$> p_workers s = replicate n PDead.
Proof.
  destruct (run_all n n) as [res H]; [lia|]. rewrite Nat.sub_diag, app_nil_r, Z.sub_diag in H.
  eexists. split; [eapply rtc_r; [exact H|apply P_load]|]. cbn [p_main p_workers]. split; [done|].
  by rewrite fmap_replicate.
Qed.

(** A call on a pool without workers never returns. *)
Lemma dead_pool {B} (g : nat -> B) n count s :
  (0 < count)%nat -> rtc (p_step count g) (p_init count (replicate n PDead)) s -> s = p_init count (replicate n PDead).
Proof.
  intros Hc H. inversion H as [|? y ? St _]; [done|]. subst. exfalso. unfold p_init in St.
  inversion St; subst; try lia;
    match goal with E : replicate _ _ !! _ = Some _ |- _ => by apply lookup_replicate in E as [[=] _] end.
Qed.

End Lost.

(** ** Search *)

Section Search.
Context {A : Type} (count workerCount : nat) (found : A -> Prop).

(** A worker: waiting for a command, about to load the counter, about to try
    a candidate, holding a success before the decrement, holding it with its
    index before the write, blocked in the send. *)
Inductive sworker := SIdle | SCheck | SRun | SDec (a : A) | SWrite (i : Z) (a : A) | SSend.

Record sstate := mkS { s_main : pmain; s_ctr : Z; s_results : list (option A); s_workers : list sworker }.

Definition s_init (workers : list sworker) : sstate :=
  mkS (PSending 0) (Z.of_nat count) (replicate count None) workers.

Inductive s_step : sstate -> sstate -> Prop :=
| S_send k ctr res ws w :
    (k < workerCount)%nat -> ws !! w = Some SIdle ->
    s_step (mkS (PSending k) ctr res ws) (mkS (PSending (S k)) ctr res (<[w := SCheck]> ws))
| S_recv k ctr res ws w :
    (k < workerCount)%nat -> ws !! w = Some SSend ->
    s_step (mkS (PSending k) ctr res ws) (mkS (PSending k) ctr res (<[w := SCheck]> ws))
| S_sent k ctr res ws :
    ~ (k < workerCount)%nat -> s_step (mkS (PSending k) ctr res ws) (mkS PLoading ctr res ws)
| S_load ctr res ws :
    s_step (mkS PLoading ctr res ws) (mkS (if decide (0 < ctr) then PWaiting else PReturned) ctr res ws)
| S_wait ctr res ws w :
    ws !! w = Some SSend -> s_step (mkS PWaiting ctr res ws) (mkS PLoading ctr res (<[w := SCheck]> ws))
| S_check m ctr res ws w :
    ws !! w = Some SCheck ->
    s_step (mkS m ctr res ws) (mkS m ctr res (<[w := if decide (0 < ctr) then SRun else SIdle]> ws))
| S_nil m ctr res ws w :
    ws !! w = Some SRun -> s_step (mkS m ctr res ws) (mkS m ctr res (<[w := SCheck]> ws))
| S_found m ctr res ws w a :
    ws !! w = Some SRun -> found a -> s_step (mkS m ctr res ws) (mkS m ctr res (<[w := SDec a]> ws))
| S_dec m ctr res ws w a :
    ws !! w = Some (SDec a) ->
    s_step (mkS m ctr res ws) (mkS m (ctr - 1) res (<[w := SWrite (ctr - 1) a]> ws))
| S_write m ctr res ws w i a :
    ws !! w = Some (SWrite i a) ->
    s_step (mkS m ctr res ws)
      (mkS m ctr (if decide (0 <= i) then <[Z.to_nat i := Some a]> res else res) (<[w := SSend]> ws)).

(** The candidate a worker holds is a success. *)
Definition holds_found (w : sworker) : Prop :=
  match w with SDec a => found a | SWrite i a => found a | _ => True end.

Record s_inv (s : sstate) : Prop := {
  si_ctr : s_ctr s <= Z.of_nat count;
  si_length : length (s_results s) = count;
  si_found : Forall holds_found (s_workers s);
  si_results i a : s_results s !! i = Some (Some a) -> found a;
  si_index w i a : s_workers s !! w = Some (SWrite i a) -> s_ctr s <= i < Z.of_nat count;
  si_written i : s_ctr s <= Z.of_nat i < Z.of_nat count ->
    is_Some (s_results s !! i ≫= id) \/ exists w a, s_workers s !! w = Some (SWrite (Z.of_nat i) a);
  si_returned : s_main s = PReturned -> s_ctr s <= 0
}.

Lemma s_init_inv n : s_inv (s_init (replicate n SIdle)).
Proof.
  split; cbn [s_init s_main s_ctr s_results s_workers]; try done; try lia.
  - apply length_replicate.
  - by apply Forall_replicate.
  - intros i a [[=] _]%lookup_replicate.
  - intros w i a [[=] _]%lookup_replicate.
Qed.

Lemma write_kept (ws : list sworker) w x y i :
  ws !! w = Some x -> (forall a, x <> SWrite i a) -> (exists v a, ws !! v = Some (SWrite i a)) ->
  exists v a, <[w := y]> ws !! v = Some (SWrite i a).
Proof.
  intros Ew Nx (v & a & Ev). exists v, a. rewrite list_lookup_insert_ne; [done|]. intros ->. rewrite Ew in Ev.
  injection Ev as ->. by destruct (Nx a).
Qed.

Lemma write_old (ws : list sworker) w y v i a :
  <[w := y]> ws !! v = Some (SWrite i a) -> y = SWrite i a \/ ws !! v = Some (SWrite i a).
Proof. intros [(-> & <- & _)|[_ ?]]%list_lookup_insert_Some; auto. Qed.

(** A step that only moves a worker between states without a candidate to
    write. *)
Lemma s_inv_move m m' ctr res ws w x y :
  s_inv (mkS m ctr res ws) -> ws !! w = Some x ->
  (forall i a, x <> SWrite i a) -> (forall i a, y <> SWrite i a) -> holds_found y ->
  (m' = PReturned -> ctr <= 0) -> s_inv (mkS m' ctr res (<[w := y]> ws)).
Proof.
  intros [Hc Hl Hf Hr Hi Hw _] Ew Nx Ny Hy Hm. split; cbn [s_main s_ctr s_results s_workers] in *; try done.
  - by apply Forall_insert.
  - intros v i a [E|E]%write_old; [by destruct (Ny i a)|by eapply Hi].
  - intros i Hb. destruct (Hw i Hb) as [|E]; [by left|]. right. by eapply write_kept.
Qed.

Lemma s_inv_main m m' ctr res ws :
  s_inv (mkS m ctr res ws) -> (m' = PReturned -> ctr <= 0) -> s_inv (mkS m' ctr res ws).
Proof. intros [] Hm. by split. Qed.

Lemma s_step_inv s s' : s_step s s' -> s_inv s -> s_inv s'.
Proof.
  intros St I. destruct St as [k ctr res ws w Hk Ew|k ctr res ws w Hk Ew|k ctr res ws Hk|ctr res ws
    |ctr res ws w Ew|m ctr res ws w Ew|m ctr res ws w Ew|m ctr res ws w a Ew Ha|m ctr res ws w a Ew|m ctr res ws w i a Ew];
    try (by eapply s_inv_move); try (by eapply s_inv_main).
  - eapply s_inv_main; [done|]. destruct (decide (0 < ctr)); [done|]. lia.
  - eapply s_inv_move; try done; [| |apply (si_returned _ I)]; by destruct (decide (0 < ctr)).
  - eapply s_inv_move; try done. apply (si_returned _ I).
  - eapply s_inv_move; try done. apply (si_returned _ I).
  - destruct I as [Hc Hl Hf Hr Hi Hw Hrt]. cbn [s_main s_ctr s_results s_workers] in *.
    assert (found a) as Ha by (eapply Forall_lookup_1 in Hf; [|exact Ew]; exact Hf).
    split; cbn [s_main s_ctr s_results s_workers]; try done; try lia.
    + by apply Forall_insert.
    + intros v j b [[= <- <-]|E]%write_old; [lia|]. specialize (Hi v j b E). lia.
    + intros j Hb. destruct (decide (Z.of_nat j = ctr - 1)) as [->|N].
      * right. exists w, a. apply list_lookup_insert_eq. by apply lookup_lt_Some in Ew.
      * destruct (Hw j ltac:(lia)) as [|E]; [by left|]. right. by eapply write_kept.
    + intros E. specialize (Hrt E). lia.
  - destruct I as [Hc Hl Hf Hr Hi Hw Hrt]. cbn [s_main s_ctr s_results s_workers] in *.
    assert (found a) as Ha by (eapply Forall_lookup_1 in Hf; [|exact Ew]; exact Hf).
    pose proof (Hi _ _ _ Ew) as Hb.
    split; cbn [s_main s_ctr s_results s_workers]; try done; try lia.
    + destruct (decide (0 <= i)); [by rewrite length_insert|done].
    + by apply Forall_insert.
    + intros j b E. destruct (decide (0 <= i)); [|by eapply Hr].
      apply list_lookup_insert_Some in E as [(_ & [= <-] & _)|[_ E]]; [done|by eapply Hr].
    + intros v j b [[=]|E]%write_old. by eapply Hi.
    + intros j Hj. destruct (decide (Z.of_nat j = i)) as [<-|N].
      * left. rewrite decide_True, Nat2Z.id, list_lookup_insert_eq by lia. done.
      * destruct (Hw j Hj) as [H|E]; [left|right].
        -- destruct (decide (0 <= i)); [|done]. rewrite list_lookup_insert_ne by lia. done.
        -- eapply write_kept; [exact Ew| |done]. congruence.
Qed.

(** When the call has returned and no worker holds a result that it has not
    written, every entry is a success. *)
Lemma s_inv_results s :
  s_inv s -> s_main s = PReturned -> (forall w i a, s_workers s !! w <> Some (SWrite i a)) ->
  forall i, (i < count)%nat -> exists a, s_results s !! i = Some (Some a) /\ found a.
Proof.
  intros [Hc Hl Hf Hr Hi Hw Hrt] E Hn i Hic. specialize (Hrt E).
  destruct (Hw i ltac:(lia)) as [[a Ea]|(w & a & Ew)]; [|by apply Hn in Ew].
  destruct (s_results s !! i) as [[b|]|] eqn:Eb; [|done|done]. exists b. split; [done|]. by eapply Hr.
Qed.

End Search.

(** The write comes after the decrement: the caller may return before it. *)
Lemma search_early {A} (found : A -> Prop) a :
  found a ->
  exists s, rtc (s_step 1 found) (s_init 1 [SIdle]) s /\ s_main s = PReturned /\ s_results s = [None].
Proof.
  intros Ha. eexists. split.
  - unfold s_init. eapply rtc_l; [apply (S_send _ _ 0 _ _ _ 0); [lia|done]|]. cbn.
    eapply rtc_l; [apply (S_check _ _ _ _ _ _ 0); done|]. cbn.
    eapply rtc_l; [apply (S_found _ _ _ _ _ _ 0 a); done|]. cbn.
    eapply rtc_l; [apply (S_dec _ _ _ _ _ _ 0 a); done|]. cbn.
    eapply rtc_l; [apply S_sent; lia|]. eapply rtc_l; [apply S_load|]. apply rtc_refl.
  - done.
Qed.
