(* ===== verification/ZkSetup.v ===== *)
(** * pkg/zk/fac, prm, mod: proofs about Paillier moduli and Pedersen parameters

    The loops that the code hands to a pool are carried out in order, as the
    pool's [Parallelize] does without workers. *)

From Stdlib Require Import ZArith Lia Znumtheory Zmod.
From Stdlib Require Import Strings.Byte.
From stdpp Require Import base strings list pretty numbers.
From S2P Require Import Prelude Hash Curve Primes Arith Sample SampleInts PaillierMath Paillier Pedersen Zk.

Local Open Scope Z_scope.

(** ** zkfac: the factors of N are small *)

Section Fac.
Context {C : Curve} {B3 : Blake3} {S : Saferith}.

Record zkfac_Public := mkFacPublic { facN : Z; facAux : Parameters }.
Record zkfac_Private := mkFacPrivate { facpP : Z; facpQ : Z }.
Record zkfac_Commitment := mkFacCommitment { facP : option Z; facQ : option Z; facA : option Z; facB : option Z; facT : option Z }.
Record zkfac_Proof := mkFacProof {
  facComm : zkfac_Commitment;
  facSigma : option Z;
  facZ1 : option Z;
  facZ2 : option Z;
  facW1 : option Z;
  facW2 : option Z;
  facV : option Z
}.

Definition zkfac_challenge (h : Hash) (public : zkfac_Public) (c : zkfac_Commitment) : outcome (Z * bool) :=
  zk_challenge IntervalL h
    [Modulus_any (facN public); ped_any (facAux public); Nat_any (facP c); Nat_any (facQ c); Nat_any (facA c);
     Nat_any (facB c); Nat_any (facT c)].

(** T = Q^α t^r *)
Definition zkfac_T (aux : Parameters) (Q alpha r : Z) : Z :=
  (Modulus_ExpI (ped_n aux) Q alpha * Modulus_ExpI (ped_n aux) (ped_t aux) r) mod mod_n (ped_n aux).

Definition zkfac_NewProof (h : Hash) (public : zkfac_Public) (private : zkfac_Private) (rand : reader) :
    outcome (zkfac_Proof * reader) :=
  let aux := facAux public in
  '(alpha, rand) ← IntervalLEpsRootN rand;
  '(beta, rand) ← IntervalLEpsRootN rand;
  '(mu, rand) ← IntervalLN rand;
  '(nu, rand) ← IntervalLN rand;
  '(sigma, rand) ← IntervalLN2 rand;
  '(r, rand) ← IntervalLEpsN2 rand;
  '(x, rand) ← IntervalLEpsN rand;
  '(y, rand) ← IntervalLEpsN rand;
  let pInt := facpP private in
  let qInt := facpQ private in
  let P := ped_Commit aux pInt mu in
  let Q := ped_Commit aux qInt nu in
  let A := ped_Commit aux alpha x in
  let B := ped_Commit aux beta y in
  let T' := zkfac_T aux Q alpha r in
  let comm := mkFacCommitment (Some P) (Some Q) (Some A) (Some B) (Some T') in
  '(e, _) ← zkfac_challenge h public comm;
  let z1 := zk_response e pInt alpha in
  let z2 := zk_response e qInt beta in
  let w1 := zk_response e mu x in
  let w2 := zk_response e nu y in
  let sigmaHat := - (nu * pInt) + sigma in
  let v := zk_response e sigmaHat r in
  Ret (mkFacProof comm (Some sigma) (Some z1) (Some z2) (Some w1) (Some w2) (Some v), rand).

Definition zkfac_Verify (p : option zkfac_Proof) (h : Hash) (public : zkfac_Public) : outcome bool :=
  match p with
  | None => Ret false
  | Some p =>
      let c := facComm p in
      let aux := facAux public in
      let n := ped_n aux in
      '(e, ok) ← zkfac_challenge h public c;
      require ok;
      require ped_Verify aux (facZ1 p) (facW1 p) (Some e) (facA c) (facP c);
      require ped_Verify aux (facZ2 p) (facW2 p) (Some e) (facB c) (facQ c);
      sigma ← deref (facSigma p);
      z1 ← deref (facZ1 p);
      v ← deref (facV p);
      Q ← deref (facQ c);
      T' ← deref (facT c);
      let R := Modulus_Exp n (ped_s aux) (facN public) in
      let R := (R * Modulus_ExpI n (ped_t aux) sigma) mod mod_n n in
      let lhs := (Modulus_ExpI n Q z1 * Modulus_ExpI n (ped_t aux) v) mod mod_n n in
      let rhs := (Modulus_ExpI n R e * T') mod mod_n n in
      require lhs =? rhs;
      Ret (IsInIntervalLEpsPlus1RootN (facZ1 p) && IsInIntervalLEpsPlus1RootN (facZ2 p))
  end.

Context {SL : SaferithLaws S}.

(** Q^(ep+α) t^(e(σ-νp)+r) = (s^N t^σ)^e Q^α t^r, for Q = s^q t^ν and N = pq. *)
Lemma fac_equation (aux : Parameters) p q ν σ α r e :
  ped_ok aux ->
  let Q := ped_com aux q ν in
  let t := Zmod.of_Z (mod_n (ped_n aux)) (ped_t aux) in
  Zmod.mul (Zmod.pow Q (zk_response e p α)) (Zmod.pow t (zk_response e (- (ν * p) + σ) r))
  = Zmod.mul (Zmod.pow (ped_com aux (p * q) σ) e) (Zmod.mul (Zmod.pow Q α) (Zmod.pow t r)).
Proof.
  intros OK Q t. pose proof OK as [Hm Hs Ht].
  pose proof (is_unit_of_Z _ _ Hs) as Us. pose proof (is_unit_of_Z _ _ Ht) as Ut. fold t in Ut.
  assert (is_unit Q) as UQ by (by apply ped_com_unit). unfold zk_response. rewrite !pow_plus by done.
  set (Qa := Zmod.pow Q α). set (tr := Zmod.pow t r).
  assert (Zmod.mul (Zmod.pow Q (e * p)) (Zmod.pow t (e * (- (ν * p) + σ))) = Zmod.pow (ped_com aux (p * q) σ) e) as E.
  { unfold Q, ped_com. fold t. set (s := Zmod.of_Z (mod_n (ped_n aux)) (ped_s aux)) in *.
    rewrite !mul_pow, <- !pow_pow by auto with units. rewrite <- Zmod.mul_assoc, <- pow_plus by done.
    f_equal; f_equal; lia. }
  rewrite <- E. rewrite <- !Zmod.mul_assoc. f_equal. rewrite !Zmod.mul_assoc. f_equal. apply Zmod.mul_comm.
Qed.

Lemma fac_R (aux : Parameters) n σ :
  ped_ok aux -> 0 <= n ->
  (Modulus_Exp (ped_n aux) (ped_s aux) n * Modulus_ExpI (ped_n aux) (ped_t aux) σ) mod mod_n (ped_n aux)
  = Zmod.to_Z (ped_com aux n σ).
Proof.
  intros [Hm Hs Ht] Hn. rewrite Modulus_Exp_spec, Modulus_ExpI_spec by done. by rewrite <- Zmod.to_Z_mul.
Qed.

Ltac fac_simpl := cbn [deref mbind outcome_bind facComm facP facQ facA facB facT facSigma facZ1 facZ2 facW1 facW2 facV].

Lemma zkfac_accepts h public private rand p rand' :
  ped_ok (facAux public) -> 0 <= facN public -> facN public = facpP private * facpQ private ->
  zkfac_NewProof h public private rand = Ret (p, rand') ->
  IsInIntervalLEpsPlus1RootN (facZ1 p) = true -> IsInIntervalLEpsPlus1RootN (facZ2 p) = true ->
  zkfac_Verify (Some p) h public = Ret true.
Proof.
  intros OK HN0 HN E H1 H2. pose proof OK as [Hm Hs Ht].
  unfold zkfac_NewProof in E. zk_inv E. apply ret_pair_inv in E as [-> ->]. zk_flag Hc.
  unfold zkfac_Verify. fac_simpl. rewrite Hc. fac_simpl. cbn [facZ1 facZ2] in H1, H2. rewrite H1, H2.
  unfold zk_response at 1 2 3 4. rewrite !ped_Verify_complete by done. fac_simpl.
  rewrite !ped_Commit_spec by done. unfold zkfac_T.
  rewrite fac_R by done. rewrite !Modulus_ExpI_spec by (done || by apply unitZ_to_Z, ped_com_unit).
  rewrite !Zmod.of_Z_to_Z, <- !Zmod.to_Z_mul, fac_equation, HN by done. by rewrite Z.eqb_refl.
Qed.

End Fac.

Section FacBounds.
Context {C : Curve} {B3 : Blake3} {S : Saferith} {SL : SaferithLaws S}.

(** The extra bit of the verifier's interval covers the response of every
    prover whose factors have the length of a Blum prime. *)
Lemma fac_response_bound e x α :
  Z.abs e < 2 ^ Z.of_nat params_L -> 0 <= x < 2 ^ Z.of_nat BitsBlumPrime ->
  Z.abs α < 2 ^ Z.of_nat (LPlusEpsilon + BitsIntModN / 2) ->
  IsInIntervalLEpsPlus1RootN (Some (zk_response e x α)) = true.
Proof.
  intros He Hx Hα. apply IsInIntervalLEpsPlus1RootN_spec. unfold zk_response.
  assert (Z.abs (e * x) <= 2 ^ Z.of_nat params_L * 2 ^ Z.of_nat BitsBlumPrime) as H1 by (rewrite Z.abs_mul; nia).
  rewrite <- Z.pow_add_r in H1 by lia.
  assert (2 ^ (Z.of_nat params_L + Z.of_nat BitsBlumPrime) <= 2 ^ Z.of_nat (LPlusEpsilon + BitsIntModN / 2)) as H2.
  { apply Z.pow_le_mono_r; [done|]. by vm_compute. }
  rewrite <- Z.add_assoc, Z.pow_add_r, <- Nat2Z.inj_add by lia. change (2 ^ 1) with 2. lia.
Qed.

Lemma zkfac_NewProof_bounds h public private rand p rand' :
  0 <= facpP private < 2 ^ Z.of_nat BitsBlumPrime -> 0 <= facpQ private < 2 ^ Z.of_nat BitsBlumPrime ->
  zkfac_NewProof h public private rand = Ret (p, rand') ->
  IsInIntervalLEpsPlus1RootN (facZ1 p) = true /\ IsInIntervalLEpsPlus1RootN (facZ2 p) = true.
Proof.
  intros Hp Hq E. unfold zkfac_NewProof in E. zk_intervals.
  apply bind_ret_inv in E as ([α r1] & Eα%sampleNeg_abs & E); [|done].
  apply bind_ret_inv in E as ([β r2] & Eβ%sampleNeg_abs & E); [|done].
  zk_inv E. apply ret_pair_inv in E as [-> _].
  match goal with H : zkfac_challenge _ _ _ = _ |- _ =>
    apply zk_challenge_sampled in H as (h' & r' & He%sampleNeg_abs); [|done] end.
  split; by apply fac_response_bound.
Qed.

(** Honest proofs never fail. *)
Lemma zkfac_complete_bounds h public private rand p rand' :
  ped_ok (facAux public) -> facN public = facpP private * facpQ private ->
  0 <= facpP private < 2 ^ Z.of_nat BitsBlumPrime -> 0 <= facpQ private < 2 ^ Z.of_nat BitsBlumPrime ->
  zkfac_NewProof h public private rand = Ret (p, rand') -> zkfac_Verify (Some p) h public = Ret true.
Proof.
  intros OK HN Hp Hq E. destruct (zkfac_NewProof_bounds _ _ _ _ _ _ Hp Hq E) as [H1 H2].
  eapply zkfac_accepts; [done|nia|done|exact E|done|done].
Qed.

Lemma zkfac_NewProof_total h public private rand :
  steady [] rand -> exists p rand', zkfac_NewProof h public private rand = Ret (p, rand').
Proof.
  intros Hs. unfold zkfac_NewProof. zk_intervals. do 8 zk_sample. unfold zkfac_challenge. zk_challenged. eauto.
Qed.

End FacBounds.

(** ** zkprm: s is a power of t *)

Section Prm.
Context {B3 : Blake3} {S : Saferith}.

Record zkprm_Private := mkPrmPrivate { prmLambda : Z; prmPhi : Z; prmP : Z; prmQ : Z }.
Record zkprm_Proof := mkPrmProof { prmAs : list (option Z); prmZs : list (option Z) }.

(** Arrays of [StatParam] entries. *)
Definition prm_sized (p : zkprm_Proof) : Prop :=
  length (prmAs p) = StatParam /\ length (prmZs p) = StatParam.

Definition zkprm_IsValid (p : option zkprm_Proof) (aux : Parameters) : bool :=
  match p with
  | None => false
  | Some p => IsValidBigModN (mod_n (ped_n aux)) (prmAs p ++ prmZs p)
  end.

(** One bit per byte of the digest; errors for the single entries are
    dropped. *)
Definition zkprm_challenge (h : Hash) (aux : Parameters) (A : list (option Z)) : list bool * outcome unit :=
  let '(h, err) := WriteAny h [ped_any aux] in
  let h := foldl (fun h a => WriteAny_ h [ABigInt a]) h A in
  let tmpBytes := default [] (ReadFull (Digest h) StatParam).1 in
  ((fun b => Z.odd (byteZ b)) <$> tmpBytes, err).

(** The exponents aᵢ, in order. *)
Fixpoint sample_exponents (fuel count : nat) (phi : Z) (rand : reader) : outcome (list Z * reader) :=
  match count with
  | O => Ret ([], rand)
  | Datatypes.S count =>
      '(a, rand) ← ModN fuel rand phi;
      '(l, rand) ← sample_exponents fuel count phi rand;
      Ret (a :: l, rand)
  end.

Definition zkprm_NewProof (fuel : nat) (h : Hash) (aux : Parameters) (private : zkprm_Private) (rand : reader) :
    outcome (zkprm_Proof * reader) :=
  let lambda := prmLambda private in
  let phi := prmPhi private in
  let n := ModulusFromFactors (prmP private) (prmQ private) in
  '(as', rand) ← sample_exponents fuel StatParam phi rand;
  let As := (fun a => Some (Modulus_Exp n (ped_t aux) a)) <$> as' in
  let '(es, _) := zkprm_challenge h aux As in
  let Zs := zip_with (fun a (e : bool) => Some (if e then (a + lambda) mod phi else a)) as' es in
  Ret (mkPrmProof As Zs, rand).

(** The check of one index. *)
Definition zkprm_check (n s t : Z) (a z : option Z) (e : bool) : bool :=
  if negb (IsValidBigModN n [a; z]) then false
  else match a, z with
       | Some a, Some z =>
           if a =? 1 then false
           else
             let lhs := big_Exp t z n in
             let rhs := if e then (a * s) mod n else a in
             lhs =? rhs
       | _, _ => false
       end.

Definition zkprm_Verify (p : option zkprm_Proof) (h : Hash) (aux : Parameters) : bool :=
  match p with
  | None => false
  | Some p =>
      let n := mod_n (ped_n aux) in
      match ValidateParameters (Some n) (Some (ped_s aux)) (Some (ped_t aux)) with
      | Ret _ =>
          match zkprm_challenge h aux (prmAs p) with
          | (es, Ret _) =>
              forallb (fun i => zkprm_check n (ped_s aux) (ped_t aux) (prmAs p !!! i) (prmZs p !!! i) (es !!! i))
                (seq 0 StatParam)
          | _ => false
          end
      | _ => false
      end
  end.

Context {SL : SaferithLaws S}.

(** Answers to both challenges for one commitment reveal the logarithm of s
    to the base t. *)
Lemma zkprm_extracts (aux : Parameters) a z0 z1 :
  ped_ok aux ->
  zkprm_check (mod_n (ped_n aux)) (ped_s aux) (ped_t aux) a (Some z0) false = true ->
  zkprm_check (mod_n (ped_n aux)) (ped_s aux) (ped_t aux) a (Some z1) true = true ->
  Zmod.of_Z (mod_n (ped_n aux)) (ped_s aux) = Zmod.pow (Zmod.of_Z (mod_n (ped_n aux)) (ped_t aux)) (z1 - z0).
Proof.
  intros [[Hn _] Hs Ht] C0 C1. unfold zkprm_check in *.
  destruct (IsValidBigModN _ [a; Some z0]) eqn:V0; [|done]. destruct (IsValidBigModN _ [a; Some z1]) eqn:V1; [|done].
  destruct a as [a|]; [|done]. cbn [negb] in *. destruct (a =? 1); [done|].
  apply Z.eqb_eq in C0, C1. apply IsValidBigModN_spec in V0, V1.
  rewrite !Forall_cons_iff in V0, V1. destruct V0 as ((? & [= <-] & Ha & Ua) & (? & [= <-] & Hz0 & _) & _).
  destruct V1 as (_ & (? & [= <-] & Hz1 & _) & _).
  unfold big_Exp in C0, C1. set (n := mod_n (ped_n aux)) in *.
  set (t := Zmod.of_Z n (ped_t aux)) in *. assert (is_unit t) as Ut by (by apply is_unit_of_Z).
  assert (Zmod.pow t z1 = Zmod.mul (Zmod.pow t z0) (Zmod.of_Z n (ped_s aux))) as E.
  { apply Zmod.to_Z_inj. rewrite C1, Zmod.to_Z_mul, C0, Zmod.to_Z_of_Z. by rewrite Zmult_mod_idemp_r. }
  unfold Z.sub. rewrite Z.add_comm, pow_plus, E, Zmod.mul_assoc by done.
  rewrite (Zmod.mul_comm (Zmod.pow t (- z0))), pow_inverse by done. symmetry. apply Zmod.mul_1_l.
Qed.

(** An honest answer satisfies the equation of its challenge. *)
Lemma prm_answer (aux : Parameters) p q l a (e : bool) :
  Z.prime p -> Z.prime q -> p <> q -> ped_ok aux -> mod_n (ped_n aux) = p * q -> 0 <= a -> 0 <= l ->
  ped_s aux = Zmod.to_Z (Zmod.pow (Zmod.of_Z (p * q) (ped_t aux)) l) ->
  let φ := (p - 1) * (q - 1) in
  big_Exp (ped_t aux) (if e then (a + l) mod φ else a) (p * q)
  = if e then (Modulus_Exp (ModulusFromFactors p q) (ped_t aux) a * ped_s aux) mod (p * q)
    else Modulus_Exp (ModulusFromFactors p q) (ped_t aux) a.
Proof.
  intros Hp Hq Hpq [_ _ Ht] Hn Ha Hl Hs φ. rewrite Hn in Ht. pose proof (product_gt_1 p q Hp Hq) as H1.
  pose proof (totient_pos p q Hp Hq) as H0. fold φ in H0.
  assert (modulus_ok (ModulusFromFactors p q)) as OK.
  { pose proof (Z.prime_ge_2 _ Hp). pose proof (Z.prime_ge_2 _ Hq).
    apply ModulusFromFactors_ok; [lia|lia|]. by apply factors_coprime. }
  pose proof (Modulus_Exp_spec _ (ped_t aux) a OK Ha) as Em.
  change (mod_n (ModulusFromFactors p q)) with (p * q) in Em. rewrite Em.
  destruct e.
  - pose proof (Z.mod_pos_bound (a + l) φ H0). unfold big_Exp. rewrite Hs, <- Zmod.to_Z_mul. f_equal.
    rewrite <- pow_plus by (by apply is_unit_of_Z). apply (euler_exponent p q Hp Hq Hpq); [by apply is_unit_of_Z|].
    apply Z.mod_mod. unfold φ. lia.
  - done.
Qed.

Lemma sample_exponents_spec fuel count phi rand l rand' :
  sample_exponents fuel count phi rand = Ret (l, rand') -> length l = count /\ Forall (fun a => 0 <= a < phi) l.
Proof.
  revert rand l rand'. induction count as [|count IH]; intros rand l rand'; cbn.
  - by intros [= <- _].
  - intros ([a r1] & Ea%ModN_range & E)%bind_ret_inv. apply bind_ret_inv in E as ([l' r2] & [Hl HF]%IH & E).
    injection E as <- _. cbn. split; [lia|by constructor].
Qed.

Lemma zkprm_challenge_length h aux A es err : zkprm_challenge h aux A = (es, err) -> length es = StatParam.
Proof.
  unfold zkprm_challenge. destruct (WriteAny h [ped_any aux]) as [h' e']. intros E%(f_equal (fun x => length x.1)).
  cbn [fst] in E. rewrite <- E, length_fmap. unfold Digest, ReadFull, stream_reader.
  cbn [r_fails r_calls fst default from_option id]. by rewrite length_map, length_seq.
Qed.

(** An honest proof of a key's own parameters is accepted, unless one of its
    numbers is degenerate. *)
Lemma zkprm_accepts fuel h aux private rand p rand' :
  Z.prime (prmP private) -> Z.prime (prmQ private) -> prmP private <> prmQ private ->
  prmPhi private = (prmP private - 1) * (prmQ private - 1) ->
  ped_ok aux -> mod_n (ped_n aux) = prmP private * prmQ private -> 0 <= prmLambda private ->
  ped_s aux = Zmod.to_Z (Zmod.pow (Zmod.of_Z (prmP private * prmQ private) (ped_t aux)) (prmLambda private)) ->
  ValidateParameters (Some (mod_n (ped_n aux))) (Some (ped_s aux)) (Some (ped_t aux)) = Ret tt ->
  zkprm_NewProof fuel h aux private rand = Ret (p, rand') ->
  zkprm_IsValid (Some p) aux = true -> Some 1 ∉ prmAs p ->
  zkprm_Verify (Some p) h aux = true.
Proof.
  intros Hp Hq Hpq Hphi OK Hn Hl Hs HV E. unfold zkprm_NewProof in E.
  apply bind_ret_inv in E as ([as' r1] & [Las Has]%sample_exponents_spec & E).
  set (As := (fun a => Some (Modulus_Exp _ (ped_t aux) a)) <$> as') in *.
  destruct (zkprm_challenge h aux As) as [es err] eqn:Ec. pose proof (zkprm_challenge_length _ _ _ _ _ Ec) as Les.
  assert (err = Ret tt) as ->.
  { unfold zkprm_challenge in Ec. cbn [WriteAny to_be_written ped_any wrap_err mbind outcome_bind] in Ec. by injection Ec. }
  apply ret_pair_inv in E as [-> _]. intros Hv H1. unfold zkprm_Verify. rewrite HV. cbn [prmAs prmZs] in *. rewrite Ec.
  apply forallb_forall. intros i [_ Hi]%in_seq. cbn [Nat.add] in Hi.
  destruct (lookup_lt_is_Some_2 as' i ltac:(lia)) as [a Ea]. destruct (lookup_lt_is_Some_2 es i ltac:(lia)) as [e Ee].
  assert (As !! i = Some (Some (Modulus_Exp (ModulusFromFactors (prmP private) (prmQ private)) (ped_t aux) a))) as EA.
  { unfold As. by rewrite list_lookup_fmap, Ea. }
  rewrite (list_lookup_total_correct _ _ _ EA), (list_lookup_total_correct es i e Ee).
  erewrite list_lookup_total_correct; [|by rewrite lookup_zip_with, Ea, Ee].
  unfold zkprm_check. cbn [zkprm_IsValid prmAs prmZs] in Hv. apply IsValidBigModN_spec in Hv.
  apply Forall_app in Hv as [HvA HvZ]. rewrite (proj2 (IsValidBigModN_spec _ _)).
  2: { constructor; [eapply Forall_lookup_1; [exact HvA|exact EA]|]. constructor; [|done].
       eapply Forall_lookup_1; [exact HvZ|]. by rewrite lookup_zip_with, Ea, Ee. }
  cbn [negb]. destruct (Z.eqb_spec (Modulus_Exp (ModulusFromFactors (prmP private) (prmQ private)) (ped_t aux) a) 1) as [E1|_].
  { destruct H1. apply list_elem_of_lookup. exists i. by rewrite EA, E1. }
  apply Z.eqb_eq. rewrite Hn, Hphi. eapply Forall_lookup_1 in Has; [|exact Ea]. apply prm_answer; done || lia.
Qed.

End Prm.

(** ** zkmod: N is a product of two primes, 3 modulo 4, coprime to ϕ(N) *)

Section Mod.
Context {B3 : Blake3} {S : Saferith} {BP : BigPrime}.

Record zkmod_Private := mkModPrivate { modP : Z; modQ : Z; modPhi : Z }.
Record Response := mkResponse { rspA : bool; rspB : bool; rspX : option Z; rspZ : option Z }.
Record zkmod_Proof := mkModProof { modW : option Z; modResponses : list Response }.

Definition isQRmodPQ (y pHalf qHalf p q : Z) : bool :=
  let pOk := sf_Exp y pHalf p =? 1 in
  let qOk := sf_Exp y qHalf q =? 1 in
  pOk && qOk.

Definition fourthRootExponent (phi : Z) : Z :=
  let e := 4 + phi in
  let e := Z.shiftr e 3 in
  (e * e) mod phi.

Definition makeQuadraticResidue (y w pHalf qHalf n p q : Z) : bool * bool * Z :=
  let out := y mod n in
  if isQRmodPQ out pHalf qHalf p q then (false, false, out)
  else
    let out := (- out) mod n in
    if isQRmodPQ out pHalf qHalf p q then (true, false, out)
    else
      let out := (out * w) mod n in
      if isQRmodPQ out pHalf qHalf p q then (true, true, out)
      else
        let out := (- out) mod n in
        (false, true, out).

(** [big.Jacobi] dereferences its argument. *)
Definition jacobi_opt (w : option Z) (n : Z) : outcome Z := w ← deref w; Jacobi w n.

Definition zkmod_IsValid (p : option zkmod_Proof) (n : Z) : outcome bool :=
  match p with
  | None => Ret false
  | Some p =>
      j ← jacobi_opt (modW p) n;
      require j =? -1;
      require IsValidBigModN n [modW p];
      require forallb (fun r => IsValidBigModN n [rspX r; rspZ r]) (modResponses p);
      Ret true
  end.

(** The yᵢ, read from one digest. *)
Fixpoint sample_ys (fuel count : nat) (n : Z) (digest : reader) : outcome (list Z) :=
  match count with
  | O => Ret []
  | Datatypes.S count =>
      '(y, digest) ← ModN fuel digest n;
      ys ← sample_ys fuel count n digest;
      Ret (y :: ys)
  end.

Definition zkmod_challenge (fuel : nat) (h : Hash) (n : Z) (w : option Z) : outcome (list Z * bool) :=
  match WriteAny h [Modulus_any n; ABigInt w] with
  | (_, Panic m) => Panic m
  | (h, err) => es ← sample_ys fuel StatParam n (Digest h); Ret (es, is_ret err)
  end.

(** The response for one y. *)
Definition zkmod_respond (private : zkmod_Private) (n w y : Z) : Response :=
  let p := modP private in
  let q := modQ private in
  let phi := modPhi private in
  let nModulus := ModulusFromFactors p q in
  let pHalf := Z.shiftr p 1 in
  let qHalf := Z.shiftr q 1 in
  let nInverse := sf_ModInverse n phi in
  let e := fourthRootExponent phi in
  let z := Modulus_Exp nModulus y nInverse in
  let '(a, b, yPrime) := makeQuadraticResidue y w pHalf qHalf n p q in
  let x := Modulus_Exp nModulus yPrime e in
  mkResponse a b (Some x) (Some z).

Definition zkmod_NewProof (fuel : nat) (h : Hash) (private : zkmod_Private) (n : Z) (rand : reader) :
    outcome (zkmod_Proof * reader) :=
  '(w, rand) ← QNR rand n;
  '(ys, _) ← zkmod_challenge fuel h n (Some w);
  Ret (mkModProof (Some w) (zkmod_respond private n w <$> ys), rand).

Definition Response_Verify (r : Response) (n w y : Z) : outcome bool :=
  z ← deref (rspZ r);
  let lhs := big_Exp z n n in
  require lhs =? y;
  x ← deref (rspX r);
  let lhs := x * x in
  let lhs := lhs * lhs in
  let lhs := lhs mod n in
  let rhs := y in
  let rhs := if rspA r then - rhs else rhs in
  let rhs := if rspB r then rhs * w else rhs in
  let rhs := rhs mod n in
  Ret (lhs =? rhs).

(** All the responses are verified before the verdict. The responses of the
    code are an array of [StatParam] entries: a shorter list is out of range. *)
Fixpoint verify_all (rs : list Response) (n w : Z) (ys : list Z) : outcome bool :=
  match rs, ys with
  | r :: rs, y :: ys =>
      ok ← Response_Verify r n w y;
      rest ← verify_all rs n w ys;
      Ret (ok && rest)
  | _, [] => Ret true
  | [], _ => Panic "index out of range"
  end.

Definition zkmod_Verify (fuel : nat) (p : option zkmod_Proof) (h : Hash) (n : Z) : outcome bool :=
  match p with
  | None => Ret false
  | Some p =>
      require negb (Z.even n || ProbablyPrime n 20);
      j ← jacobi_opt (modW p) n;
      require j =? -1;
      require IsValidBigModN n [modW p];
      '(ys, ok) ← zkmod_challenge fuel h n (modW p);
      require ok;
      w ← deref (modW p);
      verify_all (modResponses p) n w ys
  end.

End Mod.
