(* ===== verification/ZkMod.v ===== *)
(** * Quadratic residues and fourth roots behind pkg/zk/mod *)

From Stdlib Require Import ZArith Lia Znumtheory Zmod Ring.
From Stdlib Require Import Strings.Byte.
From stdpp Require Import base strings list pretty numbers.
From S2P Require Import Prelude Hash Curve Primes Arith Sample SampleInts PaillierMath Paillier Pedersen Zk ZkSetup.

Local Open Scope Z_scope.

(** ** The quadratic character modulo a prime *)

Section Character.
Variable r : Z.
Hypothesis Hr : Z.prime r.
Hypothesis Hr4 : r mod 4 = 3.

(** Euler's criterion. *)
Definition sym (x : Z) : bool := bool_decide (Zmod.pow (Zmod.of_Z r x) ((r - 1) / 2) = Zmod.one).

Lemma half_odd : (r - 1) / 2 = 2 * (r / 4) + 1.
Proof. Z.to_euclidean_division_equations. lia. Qed.

Lemma half_pos : 0 <= (r - 1) / 2.
Proof. pose proof (Z.prime_ge_2 _ Hr). apply Z.div_pos; lia. Qed.

Lemma half_double : (r - 1) / 2 * 2 = Z.pred r.
Proof. Z.to_euclidean_division_equations. lia. Qed.

Lemma prime_ge_3 : 3 <= r.
Proof. pose proof (Z.prime_ge_2 _ Hr). Z.to_euclidean_division_equations. lia. Qed.

Lemma minus_one_unit : unitZ (-1) r.
Proof. unfold unitZ. change (-1) with (Z.opp 1). rewrite Z.gcd_opp_l. apply Z.gcd_1_l. Qed.

(** The character is one or minus one on units. *)
Lemma character_cases x :
  unitZ x r ->
  let c := Zmod.pow (Zmod.of_Z r x) ((r - 1) / 2) in c = Zmod.one \/ c = Zmod.opp Zmod.one.
Proof.
  intros Hx c. apply (Zmod.square_roots_1_prime Hr). unfold c.
  rewrite <- pow_pow, half_double by (by apply is_unit_of_Z). apply Zmod.fermat_nz; [|done].
  intros E. apply (f_equal Zmod.to_Z) in E. rewrite Zmod.to_Z_of_Z, Zmod.to_Z_0 in E. by apply (unit_nonzero r x).
Qed.

Lemma character_sym x :
  unitZ x r -> Zmod.pow (Zmod.of_Z r x) ((r - 1) / 2) = if sym x then Zmod.one else Zmod.opp Zmod.one.
Proof.
  intros Hx. unfold sym. destruct (bool_decide_reflect (Zmod.pow (Zmod.of_Z r x) ((r - 1) / 2) = Zmod.one)) as [|N]; [done|].
  by destruct (character_cases x Hx).
Qed.

Lemma sym_unique x (b : bool) :
  Zmod.pow (Zmod.of_Z r x) ((r - 1) / 2) = (if b then Zmod.one else Zmod.opp Zmod.one) -> sym x = b.
Proof.
  intros E. unfold sym. rewrite E. destruct b; [by apply bool_decide_eq_true|]. apply bool_decide_eq_false.
  apply Zmod.opp_1_neq_1. pose proof prime_ge_3. lia.
Qed.

Lemma sym_mul x y : unitZ x r -> unitZ y r -> sym (x * y) = Bool.eqb (sym x) (sym y).
Proof.
  intros Hx Hy. apply sym_unique. rewrite Zmod.of_Z_mul, mul_pow, !character_sym by auto with units.
  destruct (sym x), (sym y); cbn [Bool.eqb]; rewrite ?Zmod.mul_1_l, ?Zmod.mul_1_r; try done.
  rewrite Zmod.mul_m1_l. apply Zmod.opp_opp.
Qed.

Lemma sym_minus_one : sym (-1) = false.
Proof.
  apply sym_unique. rewrite half_odd, Zmod.of_Z_m1.
  assert (is_unit (@Zmod.opp r Zmod.one)) as U.
  { rewrite <- Zmod.of_Z_m1. apply is_unit_of_Z, minus_one_unit. }
  rewrite pow_plus, pow_one, pow_pow by done. rewrite Zmod.pow_opp_2, one_pow, one_pow. apply Zmod.mul_1_l.
Qed.

Lemma sym_opp x : unitZ x r -> sym (- x) = negb (sym x).
Proof.
  intros Hx. replace (- x) with (-1 * x) by lia. rewrite sym_mul by (done || apply minus_one_unit).
  rewrite sym_minus_one. by destruct (sym x).
Qed.

Lemma sym_cong x y : x mod r = y mod r -> sym x = sym y.
Proof. intros E. unfold sym. by rewrite <- (of_Z_mod r x), E, of_Z_mod. Qed.

End Character.

(** ** Blum integers *)

Section Blum.
Context {S : Saferith} {SL : SaferithLaws S}.
Variables p q : Z.
Hypothesis Hp : Z.prime p.
Hypothesis Hq : Z.prime q.
Hypothesis Hpq : p <> q.
Hypothesis Hp4 : p mod 4 = 3.
Hypothesis Hq4 : q mod 4 = 3.

Abbreviation n := (p * q).
Abbreviation φ := ((p - 1) * (q - 1)).

Lemma isQR_sym y :
  isQRmodPQ y (Z.shiftr p 1) (Z.shiftr q 1) p q = sym p y && sym q y.
Proof.
  assert (forall r, Z.prime r -> r mod 4 = 3 -> (sf_Exp y (Z.shiftr r 1) r =? 1) = sym r y) as H.
  { intros r Hr Hr4. pose proof (Z.prime_ge_2 _ Hr) as H2. rewrite Z.shiftr_div_pow2 by done. change (2 ^ 1) with 2.
    replace (r / 2) with ((r - 1) / 2) by (clear - Hr4; Z.to_euclidean_division_equations; lia).
    rewrite exp_spec by (lia || apply half_pos; done). unfold sym.
    destruct (bool_decide_reflect (Zmod.pow (Zmod.of_Z r y) ((r - 1) / 2) = Zmod.one)) as [->|N].
    - rewrite Zmod.to_Z_1 by lia. apply Z.eqb_eq, Z.mod_small. lia.
    - apply Z.eqb_neq. intros E. apply N, Zmod.to_Z_inj. rewrite E, Zmod.to_Z_1 by lia. symmetry. apply Z.mod_small. lia. }
  unfold isQRmodPQ. by rewrite !H.
Qed.

Lemma sym_mod_p x : sym p (x mod n) = sym p x.
Proof. apply sym_cong. apply Z.mod_mod_divide. by exists q; lia. Qed.

Lemma sym_mod_q x : sym q (x mod n) = sym q x.
Proof. apply sym_cong. apply Z.mod_mod_divide. by exists p. Qed.

(** The number the verifier computes from the two flags. *)
Definition flagged (a b : bool) (w y : Z) : Z :=
  let rhs := if a then - y else y in
  let rhs := if b then rhs * w else rhs in
  rhs mod n.

(** w is a residue modulo exactly one of the two primes. *)
Definition splits (w : Z) : Prop := unitZ w n /\ sym q w = negb (sym p w).

Lemma makeQuadraticResidue_spec y w :
  unitZ y n -> splits w ->
  let '(a, b, out) := makeQuadraticResidue y w (Z.shiftr p 1) (Z.shiftr q 1) n p q in
  out = flagged a b w y /\ sym p out = true /\ sym q out = true.
Proof.
  intros Hy [Hw Hs]. pose proof (product_gt_1 p q Hp Hq) as H1.
  apply unitZ_product in Hy as [Hyp Hyq]. apply unitZ_product in Hw as [Hwp Hwq].
  unfold makeQuadraticResidue, flagged.
  assert (forall x, (- (x mod n)) mod n = (- x) mod n) as En.
  { intros x. rewrite <- Z.sub_0_l, Zminus_mod_idemp_r. done. }
  assert (unitZ (- y) p) as Hnp by (unfold unitZ; by rewrite Z.gcd_opp_l).
  assert (unitZ (- y) q) as Hnq by (unfold unitZ; by rewrite Z.gcd_opp_l).
  assert (((- (y mod n)) mod n * w) mod n = (- y * w) mod n) as Ew by (by rewrite En, Zmult_mod_idemp_l).
  rewrite !isQR_sym, !Ew, !En, !sym_mod_p, !sym_mod_q.
  rewrite !sym_mul, !sym_opp, Hs by done.
  destruct (sym p y) eqn:E1, (sym q y) eqn:E2, (sym p w) eqn:E3; cbn [negb andb Bool.eqb];
    (split; [done || (f_equal; lia)|]); rewrite ?sym_mod_p, ?sym_mod_q; try done.
  all: try replace (- (- y * w)) with (y * w) by lia.
  all: rewrite ?sym_mul, ?sym_opp by done; rewrite ?Hs, ?E1, ?E2, ?E3; done.
Qed.

(** ϕ/4 is odd. *)
Lemma quarter : exists k, φ = 4 * (2 * k + 1) /\ 0 <= k /\ (p - 1) / 2 * ((q - 1) / 2) = 2 * k + 1.
Proof.
  pose proof (Z.prime_ge_2 _ Hp). pose proof (Z.prime_ge_2 _ Hq).
  exists (2 * (p / 4) * (q / 4) + p / 4 + q / 4). rewrite !half_odd by done.
  pose proof (Z.div_mod p 4 ltac:(done)). pose proof (Z.div_mod q 4 ltac:(done)).
  pose proof (Z.div_pos p 4). pose proof (Z.div_pos q 4).
  split_and!; [|nia|ring]. replace (p - 1) with (4 * (p / 4) + 2) by lia. replace (q - 1) with (4 * (q / 4) + 2) by lia. ring.
Qed.

Lemma residue_order r x k : Z.prime r -> r mod 4 = 3 -> sym r x = true -> 0 <= k -> (r | x ^ ((r - 1) / 2 * k) - 1).
Proof.
  intros Hr Hr4 Hs Hk. pose proof (Z.prime_ge_2 _ Hr) as H2. pose proof (half_pos r Hr) as Hh.
  apply Z.mod_divide; [lia|]. apply Z.cong_iff_0. apply bool_decide_eq_true in Hs. apply (f_equal Zmod.to_Z) in Hs.
  rewrite Zmod.to_Z_pow_nonneg_r, Zmod.to_Z_of_Z, Z.mod_pow_l, Zmod.to_Z_1 in Hs by lia.
  rewrite Z.pow_mul_r by done. rewrite <- Z.mod_pow_l, Hs, Z.mod_pow_l, Z.pow_1_l by done. done.
Qed.

(** The power ϕ/4 is trivial on the residues modulo both primes. *)
Lemma residues_order x :
  sym p x = true -> sym q x = true -> Zmod.pow (Zmod.of_Z n x) ((p - 1) / 2 * ((q - 1) / 2)) = Zmod.one.
Proof.
  intros H1 H2. pose proof (half_pos p Hp). pose proof (half_pos q Hq). pose proof (product_gt_1 p q Hp Hq).
  rewrite <- Zmod.of_Z_pow by nia. rewrite <- Zmod.of_Z_1. apply Zmod.to_Z_inj. rewrite !Zmod.to_Z_of_Z.
  apply Z.cong_iff_0, Z.mod_divide; [lia|]. apply coprime_divides; [by apply factors_coprime|by apply residue_order|].
  rewrite Z.mul_comm. by apply residue_order.
Qed.

(** The exponent of the code extracts a fourth root of a residue. *)
Lemma fourth_root x :
  unitZ x n -> sym p x = true -> sym q x = true ->
  Zmod.pow (Zmod.pow (Zmod.of_Z n x) (fourthRootExponent φ)) 4 = Zmod.of_Z n x.
Proof.
  intros Ux H1 H2. pose proof (is_unit_of_Z _ _ Ux) as U. pose proof (residues_order x H1 H2) as Ho.
  destruct quarter as (k & Ek & Hk & Em). rewrite Em in Ho. unfold fourthRootExponent.
  rewrite Z.shiftr_div_pow2 by done. change (2 ^ 3) with 8.
  assert ((4 + φ) / 8 = k + 1) as E8. { rewrite Ek. replace (4 + 4 * (2 * k + 1)) with ((k + 1) * 8) by ring. apply Z.div_mul. lia. }
  rewrite E8. rewrite (euler_exponent p q Hp Hq Hpq _ ((k + 1) * (k + 1) mod φ) ((k + 1) * (k + 1))).
  - rewrite <- pow_pow by done. replace ((k + 1) * (k + 1) * 4) with ((2 * k + 1) * (2 * k + 3) + 1) by ring.
    rewrite pow_plus, pow_pow, Ho, one_pow, pow_one by done. apply Zmod.mul_1_l.
  - done.
  - apply Z.mod_mod. lia.
Qed.

Hypothesis Hφ : unitZ φ n.

Lemma flagged_unit a b w y : unitZ w n -> unitZ y n -> unitZ (flagged a b w y) n.
Proof.
  intros Hw Hy. unfold flagged, unitZ. rewrite Z.gcd_mod_l.
  assert (unitZ (if a then - y else y) n) as Ha by (destruct a; [unfold unitZ; by rewrite Z.gcd_opp_l|done]).
  destruct b; [by apply unitZ_mul|done].
Qed.

Lemma blum_modulus_ok : modulus_ok (ModulusFromFactors p q).
Proof.
  pose proof (Z.prime_ge_2 _ Hp). pose proof (Z.prime_ge_2 _ Hq).
  apply ModulusFromFactors_ok; [lia|lia|]. by apply factors_coprime.
Qed.

(** The prover's response to a unit satisfies both equations of the
    verifier. *)
Lemma zkmod_respond_verifies w y :
  splits w -> unitZ y n -> 0 <= y < n ->
  Response_Verify (zkmod_respond (mkModPrivate p q φ) n w y) n w y = Ret true.
Proof.
  intros Hw Hy Hr. pose proof (product_gt_1 p q Hp Hq) as H1. pose proof (totient_pos p q Hp Hq) as H0.
  pose proof blum_modulus_ok as OK. pose proof (makeQuadraticResidue_spec y w Hy Hw) as HM.
  unfold zkmod_respond. cbn [modP modQ modPhi].
  destruct (makeQuadraticResidue y w (Z.shiftr p 1) (Z.shiftr q 1) n p q) as [[a b] out]. destruct HM as (Eo & Sp & Sq).
  assert (unitZ n φ) as Un by (unfold unitZ; rewrite Z.gcd_comm; exact Hφ).
  pose proof (is_unit_of_Z _ _ Hy) as Uy.
  assert (unitZ out n) as Uo by (rewrite Eo; apply flagged_unit; [apply Hw|done]).
  assert (0 <= sf_ModInverse n φ) as Hinv.
  { rewrite inverse_spec by done. apply Zmod.unsigned_pos_bound. lia. }
  assert (0 <= fourthRootExponent φ) as He by (apply Z.mod_pos_bound; lia).
  unfold Response_Verify. cbn [rspA rspB rspX rspZ deref mbind outcome_bind].
  pose proof (Modulus_Exp_spec _ y _ OK Hinv) as Ez. change (mod_n (ModulusFromFactors p q)) with n in Ez. rewrite Ez.
  pose proof (Modulus_Exp_spec _ out _ OK He) as Ex. change (mod_n (ModulusFromFactors p q)) with n in Ex. rewrite Ex.
  unfold big_Exp. rewrite Zmod.of_Z_to_Z, <- pow_pow by done.
  rewrite (euler_exponent p q Hp Hq Hpq _ (sf_ModInverse n φ * n) 1), pow_one by
    (done || (rewrite Z.mul_comm, inverse_spec by done;
      pose proof (Zmod.mul_inv_same_r_coprime _ (is_unit_of_Z _ _ Un)) as E; apply (f_equal Zmod.to_Z) in E;
      rewrite Zmod.to_Z_mul, Zmod.to_Z_of_Z, Zmult_mod_idemp_l, Zmod.to_Z_1 in E by lia; exact E)).
  rewrite Zmod.to_Z_of_Z, (Z.mod_small y), Z.eqb_refl by lia. f_equal. apply Z.eqb_eq.
  fold (flagged a b w y). rewrite <- Eo. set (x := Zmod.pow (Zmod.of_Z n out) (fourthRootExponent φ)).
  pose proof (fourth_root out Uo Sp Sq) as F. fold x in F. apply (f_equal Zmod.to_Z) in F.
  rewrite Zmod.to_Z_pow_nonneg_r, Zmod.to_Z_of_Z, (Z.mod_small out) in F by
    (lia || (rewrite Eo; apply Z.mod_pos_bound; lia)).
  rewrite <- F. f_equal. change 4 with (Z.succ (Z.succ (Z.succ (Z.succ 0)))). rewrite !Z.pow_succ_r by lia. ring.
Qed.

Lemma QNR_result k rand w rand' : QNR_loop k rand n = Ret (w, rand') -> 0 <= w < n /\ Jacobi w n = Ret (-1).
Proof.
  pose proof (product_gt_1 p q Hp Hq). revert rand. induction k as [|k IH]; intros rand; cbn [QNR_loop]; [done|].
  intros ([buf r] & _ & E)%bind_ret_inv. apply bind_ret_inv in E as (j & Ej & E).
  destruct (Z.eqb_spec j (-1)) as [->|_]; [|by eapply IH]. apply ret_pair_inv in E as [-> _].
  split; [apply Z.mod_pos_bound; lia|done].
Qed.

Lemma sample_ys_range fuel count digest ys :
  sample_ys fuel count n digest = Ret ys -> length ys = count /\ Forall (fun y => 0 <= y < n) ys.
Proof.
  revert digest ys. induction count as [|count IH]; intros digest ys; cbn [sample_ys].
  - intros [= <-]. by split; [|constructor].
  - intros ([y d] & Hy%ModN_range & E)%bind_ret_inv. apply bind_ret_inv in E as (ys' & [Hl Hys]%IH & [= <-]).
    split; [cbn; by rewrite Hl|by constructor].
Qed.

Lemma verify_all_responses w ys :
  splits w -> Forall (fun y => unitZ y n) ys -> Forall (fun y => 0 <= y < n) ys ->
  verify_all (zkmod_respond (mkModPrivate p q φ) n w <$> ys) n w ys = Ret true.
Proof.
  intros Hw Hu. induction Hu as [|y ys Hy _ IH]; intros Hr; [done|]. apply Forall_cons_iff in Hr as [Hy' Hr].
  cbn [fmap list_fmap verify_all]. rewrite zkmod_respond_verifies by done. cbn [mbind outcome_bind].
  rewrite IH by done. done.
Qed.

(** An honest proof that n is a Blum modulus is accepted, when the sampled w
    is a residue modulo one factor only and the challenges are units. *)
Lemma zkmod_accepts {B3 : Blake3} {BP : BigPrime} fuel h rand pf rand' ys :
  ProbablyPrime n 20 = false ->
  zkmod_NewProof fuel h (mkModPrivate p q φ) n rand = Ret (pf, rand') ->
  (forall w, 0 <= w < n -> Jacobi w n = Ret (-1) -> splits w) ->
  zkmod_challenge fuel h n (modW pf) = Ret (ys, true) -> Forall (fun y => unitZ y n) ys ->
  zkmod_Verify fuel (Some pf) h n = Ret true.
Proof.
  intros Hprime E HJ Ec Hu. apply bind_ret_inv in E as ([w r] & [Hr Hj]%QNR_result & E). pose proof (HJ w Hr Hj) as Hw.
  apply bind_ret_inv in E as ([ys' ok] & Ec' & [-> _]%ret_pair_inv). cbn [modW] in Ec. rewrite Ec in Ec'.
  apply ret_pair_inv in Ec' as [-> ->]. unfold zkmod_Verify. cbn [modW modResponses jacobi_opt deref mbind outcome_bind].
  assert (Z.even n = false) as ->.
  { rewrite Z.even_mul, <- !Z.negb_odd. pose proof (Z.div_mod p 4 ltac:(done)). pose proof (Z.div_mod q 4 ltac:(done)).
    replace p with (1 + 2 * (2 * (p / 4) + 1)) by lia. replace q with (1 + 2 * (2 * (q / 4) + 1)) by lia.
    by rewrite !Z.odd_add_mul_2. }
  rewrite Hprime. cbn [orb negb]. rewrite Hj. cbn [mbind outcome_bind]. change (-1 =? -1) with true. cbn [negb].
  rewrite (proj2 (IsValidBigModN_spec _ _)).
  2: { constructor; [|done]. exists w. split; [done|]. split; [|apply Hw].
       assert (w <> 0); [|lia]. intros ->. pose proof (product_gt_1 p q Hp Hq). destruct Hw as [U _]. unfold unitZ in U.
       rewrite Z.gcd_0_l in U. lia. }
  rewrite Ec. cbn [negb mbind outcome_bind]. apply verify_all_responses; [done..|].
  unfold zkmod_challenge in Ec. destruct (WriteAny h _) as [h' [| |m]]; [| |done];
    apply bind_ret_inv in Ec as (es & [_ He]%sample_ys_range & [-> _]%ret_pair_inv); exact He.
Qed.

End Blum.
