(* ===== verification/DoernerKeygen.v ===== *)
(** * protocols/doerner/keygen: two-party key generation and refresh

    The three rounds of the Receiver and of the Sender; every handler of
    [keygen/round*.go] is one definition.  [StoreMessage] of the Sender's
    first round reads the random source, which is no argument of the round
    interface: that round carries the readers it will use. *)

From Stdlib Require Import ZArith Lia Zmod Field.
From Stdlib Require Import Strings.Byte.
From stdpp Require Import base gmap strings list pretty numbers.
From S2P Require Import Prelude Hash Curve Party Sample Round Message Handler Schnorr FrostConfig Zk.
From S2P Require Import OtRandom OtCorrelated.

Local Open Scope curve_scope.

Definition doerner_protocolID : string := "doerner/keygen".

Section Keygen.
Context {C : Curve} `{B3 : Blake3} {BK : Blake3Keyed}.

(** ** Results *)

(** [Public] may be nil. *)
Record ConfigReceiver := mkConfigReceiver {
  dr_Setup : CorreOTReceiveSetup;
  dr_SecretShare : Scalar;
  dr_Public : option Point;
  dr_ChainKey : bytes
}.

Record ConfigSender := mkConfigSender {
  ds_Setup : CorreOTSendSetup;
  ds_SecretShare : Scalar;
  ds_Public : option Point;
  ds_ChainKey : bytes
}.

(** The configurations of the two parties of the key [sk]. *)
Record doerner_pair (r : ConfigReceiver) (s : ConfigSender) (sk : Scalar) : Prop := {
  dp_setup : corre_ok (ds_Setup s) (dr_Setup r);
  dp_shares : dr_SecretShare r + ds_SecretShare s = sk;
  dp_receiver : dr_Public r = Some (sk • 𝐆);
  dp_sender : ds_Public s = Some (sk • 𝐆);
  dp_chain : dr_ChainKey r = ds_ChainKey s
}.

(** [Derive] checks the new chain key, and returns a configuration without one. *)
Definition Receiver_Derive (c : ConfigReceiver) (adjust : Scalar) (newChainKey : bytes) : outcome ConfigReceiver :=
  _ ← next_chain_key (dr_ChainKey c) newChainKey;
  let adjustG := ActOnBase adjust in
  P ← deref (dr_Public c);
  Ret (mkConfigReceiver (dr_Setup c) (dr_SecretShare c + adjust) (Some (P ⊕ adjustG)) []).

Definition Sender_Derive (c : ConfigSender) (adjust : Scalar) (newChainKey : bytes) : outcome ConfigSender :=
  _ ← next_chain_key (ds_ChainKey c) newChainKey;
  let adjustG := ActOnBase adjust in
  P ← deref (ds_Public c);
  Ret (mkConfigSender (ds_Setup c) (ds_SecretShare c + adjust) (Some (P ⊕ adjustG)) []).

(** The type assertion on a nil [Public] fails. *)
Definition bip32_error : string := "DeriveChild called on non secp256k1 curve".

Definition Receiver_DeriveBIP32 (c : ConfigReceiver) (i : Z) : outcome ConfigReceiver :=
  match dr_Public c with
  | None => Fail bip32_error
  | Some P => '(scalar, newChainKey) ← DeriveScalar P (dr_ChainKey c) i; Receiver_Derive c scalar newChainKey
  end.

Definition Sender_DeriveBIP32 (c : ConfigSender) (i : Z) : outcome ConfigSender :=
  match ds_Public c with
  | None => Fail bip32_error
  | Some P => '(scalar, newChainKey) ← DeriveScalar P (ds_ChainKey c) i; Sender_Derive c scalar newChainKey
  end.

(** ** Rounds and messages *)

Record dkr1 := mkDkr1 {
  dr_Helper : Helper;
  dr_refresh : bool;
  dr_public : option Point;
  dr_secretShare : Scalar;
  dr_publicShare : Point;
  dr_receiver : CorreOTSetupReceiver
}.

Record dkr2 := mkDkr2 {
  dr_round1 : dkr1;
  dr_proof : Proof;
  dr_decommit : bytes;
  dr_chainKeyDecommit : bytes;
  dr_refreshDecommit : bytes;
  dr_refreshScalar : Scalar;
  dr_ourChainKey : bytes;
  dr_chainKey : bytes;
  dr_otMsg2 : option (list bytes)
}.

Record dkr3 := mkDkr3 {
  dr_round2 : dkr2;
  dr_setup : option CorreOTReceiveSetup;
  dr_otMsg3 : option (list RandomOTSendRound2Message)
}.

Record dks1 := mkDks1 {
  ds_Helper : Helper;
  ds_refresh : bool;
  ds_public : option Point;
  ds_secretShare : Scalar;
  ds_publicShare : Point;
  ds_sender : CorreOTSetupSender;
  ds_receiverCommit : bytes;
  ds_chainKeyCommit : bytes;
  ds_refreshCommit : bytes;
  ds_otMsg1 : option (list bytes);
  (** the readers of [StoreMessage] *)
  ds_rand : reader;
  ds_tasks : nat -> reader
}.

Record dks2 := mkDks2 {
  ds_round1 : dks1;
  ds_chainKey : bytes;
  ds_refreshScalar : Scalar;
  ds_otMsg2 : option (list bytes)
}.

Record dks3 := mkDks3 {
  ds_round2 : dks2;
  ds_setup : option CorreOTSendSetup
}.

Inductive dkg_round :=
| DR1 (r : dkr1)
| DR2 (r : dkr2)
| DR3 (r : dkr3)
| DS1 (r : dks1)
| DS2 (r : dks2)
| DS3 (r : dks3).

Inductive dkg_content :=
| DMessage1R (Commit ChainKeyCommit RefreshCommit : bytes) (OtMsg : option RandomOTSetupSendMessage)
| DMessage1S (PublicShare : option Point) (ChainKey : bytes) (RefreshScalar : option Scalar)
    (Proof : option Proof) (OtMsg : option (list bytes))
| DMessage2R (Decommit ChainKeyDecommit RefreshDecommit ChainKey : bytes) (PublicShare : option Point)
    (RefreshScalar : option Scalar) (Proof : option Proof) (OtMsg : option (list bytes))
| DMessage2S (OtMsg : option (list bytes))
| DMessage3R (OtMsg : option (list RandomOTSendRound2Message)).

Inductive dkg_result :=
| RReceiver (c : ConfigReceiver)
| RSender (c : ConfigSender).

Definition dkg_RoundNumber (c : dkg_content) : Number :=
  match c with
  | DMessage1R _ _ _ _ => 1
  | DMessage1S _ _ _ _ _ => 2
  | DMessage2R _ _ _ _ _ _ _ _ => 2
  | DMessage2S _ => 3
  | DMessage3R _ => 3
  end%Z.

Abbreviation dkg_message := (round_Message dkg_content).
Abbreviation dkg_session := (Session dkg_round dkg_result).

(** [r.Hash()] *)
Definition session_hash (h : Helper) : Hash := Clone (hash h).

Definition cast_panic : string := "interface conversion: round.Content is of another type".

(** [a[i] ^= b[i]] over the common indices *)
Definition xor_into (a b : bytes) : bytes := xor_bytes a b ++ drop (length b) a.

(** A scalar that may be nil, as an argument of [WriteAny]. *)
Definition scalar_arg (s : option Scalar) : any := match s with Some s => Scalar_any s | None => AOther end.

(** ** Round 1 *)

Definition dkr1_Finalize (r : dkr1) (rand : reader) (out : chan dkg_message) :
    outcome (dkr2 * chan dkg_message * reader) :=
  let h := dr_Helper r in
  '(proof, rand) ← NewProof (session_hash h) (dr_publicShare r) (dr_secretShare r) None rand;
  '(commit, decommit, rand) ← Commit (session_hash h) rand [Point_any (dr_publicShare r)];
  let '(chainKey, rand) := read_dropped rand SecBytes in
  '(chainKeyCommit, chainKeyDecommit, rand) ← Commit (session_hash h) rand [ABytes (Some chainKey)];
  '(refreshScalar, rand) ← sample_Scalar rand;
  '(refreshCommit, refreshDecommit, rand) ← Commit (session_hash h) rand [Scalar_any refreshScalar];
  '(otMsg, receiver, rand) ← CorreOTSetupReceiver_Round1 (dr_receiver r) rand;
  out ← SendMessage h out (DMessage1R commit chainKeyCommit refreshCommit (Some otMsg)) "";
  Ret (mkDkr2 (mkDkr1 h (dr_refresh r) (dr_public r) (dr_secretShare r) (dr_publicShare r) receiver)
         proof decommit chainKeyDecommit refreshDecommit refreshScalar chainKey [] None, out, rand).

Definition dks1_VerifyMessage (r : dks1) (msg : dkg_message) : outcome unit :=
  match rm_Content msg with
  | DMessage1R commit chainKeyCommit refreshCommit otMsg =>
      _ ← Commitment_Validate commit;
      _ ← Commitment_Validate chainKeyCommit;
      _ ← Commitment_Validate refreshCommit;
      guard_or (is_some otMsg) ErrNilFields
  | _ => Fail ErrInvalidContent
  end.

Definition dks1_StoreMessage (r : dks1) (msg : dkg_message) : outcome dks1 :=
  match rm_Content msg with
  | DMessage1R commit chainKeyCommit refreshCommit otMsg =>
      otMsg ← deref otMsg;
      '(out, sender) ← CorreOTSetupSender_Round1 (ds_sender r) otMsg (ds_rand r) (ds_tasks r);
      Ret (mkDks1 (ds_Helper r) (ds_refresh r) (ds_public r) (ds_secretShare r) (ds_publicShare r) sender
             commit chainKeyCommit refreshCommit (Some out) (ds_rand r) (ds_tasks r))
  | _ => Panic cast_panic
  end.

Definition dks1_Finalize (r : dks1) (rand : reader) (out : chan dkg_message) :
    outcome (dks2 * chan dkg_message * reader) :=
  let h := ds_Helper r in
  '(proof, rand) ← NewProof (session_hash h) (ds_publicShare r) (ds_secretShare r) None rand;
  let '(chainKey, rand) := read_dropped rand SecBytes in
  '(refreshScalar, rand) ← sample_Scalar rand;
  out ← SendMessage h out (DMessage1S (Some (ds_publicShare r)) chainKey (Some refreshScalar) (Some proof) (ds_otMsg1 r)) "";
  Ret (mkDks2 r chainKey refreshScalar None, out, rand).

(** ** Round 2 *)

Definition dkr2_VerifyMessage (r : dkr2) (msg : dkg_message) : outcome unit :=
  match rm_Content msg with
  | DMessage1S publicShare chainKey refreshScalar proof otMsg =>
      match proof, publicShare, refreshScalar, otMsg with
      | Some proof, Some publicShare, Some _, Some _ =>
          ok ← Proof_Verify (Some proof) (session_hash (dr_Helper (dr_round1 r))) publicShare None;
          _ ← guard_or ok "invalid Schnorr proof";
          guard_or (bool_decide (length chainKey = SecBytes)) "chain key too short"
      | _, _, _, _ => Fail ErrNilFields
      end
  | _ => Fail ErrInvalidContent
  end.

Definition dkr2_StoreMessage (r : dkr2) (msg : dkg_message) : outcome dkr2 :=
  match rm_Content msg with
  | DMessage1S publicShare chainKey refreshScalar _ otMsg =>
      let r1 := dr_round1 r in
      otMsg ← deref otMsg;
      '(out, receiver) ← CorreOTSetupReceiver_Round2 (dr_receiver r1) otMsg;
      public ← (if negb (dr_refresh r1)
                then P ← deref publicShare; Ret (Some (dr_publicShare r1 ⊕ P)) else Ret (dr_public r1));
      refreshScalar ← deref refreshScalar;
      let secretShare := Sub (dr_secretShare r1 + dr_refreshScalar r) refreshScalar in
      Ret (mkDkr2 (mkDkr1 (dr_Helper r1) (dr_refresh r1) public secretShare (dr_publicShare r1) receiver)
             (dr_proof r) (dr_decommit r) (dr_chainKeyDecommit r) (dr_refreshDecommit r) (dr_refreshScalar r)
             (dr_ourChainKey r) (xor_into chainKey (dr_ourChainKey r)) (Some out))
  | _ => Panic cast_panic
  end.

Definition dkr2_Finalize (r : dkr2) (out : chan dkg_message) : outcome (dkr3 * chan dkg_message) :=
  let r1 := dr_round1 r in
  out ← SendMessage (dr_Helper r1) out
          (DMessage2R (dr_decommit r) (dr_chainKeyDecommit r) (dr_refreshDecommit r) (dr_ourChainKey r)
             (Some (dr_publicShare r1)) (Some (dr_refreshScalar r)) (Some (dr_proof r)) (dr_otMsg2 r)) "";
  Ret (mkDkr3 r None None, out).

Definition dks2_VerifyMessage (r : dks2) (msg : dkg_message) : outcome unit :=
  let r1 := ds_round1 r in
  let H := session_hash (ds_Helper r1) in
  match rm_Content msg with
  | DMessage2R decommit chainKeyDecommit refreshDecommit chainKey publicShare refreshScalar proof otMsg =>
      match publicShare, proof, otMsg with
      | Some publicShare, Some proof, Some _ =>
          _ ← Decommitment_Validate decommit;
          _ ← guard_or (Decommit H (ds_receiverCommit r1) decommit [Point_any publicShare]) "invalid commitment";
          _ ← guard_or (bool_decide (length chainKey = SecBytes)) "chain key too short";
          _ ← guard_or (Decommit H (ds_chainKeyCommit r1) chainKeyDecommit [ABytes (Some chainKey)]) "invalid commitment";
          _ ← guard_or (Decommit H (ds_refreshCommit r1) refreshDecommit [scalar_arg refreshScalar]) "invalid commitment";
          ok ← Proof_Verify (Some proof) H publicShare None;
          guard_or ok "invalid Schnorr proof"
      | _, _, _ => Fail ErrNilFields
      end
  | _ => Fail ErrInvalidContent
  end.

Definition dks2_StoreMessage (r : dks2) (msg : dkg_message) : outcome dks2 :=
  match rm_Content msg with
  | DMessage2R _ _ _ chainKey publicShare refreshScalar _ otMsg =>
      let r1 := ds_round1 r in
      public ← (if negb (ds_refresh r1)
                then P ← deref publicShare; Ret (Some (ds_publicShare r1 ⊕ P)) else Ret (ds_public r1));
      otMsg ← deref otMsg;
      let '(out, sender) := CorreOTSetupSender_Round2 (ds_sender r1) otMsg in
      refreshScalar ← deref refreshScalar;
      let secretShare := Sub (ds_secretShare r1 + ds_refreshScalar r) refreshScalar in
      Ret (mkDks2 (mkDks1 (ds_Helper r1) (ds_refresh r1) public secretShare (ds_publicShare r1) sender
                     (ds_receiverCommit r1) (ds_chainKeyCommit r1) (ds_refreshCommit r1) (ds_otMsg1 r1) (ds_rand r1) (ds_tasks r1))
             (xor_into (ds_chainKey r) chainKey) (ds_refreshScalar r) (Some out))
  | _ => Panic cast_panic
  end.

Definition dks2_Finalize (r : dks2) (out : chan dkg_message) : outcome (dks3 * chan dkg_message) :=
  out ← SendMessage (ds_Helper (ds_round1 r)) out (DMessage2S (ds_otMsg2 r)) "";
  Ret (mkDks3 r None, out).

(** ** Round 3 *)

Definition dkr3_VerifyMessage (r : dkr3) (msg : dkg_message) : outcome unit :=
  match rm_Content msg with
  | DMessage2S otMsg => guard_or (is_some otMsg) ErrNilFields
  | _ => Fail ErrInvalidContent
  end.

Definition dkr3_StoreMessage (r : dkr3) (msg : dkg_message) : outcome dkr3 :=
  match rm_Content msg with
  | DMessage2S otMsg =>
      otMsg ← deref otMsg;
      '(out, setup) ← CorreOTSetupReceiver_Round3 (dr_receiver (dr_round1 (dr_round2 r))) otMsg;
      Ret (mkDkr3 (dr_round2 r) (Some setup) (Some out))
  | _ => Panic cast_panic
  end.

(** The setup was stored before. *)
Definition dkr3_Finalize (r : dkr3) (out : chan dkg_message) : outcome (ConfigReceiver * chan dkg_message) :=
  let r2 := dr_round2 r in
  let r1 := dr_round1 r2 in
  out ← SendMessage (dr_Helper r1) out (DMessage3R (dr_otMsg3 r)) "";
  setup ← deref (dr_setup r);
  Ret (mkConfigReceiver setup (dr_secretShare r1) (dr_public r1) (dr_chainKey r2), out).

Definition dks3_VerifyMessage (r : dks3) (msg : dkg_message) : outcome unit :=
  match rm_Content msg with
  | DMessage3R otMsg => guard_or (is_some otMsg) ErrNilFields
  | _ => Fail ErrInvalidContent
  end.

Definition dks3_StoreMessage (r : dks3) (msg : dkg_message) : outcome dks3 :=
  match rm_Content msg with
  | DMessage3R otMsg =>
      otMsg ← deref otMsg;
      setup ← CorreOTSetupSender_Round3 (ds_sender (ds_round1 (ds_round2 r))) otMsg;
      Ret (mkDks3 (ds_round2 r) (Some setup))
  | _ => Panic cast_panic
  end.

Definition dks3_Finalize (r : dks3) : outcome ConfigSender :=
  let r2 := ds_round2 r in
  let r1 := ds_round1 r2 in
  setup ← deref (ds_setup r);
  Ret (mkConfigSender setup (ds_secretShare r1) (ds_public r1) (ds_chainKey r2)).

(** ** Starting the protocol *)

(** One call of the start function: the first round, the captured secret
    share after the call, and the reader.  [rd] and [tasks] are the readers
    that the Sender's [StoreMessage] will use. *)
Definition doerner_StartKeygen (receiver : bool) (selfID otherID : ID) (secretShare : option Scalar)
    (public : option Point) (sessionID : option bytes) (rand rd : reader) (tasks : nat -> reader) :
    outcome (dkg_session * option Scalar * reader) :=
  let info := mkInfo doerner_protocolID 3 selfID (NewIDSlice [selfID; otherID]) 1 (Some Name) in
  helper ← wrap_err "keygen.StartKeygen: " (NewSession info sessionID []);
  '(refresh, secretShare, rand) ←
    match secretShare, public with
    | None, None => '(s, rand) ← sample_Scalar rand; Ret (false, Some s, rand)
    | _, _ => Ret (true, secretShare, rand)
    end;
  s ← deref secretShare;
  let publicShare := ActOnBase s in
  Ret (Running
         (if receiver : bool
          then DR1 (mkDkr1 helper refresh public s publicShare (NewCorreOTSetupReceiver (session_hash helper)))
          else DS1 (mkDks1 helper refresh public s publicShare (NewCorreOTSetupSender (session_hash helper))
                      [] [] [] None rd tasks)),
       secretShare, rand).

(** doerner.go *)
Definition doerner_Keygen (receiver : bool) (selfID otherID : ID) :=
  doerner_StartKeygen receiver selfID otherID None None.

(** [config.Group()] dereferences the public key. *)
Definition RefreshReceiver (config : ConfigReceiver) (selfID otherID : ID) (sessionID : option bytes)
    (rand rd : reader) (tasks : nat -> reader) : outcome (dkg_session * option Scalar * reader) :=
  P ← deref (dr_Public config);
  doerner_StartKeygen true selfID otherID (Some (dr_SecretShare config)) (Some P) sessionID rand rd tasks.

Definition RefreshSender (config : ConfigSender) (selfID otherID : ID) (sessionID : option bytes)
    (rand rd : reader) (tasks : nat -> reader) : outcome (dkg_session * option Scalar * reader) :=
  P ← deref (ds_Public config);
  doerner_StartKeygen false selfID otherID (Some (ds_SecretShare config)) (Some P) sessionID rand rd tasks.

(** ** The round interface *)

Definition dkg_helper (r : dkg_round) : Helper :=
  match r with
  | DR1 r => dr_Helper r
  | DR2 r => dr_Helper (dr_round1 r)
  | DR3 r => dr_Helper (dr_round1 (dr_round2 r))
  | DS1 r => ds_Helper r
  | DS2 r => ds_Helper (ds_round1 r)
  | DS3 r => ds_Helper (ds_round1 (ds_round2 r))
  end.

Definition dkg_Number (r : dkg_round) : Number :=
  match r with DR1 _ | DS1 _ => 1 | DR2 _ | DS2 _ => 2 | DR3 _ | DS3 _ => 3 end%Z.

Definition dkg_MessageContent (r : dkg_round) : option dkg_content :=
  match r with
  | DR1 _ => None
  | DR2 _ => Some (DMessage1S (Some 𝟎) [] (Some 0) (Some (mkProof 𝟎 0)) None)
  | DR3 _ => Some (DMessage2S None)
  | DS1 _ => Some (DMessage1R [] [] [] (Some EmptyRandomOTSetupSendMessage))
  | DS2 _ => Some (DMessage2R [] [] [] [] (Some 𝟎) (Some 0) (Some (mkProof 𝟎 0)) None)
  | DS3 _ => Some (DMessage3R None)
  end.

Definition dkg_VerifyMessage (r : dkg_round) (msg : dkg_message) : outcome unit :=
  match r with
  | DR1 _ => Ret tt
  | DR2 r => dkr2_VerifyMessage r msg
  | DR3 r => dkr3_VerifyMessage r msg
  | DS1 r => dks1_VerifyMessage r msg
  | DS2 r => dks2_VerifyMessage r msg
  | DS3 r => dks3_VerifyMessage r msg
  end.

Definition dkg_StoreMessage (r : dkg_round) (msg : dkg_message) : outcome dkg_round :=
  match r with
  | DR1 r => Ret (DR1 r)
  | DR2 r => r ← dkr2_StoreMessage r msg; Ret (DR2 r)
  | DR3 r => r ← dkr3_StoreMessage r msg; Ret (DR3 r)
  | DS1 r => r ← dks1_StoreMessage r msg; Ret (DS1 r)
  | DS2 r => r ← dks2_StoreMessage r msg; Ret (DS2 r)
  | DS3 r => r ← dks3_StoreMessage r msg; Ret (DS3 r)
  end.

(** A stage that returns, with the channel and the reader it leaves. *)
Definition finish {A} (m : outcome (A * chan dkg_message * reader)) (f : A -> dkg_session)
    (out : chan dkg_message) (rand : reader) : outcome dkg_session * chan dkg_message * reader :=
  match m with
  | Ret (a, out, rand) => (Ret (f a), out, rand)
  | Fail e => (Fail e, out, rand)
  | Panic p => (Panic p, out, rand)
  end.

Definition dkg_Finalize (r : dkg_round) (rand : reader) (out : chan dkg_message) :
    outcome dkg_session * chan dkg_message * reader :=
  match r with
  | DR1 r => finish (dkr1_Finalize r rand out) (fun r => Running (DR2 r)) out rand
  | DR2 r => finish ('(r, out) ← dkr2_Finalize r out; Ret (r, out, rand)) (fun r => Running (DR3 r)) out rand
  | DR3 r => finish ('(c, out) ← dkr3_Finalize r out; Ret (c, out, rand))
               (fun c => Output (dr_Helper (dr_round1 (dr_round2 r))) (RReceiver c)) out rand
  | DS1 r => finish (dks1_Finalize r rand out) (fun r => Running (DS2 r)) out rand
  | DS2 r => finish ('(r, out) ← dks2_Finalize r out; Ret (r, out, rand)) (fun r => Running (DS3 r)) out rand
  | DS3 r => finish (c ← dks3_Finalize r; Ret (c, out, rand))
               (fun c => Output (ds_Helper (ds_round1 (ds_round2 r))) (RSender c)) out rand
  end.

Context {CB : Cbor dkg_content}.

#[export] Instance dkg_ops : RoundOps dkg_round dkg_content dkg_result := {|
  r_helper := dkg_helper;
  r_Number := dkg_Number;
  r_is_broadcast := fun _ => false;
  r_MessageContent := dkg_MessageContent;
  r_BroadcastContent := fun _ => None;
  r_VerifyMessage := dkg_VerifyMessage;
  r_StoreMessage := dkg_StoreMessage;
  r_StoreBroadcastMessage := fun r _ => Ret r;
  r_Finalize := dkg_Finalize;
  c_RoundNumber := dkg_RoundNumber;
  c_Cbor := CB
|}.

End Keygen.
