(* ===== verification/DoernerKeygenProps.v ===== *)
(** * protocols/doerner/keygen: what the two parties compute

    The rounds behave as the handler expects; two honest parties end with the
    two halves of one key, and a refresh keeps the key. *)

From Stdlib Require Import ZArith Lia Zmod Field.
From Stdlib Require Import Strings.Byte.
From stdpp Require Import base gmap strings list pretty numbers.
From S2P Require Import Prelude Hash Curve Party Sample Round Message Handler HandlerSpec TwoParty Duet Schnorr Zk.
From S2P Require Import OtRandom OtCorrelated DoernerKeygen.

Local Open Scope curve_scope.

(** ** Sessions of two parties *)

Section Sessions.
Context {C : Curve} `{B3 : Blake3}.

Definition doerner_info (final : Number) (a b : ID) : Info :=
  mkInfo doerner_protocolID final a (NewIDSlice [a; b]) 1 (Some Name).

Lemma doerner_session final a b sid : a <> b -> exists h,
  NewSession (doerner_info final a b) sid [] = Ret h /\ info h = doerner_info final a b /\
  partyIDs h = NewIDSlice [a; b] /\
  hash h = New [] ++ concat (encode_item <$> session_items (doerner_info final a b) sid) /\ ssid h = Sum (hash h).
Proof.
  intros N. destruct (NewSession_ret (doerner_info final a b) sid) as (h & E & Ep & Eh); cbn [i_PartyIDs SelfID Threshold doerner_info].
  - rewrite (NewIDSlice_perm [a; b]). apply NoDup_cons_2; [|apply NoDup_singleton]. by rewrite list_elem_of_singleton.
  - rewrite (NewIDSlice_perm [a; b]). left.
  - rewrite (NewIDSlice_perm [a; b]). cbn. lia.
  - lia.
  - exists h. destruct (NewSession_ok _ _ _ _ E) as [S Ei]. split_and!; try done; [|apply (so_ssid _ S)].
    rewrite Ep. cbn [i_PartyIDs doerner_info]. apply NewIDSlice_order_irrelevant, NewIDSlice_perm.
Qed.

(** Both parties hash the same session. *)
Lemma doerner_sessions final a b sid : a <> b -> exists ha hb,
  NewSession (doerner_info final a b) sid [] = Ret ha /\ NewSession (doerner_info final b a) sid [] = Ret hb /\
  info ha = doerner_info final a b /\ info hb = doerner_info final b a /\
  hash hb = hash ha /\ ssid hb = ssid ha /\
  Contains (partyIDs ha) [b] = true /\ Contains (partyIDs hb) [a] = true.
Proof.
  intros N. destruct (doerner_session final a b sid N) as (ha & Ea & Ia & Pa & Ha & Sa).
  destruct (doerner_session final b a sid (not_eq_sym N)) as (hb & Eb & Ib & Pb & Hb & Sb).
  assert (NewIDSlice [b; a] = NewIDSlice [a; b]) as Ei by (apply NewIDSlice_order_irrelevant, perm_swap).
  assert (hash hb = hash ha) as E by (rewrite Ha, Hb; unfold session_items, doerner_info; cbn [i_PartyIDs ProtocolID GroupName Threshold]; by rewrite Ei).
  exists ha, hb. split_and!; try done; [congruence|..].
  - rewrite Pa. apply Contains_spec; [apply NewIDSlice_sorted|]. constructor; [|done]. rewrite NewIDSlice_perm. right. left.
  - rewrite Pb. apply Contains_spec; [apply NewIDSlice_sorted|]. constructor; [|done]. rewrite NewIDSlice_perm. right. left.
Qed.

End Sessions.

Lemma SendMessage_ret {Content} h (c : Content) to :
  SendMessage h (mkChan 1 []) c to = Ret (mkChan 1 [mkRoundMessage (SelfID (info h)) to false c]).
Proof. reflexivity. Qed.

Lemma NewProof_reliable {C : Curve} `{B3 : Blake3} h P x gen rand p rand' :
  reliable rand -> NewProof h P x gen rand = Ret (p, rand') -> reliable rand'.
Proof.
  unfold NewProof, NewRandomness. intros Hr. destruct (sample_Scalar_reliable _ Hr) as (a & rd & -> & Hd). cbn [mbind outcome_bind].
  intros (z & _ & E)%bind_ret_inv. apply bind_ret_inv in E as (z' & _ & E). by injection E as _ <-.
Qed.

(** ** The laws of rounds *)

Section Laws.
Context {C : Curve} `{B3 : Blake3} {BK : Blake3Keyed} {CB : Cbor dkg_content}.

(** What the Receiver commits to in its first round. *)
Lemma dkr1_Finalize_inv r rand out r2 out' rand' :
  dkr1_Finalize r rand out = Ret (r2, out', rand') ->
  let h := dr_Helper r in
  let H := session_hash h in
  exists recv ot c cc rc p d cd rcd rs ck,
    r2 = mkDkr2 (mkDkr1 h (dr_refresh r) (dr_public r) (dr_secretShare r) (dr_publicShare r) recv) p d cd rcd rs ck [] None /\
    SendMessage h out (DMessage1R c cc rc (Some ot)) "" = Ret out' /\
    (exists rd rd', NewProof H (dr_publicShare r) (dr_secretShare r) None rd = Ret (p, rd')) /\
    (exists rd rd', Commit H rd [Point_any (dr_publicShare r)] = Ret (c, d, rd')) /\
    (exists rd rd', Commit H rd [ABytes (Some ck)] = Ret (cc, cd, rd')) /\
    (exists rd rd', Commit H rd [Scalar_any rs] = Ret (rc, rcd, rd')) /\
    (exists rd rd', CorreOTSetupReceiver_Round1 (dr_receiver r) rd = Ret (ot, recv, rd')) /\ length ck = SecBytes.
Proof.
  unfold dkr1_Finalize. intros ([p rd1] & E1 & E)%bind_ret_inv. apply bind_ret_inv in E as ([[c d] rd2] & E2 & E).
  pose proof (length_read_dropped rd2 SecBytes) as Hl. destruct (read_dropped rd2 SecBytes) as [ck rd3].
  apply bind_ret_inv in E as ([[cc cd] rd4] & E3 & E). apply bind_ret_inv in E as ([rs rd5] & E4 & E).
  apply bind_ret_inv in E as ([[rc rcd] rd6] & E5 & E). apply bind_ret_inv in E as ([[ot recv] rd7] & E6 & E).
  apply bind_ret_inv in E as (o & E7 & [= <- <- <-]). exists recv, ot, c, cc, rc, p, d, cd, rcd, rs, ck.
  split_and!; try done; by eexists _, _.
Qed.

Lemma dks1_Finalize_inv r rand out r2 out' rand' :
  dks1_Finalize r rand out = Ret (r2, out', rand') -> ds_round1 r2 = r.
Proof.
  unfold dks1_Finalize. intros ([p rd1] & _ & E)%bind_ret_inv. destruct (read_dropped rd1 SecBytes) as [ck rd2].
  apply bind_ret_inv in E as ([rs rd3] & _ & E). by apply bind_ret_inv in E as (o & _ & [= <- _ _]).
Qed.

Lemma dkr2_StoreMessage_helper r m r' :
  dkr2_StoreMessage r m = Ret r' -> dr_Helper (dr_round1 r') = dr_Helper (dr_round1 r).
Proof.
  unfold dkr2_StoreMessage. destruct (rm_Content m); try done. intros (? & _ & E)%bind_ret_inv.
  apply bind_ret_inv in E as ([? ?] & _ & E). apply bind_ret_inv in E as (? & _ & E). by apply bind_ret_inv in E as (? & _ & [= <-]).
Qed.

Lemma dks2_StoreMessage_helper r m r' :
  dks2_StoreMessage r m = Ret r' -> ds_Helper (ds_round1 r') = ds_Helper (ds_round1 r).
Proof.
  unfold dks2_StoreMessage. destruct (rm_Content m); try done. intros (? & _ & E)%bind_ret_inv.
  apply bind_ret_inv in E as (? & _ & E). destruct (CorreOTSetupSender_Round2 _ _).
  by apply bind_ret_inv in E as (? & _ & [= <-]).
Qed.

Lemma dkg_StoreMessage_same r m r' : dkg_StoreMessage r m = Ret r' -> same_round (RO := dkg_ops) r r'.
Proof.
  assert (forall a b : dkg_round, dkg_helper b = dkg_helper a -> dkg_Number b = dkg_Number a ->
    (expects (RO := dkg_ops) b <-> expects (RO := dkg_ops) a) -> same_round (RO := dkg_ops) a b) as S by (intros; by split_and!).
  destruct r as [r|r|r|r|r|r]; cbn [dkg_StoreMessage]; [intros [= <-]; apply same_round_refl|..];
    intros (x & E & [= <-])%bind_ret_inv; apply S; try done; cbn.
  - by eapply dkr2_StoreMessage_helper.
  - unfold dkr3_StoreMessage in E. destruct (rm_Content m); try done. apply bind_ret_inv in E as (? & _ & E).
    by apply bind_ret_inv in E as ([? ?] & _ & [= <-]).
  - unfold dks1_StoreMessage in E. destruct (rm_Content m); try done. apply bind_ret_inv in E as (? & _ & E).
    by apply bind_ret_inv in E as ([? ?] & _ & [= <-]).
  - by eapply dks2_StoreMessage_helper.
  - unfold dks3_StoreMessage in E. destruct (rm_Content m); try done. apply bind_ret_inv in E as (? & _ & E).
    by apply bind_ret_inv in E as (? & _ & [= <-]).
Qed.

Lemma finish_inv {A} (m : outcome (A * chan (round_Message dkg_content) * reader)) f out rand s out' rand' :
  finish m f out rand = (Ret s, out', rand') -> exists a, m = Ret (a, out', rand') /\ s = f a.
Proof. unfold finish. destruct m as [[[a o] rd]| |]; [|done..]. intros [= <- <- <-]. by exists a. Qed.

(** A round goes on to the next one of the same role, and the third outputs. *)
Lemma dkg_Finalize_inv r rand out s out' rand' :
  dkg_Finalize r rand out = (Ret s, out', rand') ->
  (exists r', s = Running r' /\ dkg_Number r' = (dkg_Number r + 1)%Z /\ dkg_helper r' = dkg_helper r) \/
  (exists c, s = Output (dkg_helper r) c).
Proof.
  destruct r as [r|r|r|r|r|r]; cbn [dkg_Finalize]; intros (x & E & ->)%finish_inv.
  - left. eexists. split; [done|]. split; [done|]. cbn. apply dkr1_Finalize_inv in E as (? & ? & ? & ? & ? & ? & ? & ? & ? & ? & ? & -> & _). done.
  - left. eexists. split; [done|]. split; [done|]. apply bind_ret_inv in E as ([y o] & E & [= -> _ _]).
    unfold dkr2_Finalize in E. by apply bind_ret_inv in E as (? & _ & [= <- _]).
  - right. by eexists.
  - left. eexists. split; [done|]. split; [done|]. cbn. by apply dks1_Finalize_inv in E as ->.
  - left. eexists. split; [done|]. split; [done|]. apply bind_ret_inv in E as ([y o] & E & [= -> _ _]).
    unfold dks2_Finalize in E. by apply bind_ret_inv in E as (? & _ & [= <- _]).
  - right. by eexists.
Qed.

#[export] Instance dkg_laws : RoundLaws (RO := dkg_ops).
Proof.
  constructor; cbn.
  - intros []; cbn; lia.
  - apply dkg_StoreMessage_same.
  - intros r m r' [= <-]. apply same_round_refl.
  - intros r rand out r' out' rand' [(x & [= ->] & -> & ->)|(x & [=])]%dkg_Finalize_inv. done.
  - intros r rand out h res out' rand' [(x & [=] & _)|(x & [= -> _])]%dkg_Finalize_inv. done.
  - intros r rand out h e c out' rand' [(x & [=] & _)|(x & [=])]%dkg_Finalize_inv.
Qed.

End Laws.

(** ** Two honest parties *)

Section Honest.
Context {C : Curve} {CL : CurveLaws C} {X : XOnly C} {XL : XOnlyLaws C X} {CC : CompressedLaws C X}.
Context `{B3 : Blake3} {BK : Blake3Keyed} {CB : Cbor dkg_content}.
Add Field scalar_field : scalar_field_theory.

Abbreviation msg_of f c := (mkRoundMessage f "" false c).

(** The rounds after the message they expect. *)
Definition ds1_stored (s : dks1) (c cc rc : bytes) (out : list bytes) (sender : CorreOTSetupSender) : dks1 :=
  mkDks1 (ds_Helper s) (ds_refresh s) (ds_public s) (ds_secretShare s) (ds_publicShare s) sender
    c cc rc (Some out) (ds_rand s) (ds_tasks s).

Lemma takes_s1 s f c cc rc ot out sender p rand rd ck rd1 rs rd2 :
  Commitment_Validate c = Ret tt -> Commitment_Validate cc = Ret tt -> Commitment_Validate rc = Ret tt ->
  FinalRoundNumber (info (ds_Helper s)) = 3%Z ->
  CorreOTSetupSender_Round1 (ds_sender s) ot (ds_rand s) (ds_tasks s) = Ret (out, sender) ->
  NewProof (session_hash (ds_Helper s)) (ds_publicShare s) (ds_secretShare s) None rand = Ret (p, rd) ->
  read_dropped rd SecBytes = (ck, rd1) -> sample_Scalar rd1 = Ret (rs, rd2) ->
  takes (RO := dkg_ops) (DS1 s) (msg_of f (DMessage1R c cc rc (Some ot))) rand
    (Running (DS2 (mkDks2 (ds1_stored s c cc rc out sender) ck rs None)))
    [msg_of (SelfID (info (ds_Helper s))) (DMessage1S (Some (ds_publicShare s)) ck (Some rs) (Some p) (Some out))] rd2.
Proof.
  intros V1 V2 V3 F E EP Er Es. eapply (takes_intro (RO := dkg_ops)) with (r1 := DS1 (ds1_stored s c cc rc out sender)).
  - by eexists.
  - unfold r_Final. cbn. rewrite F. done.
  - reflexivity.
  - cbn. unfold dks1_VerifyMessage. cbn [rm_Content]. rewrite V1, V2, V3. reflexivity.
  - cbn [r_StoreMessage dkg_ops dkg_StoreMessage]. unfold dks1_StoreMessage. cbn [rm_Content deref mbind outcome_bind]. rewrite E. reflexivity.
  - cbn [r_Finalize dkg_ops dkg_Finalize]. unfold dks1_Finalize. cbn [ds1_stored ds_Helper ds_publicShare ds_secretShare ds_otMsg1].
    rewrite EP. cbn [mbind outcome_bind]. rewrite Er, Es. reflexivity.
  - reflexivity.
Qed.

(** The public key after the shares are known. *)
Definition public_after (refresh : bool) (public : option Point) (own other : Point) : option Point :=
  if refresh then public else Some (own ⊕ other).

Definition dr2_stored (r : dkr2) (P : Point) (ck : bytes) (rs : Scalar) (out : list bytes) (recv : CorreOTSetupReceiver) : dkr2 :=
  let r1 := dr_round1 r in
  mkDkr2 (mkDkr1 (dr_Helper r1) (dr_refresh r1) (public_after (dr_refresh r1) (dr_public r1) (dr_publicShare r1) P)
            (Sub (dr_secretShare r1 + dr_refreshScalar r) rs) (dr_publicShare r1) recv)
    (dr_proof r) (dr_decommit r) (dr_chainKeyDecommit r) (dr_refreshDecommit r) (dr_refreshScalar r)
    (dr_ourChainKey r) (xor_into ck (dr_ourChainKey r)) (Some out).

Lemma takes_r2 r f P ck rs p ot out recv rand :
  Proof_Verify (Some p) (session_hash (dr_Helper (dr_round1 r))) P None = Ret true -> length ck = SecBytes ->
  FinalRoundNumber (info (dr_Helper (dr_round1 r))) = 3%Z ->
  CorreOTSetupReceiver_Round2 (dr_receiver (dr_round1 r)) ot = Ret (out, recv) ->
  takes (RO := dkg_ops) (DR2 r) (msg_of f (DMessage1S (Some P) ck (Some rs) (Some p) (Some ot))) rand
    (Running (DR3 (mkDkr3 (dr2_stored r P ck rs out recv) None None)))
    [msg_of (SelfID (info (dr_Helper (dr_round1 r))))
       (DMessage2R (dr_decommit r) (dr_chainKeyDecommit r) (dr_refreshDecommit r) (dr_ourChainKey r)
          (Some (dr_publicShare (dr_round1 r))) (Some (dr_refreshScalar r)) (Some (dr_proof r)) (Some out))] rand.
Proof.
  intros V Hl F E. eapply (takes_intro (RO := dkg_ops)) with (r1 := DR2 (dr2_stored r P ck rs out recv)).
  - by eexists.
  - unfold r_Final. cbn. rewrite F. done.
  - reflexivity.
  - cbn. unfold dkr2_VerifyMessage. cbn [rm_Content]. rewrite V. cbn [mbind outcome_bind guard_or].
    by rewrite bool_decide_true.
  - cbn [r_StoreMessage dkg_ops dkg_StoreMessage]. unfold dkr2_StoreMessage. cbn [rm_Content deref mbind outcome_bind]. rewrite E.
    unfold dr2_stored. cbn [mbind outcome_bind]. by destruct (dr_refresh (dr_round1 r)).
  - reflexivity.
  - reflexivity.
Qed.

Definition ds2_stored (s : dks2) (P : Point) (ck : bytes) (rs : Scalar) (out : list bytes) (sender : CorreOTSetupSender) : dks2 :=
  let s1 := ds_round1 s in
  mkDks2 (mkDks1 (ds_Helper s1) (ds_refresh s1) (public_after (ds_refresh s1) (ds_public s1) (ds_publicShare s1) P)
            (Sub (ds_secretShare s1 + ds_refreshScalar s) rs) (ds_publicShare s1) sender
            (ds_receiverCommit s1) (ds_chainKeyCommit s1) (ds_refreshCommit s1) (ds_otMsg1 s1) (ds_rand s1) (ds_tasks s1))
    (xor_into (ds_chainKey s) ck) (ds_refreshScalar s) (Some out).

Lemma takes_s2 s f d cd rcd ck P rs p ot out sender rand :
  let s1 := ds_round1 s in
  let H := session_hash (ds_Helper s1) in
  Decommitment_Validate d = Ret tt -> Decommit H (ds_receiverCommit s1) d [Point_any P] = true -> length ck = SecBytes ->
  Decommit H (ds_chainKeyCommit s1) cd [ABytes (Some ck)] = true -> Decommit H (ds_refreshCommit s1) rcd [Scalar_any rs] = true ->
  Proof_Verify (Some p) H P None = Ret true -> FinalRoundNumber (info (ds_Helper s1)) = 3%Z ->
  CorreOTSetupSender_Round2 (ds_sender s1) ot = (out, sender) ->
  takes (RO := dkg_ops) (DS2 s) (msg_of f (DMessage2R d cd rcd ck (Some P) (Some rs) (Some p) (Some ot))) rand
    (Running (DS3 (mkDks3 (ds2_stored s P ck rs out sender) None)))
    [msg_of (SelfID (info (ds_Helper s1))) (DMessage2S (Some out))] rand.
Proof.
  intros s1 H Vd D1 Hl D2 D3 V F E. eapply (takes_intro (RO := dkg_ops)) with (r1 := DS2 (ds2_stored s P ck rs out sender)).
  - by eexists.
  - unfold r_Final. cbn. fold s1. rewrite F. done.
  - reflexivity.
  - cbn [r_VerifyMessage dkg_ops dkg_VerifyMessage]. unfold dks2_VerifyMessage. fold s1 H. cbn [rm_Content scalar_arg].
    rewrite Vd, D1, D2, D3, V, bool_decide_true by done. reflexivity.
  - cbn [r_StoreMessage dkg_ops dkg_StoreMessage]. unfold dks2_StoreMessage. fold s1. cbn [rm_Content deref mbind outcome_bind].
    unfold ds2_stored. fold s1. destruct (ds_refresh s1); cbn [negb mbind outcome_bind deref]; by rewrite E.
  - reflexivity.
  - reflexivity.
Qed.

Lemma takes_r3 r f ot out setup rand :
  let r1 := dr_round1 (dr_round2 r) in
  FinalRoundNumber (info (dr_Helper r1)) = 3%Z -> CorreOTSetupReceiver_Round3 (dr_receiver r1) ot = Ret (out, setup) ->
  takes (RO := dkg_ops) (DR3 r) (msg_of f (DMessage2S (Some ot))) rand
    (Output (dr_Helper r1) (RReceiver (mkConfigReceiver setup (dr_secretShare r1) (dr_public r1) (dr_chainKey (dr_round2 r)))))
    [msg_of (SelfID (info (dr_Helper r1))) (DMessage3R (Some out))] rand.
Proof.
  intros r1 F E. eapply (takes_intro (RO := dkg_ops)) with (r1 := DR3 (mkDkr3 (dr_round2 r) (Some setup) (Some out))).
  - by eexists.
  - unfold r_Final. cbn. fold r1. rewrite F. done.
  - reflexivity.
  - reflexivity.
  - cbn [r_StoreMessage dkg_ops dkg_StoreMessage]. unfold dkr3_StoreMessage. cbn [rm_Content deref mbind outcome_bind]. fold r1. by rewrite E.
  - reflexivity.
  - reflexivity.
Qed.

Lemma takes_s3 s f ot setup rand :
  let s1 := ds_round1 (ds_round2 s) in
  FinalRoundNumber (info (ds_Helper s1)) = 3%Z -> CorreOTSetupSender_Round3 (ds_sender s1) ot = Ret setup ->
  takes (RO := dkg_ops) (DS3 s) (msg_of f (DMessage3R (Some ot))) rand
    (Output (ds_Helper s1) (RSender (mkConfigSender setup (ds_secretShare s1) (ds_public s1) (ds_chainKey (ds_round2 s))))) [] rand.
Proof.
  intros s1 F E. eapply (takes_intro (RO := dkg_ops)) with (r1 := DS3 (mkDks3 (ds_round2 s) (Some setup))).
  - by eexists.
  - unfold r_Final. cbn. fold s1. rewrite F. done.
  - reflexivity.
  - reflexivity.
  - cbn [r_StoreMessage dkg_ops dkg_StoreMessage]. unfold dks3_StoreMessage. cbn [rm_Content deref mbind outcome_bind]. fold s1. by rewrite E.
  - reflexivity.
  - reflexivity.
Qed.

(** What the parties draw: none of it is degenerate.  [c], [cc], [rc] and
    [ot] are the contents of the Receiver's first message, [r2] is its next
    round. *)
Record keygen_draws (r1 : dkr1) (s1 : dks1) (randR randS : reader) (r2 : dkr2) (c cc rc : bytes)
    (ot : RandomOTSetupSendMessage) (randR' : reader) : Prop := {
  kd_receiver : dkr1_Finalize r1 randR (mkChan 1 []) =
    Ret (r2, mkChan 1 [msg_of (SelfID (info (dr_Helper r1))) (DMessage1R c cc rc (Some ot))], randR');
  kd_commits : Commitment_Validate c = Ret tt /\ Commitment_Validate cc = Ret tt /\ Commitment_Validate rc = Ret tt;
  kd_decommits : Decommitment_Validate (dr_decommit r2) = Ret tt /\ Decommitment_Validate (dr_chainKeyDecommit r2) = Ret tt /\
    Decommitment_Validate (dr_refreshDecommit r2) = Ret tt;
  kd_proofs : Proof_IsValid (Some (dr_proof r2)) = true /\ Proof_IsValid (sm_BProof ot) = true;
  kd_sender : exists p rd,
    NewProof (session_hash (ds_Helper s1)) (ds_publicShare s1) (ds_secretShare s1) None randS = Ret (p, rd) /\
    Proof_IsValid (Some p) = true;
  kd_tasks i : (i < OTParam)%nat -> exists a rd, sample_Scalar (ds_tasks s1 i) = Ret (a, rd) /\
    (if bit i (read_dropped (ds_rand s1) OTBytes).1 then a • 𝐆 ⊕ sm_B ot else a • 𝐆) <> 𝟎;
  kd_reliable : reliable randS
}.

(** The first rounds of the two parties of one session, with the shares [x]
    and [y]; a refresh keeps the public key. *)
Record keygen_start (r1 : dkr1) (s1 : dks1) (x y : Scalar) : Prop := {
  ks_hash : hash (ds_Helper s1) = hash (dr_Helper r1);
  ks_finalR : FinalRoundNumber (info (dr_Helper r1)) = 3%Z;
  ks_finalS : FinalRoundNumber (info (ds_Helper s1)) = 3%Z;
  ks_x : dr_secretShare r1 = x /\ dr_publicShare r1 = x • 𝐆;
  ks_y : ds_secretShare s1 = y /\ ds_publicShare s1 = y • 𝐆;
  ks_receiver : dr_receiver r1 = NewCorreOTSetupReceiver (session_hash (dr_Helper r1));
  ks_sender : ds_sender s1 = NewCorreOTSetupSender (session_hash (ds_Helper s1));
  ks_refresh : ds_refresh s1 = dr_refresh r1;
  ks_public : dr_refresh r1 = true -> dr_public r1 = Some ((x + y) • 𝐆) /\ ds_public s1 = Some ((x + y) • 𝐆)
}.

(** The sums after both refresh scalars: the same key. *)
Lemma refreshed_sum (x y rR rS : Scalar) : Sub (x + rR) rS + Sub (y + rS) rR = x + y.
Proof. unfold Sub. ring. Qed.

Lemma public_after_key refresh public own other (x y : Scalar) :
  (refresh = true -> public = Some ((x + y) • 𝐆)) -> own ⊕ other = (x + y) • 𝐆 ->
  public_after refresh public own other = Some ((x + y) • 𝐆).
Proof. unfold public_after. destruct refresh; [auto|]. by intros _ ->. Qed.

(** Five messages, each accepted by the round that gets it. *)
Lemma keygen_turns r1 s1 x y recv q d cd rcd rs ck c cc rc ot randS randR' p rd ckS rd1 rsS rd2
    m2 t1 m3 u2 m4 t2 m5 setupR setupS :
  keygen_start r1 s1 x y ->
  let H := session_hash (ds_Helper s1) in
  Commitment_Validate c = Ret tt -> Commitment_Validate cc = Ret tt -> Commitment_Validate rc = Ret tt ->
  CorreOTSetupSender_Round1 (ds_sender s1) ot (ds_rand s1) (ds_tasks s1) = Ret (m2, t1) ->
  CorreOTSetupReceiver_Round2 recv m2 = Ret (m3, u2) -> CorreOTSetupSender_Round2 t1 m3 = (m4, t2) ->
  CorreOTSetupReceiver_Round3 u2 m4 = Ret (m5, setupR) -> CorreOTSetupSender_Round3 t2 m5 = Ret setupS ->
  corre_ok setupS setupR ->
  NewProof H (ds_publicShare s1) (ds_secretShare s1) None randS = Ret (p, rd) ->
  read_dropped rd SecBytes = (ckS, rd1) -> sample_Scalar rd1 = Ret (rsS, rd2) ->
  Proof_Verify (Some p) (session_hash (dr_Helper r1)) (ds_publicShare s1) None = Ret true ->
  Proof_Verify (Some q) H (dr_publicShare r1) None = Ret true ->
  length ck = SecBytes -> length ckS = SecBytes -> Decommitment_Validate d = Ret tt ->
  Decommit H c d [Point_any (dr_publicShare r1)] = true -> Decommit H cc cd [ABytes (Some ck)] = true ->
  Decommit H rc rcd [Scalar_any rs] = true ->
  let r2 := mkDkr2 (mkDkr1 (dr_Helper r1) (dr_refresh r1) (dr_public r1) (dr_secretShare r1) (dr_publicShare r1) recv)
              q d cd rcd rs ck [] None in
  exists cR cS, doerner_pair cR cS (x + y) /\
    duet (RO := dkg_ops) (DS1 s1) (DR2 r2) randS randR'
      (msg_of (SelfID (info (dr_Helper r1))) (DMessage1R c cc rc (Some ot))) (RSender cS) (RReceiver cR).
Proof.
  intros [Eh FR FS [Ex EX] [Ey EY] _ _ Ef Hp] H V1 V2 V3 O1 O2 O3 O4 O5 OK EP Erd Ers VpS VpR Hck HckS Vd D1 D2 D3 r2.
  eexists _, _. split; [|eapply duet_turn; [eapply takes_s1; eassumption|by split|by eexists|];
    eapply duet_turn; [eapply takes_r2; eassumption|by split|by eexists|];
    eapply duet_turn; [eapply takes_s2; eassumption|by split|by eexists|];
    eapply duet_last; [eapply takes_r3; eassumption|by split|eapply takes_s3; eassumption]].
  constructor; cbn.
  - exact OK.
  - rewrite Ex, Ey. apply refreshed_sum.
  - apply public_after_key; [apply Hp|]. by rewrite EX, EY, <- act_add.
  - apply public_after_key; [rewrite Ef; apply Hp|]. rewrite EX, EY, <- act_add. f_equal. ring.
  - reflexivity.
Qed.

Lemma keygen_duet r1 s1 x y randR randS r2 c cc rc ot randR' :
  keygen_start r1 s1 x y -> keygen_draws r1 s1 randR randS r2 c cc rc ot randR' ->
  exists cR cS, doerner_pair cR cS (x + y) /\
    duet (RO := dkg_ops) (DS1 s1) (DR2 r2) randS randR'
      (msg_of (SelfID (info (dr_Helper r1))) (DMessage1R c cc rc (Some ot))) (RSender cS) (RReceiver cR).
Proof.
  intros KS [E1 (V1 & V2 & V3) (W1 & W2 & W3) [VP VB] (p & rd & EP & Vp) HT Hr].
  pose proof KS as [Eh _ _ [Ex EX] [Ey EY] ER ES _ _]. apply dkr1_Finalize_inv in E1 as (recv & ot' & c' & cc' & rc' & q & d & cd & rcd & rs & ck & -> & Es & (? & ? & Eq)
    & (? & ? & C1) & (? & ? & C2) & (? & ? & C3) & (? & ? & EO) & Hck).
  rewrite SendMessage_ret in Es. injection Es as -> -> -> ->. cbn [dr_decommit dr_chainKeyDecommit dr_refreshDecommit dr_proof] in *.
  pose proof EO as EO'. rewrite ER in EO'. pose proof (SetupReceiver_Round1_inv _ _ _ _ _ EO') as (b & pb & Eot & _ & _).
  assert (session_hash (ds_Helper s1) = session_hash (dr_Helper r1)) as Ehs by (unfold session_hash; by rewrite Eh).
  destruct (corre_setup_run _ _ ot recv _ b (ds_rand s1) (ds_tasks s1) EO' VB) as (m2 & t1 & m3 & u2 & m4 & t2 & m5 & setupR & setupS
    & O1 & O2 & O3 & O4 & O5 & OK & _); [by rewrite Eot|..].
  { intros i Hi. destruct (HT i Hi) as (a & rda & Ea & N). exists a, rda. split; [done|]. unfold ot_point. by rewrite Eot in N. }
  rewrite <- Ehs, <- ES in O1. pose proof (NewProof_reliable _ _ _ _ _ _ _ Hr EP) as Hrd.
  destruct (read_dropped rd SecBytes) as [ckS rd1] eqn:Erd.
  assert (length ckS = SecBytes) as HckS by (pose proof (length_read_dropped rd SecBytes) as Hl; by rewrite Erd in Hl).
  assert (reliable rd1) as Hr1 by (pose proof (read_dropped_reliable rd SecBytes Hrd) as Hl; by rewrite Erd in Hl).
  destruct (sample_Scalar_reliable rd1 Hr1) as (rsS & rd2 & Ers & _).
  assert (Proof_Verify (Some p) (session_hash (dr_Helper r1)) (ds_publicShare s1) None = Ret true) as VpS.
  { rewrite <- Ehs. eapply sch_complete; [|exact EP|exact Vp]. by rewrite EY, Ey. }
  assert (Proof_Verify (Some q) (session_hash (ds_Helper s1)) (dr_publicShare r1) None = Ret true) as VpR.
  { rewrite Ehs. eapply sch_complete; [|exact Eq|exact VP]. by rewrite EX, Ex. }
  pose proof (Commit_Decommit _ _ _ _ _ _ C1 V1 W1) as D1. pose proof (Commit_Decommit _ _ _ _ _ _ C2 V2 W2) as D2.
  pose proof (Commit_Decommit _ _ _ _ _ _ C3 V3 W3) as D3. rewrite <- Ehs in D1, D2, D3.
  eapply keygen_turns; eassumption.
Qed.

End Honest.
