(* ===== verification/DoernerSign.v ===== *)
(** * protocols/doerner/sign: two-party ECDSA signing

    The two rounds of the Receiver and of the Sender; every handler of
    [sign/round*.go] is one definition.  The three multiplications run on
    copies of the session hash: [Fork] drops a tag without bytes. *)

From Stdlib Require Import ZArith Lia Zmod Field.
From Stdlib Require Import Strings.Byte.
From stdpp Require Import base gmap strings list pretty numbers.
From S2P Require Import Prelude Hash Curve Party Sample Round Message Handler Schnorr Ecdsa.
From S2P Require Import OtRandom OtCorrelated OtExtended OtMultiply DoernerKeygen.

Local Open Scope curve_scope.

Section Sign.
Context {C : Curve} `{B3 : Blake3} {BK : Blake3Keyed}.

(** ** Rounds and messages *)

(** [gr_Public] is the public key of the configuration, which
    [config.Group()] found not to be nil. *)
Record dgr1 := mkDgr1 { gr_Helper : Helper; gr_hash : bytes; gr_config : ConfigReceiver; gr_Public : Point }.

Record dgs1 := mkDgs1 {
  gs_Helper : Helper;
  gs_config : ConfigSender;
  gs_Public : Point;
  gs_hash : bytes;
  gs_D : option Point;
  gs_mulMsg0 : option (option (option ExtendedOTReceiveMessage));
  gs_mulMsg1 : option (option (option ExtendedOTReceiveMessage));
  gs_mulMsg2 : option (option (option ExtendedOTReceiveMessage))
}.

Record dsg_message1S := mkMessage1S {
  m1_RPrime : option Point;
  m1_RProof : option Proof;
  m1_MulMsg0 : option MultiplySendRound1Message;
  m1_MulMsg1 : option MultiplySendRound1Message;
  m1_MulMsg2 : option MultiplySendRound1Message;
  m1_MuPhi : option Scalar;
  m1_MuSig : option Scalar
}.

(** The fields that [StoreMessage] fills are those of the message. *)
Record dgr2 := mkDgr2 {
  gr_round1 : dgr1;
  gr_kBInv : Scalar;
  gr_D : Point;
  gr_multiply0 : MultiplyReceiver;
  gr_multiply1 : MultiplyReceiver;
  gr_multiply2 : MultiplyReceiver;
  gr_body : option dsg_message1S
}.

Record dgs2 := mkDgs2 { gs_round1 : dgs1; gs_Sig : Signature }.

Inductive dsg_round :=
| GR1 (r : dgr1)
| GR2 (r : dgr2)
| GS1 (r : dgs1)
| GS2 (r : dgs2).

Inductive dsg_content :=
| GMessage1R (D : option Point) (MulMsg0 MulMsg1 MulMsg2 : option (option (option ExtendedOTReceiveMessage)))
| GMessage1S (body : dsg_message1S)
| GMessage2R (Sig : Signature).

Definition dsg_RoundNumber (c : dsg_content) : Number :=
  match c with GMessage1R _ _ _ _ => 1 | GMessage1S _ => 2 | GMessage2R _ => 2 end%Z.

Abbreviation dsg_message := (round_Message dsg_content).
Abbreviation dsg_session := (Session dsg_round Signature).

(** [sample.Scalar(H.Digest(), group)] after [H.WriteAny(P)], on a copy of
    the session hash. *)
Definition hash_point (h : Helper) (P : Point) : outcome Scalar :=
  '(s, _) ← sample_Scalar (Digest (WriteAny_ (session_hash h) [Point_any P])); Ret s.

Definition fork_tag (h : Helper) (tag : string) : Hash := Fork (session_hash h) [BytesWithDomain tag None].

(** ** Round 1 *)

Definition dgr1_Finalize (r : dgr1) (rand : reader) (out : chan dsg_message) :
    outcome (dgr2 * chan dsg_message * reader) :=
  let h := gr_Helper r in
  let setup := dr_Setup (gr_config r) in
  '(kB, rand) ← sample_Scalar rand;
  let D := ActOnBase kB in
  let kB := Invert kB in
  '(multiply0, rand) ← NewMultiplyReceiver (fork_tag h "Multiply0") setup kB rand;
  '(multiply1, rand) ← NewMultiplyReceiver (fork_tag h "Multiply1") setup kB rand;
  let beta := dr_SecretShare (gr_config r) * kB in
  '(multiply2, rand) ← NewMultiplyReceiver (fork_tag h "Multiply1") setup beta rand;
  '(msg0, multiply0, rand) ← MultiplyReceiver_Round1 multiply0 rand;
  '(msg1, multiply1, rand) ← MultiplyReceiver_Round1 multiply1 rand;
  '(msg2, multiply2, rand) ← MultiplyReceiver_Round1 multiply2 rand;
  out ← SendMessage h out (GMessage1R (Some D) (Some msg0) (Some msg1) (Some msg2)) "";
  Ret (mkDgr2 r kB D multiply0 multiply1 multiply2 None, out, rand).

Definition dgs1_VerifyMessage (r : dgs1) (msg : dsg_message) : outcome unit :=
  match rm_Content msg with
  | GMessage1R D mulMsg0 mulMsg1 mulMsg2 =>
      match D, mulMsg0, mulMsg1, mulMsg2 with
      | Some D, Some _, Some _, Some _ => guard_or (negb (IsIdentity D)) "invalid D point"
      | _, _, _, _ => Fail ErrNilFields
      end
  | _ => Fail ErrInvalidContent
  end.

Definition dgs1_StoreMessage (r : dgs1) (msg : dsg_message) : outcome dgs1 :=
  match rm_Content msg with
  | GMessage1R D mulMsg0 mulMsg1 mulMsg2 =>
      Ret (mkDgs1 (gs_Helper r) (gs_config r) (gs_Public r) (gs_hash r) D mulMsg0 mulMsg1 mulMsg2)
  | _ => Panic cast_panic
  end.

Definition dgs1_Finalize (r : dgs1) (rand : reader) (out : chan dsg_message) :
    outcome (dgs2 * chan dsg_message * reader) :=
  let h := gs_Helper r in
  let setup := ds_Setup (gs_config r) in
  '(kAPrime, rand) ← sample_Scalar rand;
  D ← deref (gs_D r);
  let RPrime := kAPrime • D in
  hR ← hash_point h RPrime;
  let kA := hR + kAPrime in
  let R := kA • D in
  '(RProof, rand) ← NewProof (session_hash h) R kA (Some D) rand;
  '(phi, rand) ← sample_Scalar rand;
  let kAInv := Invert kA in
  let alpha1 := ds_SecretShare (gs_config r) * kAInv in
  let alpha2 := kAInv in
  let alpha0 := kAInv + phi in
  '(multiply0, rand) ← NewMultiplySender (fork_tag h "Multiply0") setup alpha0 rand;
  '(multiply1, rand) ← NewMultiplySender (fork_tag h "Multiply1") setup alpha1 rand;
  '(multiply2, rand) ← NewMultiplySender (fork_tag h "Multiply1") setup alpha2 rand;
  mul0 ← deref (gs_mulMsg0 r);
  '(msg0, tA1) ← MultiplySender_Round1 multiply0 mul0;
  mul1 ← deref (gs_mulMsg1 r);
  '(msg1, tA21) ← MultiplySender_Round1 multiply1 mul1;
  mul2 ← deref (gs_mulMsg2 r);
  '(msg2, tA22) ← MultiplySender_Round1 multiply2 mul2;
  let tA2 := tA21 + tA22 in
  let m := FromHash (gs_hash r) in
  let Gamma1 := PSub (𝐆 ⊕ phi • ActOnBase kA) (tA1 • R) in
  HGamma1 ← hash_point h Gamma1;
  let muPhi := HGamma1 + phi in
  let sigA := m * tA1 + XScalar R * tA2 in
  let Gamma2 := PSub (tA1 • gs_Public r) (ActOnBase tA2) in
  HGamma2 ← hash_point h Gamma2;
  let muSig := HGamma2 + sigA in
  out ← SendMessage h out
          (GMessage1S (mkMessage1S (Some RPrime) (Some RProof) (Some msg0) (Some msg1) (Some msg2) (Some muPhi) (Some muSig))) "";
  Ret (mkDgs2 r EmptySignature, out, rand).

(** ** Round 2 *)

Definition dgr2_VerifyMessage (r : dgr2) (msg : dsg_message) : outcome unit :=
  match rm_Content msg with
  | GMessage1S b =>
      guard_or (is_some (m1_RPrime b) && is_some (m1_RProof b) && is_some (m1_MulMsg0 b) && is_some (m1_MulMsg1 b)
                && is_some (m1_MulMsg2 b) && is_some (m1_MuPhi b) && is_some (m1_MuSig b)) ErrNilFields
  | _ => Fail ErrInvalidContent
  end.

Definition dgr2_StoreMessage (r : dgr2) (msg : dsg_message) : outcome dgr2 :=
  match rm_Content msg with
  | GMessage1S b => Ret (mkDgr2 (gr_round1 r) (gr_kBInv r) (gr_D r) (gr_multiply0 r) (gr_multiply1 r) (gr_multiply2 r) (Some b))
  | _ => Panic cast_panic
  end.

Definition dgr2_Finalize (r : dgr2) (out : chan dsg_message) : outcome (Signature * chan dsg_message) :=
  let r1 := gr_round1 r in
  let h := gr_Helper r1 in
  body ← deref (gr_body r);
  RPrime ← deref (m1_RPrime body);
  hR ← hash_point h RPrime;
  let R := hR • gr_D r ⊕ RPrime in
  ok ← Proof_Verify (m1_RProof body) (session_hash h) R (Some (gr_D r));
  _ ← guard_or ok "failed to verify schnorr proof";
  mul0 ← deref (m1_MulMsg0 body);
  tB1 ← MultiplyReceiver_Round2 (gr_multiply0 r) mul0;
  mul1 ← deref (m1_MulMsg1 body);
  tB21 ← MultiplyReceiver_Round2 (gr_multiply1 r) mul1;
  mul2 ← deref (m1_MulMsg2 body);
  tB22 ← MultiplyReceiver_Round2 (gr_multiply2 r) mul2;
  let tB2 := tB21 + tB22 in
  let m := FromHash (gr_hash r1) in
  let Gamma1 := tB1 • R in
  HGamma1 ← hash_point h Gamma1;
  MuPhi ← deref (m1_MuPhi body);
  let phi := - HGamma1 + MuPhi in
  let theta := - (phi * gr_kBInv r) + tB1 in
  let sigB := m * theta + XScalar R * tB2 in
  let Gamma2 := PSub (ActOnBase tB2) (theta • gr_Public r1) in
  HGamma2 ← hash_point h Gamma2;
  MuSig ← deref (m1_MuSig body);
  let sigAB := Sub (sigB + MuSig) HGamma2 in
  let sig := mkSignature R sigAB in
  _ ← guard_or (Verify sig (gr_Public r1) (gr_hash r1)) "failed to verify signature";
  out ← SendMessage h out (GMessage2R sig) "";
  Ret (sig, out).

Definition dgs2_VerifyMessage (r : dgs2) (msg : dsg_message) : outcome unit :=
  match rm_Content msg with
  | GMessage2R sig => guard_or (Verify sig (gs_Public (gs_round1 r)) (gs_hash (gs_round1 r))) "failed to verify signature"
  | _ => Fail ErrInvalidContent
  end.

Definition dgs2_StoreMessage (r : dgs2) (msg : dsg_message) : outcome dgs2 :=
  match rm_Content msg with
  | GMessage2R sig => Ret (mkDgs2 (gs_round1 r) sig)
  | _ => Panic cast_panic
  end.

(** ** Starting the protocol *)

Definition doerner_sign_helper (selfID otherID : ID) (sessionID : option bytes) : outcome Helper :=
  wrap_err "keygen.StartKeygen: "
    (NewSession (mkInfo doerner_protocolID 2 selfID (NewIDSlice [selfID; otherID]) 1 (Some Name)) sessionID []).

Definition StartSignReceiver (config : ConfigReceiver) (selfID otherID : ID) (hash : bytes) (sessionID : option bytes) :
    outcome dsg_session :=
  P ← deref (dr_Public config);
  helper ← doerner_sign_helper selfID otherID sessionID;
  Ret (Running (GR1 (mkDgr1 helper hash config P))).

Definition StartSignSender (config : ConfigSender) (selfID otherID : ID) (hash : bytes) (sessionID : option bytes) :
    outcome dsg_session :=
  P ← deref (ds_Public config);
  helper ← doerner_sign_helper selfID otherID sessionID;
  Ret (Running (GS1 (mkDgs1 helper config P hash None None None None))).

(** doerner.go *)
Definition SignReceiver := StartSignReceiver.
Definition SignSender := StartSignSender.

(** ** The round interface *)

Definition dsg_helper (r : dsg_round) : Helper :=
  match r with
  | GR1 r => gr_Helper r
  | GR2 r => gr_Helper (gr_round1 r)
  | GS1 r => gs_Helper r
  | GS2 r => gs_Helper (gs_round1 r)
  end.

Definition dsg_Number (r : dsg_round) : Number := match r with GR1 _ | GS1 _ => 1 | GR2 _ | GS2 _ => 2 end%Z.

Definition dsg_MessageContent (r : dsg_round) : option dsg_content :=
  match r with
  | GR1 _ => None
  | GR2 r => Some (GMessage1S (mkMessage1S (Some 𝟎) (Some (mkProof 𝟎 0))
               (Some (EmptyMultiplySendRound1Message (gr_multiply0 r))) (Some (EmptyMultiplySendRound1Message (gr_multiply1 r)))
               (Some (EmptyMultiplySendRound1Message (gr_multiply2 r))) (Some 0) (Some 0)))
  | GS1 _ => Some (GMessage1R (Some 𝟎) None None None)
  | GS2 _ => Some (GMessage2R EmptySignature)
  end.

Definition dsg_VerifyMessage (r : dsg_round) (msg : dsg_message) : outcome unit :=
  match r with
  | GR1 _ => Ret tt
  | GR2 r => dgr2_VerifyMessage r msg
  | GS1 r => dgs1_VerifyMessage r msg
  | GS2 r => dgs2_VerifyMessage r msg
  end.

Definition dsg_StoreMessage (r : dsg_round) (msg : dsg_message) : outcome dsg_round :=
  match r with
  | GR1 r => Ret (GR1 r)
  | GR2 r => r ← dgr2_StoreMessage r msg; Ret (GR2 r)
  | GS1 r => r ← dgs1_StoreMessage r msg; Ret (GS1 r)
  | GS2 r => r ← dgs2_StoreMessage r msg; Ret (GS2 r)
  end.

Definition finish_sign {A} (m : outcome (A * chan dsg_message * reader)) (f : A -> dsg_session)
    (out : chan dsg_message) (rand : reader) : outcome dsg_session * chan dsg_message * reader :=
  match m with
  | Ret (a, out, rand) => (Ret (f a), out, rand)
  | Fail e => (Fail e, out, rand)
  | Panic p => (Panic p, out, rand)
  end.

Definition dsg_Finalize (r : dsg_round) (rand : reader) (out : chan dsg_message) :
    outcome dsg_session * chan dsg_message * reader :=
  match r with
  | GR1 r => finish_sign (dgr1_Finalize r rand out) (fun r => Running (GR2 r)) out rand
  | GR2 r => finish_sign ('(sig, out) ← dgr2_Finalize r out; Ret (sig, out, rand))
               (fun sig => Output (gr_Helper (gr_round1 r)) sig) out rand
  | GS1 r => finish_sign (dgs1_Finalize r rand out) (fun r => Running (GS2 r)) out rand
  | GS2 r => (Ret (Output (gs_Helper (gs_round1 r)) (gs_Sig r)), out, rand)
  end.

Context {CB : Cbor dsg_content}.

#[export] Instance dsg_ops : RoundOps dsg_round dsg_content Signature := {|
  r_helper := dsg_helper;
  r_Number := dsg_Number;
  r_is_broadcast := fun _ => false;
  r_MessageContent := dsg_MessageContent;
  r_BroadcastContent := fun _ => None;
  r_VerifyMessage := dsg_VerifyMessage;
  r_StoreMessage := dsg_StoreMessage;
  r_StoreBroadcastMessage := fun r _ => Ret r;
  r_Finalize := dsg_Finalize;
  c_RoundNumber := dsg_RoundNumber;
  c_Cbor := CB
|}.

End Sign.
