(* ===== verification/DoernerSignProps.v ===== *)
(** * protocols/doerner/sign: what the two signers compute

    The rounds behave as the handler expects; a signature that either party
    outputs verifies; two honest parties output the same signature. *)

From Stdlib Require Import ZArith Lia Zmod Field.
From Stdlib Require Import Strings.Byte.
From stdpp Require Import base gmap strings list pretty numbers.
From S2P Require Import Prelude Hash Curve Party Sample Round Message Handler HandlerSpec TwoParty Duet Schnorr Ecdsa.
From S2P Require Import OtRandom OtCorrelated OtExtended OtMultiply DoernerKeygen DoernerKeygenProps DoernerSign.

Local Open Scope curve_scope.

Section Laws.
Context {C : Curve} `{B3 : Blake3} {BK : Blake3Keyed} {CB : Cbor dsg_content}.

Lemma dgr1_Finalize_inv r rand out r' out' rand' :
  dgr1_Finalize r rand out = Ret (r', out', rand') -> gr_round1 r' = r.
Proof. unfold dgr1_Finalize. intros E. repeat (apply bind_ret_inv in E as (? & _ & E); repeat case_match). by injection E as <- _ _. Qed.

Lemma dgs1_Finalize_inv r rand out r' out' rand' :
  dgs1_Finalize r rand out = Ret (r', out', rand') -> gs_round1 r' = r.
Proof. unfold dgs1_Finalize. intros E. repeat (apply bind_ret_inv in E as (? & _ & E); repeat case_match). by injection E as <- _ _. Qed.

Lemma dsg_StoreMessage_same r m r' : dsg_StoreMessage r m = Ret r' -> same_round (RO := dsg_ops) r r'.
Proof.
  destruct r as [r|r|r|r]; cbn [dsg_StoreMessage].
  - intros [= <-]. apply same_round_refl.
  - intros (x & E & [= <-])%bind_ret_inv. unfold dgr2_StoreMessage in E. destruct (rm_Content m); try done.
    injection E as <-. by split_and!.
  - intros (x & E & [= <-])%bind_ret_inv. unfold dgs1_StoreMessage in E. destruct (rm_Content m); try done.
    injection E as <-. by split_and!.
  - intros (x & E & [= <-])%bind_ret_inv. unfold dgs2_StoreMessage in E. destruct (rm_Content m); try done.
    injection E as <-. by split_and!.
Qed.

Lemma finish_sign_inv {A} (m : outcome (A * chan (round_Message dsg_content) * reader)) f out rand s out' rand' :
  finish_sign m f out rand = (Ret s, out', rand') -> exists a, m = Ret (a, out', rand') /\ s = f a.
Proof. unfold finish_sign. destruct m as [[[a o] rd]| |]; [|done..]. intros [= <- <- <-]. by exists a. Qed.

(** A round goes on to the next one of the same role, and the second outputs. *)
Lemma dsg_Finalize_inv r rand out s out' rand' :
  dsg_Finalize r rand out = (Ret s, out', rand') ->
  match r with
  | GR1 r => exists r', s = Running (GR2 r') /\ gr_round1 r' = r /\ dgr1_Finalize r rand out = Ret (r', out', rand')
  | GR2 r => exists sig, s = Output (gr_Helper (gr_round1 r)) sig /\ dgr2_Finalize r out = Ret (sig, out') /\ rand' = rand
  | GS1 r => exists r', s = Running (GS2 r') /\ gs_round1 r' = r /\ dgs1_Finalize r rand out = Ret (r', out', rand')
  | GS2 r => s = Output (gs_Helper (gs_round1 r)) (gs_Sig r) /\ out' = out /\ rand' = rand
  end.
Proof.
  destruct r as [r|r|r|r]; cbn [dsg_Finalize].
  - intros (r' & E & ->)%finish_sign_inv. pose proof (dgr1_Finalize_inv _ _ _ _ _ _ E). by exists r'.
  - intros (sig & E & ->)%finish_sign_inv. apply bind_ret_inv in E as ([x o] & E & [= <- <- <-]). by exists x.
  - intros (r' & E & ->)%finish_sign_inv. pose proof (dgs1_Finalize_inv _ _ _ _ _ _ E). by exists r'.
  - by intros [= <- <- <-].
Qed.

#[export] Instance dsg_laws : RoundLaws (RO := dsg_ops).
Proof.
  constructor; cbn.
  - intros []; cbn; lia.
  - apply dsg_StoreMessage_same.
  - intros r m r' [= <-]. apply same_round_refl.
  - intros r rand out r' out' rand' E%dsg_Finalize_inv. destruct r as [r|r|r|r].
    + destruct E as (x & [= ->] & E & _). cbn. by rewrite E.
    + by destruct E as (x & [=] & _).
    + destruct E as (x & [= ->] & E & _). cbn. by rewrite E.
    + by destruct E as ([=] & _).
  - intros r rand out h res out' rand' E%dsg_Finalize_inv. destruct r as [r|r|r|r].
    + by destruct E as (x & [=] & _).
    + by destruct E as (x & [= -> _] & _).
    + by destruct E as (x & [=] & _).
    + by destruct E as ([= -> _] & _).
  - intros r rand out h e c out' rand' E%dsg_Finalize_inv. destruct r as [r|r|r|r].
    + by destruct E as (x & [=] & _).
    + by destruct E as (x & [=] & _).
    + by destruct E as (x & [=] & _).
    + by destruct E as ([=] & _).
Qed.

End Laws.

(** ** What a signer outputs *)

Section Sound.
Context {C : Curve} `{B3 : Blake3} {BK : Blake3Keyed} {CB : Cbor dsg_content}.

(** The key and the message hash of a session. *)
Definition sign_key (r : dsg_round) : Point * bytes :=
  match r with
  | GR1 r => (gr_Public r, gr_hash r)
  | GR2 r => (gr_Public (gr_round1 r), gr_hash (gr_round1 r))
  | GS1 r => (gs_Public r, gs_hash r)
  | GS2 r => (gs_Public (gs_round1 r), gs_hash (gs_round1 r))
  end.

Lemma dsg_StoreMessage_key r m r' : dsg_StoreMessage r m = Ret r' -> sign_key r' = sign_key r.
Proof.
  destruct r as [r|r|r|r]; cbn [dsg_StoreMessage]; [by intros [= <-]|..];
    intros (x & E & [= <-])%bind_ret_inv; unfold dgr2_StoreMessage, dgs1_StoreMessage, dgs2_StoreMessage in E;
    destruct (rm_Content m); try done; by injection E as <-.
Qed.

Lemma served_key r r' : served (RO := dsg_ops) r r' -> sign_key r' = sign_key r.
Proof. destruct 1 as [|m r' _ _ E]; [done|]. exact (dsg_StoreMessage_key _ _ _ E). Qed.

Lemma pair_reached_key r0 r : pair_reached (RO := dsg_ops) r0 r -> sign_key r = sign_key r0.
Proof.
  induction 1 as [|r r1 rand r' out' rand' _ IH S%served_key E%dsg_Finalize_inv]; [done|]. rewrite <- IH, <- S.
  destruct r1 as [x|x|x|x].
  - destruct E as (y & [= ->] & <- & _). done.
  - by destruct E as (y & [=] & _).
  - destruct E as (y & [= ->] & <- & _). done.
  - by destruct E as ([=] & _).
Qed.

Lemma dgr2_Finalize_verifies r out sig out' :
  dgr2_Finalize r out = Ret (sig, out') -> Verify sig (gr_Public (gr_round1 r)) (gr_hash (gr_round1 r)) = true.
Proof.
  unfold dgr2_Finalize. intros E. do 15 (apply bind_ret_inv in E as (? & _ & E)).
  apply bind_ret_inv in E as (u & Hv & E). apply bind_ret_inv in E as (o & _ & [= <- _]).
  unfold guard_or in Hv. by destruct (Verify _ _ _).
Qed.

(** Whatever the other party did. *)
Lemma sign_delivered_verifies r0 sig :
  pair_delivered (RO := dsg_ops) r0 sig -> Verify sig (sign_key r0).1 (sign_key r0).2 = true.
Proof.
  destruct 1 as [r r1 rand h res out' rand' Re%pair_reached_key S E%dsg_Finalize_inv].
  pose proof (served_key _ _ S) as Ek. rewrite <- Re, <- Ek. destruct r1 as [x|x|x|x].
  - by destruct E as (y & [=] & _).
  - destruct E as (y & [= _ ->] & E & _). by eapply dgr2_Finalize_verifies.
  - by destruct E as (y & [=] & _).
  - destruct E as ([= _ ->] & _). inversion S as [Ec|m r' _ Ev Es]; subst; [by cbn in Ec|].
    destruct r as [y|y|y|y]; cbn in Ev, Es; [done|by destruct (dgr2_StoreMessage y m)|by destruct (dgs1_StoreMessage y m)|].
    unfold dgs2_VerifyMessage, dgs2_StoreMessage in *. destruct (rm_Content m) as [| |sig]; try done.
    injection Es as <-. cbn. unfold guard_or in Ev. by destruct (Verify _ _ _).
Qed.

End Sound.

(** ** Two honest signers *)

Section Honest.
Context {C : Curve} {CL : CurveLaws C} `{B3 : Blake3} {BK : Blake3Keyed}.
Add Field scalar_field : scalar_field_theory.

Lemma base_1 : 𝐆 = 1 • 𝐆.
Proof. apply base_base. Qed.

(** A combination of multiples of the base point is one. *)
Lemma psub_base a b : PSub (a • 𝐆) (b • 𝐆) = (a - b) • 𝐆.
Proof. unfold PSub. rewrite <- act_opp, <- act_add. f_equal. ring. Qed.

(** The points that the two signers hash are the same. *)
Lemma Gamma1_agree (kA kB phi tA tB : Scalar) :
  kA <> 0 -> kB <> 0 -> tA + tB = (Invert kA + phi) * Invert kB ->
  PSub (𝐆 ⊕ phi • ActOnBase kA) (tA • ((kA * kB) • 𝐆)) = tB • ((kA * kB) • 𝐆).
Proof.
  unfold ActOnBase, Invert. intros N1 N2 E. rewrite base_1 at 1. rewrite <- !act_mul, <- act_add, psub_base. f_equal.
  assert (tB = (Zmod.inv kA + phi) * Zmod.inv kB - tA) as -> by (rewrite <- E; ring). by field.
Qed.

Lemma theta_sum (kA kB phi tA tB : Scalar) :
  kA <> 0 -> kB <> 0 -> tA + tB = (Invert kA + phi) * Invert kB ->
  tA + (- (phi * Invert kB) + tB) = Invert (kA * kB).
Proof.
  unfold Invert. intros N1 N2 E. assert (tB = (Zmod.inv kA + phi) * Zmod.inv kB - tA) as -> by (rewrite <- E; ring).
  field. by split_and?.
Qed.

Lemma Gamma2_agree (sk k tA1 theta tA2 tB2 : Scalar) :
  tA1 + theta = Invert k -> tA2 + tB2 = sk * Invert k ->
  PSub (tA1 • (sk • 𝐆)) (ActOnBase tA2) = PSub (ActOnBase tB2) (theta • (sk • 𝐆)).
Proof.
  unfold ActOnBase. intros E1 E2. rewrite <- !act_mul, !psub_base. f_equal.
  assert (theta = Invert k - tA1) as -> by (rewrite <- E1; ring).
  assert (tB2 = sk * Invert k - tA2) as -> by (rewrite <- E2; ring). ring.
Qed.

Lemma ecdsa_valid (sk k : Scalar) msg :
  let r := XScalar (k • 𝐆) in
  k <> 0 -> r <> 0 -> FromHash msg + r * sk <> 0 ->
  Verify (mkSignature (k • 𝐆) ((FromHash msg + r * sk) * Invert k)) (sk • 𝐆) msg = true.
Proof.
  cbn. intros Nk Nr Ns. unfold Verify, IsZero. cbn [sig_R sig_S].
  assert (Zmod.inv k <> 0) as Ni.
  { intros E. apply scalar_1_ne_0. replace (1 : Scalar) with (k * Zmod.inv k) by by field. rewrite E. ring. }
  rewrite (bool_decide_false _ Nr), bool_decide_false by (by apply scalar_mul_ne_0). cbn [orb].
  apply bool_decide_eq_true. unfold ActOnBase, Invert. rewrite <- !act_mul, <- act_add, <- act_mul. f_equal. field.
  by split_and?.
Qed.

Lemma hash_point_total h P : exists s, hash_point h P = Ret s.
Proof.
  unfold hash_point. destruct (sample_Scalar_digest (WriteAny_ (session_hash h) [Point_any P])) as (s & rd & ->). by exists s.
Qed.

Lemma hash_point_session h h' P : hash h = hash h' -> hash_point h P = hash_point h' P.
Proof. unfold hash_point, session_hash. by intros ->. Qed.

(** The handlers, from what the calls in them return. *)
Lemma dgr1_Finalize_ret h msg c P rand kB rd x0 x1 x2 y0 y1 y2 rd0 rd1 rd2 rd3 rd4 rd5 m0 m1 m2 :
  sample_Scalar rand = Ret (kB, rd) ->
  NewMultiplyReceiver (fork_tag h "Multiply0") (dr_Setup c) (Invert kB) rd = Ret (x0, rd0) ->
  NewMultiplyReceiver (fork_tag h "Multiply1") (dr_Setup c) (Invert kB) rd0 = Ret (x1, rd1) ->
  NewMultiplyReceiver (fork_tag h "Multiply1") (dr_Setup c) (dr_SecretShare c * Invert kB) rd1 = Ret (x2, rd2) ->
  MultiplyReceiver_Round1 x0 rd2 = Ret (m0, y0, rd3) -> MultiplyReceiver_Round1 x1 rd3 = Ret (m1, y1, rd4) ->
  MultiplyReceiver_Round1 x2 rd4 = Ret (m2, y2, rd5) ->
  dgr1_Finalize (mkDgr1 h msg c P) rand (mkChan 1 []) =
    Ret (mkDgr2 (mkDgr1 h msg c P) (Invert kB) (ActOnBase kB) y0 y1 y2 None,
         mkChan 1 [mkRoundMessage (SelfID (info h)) "" false
                     (GMessage1R (Some (ActOnBase kB)) (Some m0) (Some m1) (Some m2))], rd5).
Proof.
  intros E E0 E1 E2 F0 F1 F2. unfold dgr1_Finalize. cbn [gr_Helper gr_config].
  apply (bind_ret_intro _ _ _ _ E). apply (bind_ret_intro _ _ _ _ E0). apply (bind_ret_intro _ _ _ _ E1).
  apply (bind_ret_intro _ _ _ _ E2). apply (bind_ret_intro _ _ _ _ F0). apply (bind_ret_intro _ _ _ _ F1).
  apply (bind_ret_intro _ _ _ _ F2). exact (bind_ret_intro _ _ _ _ (SendMessage_ret h _ "") eq_refl).
Qed.

Lemma dgs1_Finalize_ret h c P msg D i0 i1 i2 rand kA' rd hR p rd' phi rd1 x0 x1 x2 rd2 rd3 rd4 m0 m1 m2 tA1 tA21 tA22 H1 H2 :
  let kA := hR + kA' in
  let Gamma1 := PSub (𝐆 ⊕ phi • ActOnBase kA) (tA1 • (kA • D)) in
  let Gamma2 := PSub (tA1 • P) (ActOnBase (tA21 + tA22)) in
  sample_Scalar rand = Ret (kA', rd) -> hash_point h (kA' • D) = Ret hR ->
  NewProof (session_hash h) (kA • D) kA (Some D) rd = Ret (p, rd') -> sample_Scalar rd' = Ret (phi, rd1) ->
  NewMultiplySender (fork_tag h "Multiply0") (ds_Setup c) (Invert kA + phi) rd1 = Ret (x0, rd2) ->
  NewMultiplySender (fork_tag h "Multiply1") (ds_Setup c) (ds_SecretShare c * Invert kA) rd2 = Ret (x1, rd3) ->
  NewMultiplySender (fork_tag h "Multiply1") (ds_Setup c) (Invert kA) rd3 = Ret (x2, rd4) ->
  MultiplySender_Round1 x0 i0 = Ret (m0, tA1) -> MultiplySender_Round1 x1 i1 = Ret (m1, tA21) ->
  MultiplySender_Round1 x2 i2 = Ret (m2, tA22) ->
  hash_point h Gamma1 = Ret H1 -> hash_point h Gamma2 = Ret H2 ->
  let r := mkDgs1 h c P msg (Some D) (Some i0) (Some i1) (Some i2) in
  let sigA := FromHash msg * tA1 + XScalar (kA • D) * (tA21 + tA22) in
  dgs1_Finalize r rand (mkChan 1 []) =
    Ret (mkDgs2 r EmptySignature,
         mkChan 1 [mkRoundMessage (SelfID (info h)) "" false
                     (GMessage1S (mkMessage1S (Some (kA' • D)) (Some p) (Some m0) (Some m1) (Some m2)
                                    (Some (H1 + phi)) (Some (H2 + sigA))))], rd4).
Proof.
  intros kA Gamma1 Gamma2 E EH EP E' E0 E1 E2 F0 F1 F2 G1 G2 r sigA. unfold dgs1_Finalize, r.
  cbn [gs_Helper gs_config gs_D gs_mulMsg0 gs_mulMsg1 gs_mulMsg2 gs_Public gs_hash].
  apply (bind_ret_intro _ _ _ _ E). apply (bind_ret_intro _ _ _ _ (eq_refl : deref (Some D) = Ret D)).
  apply (bind_ret_intro _ _ _ _ EH). apply (bind_ret_intro _ _ _ _ EP). apply (bind_ret_intro _ _ _ _ E').
  apply (bind_ret_intro _ _ _ _ E0). apply (bind_ret_intro _ _ _ _ E1). apply (bind_ret_intro _ _ _ _ E2).
  apply (bind_ret_intro _ _ _ _ (eq_refl : deref (Some i0) = Ret i0)). apply (bind_ret_intro _ _ _ _ F0).
  apply (bind_ret_intro _ _ _ _ (eq_refl : deref (Some i1) = Ret i1)). apply (bind_ret_intro _ _ _ _ F1).
  apply (bind_ret_intro _ _ _ _ (eq_refl : deref (Some i2) = Ret i2)). apply (bind_ret_intro _ _ _ _ F2).
  apply (bind_ret_intro _ _ _ _ G1). apply (bind_ret_intro _ _ _ _ G2).
  exact (bind_ret_intro _ _ _ _ (SendMessage_ret h _ "") eq_refl).
Qed.

Lemma dgr2_Finalize_ret r1 kBInv D y0 y1 y2 RPrime p m0 m1 m2 mu1 mu2 hR tB1 tB21 tB22 H1 H2 :
  let h := gr_Helper r1 in
  let R := hR • D ⊕ RPrime in
  let phi := - H1 + mu1 in
  let theta := - (phi * kBInv) + tB1 in
  let sigB := FromHash (gr_hash r1) * theta + XScalar R * (tB21 + tB22) in
  let sig := mkSignature R (Sub (sigB + mu2) H2) in
  hash_point h RPrime = Ret hR -> Proof_Verify (Some p) (session_hash h) R (Some D) = Ret true ->
  MultiplyReceiver_Round2 y0 m0 = Ret tB1 -> MultiplyReceiver_Round2 y1 m1 = Ret tB21 ->
  MultiplyReceiver_Round2 y2 m2 = Ret tB22 -> hash_point h (tB1 • R) = Ret H1 ->
  hash_point h (PSub (ActOnBase (tB21 + tB22)) (theta • gr_Public r1)) = Ret H2 ->
  Verify sig (gr_Public r1) (gr_hash r1) = true ->
  dgr2_Finalize (mkDgr2 r1 kBInv D y0 y1 y2
      (Some (mkMessage1S (Some RPrime) (Some p) (Some m0) (Some m1) (Some m2) (Some mu1) (Some mu2)))) (mkChan 1 []) =
    Ret (sig, mkChan 1 [mkRoundMessage (SelfID (info h)) "" false (GMessage2R sig)]).
Proof.
  intros h R phi theta sigB sig EH EP F0 F1 F2 G1 G2 V. unfold dgr2_Finalize.
  cbn [gr_round1 gr_body gr_D gr_multiply0 gr_multiply1 gr_multiply2 gr_kBInv m1_RPrime m1_RProof m1_MulMsg0 m1_MulMsg1
    m1_MulMsg2 m1_MuPhi m1_MuSig deref mbind outcome_bind].
  apply (bind_ret_intro _ _ _ _ EH). apply (bind_ret_intro _ _ _ _ EP). cbn [guard_or mbind outcome_bind].
  apply (bind_ret_intro _ _ _ _ F0). apply (bind_ret_intro _ _ _ _ F1). apply (bind_ret_intro _ _ _ _ F2).
  apply (bind_ret_intro _ _ _ _ G1). cbn [deref mbind outcome_bind]. apply (bind_ret_intro _ _ _ _ G2).
  cbn [deref mbind outcome_bind].
  apply (bind_ret_intro _ _ tt); [exact (f_equal (fun b => guard_or b "failed to verify signature") V)|].
  exact (bind_ret_intro _ _ _ _ (SendMessage_ret h _ "") eq_refl).
Qed.

(** The nonces that the two parties draw, none of them degenerate. *)
Record sign_draws (h : Helper) (sk : Scalar) (msg : bytes) (randR randS : reader) (kB kA : Scalar) : Prop := {
  sw_kB : exists rd, sample_Scalar randR = Ret (kB, rd);
  sw_kA : exists kA' rd hR p rd',
    sample_Scalar randS = Ret (kA', rd) /\ hash_point h (kA' • (kB • 𝐆)) = Ret hR /\ kA = hR + kA' /\
    NewProof (session_hash h) (kA • (kB • 𝐆)) kA (Some (kB • 𝐆)) rd = Ret (p, rd') /\ Proof_IsValid (Some p) = true;
  sw_nonzero : kB <> 0;
  sw_r : XScalar ((kA * kB) • 𝐆) <> 0;
  sw_s : FromHash msg + XScalar ((kA * kB) • 𝐆) * sk <> 0
}.

(** The signature that both parties output. *)
Definition doerner_signature (sk : Scalar) (msg : bytes) (kB kA : Scalar) : Signature :=
  let R := (kA * kB) • 𝐆 in
  mkSignature R ((FromHash msg + XScalar R * sk) * Invert (kA * kB)).

Hypothesis HS : ScalarBits = 256%nat.

(** The three multiplications. *)
Lemma three_products s r ctx0 ctx1 a0 a1 a2 b0 b1 b2 rand randS :
  corre_ok s r -> reliable randS ->
  exists x0 x1 x2 rd0 rd1 rd2 u0 u1 u2 rs0 rs1 rs2 i0 i1 i2 y0 y1 y2 rd3 rd4 rd5 m0 m1 m2 tA0 tA1 tA2 tB0 tB1 tB2,
    NewMultiplyReceiver ctx0 r b0 rand = Ret (x0, rd0) /\ NewMultiplyReceiver ctx1 r b1 rd0 = Ret (x1, rd1) /\
    NewMultiplyReceiver ctx1 r b2 rd1 = Ret (x2, rd2) /\
    NewMultiplySender ctx0 s a0 randS = Ret (u0, rs0) /\ NewMultiplySender ctx1 s a1 rs0 = Ret (u1, rs1) /\
    NewMultiplySender ctx1 s a2 rs1 = Ret (u2, rs2) /\
    MultiplyReceiver_Round1 x0 rd2 = Ret (i0, y0, rd3) /\ MultiplyReceiver_Round1 x1 rd3 = Ret (i1, y1, rd4) /\
    MultiplyReceiver_Round1 x2 rd4 = Ret (i2, y2, rd5) /\
    MultiplySender_Round1 u0 i0 = Ret (m0, tA0) /\ MultiplySender_Round1 u1 i1 = Ret (m1, tA1) /\
    MultiplySender_Round1 u2 i2 = Ret (m2, tA2) /\
    MultiplyReceiver_Round2 y0 m0 = Ret tB0 /\ MultiplyReceiver_Round2 y1 m1 = Ret tB1 /\
    MultiplyReceiver_Round2 y2 m2 = Ret tB2 /\
    tA0 + tB0 = a0 * b0 /\ tA1 + tB1 = a1 * b1 /\ tA2 + tB2 = a2 * b2.
Proof.
  intros OK Hr. destruct (NewMultiplyReceiver_ret HS ctx0 r b0 rand) as (x0 & rd0 & X0 & OX0 & _).
  destruct (NewMultiplyReceiver_ret HS ctx1 r b1 rd0) as (x1 & rd1 & X1 & OX1 & _).
  destruct (NewMultiplyReceiver_ret HS ctx1 r b2 rd1) as (x2 & rd2 & X2 & OX2 & _).
  destruct (NewMultiplySender_ret HS ctx0 s a0 randS Hr) as (u0 & rs0 & U0 & OU0 & Hr0).
  destruct (NewMultiplySender_ret HS ctx1 s a1 rs0 Hr0) as (u1 & rs1 & U1 & OU1 & Hr1).
  destruct (NewMultiplySender_ret HS ctx1 s a2 rs1 Hr1) as (u2 & rs2 & U2 & OU2 & _).
  destruct (multiply_run HS ctx0 s r a0 b0 x0 u0 rd2 OK OX0 OU0) as (i0 & y0 & rd3 & m0 & tA0 & tB0 & P0 & _ & Q0 & R0 & _ & S0).
  destruct (multiply_run HS ctx1 s r a1 b1 x1 u1 rd3 OK OX1 OU1) as (i1 & y1 & rd4 & m1 & tA1 & tB1 & P1 & _ & Q1 & R1 & _ & S1).
  destruct (multiply_run HS ctx1 s r a2 b2 x2 u2 rd4 OK OX2 OU2) as (i2 & y2 & rd5 & m2 & tA2 & tB2 & P2 & _ & Q2 & R2 & _ & S2).
  exists x0, x1, x2, rd0, rd1, rd2, u0, u1, u2, rs0, rs1, rs2, i0, i1, i2, y0, y1, y2, rd3, rd4, rd5.
  exists m0, m1, m2, tA0, tA1, tA2, tB0, tB1, tB2. tauto.
Qed.

(** The sums of the shares give the signature. *)
Lemma signature_sum (sk m r k tA1 theta tA2 tB2 H2 : Scalar) :
  tA1 + theta = Invert k -> tA2 + tB2 = sk * Invert k ->
  Sub (m * theta + r * tB2 + (H2 + (m * tA1 + r * tA2))) H2 = (m + r * sk) * Invert k.
Proof.
  intros E1 E2. unfold Sub. assert (theta = Invert k - tA1) as -> by (rewrite <- E1; ring).
  assert (tB2 = sk * Invert k - tA2) as -> by (rewrite <- E2; ring). ring.
Qed.

Lemma shares_key (sa sb kA kB tA21 tA22 tB21 tB22 : Scalar) :
  kA <> 0 -> kB <> 0 ->
  tA21 + tB21 = sa * Invert kA * Invert kB -> tA22 + tB22 = Invert kA * (sb * Invert kB) ->
  tA21 + tA22 + (tB21 + tB22) = (sb + sa) * Invert (kA * kB).
Proof.
  unfold Invert. intros N1 N2 E1 E2. transitivity ((tA21 + tB21) + (tA22 + tB22)); [ring|]. rewrite E1, E2. field. by split_and?.
Qed.

Context {CB : Cbor dsg_content}.

(** Three messages, each accepted by the round that gets it. *)
Lemma sign_turns r1 s1 r2 s1' s2 sig randR randS randR' randS' c1 b :
  FinalRoundNumber (info (gr_Helper r1)) = 2%Z -> FinalRoundNumber (info (gs_Helper s1)) = 2%Z ->
  dgr1_Finalize r1 randR (mkChan 1 []) =
    Ret (r2, mkChan 1 [mkRoundMessage (SelfID (info (gr_Helper r1))) "" false c1], randR') ->
  dsg_RoundNumber c1 = 1%Z ->
  dgs1_VerifyMessage s1 (mkRoundMessage (SelfID (info (gr_Helper r1))) "" false c1) = Ret tt ->
  dgs1_StoreMessage s1 (mkRoundMessage (SelfID (info (gr_Helper r1))) "" false c1) = Ret s1' ->
  gs_Helper s1' = gs_Helper s1 -> gs_Public s1' = gs_Public s1 -> gs_hash s1' = gs_hash s1 ->
  dgs1_Finalize s1' randS (mkChan 1 []) =
    Ret (s2, mkChan 1 [mkRoundMessage (SelfID (info (gs_Helper s1))) "" false (GMessage1S b)], randS') ->
  dgr2_VerifyMessage r2 (mkRoundMessage (SelfID (info (gs_Helper s1))) "" false (GMessage1S b)) = Ret tt ->
  dgr2_Finalize (mkDgr2 (gr_round1 r2) (gr_kBInv r2) (gr_D r2) (gr_multiply0 r2) (gr_multiply1 r2) (gr_multiply2 r2) (Some b))
    (mkChan 1 []) = Ret (sig, mkChan 1 [mkRoundMessage (SelfID (info (gr_Helper r1))) "" false (GMessage2R sig)]) ->
  Verify sig (gs_Public s1) (gs_hash s1) = true ->
  duet (RO := dsg_ops) (GS1 s1) (GR2 r2) randS randR' (mkRoundMessage (SelfID (info (gr_Helper r1))) "" false c1) sig sig.
Proof.
  intros FR FS ER N1 V1 St1 Eh EP Em ES V2 EF V. pose proof (dgr1_Finalize_inv _ _ _ _ _ _ ER) as R2.
  pose proof (dgs1_Finalize_inv _ _ _ _ _ _ ES) as S2. eapply duet_turn with (a2 := GS2 s2).
  - eapply (takes_intro (RO := dsg_ops)) with (r1 := GS1 s1'); [by eexists|..].
    + unfold r_Final. cbn. rewrite FS. done.
    + exact N1.
    + exact V1.
    + cbn. by rewrite St1.
    + cbn [r_Finalize dsg_ops dsg_Finalize]. rewrite ES. reflexivity.
    + reflexivity.
  - split; [reflexivity|done].
  - by eexists.
  - eapply duet_last.
    + eapply (takes_intro (RO := dsg_ops)) with (r1 := GR2 (mkDgr2 (gr_round1 r2) (gr_kBInv r2) (gr_D r2) (gr_multiply0 r2)
        (gr_multiply1 r2) (gr_multiply2 r2) (Some b))); [by eexists|..].
      * unfold r_Final. cbn. rewrite R2, FR. done.
      * reflexivity.
      * exact V2.
      * reflexivity.
      * cbn [r_Finalize dsg_ops dsg_Finalize]. rewrite EF. reflexivity.
      * reflexivity.
    + split; [|done]. unfold self. cbn. by rewrite R2.
    + eapply (takes_intro (RO := dsg_ops)) with (r1 := GS2 (mkDgs2 (gs_round1 s2) sig)); [by eexists|..].
      * unfold r_Final. cbn. rewrite S2, Eh, FS. done.
      * reflexivity.
      * cbn. unfold dgs2_VerifyMessage. cbn [rm_Content]. rewrite S2, EP, Em, V. done.
      * reflexivity.
      * reflexivity.
      * reflexivity.
Qed.

(** The two parties, from their first rounds on. *)
Lemma sign_duet cR cS sk hR hS msg randR randS kB kA :
  doerner_pair cR cS sk -> hash hS = hash hR -> reliable randS -> sign_draws hR sk msg randR randS kB kA ->
  FinalRoundNumber (info hR) = 2%Z -> FinalRoundNumber (info hS) = 2%Z ->
  exists r2 out randR' m,
    dgr1_Finalize (mkDgr1 hR msg cR (sk • 𝐆)) randR (mkChan 1 []) = Ret (r2, out, randR') /\
    ch_buf out = [m] /\ rm_From m = SelfID (info hR) /\ rm_To m = "" /\
    duet (RO := dsg_ops) (GS1 (mkDgs1 hS cS (sk • 𝐆) msg None None None None)) (GR2 r2) randS randR' m
      (doerner_signature sk msg kB kA) (doerner_signature sk msg kB kA).
Proof.
  intros [OK Esk _ _ _] Eh Hr [[rdB EB] (kA' & rd & hRs & p & rd' & EA & EH & EkA & EP & Vp) NB Nr Ns] FR FS.
  pose proof (NewProof_shape _ _ _ _ _ _ _ EP) as (_ & _ & _ & _ & _ & _ & NA).
  assert (reliable rd') as Hr'.
  { eapply NewProof_reliable; [|exact EP]. destruct (sample_Scalar_reliable _ Hr) as (? & ? & E1 & H1). rewrite EA in E1.
    by injection E1 as <- <-. }
  destruct (sample_Scalar_reliable rd' Hr') as (phi & rd1 & Ephi & Hr1).
  destruct (three_products (ds_Setup cS) (dr_Setup cR) (fork_tag hR "Multiply0") (fork_tag hR "Multiply1")
    (Invert kA + phi) (ds_SecretShare cS * Invert kA) (Invert kA) (Invert kB) (Invert kB) (dr_SecretShare cR * Invert kB)
    rdB rd1 OK Hr1) as (x0 & x1 & x2 & ? & ? & ? & u0 & u1 & u2 & rs0 & rs1 & rs2 & i0 & i1 & i2 & y0 & y1 & y2 & ? & ? & rdR
      & m0 & m1 & m2 & tA1 & tA21 & tA22 & tB1 & tB21 & tB22 & X0 & X1 & X2 & U0 & U1 & U2 & P0 & P1 & P2 & Q0 & Q1 & Q2
      & R0 & R1 & R2 & S0 & S1 & S2).
  assert (kA • (kB • 𝐆) = (kA * kB) • 𝐆) as ER by (by rewrite act_mul).
  pose proof (theta_sum kA kB phi tA1 tB1 NA NB S0) as ET. set (theta := - (phi * Invert kB) + tB1) in *.
  pose proof (shares_key _ _ _ _ _ _ _ _ NA NB S1 S2) as E2. rewrite Esk in E2.
  destruct (hash_point_total hR (tB1 • ((kA * kB) • 𝐆))) as [H1 G1].
  destruct (hash_point_total hR (PSub (ActOnBase (tB21 + tB22)) (theta • (sk • 𝐆)))) as [H2 G2].
  assert (forall t, fork_tag hS t = fork_tag hR t) as Ef by (intros; unfold fork_tag, session_hash; by rewrite Eh).
  pose proof (dgr1_Finalize_ret hR msg cR (sk • 𝐆) randR kB rdB x0 x1 x2 y0 y1 y2 _ _ _ _ _ _ _ _ _ EB X0 X1 X2 P0 P1 P2) as F1.
  pose proof (dgs1_Finalize_ret hS cS (sk • 𝐆) msg (kB • 𝐆) i0 i1 i2 randS kA' rd hRs p rd' phi rd1 u0 u1 u2 rs0 rs1 rs2 m0 m1 m2
    tA1 tA21 tA22 H1 H2) as F2. cbn zeta in F2. rewrite !Ef, <- EkA, ER, !(hash_point_session hS hR) in F2 by done.
  unfold session_hash in F2. rewrite Eh in F2. fold (session_hash hR) in F2. rewrite ER in EP.
  rewrite (Gamma1_agree _ _ _ _ _ NA NB S0), (Gamma2_agree _ _ _ _ _ _ ET E2) in F2.
  specialize (F2 EA EH EP Ephi U0 U1 U2 Q0 Q1 Q2 G1 G2).
  pose proof (dgr2_Finalize_ret (mkDgr1 hR msg cR (sk • 𝐆)) (Invert kB) (kB • 𝐆) y0 y1 y2 (kA' • (kB • 𝐆)) p m0 m1 m2
    (H1 + phi) (H2 + (FromHash msg * tA1 + XScalar ((kA * kB) • 𝐆) * (tA21 + tA22))) hRs tB1 tB21 tB22 H1 H2) as F3.
  cbn zeta in F3. cbn [gr_Helper gr_hash gr_Public] in F3. rewrite <- act_add, <- EkA, ER in F3.
  replace (- H1 + (H1 + phi)) with phi in F3 by ring. fold theta in F3.
  rewrite (signature_sum sk _ _ (kA * kB) tA1 theta (tA21 + tA22) (tB21 + tB22) H2 ET E2) in F3.
  pose proof (ecdsa_valid sk (kA * kB) msg (scalar_mul_ne_0 _ _ NA NB) Nr Ns) as V.
  specialize (F3 EH (sch_complete _ _ _ (Some (kB • 𝐆)) _ _ _ (eq_sym ER) EP Vp) R0 R1 R2 G1 G2 V).
  eexists _, _, _, _. split; [exact F1|]. split; [reflexivity|]. split; [reflexivity|]. split; [reflexivity|].
  eapply (sign_turns (mkDgr1 hR msg cR (sk • 𝐆))); [exact FR|exact FS|exact F1|reflexivity|..|exact V]; cbn [gr_Helper gs_Helper gs_Public gs_hash].
  - unfold dgs1_VerifyMessage, IsIdentity, guard_or, ActOnBase. cbn [rm_Content]. rewrite bool_decide_false; [done|].
    rewrite identity_base. by intros ?%base_act_inj.
  - reflexivity.
  - reflexivity.
  - reflexivity.
  - reflexivity.
  - exact F2.
  - reflexivity.
  - exact F3.
Qed.

End Honest.
