(* ===== verification/Mta.v ===== *)
(** * internal/mta: multiplicative to additive shares

    The sender holds a, the receiver an encryption of b under its own key. The
    sender answers with an encryption D of a⋅b - β; the receiver's share is the
    plaintext of D, the sender's is β.  A proof of the affine operation goes
    with it, for a point a⋅G ([ProveAffG]) or an encryption of a
    ([ProveAffP]). *)

From Stdlib Require Import ZArith Lia Znumtheory Zmod.
From Stdlib Require Import Strings.Byte.
From stdpp Require Import base strings list pretty numbers.
From S2P Require Import Prelude Hash Curve Primes Arith Sample SampleInts PaillierMath Paillier Pedersen Zk ZkAff.

Local Open Scope Z_scope.

Section Mta.
Context {C : Curve} {B3 : Blake3} {S : Saferith}.

(** D, F, S, R and the negated β. *)
Definition newMta (senderSecretShare : Z) (receiverEncryptedShare : Ciphertext) (sender : SecretKey)
    (receiver : PublicKey) (rand : reader) : outcome (Ciphertext * Ciphertext * Z * Z * Z * reader) :=
  '(BetaNeg, rand) ← IntervalLPrime rand;
  '(F, R, rand) ← Enc (sk_PublicKey sender) BetaNeg rand;
  '(D, S', rand) ← Enc receiver BetaNeg rand;
  let tmp := ct_Mul receiver (ct_Clone receiverEncryptedShare) (Some senderSecretShare) in
  let D := ct_Add receiver D (Some tmp) in
  Ret (D, F, S', R, BetaNeg, rand).

Definition ProveAffG (h : Hash) (senderSecretShare : Z) (senderSecretSharePoint : Point)
    (receiverEncryptedShare : Ciphertext) (sender : SecretKey) (receiver : PublicKey) (verifier : Parameters)
    (rand : reader) : outcome (Z * Ciphertext * Ciphertext * zkaffg_Proof * reader) :=
  '(D, F, S', R, BetaNeg, rand) ← newMta senderSecretShare receiverEncryptedShare sender receiver rand;
  '(Proof, rand) ← zkaffg_NewProof h
    (mkAffgPublic receiverEncryptedShare D F senderSecretSharePoint (sk_PublicKey sender) receiver verifier)
    (mkAffgPrivate senderSecretShare BetaNeg S' R) rand;
  let Beta := - BetaNeg in
  Ret (Beta, D, F, Proof, rand).

Definition ProveAffP (h : Hash) (senderSecretShare : Z) (senderEncryptedShare : Ciphertext)
    (senderEncryptedShareNonce : Z) (receiverEncryptedShare : Ciphertext) (sender : SecretKey)
    (receiver : PublicKey) (verifier : Parameters) (rand : reader) :
    outcome (Z * Ciphertext * Ciphertext * zkaffp_Proof * reader) :=
  '(D, F, S', R, BetaNeg, rand) ← newMta senderSecretShare receiverEncryptedShare sender receiver rand;
  '(Proof, rand) ← zkaffp_NewProof h
    (mkAffpPublic receiverEncryptedShare D F senderEncryptedShare (sk_PublicKey sender) receiver verifier)
    (mkAffpPrivate senderSecretShare BetaNeg S' senderEncryptedShareNonce R) rand;
  let Beta := - BetaNeg in
  Ret (Beta, D, F, Proof, rand).

Context {SL : SaferithLaws S}.

Lemma Enc_inv pk m rand c ρ rand' :
  pk_ok pk -> Enc pk m rand = Ret (c, ρ, rand') -> unitZ ρ (pk_N pk) /\ c = Zmod.to_Z (pk_enc pk m ρ).
Proof.
  intros OK E. apply bind_ret_inv in E as ([u r] & Eu & E). apply bind_ret_inv in E as (c' & [_ Ec]%EncWithNonce_inv & E); [|done].
  apply ret_pair_inv in E as [[= -> ->] _]. apply UnitModN_unit in Eu as [_ U]; [|pose proof (pk_gt_1 _ OK); lia]. done.
Qed.

(** The ciphertexts of the sender are related as the proofs require. *)
Lemma newMta_spec a B sender receiver rand D F S' R BetaNeg rand' :
  pk_ok (sk_PublicKey sender) -> pk_ok receiver ->
  newMta a B sender receiver rand = Ret (D, F, S', R, BetaNeg, rand') ->
  Z.abs BetaNeg < 2 ^ Z.of_nat params_LPrime /\
  unitZ S' (pk_N receiver) /\ unitZ R (pk_N (sk_PublicKey sender)) /\
  D = ct_Add receiver (Zmod.to_Z (pk_enc receiver BetaNeg S')) (Some (ct_Mul receiver B (Some a))) /\
  F = Zmod.to_Z (pk_enc (sk_PublicKey sender) BetaNeg R).
Proof.
  intros Os Or E. apply bind_ret_inv in E as ([b r] & Eb%sampleNeg_abs & E); [|done].
  apply bind_ret_inv in E as ([[F' R'] r'] & [HR HF]%Enc_inv & E); [|done].
  apply bind_ret_inv in E as ([[D' S''] r''] & [HS HD]%Enc_inv & E); [|done].
  apply ret_pair_inv in E as [E _]. injection E as -> -> -> -> ->. unfold ct_Clone. by subst.
Qed.

Lemma ProveAffG_inv h a A B sender receiver aux rand β D F pf rand' :
  pk_ok (sk_PublicKey sender) -> pk_ok receiver ->
  ProveAffG h a A B sender receiver aux rand = Ret (β, D, F, pf, rand') ->
  exists S' R r1, Z.abs β < 2 ^ Z.of_nat params_LPrime /\
    unitZ S' (pk_N receiver) /\ unitZ R (pk_N (sk_PublicKey sender)) /\
    D = ct_Add receiver (Zmod.to_Z (pk_enc receiver (- β) S')) (Some (ct_Mul receiver B (Some a))) /\
    F = Zmod.to_Z (pk_enc (sk_PublicKey sender) (- β) R) /\
    zkaffg_NewProof h (mkAffgPublic B D F A (sk_PublicKey sender) receiver aux) (mkAffgPrivate a (- β) S' R) r1 = Ret (pf, rand').
Proof.
  intros Os Or E. apply bind_ret_inv in E as ([[[[[D' F'] S'] R] b] r1] & Em & E).
  apply newMta_spec in Em as (Hb & HS & HR & HD & HF); [|done..]. apply bind_ret_inv in E as ([pf' r2] & Ep & E).
  apply ret_pair_inv in E as [E ->]. injection E as -> -> -> ->. exists S', R, r1. by rewrite Z.abs_opp, Z.opp_involutive.
Qed.

Lemma ProveAffP_inv h a A ν B sender receiver aux rand β D F pf rand' :
  pk_ok (sk_PublicKey sender) -> pk_ok receiver ->
  ProveAffP h a A ν B sender receiver aux rand = Ret (β, D, F, pf, rand') ->
  exists S' R r1, Z.abs β < 2 ^ Z.of_nat params_LPrime /\
    unitZ S' (pk_N receiver) /\ unitZ R (pk_N (sk_PublicKey sender)) /\
    D = ct_Add receiver (Zmod.to_Z (pk_enc receiver (- β) S')) (Some (ct_Mul receiver B (Some a))) /\
    F = Zmod.to_Z (pk_enc (sk_PublicKey sender) (- β) R) /\
    zkaffp_NewProof h (mkAffpPublic B D F A (sk_PublicKey sender) receiver aux) (mkAffpPrivate a (- β) S' ν R) r1 = Ret (pf, rand').
Proof.
  intros Os Or E. apply bind_ret_inv in E as ([[[[[D' F'] S'] R] b] r1] & Em & E).
  apply newMta_spec in Em as (Hb & HS & HR & HD & HF); [|done..]. apply bind_ret_inv in E as ([pf' r2] & Ep & E).
  apply ret_pair_inv in E as [E ->]. injection E as -> -> -> ->. exists S', R, r1. by rewrite Z.abs_opp, Z.opp_involutive.
Qed.

(** The plaintext of D. *)
Lemma mta_decrypts receiver a b ρ β S' :
  sk_ok receiver -> unitZ ρ (pk_N (sk_PublicKey receiver)) -> unitZ S' (pk_N (sk_PublicKey receiver)) ->
  Z.abs (a * b - β) <= pk_N (sk_PublicKey receiver) / 2 ->
  let pk := sk_PublicKey receiver in
  Dec receiver (Some (ct_Add pk (Zmod.to_Z (pk_enc pk (- β) S'))
    (Some (ct_Mul pk (Zmod.to_Z (pk_enc pk b ρ)) (Some a))))) = Ret (a * b - β).
Proof.
  intros OK Hρ HS Hb pk. pose proof (sk_pk_ok _ OK) as Opk. fold pk in Opk, Hρ, HS, Hb.
  pose proof (pk_gt_1 _ Opk). rewrite ct_Mul_enc by done.
  assert (unitZ (Zmod.to_Z (Zmod.pow (Zmod.of_Z (pk_N pk) ρ) a)) (pk_N pk)) as U by
    (by apply unitZ_to_Z, is_unit_pow, is_unit_of_Z).
  rewrite ct_Add_enc by done. pose proof (sk_N _ OK) as HN. fold pk in HN. unfold pk_enc. rewrite HN in *.
  replace (- β + a * b) with (a * b - β) by ring. apply Dec_enc; [done| |done]. by apply unitZ_mul.
Qed.

(** A product of two values in the range of the protocol, less β, stays
    inside the range of a modulus of 2048 bits. *)
Lemma mta_range a b β n :
  Z.abs a <= 2 ^ Z.of_nat params_L -> Z.abs b <= 2 ^ Z.of_nat params_L -> Z.abs β < 2 ^ Z.of_nat params_LPrime ->
  2 ^ 2047 <= n -> Z.abs (a * b - β) <= n / 2.
Proof.
  change (Z.of_nat params_L) with 256. change (Z.of_nat params_LPrime) with 1280. intros Ha Hb Hβ Hn.
  assert (Z.abs (a * b) <= 2 ^ 512). { rewrite Z.abs_mul. change (2 ^ 512) with (2 ^ 256 * 2 ^ 256). nia. }
  assert (2 ^ 512 + 2 ^ 1280 <= 2 ^ 2046) by (vm_compute; discriminate).
  assert (2 ^ 2046 <= n / 2) by (apply Z.div_le_lower_bound; [done|]; change (2 * 2 ^ 2046) with (2 ^ 2047); done).
  lia.
Qed.

End Mta.
