(* ===== verification/CmpConfig.v ===== *)
(** * protocols/cmp/config: the key material of the CMP protocol

    Configurations, their public data, derivation of child keys, their hash
    encoding and their CBOR encoding (CBOR itself is a parameter). *)

From Stdlib Require Import ZArith Lia Zmod Field.
From Stdlib Require Import Strings.Byte.
From stdpp Require Import base gmap strings list pretty numbers.
From S2P Require Import Prelude Hash Curve Party Sample Polynomial Round Message.
From S2P Require Import Arith SampleInts PaillierMath Paillier Pedersen FrostConfig.

Local Open Scope curve_scope.

Section Config.
Context {C : Curve} {S : Saferith} {MO : MapOrder}.

Record Public := mkPublic {
  pub_ECDSA : Point;
  pub_ElGamal : Point;
  pub_Paillier : PublicKey;
  pub_Pedersen : Parameters
}.

Record CmpConfig := mkCmpConfig {
  cc_ID : ID;
  cc_Threshold : Z;
  cc_ECDSA : Scalar;
  cc_ElGamal : Scalar;
  cc_Paillier : SecretKey;
  cc_RID : bytes;
  cc_ChainKey : bytes;
  cc_Public : gmap ID Public
}.

(** The sum of the weighted shares, in the order of the map. *)
Fixpoint weigh (l : gmap ID Scalar) (sum : Point) (public : list (ID * Public)) : outcome Point :=
  match public with
  | [] => Ret sum
  | (j, partyJ) :: public =>
      lj ← deref (l !! j);
      weigh l (sum ⊕ lj • pub_ECDSA partyJ) public
  end.

Definition PublicPoint (c : CmpConfig) : outcome Point :=
  l ← Lagrange (range_order (cc_Public c)).*1;
  weigh l 𝟎 (range_order (cc_Public c)).

Definition PartyIDs (c : CmpConfig) : IDSlice := NewIDSlice (range_order (cc_Public c)).*1.

Definition Public_WriteTo (p : option Public) : outcome bytes :=
  match p with
  | None => Fail ErrUnexpectedEOF
  | Some p =>
      Ret (PMarshal (pub_ECDSA p) ++ PMarshal (pub_ElGamal p) ++ be_min (pk_N (pub_Paillier p))
           ++ ped_WriteTo (pub_Pedersen p))
  end.

Fixpoint write_public (public : gmap ID Public) (ids : list ID) : outcome bytes :=
  match ids with
  | [] => Ret []
  | j :: ids =>
      b ← Public_WriteTo (public !! j);
      rest ← write_public public ids;
      Ret (b ++ rest)
  end.

(** A nil RID is the empty byte string. *)
Definition Config_WriteTo (c : CmpConfig) : outcome bytes :=
  let partyIDs := PartyIDs c in
  ids ← IDSlice_WriteTo (Some partyIDs);
  rid ← match cc_RID c with [] => Fail ErrUnexpectedEOF | rid => Ret rid end;
  data ← write_public (cc_Public c) partyIDs;
  Ret (be_of_Z 4 (cc_Threshold c mod 2 ^ 32) ++ ids.2 ++ rid ++ data).

Definition Config_any (c : CmpConfig) : any := AWriterTo "*config.Config" "CMP Config" (Config_WriteTo c).

Definition ValidThreshold (t : Z) (n : nat) : bool :=
  if bool_decide (t < 0 \/ 2 ^ 32 - 1 < t)%Z then false
  else negb (bool_decide (Z.of_nat n <= 0 \/ Z.of_nat n - 1 < t)%Z).

Definition CanSign (c : CmpConfig) (signers : IDSlice) : bool :=
  if negb (ValidThreshold (cc_Threshold c) (length signers)) then false
  else if negb (Valid signers) then false
  else if negb (Contains signers [cc_ID c]) then false
  else forallb (fun j => bool_decide (is_Some (cc_Public c !! j))) signers.

Definition Cmp_Derive (c : CmpConfig) (adjust : Scalar) (newChainKey : bytes) : outcome CmpConfig :=
  newChainKey ← next_chain_key (cc_ChainKey c) newChainKey;
  let adjustG := ActOnBase adjust in
  let public := (fun v => mkPublic (pub_ECDSA v ⊕ adjustG) (pub_ElGamal v) (pub_Paillier v) (pub_Pedersen v))
                  <$> cc_Public c in
  Ret (mkCmpConfig (cc_ID c) (cc_Threshold c) (cc_ECDSA c + adjust) (cc_ElGamal c) (cc_Paillier c)
         (cc_RID c) newChainKey public).

(** The curve is secp256k1: the type assertion on the public point holds. *)
Definition DeriveBIP32 (c : CmpConfig) (i : Z) : outcome CmpConfig :=
  publicPoint ← PublicPoint c;
  '(scalar, newChainKey) ← DeriveScalar publicPoint (cc_ChainKey c) i;
  Cmp_Derive c scalar newChainKey.

(** ** marshal.go *)

Record publicMarshal := mkPublicMarshal {
  pm_ID : ID;
  pm_ECDSA : Point;
  pm_ElGamal : Point;
  pm_N : option Z;
  pm_S : option Z;
  pm_T : option Z
}.

Record configMarshal := mkConfigMarshal {
  cm_ID : ID;
  cm_Threshold : Z;
  cm_ECDSA : Scalar;
  cm_ElGamal : Scalar;
  cm_P : option Z;
  cm_Q : option Z;
  cm_RID : bytes;
  cm_ChainKey : bytes;
  cm_Public : list bytes
}.

Context {CC : Cbor configMarshal} {CP : Cbor publicMarshal} {BP : BigPrime}.

Definition to_publicMarshal (id : ID) (p : Public) : publicMarshal :=
  mkPublicMarshal id (pub_ECDSA p) (pub_ElGamal p) (Some (mod_n (ped_n (pub_Pedersen p))))
    (Some (ped_s (pub_Pedersen p))) (Some (ped_t (pub_Pedersen p))).

Fixpoint marshal_public (public : gmap ID Public) (ids : list ID) : outcome (list bytes) :=
  match ids with
  | [] => Ret []
  | id :: ids =>
      p ← deref (public !! id);
      data ← cbor_Marshal (to_publicMarshal id p);
      ps ← marshal_public public ids;
      Ret (data :: ps)
  end.

Definition Config_MarshalBinary (c : CmpConfig) : outcome bytes :=
  ps ← marshal_public (cc_Public c) (PartyIDs c);
  cbor_Marshal (mkConfigMarshal (cc_ID c) (cc_Threshold c) (cc_ECDSA c) (cc_ElGamal c)
    (Some (sk_p (cc_Paillier c))) (Some (sk_q (cc_Paillier c))) (cc_RID c) (cc_ChainKey c) ps).

(** The public data of one entry.  The own entry is rebuilt from the secrets
    (a nil S or T in it is dereferenced by the first use of the parameters). *)
Definition read_public (cm : configMarshal) (paillierSecret : SecretKey) (p : publicMarshal) : outcome Public :=
  if decide (pm_ID p = cm_ID cm) then
    s ← deref (pm_S p);
    t ← deref (pm_T p);
    Ret (mkPublic (ActOnBase (cm_ECDSA cm)) (ActOnBase (cm_ElGamal cm)) (sk_PublicKey paillierSecret)
           (mkParameters (pk_n (sk_PublicKey paillierSecret)) s t))
  else
    let party := "config: party " +:+ pm_ID p +:+ ": " in
    _ ← wrap_err party (ValidateN (pm_N p));
    _ ← wrap_err party (ValidateParameters (pm_N p) (pm_S p) (pm_T p));
    if IsIdentity (pm_ECDSA p) || IsIdentity (pm_ElGamal p)
    then Fail (party +:+ "ECDSA or ElGamal public key is identity")
    else
      n ← deref (pm_N p);
      s ← deref (pm_S p);
      t ← deref (pm_T p);
      let paillierPublic := NewPublicKey n in
      Ret (mkPublic (pm_ECDSA p) (pm_ElGamal p) paillierPublic (mkParameters (pk_n paillierPublic) s t)).

Fixpoint read_publics (cm : configMarshal) (paillierSecret : SecretKey) (l : list bytes) (ps : gmap ID Public) :
    outcome (gmap ID Public) :=
  match l with
  | [] => Ret ps
  | pm :: l =>
      p ← wrap_err "config: party : " (cbor_Unmarshal (mkPublicMarshal "" 𝟎 𝟎 None None None) pm);
      if bool_decide (is_Some (ps !! pm_ID p)) then Fail ("config: party " +:+ pm_ID p +:+ ": duplicate entry")
      else
        public ← read_public cm paillierSecret p;
        read_publics cm paillierSecret l (<[pm_ID p := public]> ps)
  end.

(** The configuration that replaces the receiver, made by [EmptyConfig]. *)
Definition Config_UnmarshalBinary (data : bytes) : outcome CmpConfig :=
  cm ← wrap_err "config: " (cbor_Unmarshal (mkConfigMarshal "" 0 0 0 None None [] [] []) data);
  if IsZero (cm_ECDSA cm) || IsZero (cm_ElGamal cm) then Fail "config: ECDSA or ElGamal secret key is zero"
  else
    _ ← wrap_err "config: prime P: " (ValidatePrime (cm_P cm));
    _ ← wrap_err "config: prime Q: " (ValidatePrime (cm_Q cm));
    p ← deref (cm_P cm);
    q ← deref (cm_Q cm);
    let paillierSecret := NewSecretKeyFromPrimes p q in
    ps ← read_publics cm paillierSecret (cm_Public cm) ∅;
    if negb (ValidThreshold (cm_Threshold cm) (size ps))
    then Fail ("config: threshold " +:+ pretty (cm_Threshold cm) +:+ " is invalid")
    else if negb (bool_decide (is_Some (ps !! cm_ID cm))) then Fail "config: no public data for this party"
    else Ret (mkCmpConfig (cm_ID cm) (cm_Threshold cm) (cm_ECDSA cm) (cm_ElGamal cm) paillierSecret
                (cm_RID cm) (cm_ChainKey cm) ps).

End Config.

(** ** Properties *)

Section Keys.
Context {C : Curve} {CL : CurveLaws C} {S : Saferith} {MO : MapOrder} {MOL : MapOrderLaws}.

(** The public shares and the secret share lie on one polynomial, and the
    public data of the party belongs to its secrets. *)
Record Cmp_valid (L : list Point) (c : CmpConfig) : Prop := {
  cv_key : shared_key L (cc_Threshold c) (hornerP 0 L) (pub_ECDSA <$> cc_Public c);
  cv_share : share_of L (cc_ID c) (cc_ECDSA c);
  cv_self : exists ped, cc_Public c !! cc_ID c =
    Some (mkPublic (ActOnBase (cc_ECDSA c)) (ActOnBase (cc_ElGamal c)) (sk_PublicKey (cc_Paillier c)) ped)
}.

Lemma weigh_spec l sum public :
  (forall j p, (j, p) ∈ public -> is_Some (l !! j)) ->
  weigh l sum public = Ret (sum ⊕ sumP (fun x => getS l x.1 • pub_ECDSA x.2) public).
Proof.
  revert sum. induction public as [|[j p] public IH]; intros sum Hl; cbn [weigh sumP]; [by rewrite padd_0_r|].
  destruct (Hl j p) as [x Ex]; [by left|]. rewrite Ex. cbn [deref mbind outcome_bind].
  rewrite IH by (intros j' p' Hin; apply (Hl j' p'); by right). unfold getS at 2. cbn [fst snd]. rewrite Ex. cbn.
  by rewrite padd_assoc.
Qed.

Lemma sumP_fmap {A B} (f : B -> Point) (g : A -> B) l : sumP f (g <$> l) = sumP (fun x => f (g x)) l.
Proof. induction l as [|x l IH]; cbn; [done|]. by rewrite IH. Qed.

Lemma range_keys (m : gmap ID Public) id : id ∈ (range_order m).*1 <-> is_Some (m !! id).
Proof.
  rewrite (range_order_perm _ m). rewrite list_elem_of_fmap. split.
  - intros ([k v] & -> & E%elem_of_map_to_list). by exists v.
  - intros [v E]. exists (id, v). split; [done|]. by apply elem_of_map_to_list.
Qed.

#[export] Instance ids_ok_proper : Proper (Permutation ==> iff) ids_ok.
Proof. intros l l' P. unfold ids_ok, points_ok. by rewrite P. Qed.

Lemma range_keys_perm (m : gmap ID Public) ids :
  NoDup ids -> dom m = list_to_set ids -> (range_order m).*1 ≡ₚ ids.
Proof.
  intros ND Hd. apply NoDup_Permutation; [|done|].
  - rewrite (range_order_perm _ m). apply NoDup_fst_map_to_list.
  - intros k. by rewrite range_keys, <- elem_of_dom, Hd, elem_of_list_to_set.
Qed.

(** The public point is the value of the polynomial at zero. *)
Lemma PublicPoint_spec L c :
  Cmp_valid L c -> ids_ok (range_order (cc_Public c)).*1 -> (length L <= size (cc_Public c))%nat ->
  PublicPoint c = Ret (hornerP 0 L).
Proof.
  intros [(_ & _ & _ & HV) _ _] Hids Hl. set (ids := (range_order (cc_Public c)).*1).
  destruct (Lagrange_spec ids Hids) as (m & Em & Hm). unfold PublicPoint. fold ids. rewrite Em.
  cbn [mbind outcome_bind]. rewrite weigh_spec.
  2: { intros j p Hin. rewrite Hm, decide_True; [done|]. apply list_elem_of_fmap. by exists (j, p). }
  rewrite padd_0_l. f_equal. rewrite <- (Lagrange_hornerP ids m L Hids Em).
  2: { unfold ids. rewrite length_fmap. rewrite (range_order_perm _ (cc_Public c)). by rewrite length_map_to_list. }
  unfold ids. rewrite sumP_fmap. apply sumP_ext. intros [j p] Hin. cbn [fst snd]. f_equal.
  apply HV. rewrite lookup_fmap. rewrite (range_order_perm _ (cc_Public c)) in Hin. apply elem_of_map_to_list in Hin.
  by rewrite Hin.
Qed.

(** Derivation moves a valid key by the adjustment. *)
Lemma Cmp_Derive_valid L c adjust ck c' :
  Cmp_valid L c -> Cmp_Derive c adjust ck = Ret c' -> Cmp_valid (shift_key (ActOnBase adjust) L) c'.
Proof.
  intros [K Hs [ped Hp]] (k & _ & [= <-])%bind_ret_inv. pose proof (shared_key_nonempty _ _ _ _ K) as N.
  split; cbn [cc_Public cc_ID cc_ECDSA cc_ElGamal cc_Paillier cc_Threshold].
  - apply (shared_key_shift _ _ _ _ (ActOnBase adjust)) in K. rewrite hornerP_shift by done.
    replace (pub_ECDSA <$> _) with ((fun v => v ⊕ ActOnBase adjust) <$> (pub_ECDSA <$> cc_Public c)); [exact K|].
    apply map_eq. intros id. rewrite !lookup_fmap. by destruct (cc_Public c !! id).
  - by apply share_of_shift.
  - exists ped. rewrite lookup_fmap, Hp. cbn. unfold ActOnBase. by rewrite act_add.
Qed.

End Keys.

Section Marshal.
Context {C : Curve} {S : Saferith} {MO : MapOrder} {MOL : MapOrderLaws} {BP : BigPrime}.

(** Public data of another party as the decoder accepts it. *)
Definition foreign_ok (p : Public) : Prop :=
  exists n s t, pub_Paillier p = NewPublicKey n /\ pub_Pedersen p = mkParameters (ModulusFromN n) s t /\
    ValidateN (Some n) = Ret tt /\ ValidateParameters (Some n) (Some s) (Some t) = Ret tt /\
    pub_ECDSA p <> 𝟎 /\ pub_ElGamal p <> 𝟎.

Record config_wf (c : CmpConfig) : Prop := {
  wf_ECDSA : cc_ECDSA c <> 0;
  wf_ElGamal : cc_ElGamal c <> 0;
  wf_primes : ValidatePrime (Some (sk_p (cc_Paillier c))) = Ret tt /\
              ValidatePrime (Some (sk_q (cc_Paillier c))) = Ret tt;
  wf_Paillier : cc_Paillier c = NewSecretKeyFromPrimes (sk_p (cc_Paillier c)) (sk_q (cc_Paillier c));
  wf_threshold : ValidThreshold (cc_Threshold c) (size (cc_Public c)) = true;
  wf_self : exists s t, cc_Public c !! cc_ID c =
    Some (mkPublic (ActOnBase (cc_ECDSA c)) (ActOnBase (cc_ElGamal c)) (sk_PublicKey (cc_Paillier c))
            (mkParameters (pk_n (sk_PublicKey (cc_Paillier c))) s t));
  wf_others id p : cc_Public c !! id = Some p -> id <> cc_ID c -> foreign_ok p
}.

Context {CC : Cbor configMarshal} {CP : Cbor publicMarshal}.

(** What the decoder accepts is well formed, whatever the bytes. *)
Lemma read_public_ok cm sk p pub :
  read_public cm sk p = Ret pub ->
  (pm_ID p = cm_ID cm /\ exists s t, pub = mkPublic (ActOnBase (cm_ECDSA cm)) (ActOnBase (cm_ElGamal cm))
     (sk_PublicKey sk) (mkParameters (pk_n (sk_PublicKey sk)) s t)) \/
  (pm_ID p <> cm_ID cm /\ foreign_ok pub).
Proof.
  unfold read_public. destruct (decide (pm_ID p = cm_ID cm)) as [E|N].
  - intros (s & _ & E1)%bind_ret_inv. apply bind_ret_inv in E1 as (t & _ & [= <-]). left. eauto.
  - intros (u & Hn%wrap_err_ret & E)%bind_ret_inv. apply bind_ret_inv in E as (v & Hp%wrap_err_ret & E).
    destruct (IsIdentity (pm_ECDSA p) || IsIdentity (pm_ElGamal p)) eqn:Ei; [done|].
    apply bind_ret_inv in E as (n & En%deref_ret & E). apply bind_ret_inv in E as (s & Es%deref_ret & E).
    apply bind_ret_inv in E as (t & Et%deref_ret & [= <-]). right. split; [done|]. exists n, s, t. cbn.
    rewrite En, ?Es, ?Et in *. apply orb_false_iff in Ei as [I1 I2].
    apply bool_decide_eq_false in I1, I2. by destruct u, v.
Qed.

Lemma read_publics_ok cm sk l ps ps' :
  read_publics cm sk l ps = Ret ps' ->
  (forall id p, ps !! id = Some p -> id <> cm_ID cm -> foreign_ok p) ->
  (forall p, ps !! cm_ID cm = Some p -> exists s t, p = mkPublic (ActOnBase (cm_ECDSA cm)) (ActOnBase (cm_ElGamal cm))
     (sk_PublicKey sk) (mkParameters (pk_n (sk_PublicKey sk)) s t)) ->
  (forall id p, ps' !! id = Some p -> id <> cm_ID cm -> foreign_ok p) /\
  (forall p, ps' !! cm_ID cm = Some p -> exists s t, p = mkPublic (ActOnBase (cm_ECDSA cm)) (ActOnBase (cm_ElGamal cm))
     (sk_PublicKey sk) (mkParameters (pk_n (sk_PublicKey sk)) s t)).
Proof.
  revert ps. induction l as [|b l IH]; intros ps; cbn [read_publics]; [intros [= <-]; auto|].
  intros (p & _ & E)%bind_ret_inv Ho Hs. destruct (bool_decide _); [done|].
  apply bind_ret_inv in E as (pub & Ep%read_public_ok & E). apply IH in E; [done|..].
  - intros id q [[<- <-]|[_ Hq]]%lookup_insert_Some Hne; [|by eapply Ho]. by destruct Ep as [[? _]|[_ ?]].
  - intros q [[E1 <-]|[_ Hq]]%lookup_insert_Some; [|by apply Hs]. by destruct Ep as [[_ ?]|[? _]].
Qed.

Lemma UnmarshalBinary_wf data c : Config_UnmarshalBinary data = Ret c -> config_wf c.
Proof.
  intros (cm & _ & E)%bind_ret_inv. destruct (IsZero _ || IsZero _) eqn:Ez; [done|].
  apply orb_false_iff in Ez as [Z1 Z2]. apply bool_decide_eq_false in Z1, Z2.
  apply bind_ret_inv in E as ([] & Vp%wrap_err_ret & E). apply bind_ret_inv in E as ([] & Vq%wrap_err_ret & E).
  apply bind_ret_inv in E as (p & Ep%deref_ret & E). apply bind_ret_inv in E as (q & Eq%deref_ret & E).
  apply bind_ret_inv in E as (ps & Hps%read_publics_ok & E); [|done..]. destruct Hps as [Ho Hs].
  destruct (ValidThreshold _ _) eqn:Et; [|done]. cbn [negb] in E.
  destruct (bool_decide_reflect (is_Some (ps !! cm_ID cm))) as [[P HP]|]; [|done]. cbn [negb] in E. injection E as <-.
  rewrite Ep, Eq in *. split; try done. cbn [cc_Public cc_ID cc_ECDSA cc_ElGamal cc_Paillier].
  destruct (Hs P HP) as (s & t & ->). by exists s, t.
Qed.

Context {CCL : CborLaws configMarshal} {CPL : CborLaws publicMarshal}.

Lemma read_public_roundtrip c cm id p :
  config_wf c -> cm_ID cm = cc_ID c -> cm_ECDSA cm = cc_ECDSA c -> cm_ElGamal cm = cc_ElGamal c ->
  cc_Public c !! id = Some p -> read_public cm (cc_Paillier c) (to_publicMarshal id p) = Ret p.
Proof.
  intros W Ei Ee Eg Hp. unfold read_public. cbn [pm_ID to_publicMarshal pm_S pm_T pm_N pm_ECDSA pm_ElGamal].
  destruct (decide (id = cm_ID cm)) as [->|N].
  - destruct (wf_self _ W) as (s & t & Hs). rewrite Ei, Hs in Hp. injection Hp as <-. cbn. by rewrite Ee, Eg.
  - rewrite Ei in N. destruct (wf_others _ W _ _ Hp N) as (n & s & t & E1 & E2 & V1 & V2 & N1 & N2).
    rewrite E2. cbn [ped_n ped_s ped_t mod_n ModulusFromN]. rewrite V1, V2. cbn [wrap_err mbind outcome_bind].
    unfold IsIdentity. rewrite !bool_decide_false by done. cbn. destruct p; cbn in *. by subst.
Qed.

Lemma read_publics_roundtrip c cm ids ps bs :
  config_wf c -> cm_ID cm = cc_ID c -> cm_ECDSA cm = cc_ECDSA c -> cm_ElGamal cm = cc_ElGamal c ->
  NoDup ids -> (forall id, id ∈ ids -> ps !! id = None) -> (forall id p, ps !! id = Some p -> cc_Public c !! id = Some p) ->
  marshal_public (cc_Public c) ids = Ret bs ->
  exists ps', read_publics cm (cc_Paillier c) bs ps = Ret ps' /\
    (forall id p, ps' !! id = Some p -> cc_Public c !! id = Some p) /\
    (forall id, id ∈ ids \/ is_Some (ps !! id) -> is_Some (ps' !! id)).
Proof.
  intros W Ei Ee Eg ND. revert ps bs. induction ND as [|id ids Hid ND IH]; intros ps bs Hn Hs; cbn [marshal_public].
  - intros [= <-]. exists ps. split; [done|]. split; [done|]. by intros id [?%elem_of_nil|].
  - intros (p & Hp%deref_ret & E)%bind_ret_inv. apply bind_ret_inv in E as (b & Eb & E).
    apply bind_ret_inv in E as (bs' & Ebs & [= <-]). cbn [read_publics].
    rewrite (cbor_roundtrip _ _ _ Eb). cbn [wrap_err mbind outcome_bind]. cbn [pm_ID to_publicMarshal].
    rewrite (Hn id) by (by left). rewrite bool_decide_false by (by intros [??]).
    rewrite (read_public_roundtrip c cm id p) by done. cbn [mbind outcome_bind].
    destruct (IH (<[id := p]> ps) bs') as (ps' & E' & H1 & H2); [..|done|].
    + intros j Hj. rewrite lookup_insert_ne by (by intros ->). apply Hn. by right.
    + intros j q [[<- <-]|[_ ?]]%lookup_insert_Some; [done|by apply Hs].
    + exists ps'. split; [done|]. split; [done|]. intros j Hj. apply H2. destruct (decide (j = id)) as [->|N].
      * right. by rewrite lookup_insert_eq.
      * rewrite lookup_insert_ne by done. destruct Hj as [[?|?]%elem_of_cons|?]; [done|by left|by right].
Qed.

(** A well-formed configuration survives its encoding. *)
Lemma config_roundtrip c data :
  config_wf c -> Config_MarshalBinary c = Ret data -> Config_UnmarshalBinary data = Ret c.
Proof.
  intros W (bs & Ebs & E)%bind_ret_inv. unfold Config_UnmarshalBinary. rewrite (cbor_roundtrip _ _ _ E).
  cbn [wrap_err mbind outcome_bind cm_ECDSA cm_ElGamal cm_P cm_Q]. unfold IsZero.
  rewrite !bool_decide_false by apply W. cbn [orb]. destruct (wf_primes _ W) as [-> ->].
  cbn [wrap_err mbind outcome_bind deref]. rewrite <- (wf_Paillier _ W). cbn [cm_Public].
  set (cm := mkConfigMarshal _ _ _ _ _ _ _ _ _).
  destruct (read_publics_roundtrip c cm (PartyIDs c) ∅ bs) as (ps' & E' & H1 & H2); try done.
  - unfold PartyIDs. rewrite NewIDSlice_perm, (range_order_perm _ (cc_Public c)). apply NoDup_fst_map_to_list.
  - rewrite E'. cbn [mbind outcome_bind]. assert (ps' = cc_Public c) as ->.
    { apply map_eq. intros id. destruct (ps' !! id) as [p|] eqn:Ep; [by rewrite (H1 id p Ep)|].
      destruct (cc_Public c !! id) as [p|] eqn:Eq; [|done]. destruct (H2 id) as [? ?]; [|congruence].
      left. unfold PartyIDs. rewrite NewIDSlice_perm, range_keys. by exists p. }
    cbn [cm_Threshold cm_ID cm cm_RID cm_ChainKey cm_ECDSA cm_ElGamal]. rewrite (wf_threshold _ W). cbn [negb].
    destruct (wf_self _ W) as (s & t & Hs). rewrite bool_decide_true by (by rewrite Hs). cbn [negb]. by destruct c.
Qed.

End Marshal.
