(* ===== verification/CmpKeygen.v ===== *)
(** * protocols/cmp/keygen: distributed key generation and refresh of CMP

    The five rounds of the CMP key generation, and of the refresh of an
    existing configuration.  Each round embeds the previous one; every handler
    of [keygen/round*.go] is one definition.  [fuel] bounds the sampling loops
    that the code leaves unbounded. *)

From Stdlib Require Import ZArith Lia Zmod Field.
From Stdlib Require Import Strings.Byte.
From stdpp Require Import base gmap strings list pretty numbers.
From S2P Require Import Prelude Hash Curve Party Sample Polynomial Round Message Handler Schnorr.
From S2P Require Import Arith SampleInts PaillierMath Paillier Pedersen Zk ZkSetup ExponentCodec FrostConfig CmpConfig.

Local Open Scope curve_scope.

Definition cmp_keygen_Rounds : Number := 5%Z.

Section Keygen.
Context {C : Curve} `{B3 : Blake3} {MO : MapOrder} {S : Saferith} {BP : BigPrime}.
Context {CR : Cbor rawExponentData} (fuel : nat).

(** ** Rounds and messages *)

Record cround1 := mkCRound1 {
  ck_Helper : Helper;
  PreviousSecretECDSA : option Scalar;
  PreviousPublicSharesECDSA : option (gmap ID Point);
  PreviousChainKey : bytes;
  VSSSecret : Polynomial
}.

Record cround2 := mkCRound2 {
  ck_round1 : cround1;
  VSSPolynomials : gmap ID Exponent;
  Commitments : gmap ID bytes;
  RIDs : gmap ID bytes;
  cmp_ChainKeys : gmap ID bytes;
  ShareReceived : gmap ID Scalar;
  ElGamalPublic : gmap ID (option Point);
  PaillierPublic : gmap ID PublicKey;
  PedersenPublic : gmap ID Parameters;
  ElGamalSecret : Scalar;
  PaillierSecret : SecretKey;
  PedersenSecret : Z;
  SchnorrRand : Randomness;
  Decommitment : bytes
}.

Record cround3 := mkCRound3 { ck_round2 : cround2; SchnorrCommitments : gmap ID Point }.

Record cround4 := mkCRound4 { ck_round3 : cround3; cmp_RID : bytes; cmp_ChainKey : bytes }.

Record cround5 := mkCRound5 { ck_round4 : cround4; UpdatedConfig : CmpConfig }.

Inductive ckg_round :=
| CK1 (r : cround1)
| CK2 (r : cround2)
| CK3 (r : cround3)
| CK4 (r : cround4)
| CK5 (r : cround5).

(** [broadcast2], [broadcast3], [broadcast4], [message4] and [broadcast5] *)
Inductive ckg_content :=
| CBroadcast2 (Commitment : bytes)
| CBroadcast3 (RID C : bytes) (VSSPolynomial : option Exponent) (SchnorrCommitments : option Point)
    (ElGamalPublic : option Point) (N S T : option Z) (Decommitment : bytes)
| CBroadcast4 (Mod : option zkmod_Proof) (Prm : option zkprm_Proof)
| CMessage4 (Share : option Ciphertext) (Fac : option zkfac_Proof)
| CBroadcast5 (SchnorrResponse : option Scalar).

Definition ckg_round1 (r : ckg_round) : cround1 :=
  match r with
  | CK1 r => r
  | CK2 r => ck_round1 r
  | CK3 r => ck_round1 (ck_round2 r)
  | CK4 r => ck_round1 (ck_round2 (ck_round3 r))
  | CK5 r => ck_round1 (ck_round2 (ck_round3 (ck_round4 r)))
  end.

Definition ckg_helper (r : ckg_round) : Helper := ck_Helper (ckg_round1 r).
Definition cselfID (r : cround1) : ID := SelfID (info (ck_Helper r)).

Definition ckg_Number (r : ckg_round) : Number :=
  match r with CK1 _ => 1 | CK2 _ => 2 | CK3 _ => 3 | CK4 _ => 4 | CK5 _ => 5 end%Z.

Definition ckg_is_broadcast (r : ckg_round) : bool := match r with CK1 _ => false | _ => true end.

Definition ckg_MessageContent (r : ckg_round) : option ckg_content :=
  match r with CK4 _ => Some (CMessage4 None None) | _ => None end.

Definition ckg_BroadcastContent (r : ckg_round) : option ckg_content :=
  match r with
  | CK1 _ => None
  | CK2 _ => Some (CBroadcast2 [])
  | CK3 _ => Some (CBroadcast3 [] [] (Some EmptyExponent) (Some 𝟎) (Some 𝟎) None None None [])
  | CK4 _ => Some (CBroadcast4 None None)
  | CK5 _ => Some (CBroadcast5 (Some 0))
  end.

Definition ckg_RoundNumber (c : ckg_content) : Number :=
  match c with
  | CBroadcast2 _ => 2
  | CBroadcast3 _ _ _ _ _ _ _ _ _ => 3
  | CBroadcast4 _ _ | CMessage4 _ _ => 4
  | CBroadcast5 _ => 5
  end%Z.

Abbreviation ckg_message := (round_Message ckg_content).
Abbreviation ckg_session := (Session ckg_round CmpConfig).

(** [zksch.Commitment] and a point that may be nil, as hash inputs. *)
Definition SchCommitment_any (c : Point) : any :=
  AWriterTo "*zksch.Commitment" "Schnorr Commitment" (Ret (PMarshal c)).
Definition Point_opt_any (P : option Point) : any := match P with Some P => Point_any P | None => AOther end.

(** What a party commits to in the first round. *)
Definition committed (rid c : bytes) (F : Exponent) (A : Point) (Y : option Point) (N s t : Z) : list any :=
  [RID_any (Some rid); RID_any (Some c); Exponent_any F; SchCommitment_any A; Point_opt_any Y;
   Modulus_any N; Nat_any (Some s); Nat_any (Some t)].

(** ** Round 1 *)

(** [Finalize] after the Paillier key has been generated. *)
Definition cround1_share (r : cround1) (PaillierSecret : SecretKey) (rand : reader) (out : chan ckg_message) :
    outcome (cround2 * chan ckg_message * reader) :=
  let h := ck_Helper r in
  let self := cselfID r in
  let SelfPaillierPublic := sk_PublicKey PaillierSecret in
  '(SelfPedersenPublic, PedersenSecret, rand) ← GeneratePedersen fuel PaillierSecret rand;
  '(ElGamalSecret, ElGamalPublic, rand) ← sample_ScalarPointPair rand;
  SelfShare ← Evaluate (VSSSecret r) (ID_Scalar self);
  SelfVSSPolynomial ← NewPolynomialExponent (VSSSecret r);
  '(SchnorrRand, rand) ← NewRandomness rand None;
  '(SelfRID, rand) ← (match NewRID rand with Fail _ => Fail "failed to sample Rho" | o => o end);
  '(chainKey, rand) ← (match NewRID rand with Fail _ => Fail "failed to sample c" | o => o end);
  '(SelfCommitment, Decommitment, rand) ←
    (match Commit (HashForID h self) rand
             (committed SelfRID chainKey SelfVSSPolynomial (rnd_commitment SchnorrRand) (Some ElGamalPublic)
                (mod_n (ped_n SelfPedersenPublic)) (ped_s SelfPedersenPublic) (ped_t SelfPedersenPublic)) with
     | Fail _ => Fail "failed to commit"
     | o => o
     end);
  out ← BroadcastMessage h out (CBroadcast2 SelfCommitment);
  Ret (mkCRound2 r {[self := SelfVSSPolynomial]} {[self := SelfCommitment]} {[self := SelfRID]}
         {[self := chainKey]} {[self := SelfShare]} {[self := Some ElGamalPublic]}
         {[self := SelfPaillierPublic]} {[self := SelfPedersenPublic]} ElGamalSecret PaillierSecret
         PedersenSecret SchnorrRand Decommitment, out, rand).

Definition cround1_Finalize (r : cround1) (rand : reader) (out : chan ckg_message) :
    outcome (cround2 * chan ckg_message * reader) :=
  '(PaillierSecret, rand) ← NewSecretKey fuel rand;
  cround1_share r PaillierSecret rand out.

(** ** Round 2 *)

Definition cround2_StoreBroadcastMessage (r : cround2) (msg : ckg_message) : outcome cround2 :=
  match rm_Content msg with
  | CBroadcast2 Commitment =>
      _ ← Commitment_Validate Commitment;
      Ret (mkCRound2 (ck_round1 r) (VSSPolynomials r) (<[rm_From msg := Commitment]> (Commitments r)) (RIDs r)
             (cmp_ChainKeys r) (ShareReceived r) (ElGamalPublic r) (PaillierPublic r) (PedersenPublic r)
             (ElGamalSecret r) (PaillierSecret r) (PedersenSecret r) (SchnorrRand r) (Decommitment r))
  | _ => Fail ErrInvalidContent
  end.

Definition cround2_Finalize (r : cround2) (out : chan ckg_message) : outcome (cround3 * chan ckg_message) :=
  let h := ck_Helper (ck_round1 r) in
  let self := cselfID (ck_round1 r) in
  ped ← deref (PedersenPublic r !! self);
  out ← BroadcastMessage h out
    (CBroadcast3 (default [] (RIDs r !! self)) (default [] (cmp_ChainKeys r !! self)) (VSSPolynomials r !! self)
       (Some (rnd_commitment (SchnorrRand r))) (default None (ElGamalPublic r !! self))
       (Some (mod_n (ped_n ped))) (Some (ped_s ped)) (Some (ped_t ped)) (Decommitment r));
  Ret (mkCRound3 r ∅, out).

(** ** Round 3 *)

(** Storing the decommitted data of a party. *)
Definition store_public (r : cround2) (from : ID) (RID C : bytes) (F : Exponent) (Y : option Point) (n s t : Z) :
    cround2 :=
  mkCRound2 (ck_round1 r) (<[from := F]> (VSSPolynomials r)) (Commitments r) (<[from := RID]> (RIDs r))
    (<[from := C]> (cmp_ChainKeys r)) (ShareReceived r) (<[from := Y]> (ElGamalPublic r))
    (<[from := NewPublicKey n]> (PaillierPublic r))
    (<[from := mkParameters (ModulusFromN n) s t]> (PedersenPublic r))
    (ElGamalSecret r) (PaillierSecret r) (PedersenSecret r) (SchnorrRand r) (Decommitment r).

Definition cround3_StoreBroadcastMessage (r : cround3) (msg : ckg_message) : outcome cround3 :=
  let from := rm_From msg in
  let r2 := ck_round2 r in
  let r1 := ck_round1 r2 in
  match rm_Content msg with
  | CBroadcast3 RID C VSSPolynomial SchnorrCommitment ElGamal N S' T' Decommitment =>
      match N, S', T', VSSPolynomial, SchnorrCommitment with
      | Some n, Some s, Some t, Some F, Some A =>
          _ ← wrap_err "rid: " (RID_Validate RID);
          _ ← wrap_err "chainkey: " (RID_Validate C);
          _ ← Decommitment_Validate Decommitment;
          c ← Constant (VSSSecret r1);
          if negb (Bool.eqb (IsZero c) (IsConstant F)) then Fail "vss polynomial has incorrect constant"
          else if negb (bool_decide (Exponent_Degree F = Threshold (info (ck_Helper r1))))
          then Fail "vss polynomial has incorrect degree"
          else
            _ ← ValidateN (Some n);
            _ ← ValidateParameters (Some n) (Some s) (Some t);
            if negb (Decommit (HashForID (ck_Helper r1) from) (default [] (Commitments r2 !! from)) Decommitment
                       (committed RID C F A ElGamal n s t))
            then Fail "failed to decommit"
            else Ret (mkCRound3 (store_public r2 from RID C F ElGamal n s t) (<[from := A]> (SchnorrCommitments r)))
      | _, _, _, _, _ => Fail Round.ErrNilFields
      end
  | _ => Fail ErrInvalidContent
  end.

(** XOR of the entries of all parties: [for _, j := range r.PartyIDs()]. *)
Fixpoint xor_all (entries : gmap ID bytes) (acc : bytes) (ids : list ID) : outcome bytes :=
  match ids with
  | [] => Ret acc
  | j :: ids => acc ← RID_XOR acc (default [] (entries !! j)); xor_all entries acc ids
  end.

(** The encrypted share with its proof, for each other party. *)
Fixpoint send_encrypted (r : cround2) (h : Hash) (ids : list ID) (rand : reader) (out : chan ckg_message) :
    outcome (chan ckg_message * reader) :=
  match ids with
  | [] => Ret (out, rand)
  | j :: ids =>
      own ← deref (PaillierPublic r !! cselfID (ck_round1 r));
      aux ← deref (PedersenPublic r !! j);
      '(fac, rand) ← zkfac_NewProof (Clone h) (mkFacPublic (pk_N own) aux)
                       (mkFacPrivate (sk_p (PaillierSecret r)) (sk_q (PaillierSecret r))) rand;
      share ← Evaluate (VSSSecret (ck_round1 r)) (ID_Scalar j);
      pk ← deref (PaillierPublic r !! j);
      '(C, _, rand) ← Enc pk (MakeInt share) rand;
      out ← SendMessage (ck_Helper (ck_round1 r)) out (CMessage4 (Some C) (Some fac)) j;
      send_encrypted r h ids rand out
  end.

(** [r.UpdateHashState(v)]: the helper is shared by the embedded rounds. *)
Definition update_hash (r : cround2) (v : any) : cround2 :=
  let r1 := ck_round1 r in
  mkCRound2 (mkCRound1 (UpdateHashState (ck_Helper r1) v) (PreviousSecretECDSA r1) (PreviousPublicSharesECDSA r1)
               (PreviousChainKey r1) (VSSSecret r1))
    (VSSPolynomials r) (Commitments r) (RIDs r) (cmp_ChainKeys r) (ShareReceived r) (ElGamalPublic r)
    (PaillierPublic r) (PedersenPublic r) (ElGamalSecret r) (PaillierSecret r) (PedersenSecret r)
    (SchnorrRand r) (Decommitment r).

Definition cround3_Finalize (r : cround3) (rand : reader) (out : chan ckg_message) :
    outcome (cround4 * chan ckg_message * reader) :=
  let r2 := ck_round2 r in
  let r1 := ck_round1 r2 in
  let hp := ck_Helper r1 in
  let self := cselfID r1 in
  let sk := PaillierSecret r2 in
  chainKey ← (if decide (PreviousChainKey r1 = [])
              then xor_all (cmp_ChainKeys r2) EmptyRID (partyIDs hp) else Ret (PreviousChainKey r1));
  rid ← xor_all (RIDs r2) EmptyRID (partyIDs hp);
  let h := WriteAny_ (Clone (hash hp)) [RID_any (Some rid); ID_any self] in
  pk ← deref (PaillierPublic r2 !! self);
  '(mod', rand) ← zkmod_NewProof fuel (Clone h) (mkModPrivate (sk_p sk) (sk_q sk) (sk_phi sk)) (pk_N pk) rand;
  aux ← deref (PedersenPublic r2 !! self);
  '(prm, rand) ← zkprm_NewProof fuel (Clone h) aux
                   (mkPrmPrivate (PedersenSecret r2) (sk_phi sk) (sk_p sk) (sk_q sk)) rand;
  out ← BroadcastMessage hp out (CBroadcast4 (Some mod') (Some prm));
  '(out, rand) ← send_encrypted r2 h (otherPartyIDs hp) rand out;
  Ret (mkCRound4 (mkCRound3 (update_hash r2 (RID_any (Some rid))) (SchnorrCommitments r)) rid chainKey, out, rand).

(** ** Round 4 *)

Definition cround4_StoreBroadcastMessage (r : cround4) (msg : ckg_message) : outcome cround4 :=
  let from := rm_From msg in
  let r2 := ck_round2 (ck_round3 r) in
  match rm_Content msg with
  | CBroadcast4 Mod Prm =>
      ped ← deref (PedersenPublic r2 !! from);
      ok ← zkmod_Verify fuel Mod (HashForID (ck_Helper (ck_round1 r2)) from) (mod_n (ped_n ped));
      if negb ok then Fail "failed to validate mod proof"
      else if negb (zkprm_Verify Prm (HashForID (ck_Helper (ck_round1 r2)) from) ped)
      then Fail "failed to validate prm proof"
      else Ret r
  | _ => Fail ErrInvalidContent
  end.

Definition cround4_VerifyMessage (r : cround4) (msg : ckg_message) : outcome unit :=
  let from := rm_From msg in
  let r2 := ck_round2 (ck_round3 r) in
  match rm_Content msg with
  | CMessage4 Share Fac =>
      pk ← deref (PaillierPublic r2 !! rm_To msg);
      if negb (ValidateCiphertexts pk [Share]) then Fail "invalid ciphertext"
      else
        pkFrom ← deref (PaillierPublic r2 !! from);
        aux ← deref (PedersenPublic r2 !! rm_To msg);
        ok ← zkfac_Verify Fac (HashForID (ck_Helper (ck_round1 r2)) from) (mkFacPublic (pk_N pkFrom) aux);
        guard_or ok "failed to validate fac proof"
  | _ => Fail ErrInvalidContent
  end.

Definition set_share (r : cround2) (from : ID) (share : Scalar) : cround2 :=
  mkCRound2 (ck_round1 r) (VSSPolynomials r) (Commitments r) (RIDs r) (cmp_ChainKeys r)
    (<[from := share]> (ShareReceived r)) (ElGamalPublic r) (PaillierPublic r) (PedersenPublic r)
    (ElGamalSecret r) (PaillierSecret r) (PedersenSecret r) (SchnorrRand r) (Decommitment r).

Definition cround4_StoreMessage (r : cround4) (msg : ckg_message) : outcome cround4 :=
  let from := rm_From msg in
  let r3 := ck_round3 r in
  let r2 := ck_round2 r3 in
  match rm_Content msg with
  | CMessage4 body_Share _ =>
      DecryptedShare ← Dec (PaillierSecret r2) body_Share;
      let Share := scalar_of DecryptedShare in
      if negb (DecryptedShare =? MakeInt Share)%Z then Fail "decrypted share is not in correct range"
      else
        F ← deref (VSSPolynomials r2 !! from);
        let ExpectedPublicShare := Exponent_Evaluate F (ID_Scalar (cselfID (ck_round1 r2))) in
        let PublicShare := ActOnBase Share in
        if negb (PEqual PublicShare ExpectedPublicShare) then Fail "failed to validate VSS share"
        else Ret (mkCRound4 (mkCRound3 (set_share r2 from Share) (SchnorrCommitments r3)) (cmp_RID r) (cmp_ChainKey r))
  | _ => Panic "interface conversion: round.Content is not *keygen.message4"
  end.

(** [for _, j := range r.PartyIDs() { UpdatedSecretECDSA.Add(r.ShareReceived[j]) }] *)
Fixpoint add_received (shares : gmap ID Scalar) (acc : Scalar) (ids : list ID) : outcome Scalar :=
  match ids with
  | [] => Ret acc
  | j :: ids => s ← deref (shares !! j); add_received shares (acc + s) ids
  end.

(** The public data of all parties.  Every map has an entry for every party
    once the round is finalized; a missing one is a nil pointer. *)
Fixpoint public_data (r : cround2) (F : Exponent) (ids : list ID) (acc : gmap ID Public) :
    outcome (gmap ID Public) :=
  match ids with
  | [] => Ret acc
  | j :: ids =>
      let X := Exponent_Evaluate F (ID_Scalar j) in
      X ← match PreviousPublicSharesECDSA (ck_round1 r) with
          | Some prev => P ← deref (prev !! j); Ret (X ⊕ P)
          | None => Ret X
          end;
      Y ← deref (mjoin (ElGamalPublic r !! j));
      pk ← deref (PaillierPublic r !! j);
      ped ← deref (PedersenPublic r !! j);
      public_data r F ids (<[j := mkPublic X Y pk ped]> acc)
  end.

Definition cround4_Finalize (r : cround4) (out : chan ckg_message) : outcome (cround5 * chan ckg_message) :=
  let r3 := ck_round3 r in
  let r2 := ck_round2 r3 in
  let r1 := ck_round1 r2 in
  let hp := ck_Helper r1 in
  let self := cselfID r1 in
  UpdatedSecretECDSA ← add_received (ShareReceived r2) (default 0 (PreviousSecretECDSA r1)) (partyIDs hp);
  let ShamirPublicPolynomials := (range_order (VSSPolynomials r2)).*2 in
  ShamirPublicPolynomial ← Polynomial.Sum ShamirPublicPolynomials;
  PublicData ← public_data r2 ShamirPublicPolynomial (partyIDs hp) ∅;
  let config := mkCmpConfig self (Threshold (info hp)) UpdatedSecretECDSA (ElGamalSecret r2) (PaillierSecret r2)
                  (RID_Copy (cmp_RID r)) (RID_Copy (cmp_ChainKey r)) PublicData in
  let h := WriteAny_ (Clone (hash hp)) [Config_any config; ID_any self] in
  own ← deref (PublicData !! self);
  proof ← Prove (SchnorrRand r2) h (pub_ECDSA own) UpdatedSecretECDSA None;
  out ← BroadcastMessage hp out (CBroadcast5 proof);
  Ret (mkCRound5 (mkCRound4 (mkCRound3 (update_hash r2 (Config_any config)) (SchnorrCommitments r3))
                    (cmp_RID r) (cmp_ChainKey r)) config, out).

(** ** Round 5 *)

Definition cround5_StoreBroadcastMessage (r : cround5) (msg : ckg_message) : outcome cround5 :=
  let from := rm_From msg in
  let r3 := ck_round3 (ck_round4 r) in
  match rm_Content msg with
  | CBroadcast5 SchnorrResponse =>
      match SchnorrResponse with
      | Some z =>
          if negb (Response_IsValid z) then Fail Round.ErrNilFields
          else
            public ← deref (cc_Public (UpdatedConfig r) !! from);
            A ← deref (SchnorrCommitments r3 !! from);
            ok ← Schnorr.Response_Verify (Some z) (HashForID (ck_Helper (ck_round1 (ck_round2 r3))) from)
                   (pub_ECDSA public) A None;
            if negb ok then Fail "failed to validate schnorr proof for received share" else Ret r
      | None => Fail Round.ErrNilFields
      end
  | _ => Fail ErrInvalidContent
  end.

Definition cround5_Finalize (r : cround5) : outcome CmpConfig := Ret (UpdatedConfig r).

(** ** The round interface *)

Definition ckg_VerifyMessage (r : ckg_round) (msg : ckg_message) : outcome unit :=
  match r with CK4 r => cround4_VerifyMessage r msg | _ => Ret tt end.

Definition ckg_StoreMessage (r : ckg_round) (msg : ckg_message) : outcome ckg_round :=
  match r with
  | CK4 r => r' ← cround4_StoreMessage r msg; Ret (CK4 r')
  | _ => Ret r
  end.

Definition ckg_StoreBroadcastMessage (r : ckg_round) (msg : ckg_message) : outcome ckg_round :=
  match r with
  | CK1 _ => Ret r
  | CK2 r => r' ← cround2_StoreBroadcastMessage r msg; Ret (CK2 r')
  | CK3 r => r' ← cround3_StoreBroadcastMessage r msg; Ret (CK3 r')
  | CK4 r => r' ← cround4_StoreBroadcastMessage r msg; Ret (CK4 r')
  | CK5 r => r' ← cround5_StoreBroadcastMessage r msg; Ret (CK5 r')
  end.

(** The result of a [Finalize]: on an error the channel and the reader are
    left as they were. *)
Definition finalized {R A} (next : A -> R) (m : outcome (A * chan ckg_message * reader))
    (out : chan ckg_message) (rand : reader) : outcome (Session R CmpConfig) * chan ckg_message * reader :=
  match m with
  | Ret (r, out, rand) => (Ret (Running (next r)), out, rand)
  | Fail e => (Fail e, out, rand)
  | Panic p => (Panic p, out, rand)
  end.

Definition ckg_Finalize (r : ckg_round) (rand : reader) (out : chan ckg_message) :
    outcome ckg_session * chan ckg_message * reader :=
  match r with
  | CK1 r => finalized CK2 (cround1_Finalize r rand out) out rand
  | CK2 r => finalized CK3 ('(r', out) ← cround2_Finalize r out; Ret (r', out, rand)) out rand
  | CK3 r => finalized CK4 (cround3_Finalize r rand out) out rand
  | CK4 r => finalized CK5 ('(r', out) ← cround4_Finalize r out; Ret (r', out, rand)) out rand
  | CK5 r => (res ← cround5_Finalize r; Ret (Output (ckg_helper (CK5 r)) res), out, rand)
  end.

Context {CB : Cbor ckg_content}.

#[export] Instance ckg_ops : RoundOps ckg_round ckg_content CmpConfig := {|
  r_helper := ckg_helper;
  r_Number := ckg_Number;
  r_is_broadcast := ckg_is_broadcast;
  r_MessageContent := ckg_MessageContent;
  r_BroadcastContent := ckg_BroadcastContent;
  r_VerifyMessage := ckg_VerifyMessage;
  r_StoreMessage := ckg_StoreMessage;
  r_StoreBroadcastMessage := ckg_StoreBroadcastMessage;
  r_Finalize := ckg_Finalize;
  c_RoundNumber := ckg_RoundNumber;
  c_Cbor := CB
|}.

(** ** Starting the protocol *)

(** One call of the function that [Start] returns. *)
Definition cmp_keygen_Start (info : Info) (c : option CmpConfig) (sessionID : option bytes) (rand : reader) :
    outcome (ckg_session * reader) :=
  helper ← wrap_err "keygen: "
    (NewSession info sessionID (match c with None => [] | Some c => [Some (Config_any c)] end));
  match c with
  | Some c =>
      let PublicSharesECDSA := pub_ECDSA <$> cc_Public c in
      '(f, rand) ← NewPolynomial (Threshold (Round.info helper)) (Some 0) rand;
      Ret (Running (CK1 (mkCRound1 helper (Some (cc_ECDSA c)) (Some PublicSharesECDSA) (cc_ChainKey c) f)), rand)
  | None =>
      '(VSSConstant, rand) ← sample_Scalar rand;
      '(VSSSecret, rand) ← NewPolynomial (Threshold (Round.info helper)) (Some VSSConstant) rand;
      Ret (Running (CK1 (mkCRound1 helper None None [] VSSSecret)), rand)
  end.

(** cmp.go: [Keygen] and [Refresh] *)
Definition Cmp_Keygen (selfID : ID) (participants : list ID) (threshold : Z) :
    option bytes -> reader -> outcome (ckg_session * reader) :=
  cmp_keygen_Start (mkInfo "cmp/keygen-threshold" cmp_keygen_Rounds selfID participants threshold (Some Name)) None.

Definition Cmp_Refresh (config : CmpConfig) : option bytes -> reader -> outcome (ckg_session * reader) :=
  cmp_keygen_Start (mkInfo "cmp/refresh-threshold" cmp_keygen_Rounds (cc_ID config) (PartyIDs config)
                      (cc_Threshold config) (Some Name)) (Some config).

End Keygen.
