(* ===== verification/CmpKeygenProps.v ===== *)
(** * What CMP key generation guarantees

    The rounds satisfy the interface laws of the handler, and an execution
    that ends, whatever the other parties sent, delivers a configuration whose
    shares belong to one key: the invariant [ckg_inv] over the abstract
    execution of [HandlerSpec]. *)

From Stdlib Require Import ZArith Lia Zmod Field.
From stdpp Require Import base gmap strings list pretty numbers.
From S2P Require Import Prelude Hash Curve Party Sample Polynomial Round Message Handler HandlerSpec Schnorr.
From S2P Require Import Arith SampleInts PaillierMath Paillier Pedersen Zk ZkSetup ExponentCodec FrostConfig FrostKeygenProps.
From S2P Require Import CmpConfig CmpKeygen.

Local Open Scope curve_scope.

(** One step of a chain of binds. *)
Ltac bind_step E := apply bind_ret_inv in E as (? & ? & E).

Section Laws.
Context {C : Curve} `{B3 : Blake3} {MO : MapOrder} {S : Saferith} {BP : BigPrime}.
Context {CR : Cbor rawExponentData} (fuel : nat) {CB : Cbor ckg_content}.

Lemma cround1_Finalize_ret r rand out r' out' rand' :
  cround1_Finalize fuel r rand out = Ret (r', out', rand') ->
  let x := ID_Scalar (cselfID r) in
  ck_round1 r' = r /\ x <> 0 /\
  (exists e, VSSPolynomials r' = {[cselfID r := e]} /\ NewPolynomialExponent (VSSSecret r) = Ret e) /\
  ShareReceived r' = {[cselfID r := horner x (coefficients (VSSSecret r))]} /\
  ElGamalPublic r' = {[cselfID r := Some (ActOnBase (ElGamalSecret r'))]} /\
  PaillierPublic r' = {[cselfID r := sk_PublicKey (PaillierSecret r')]} /\
  dom (PedersenPublic r') = {[cselfID r]}.
Proof.
  intros E x. unfold cround1_Finalize, cround1_share in E. apply bind_ret_inv in E as ([sk rd1] & _ & E).
  apply bind_ret_inv in E as ([[ped lam] rd2] & _ & E). apply bind_ret_inv in E as ([[y Y] rd3] & Ey & E).
  apply bind_ret_inv in E as (s & Es & E). apply bind_ret_inv in E as (e & Ee & E).
  apply bind_ret_inv in E as ([rnd rd4] & _ & E). apply bind_ret_inv in E as ([rid rd5] & _ & E).
  apply bind_ret_inv in E as ([ck rd6] & _ & E). apply bind_ret_inv in E as ([[cm dm] rd7] & _ & E).
  apply bind_ret_inv in E as (o & _ & E). injection E as <- _ _. cbn.
  unfold Evaluate, IsZero in Es. case_bool_decide as Hx; [done|]. injection Es as <-.
  apply bind_ret_inv in Ey as ([a rd] & _ & Ey). injection Ey as <- <- _.
  split_and!; try done; [by exists e|]. by rewrite dom_singleton_L.
Qed.

Lemma cround2_Store_ret r m r' :
  cround2_StoreBroadcastMessage r m = Ret r' ->
  exists cm, r' = mkCRound2 (ck_round1 r) (VSSPolynomials r) cm (RIDs r)
             (cmp_ChainKeys r) (ShareReceived r) (ElGamalPublic r) (PaillierPublic r) (PedersenPublic r)
             (ElGamalSecret r) (PaillierSecret r) (PedersenSecret r) (SchnorrRand r) (Decommitment r).
Proof.
  unfold cround2_StoreBroadcastMessage. destruct (rm_Content m); [|done..]. intros (u & _ & [= <-])%bind_ret_inv. eauto.
Qed.

Lemma cround2_Finalize_ret r out r' out' : cround2_Finalize r out = Ret (r', out') -> r' = mkCRound3 r ∅.
Proof. intros (p & _ & E)%bind_ret_inv. apply bind_ret_inv in E as (o & _ & [= <- _]). done. Qed.

Lemma cround3_Store_ret r m r' :
  cround3_StoreBroadcastMessage r m = Ret r' ->
  exists rid ck F A Y n s t c, Constant (VSSSecret (ck_round1 (ck_round2 r))) = Ret c /\
    IsConstant F = IsZero c /\ Exponent_Degree F = Threshold (info (ck_Helper (ck_round1 (ck_round2 r)))) /\
    ValidateN (Some n) = Ret tt /\ ValidateParameters (Some n) (Some s) (Some t) = Ret tt /\
    r' = mkCRound3 (store_public (ck_round2 r) (rm_From m) rid ck F (Some Y) n s t)
           (<[rm_From m := A]> (SchnorrCommitments r)).
Proof.
  unfold cround3_StoreBroadcastMessage. destruct (rm_Content m) as [|rid ck F A Y n s t d| | |]; [done| |done..].
  destruct n as [n|]; [|done]. destruct s as [s|]; [|done]. destruct t as [t|]; [|done].
  destruct F as [F|]; [|done]. destruct A as [A|]; [|done]. intros E.
  apply bind_ret_inv in E as (u1 & _ & E). apply bind_ret_inv in E as (u2 & _ & E).
  apply bind_ret_inv in E as (u3 & _ & E). apply bind_ret_inv in E as (c & Ec & E).
  destruct (Bool.eqb (IsZero c) (IsConstant F)) eqn:Eb; [|done]. cbn [negb] in E.
  destruct (bool_decide_reflect (Exponent_Degree F = Threshold (info (ck_Helper (ck_round1 (ck_round2 r)))))) as [Hd|];
    [|done]. cbn [negb] in E.
  apply bind_ret_inv in E as ([] & Hn & E). apply bind_ret_inv in E as ([] & Hp & E).
  destruct (Decommit _ _ _ _) eqn:Ed; [|done]. cbn [negb] in E. injection E as <-.
  assert (exists Y', Y = Some Y') as [Y' ->].
  { destruct Y as [Y'|]; [by exists Y'|]. exfalso. revert Ed. unfold Decommit.
    destruct (negb _); [done|]. destruct (negb _); [done|]. unfold committed. cbn.
    destruct (Exponent_MarshalBinary F); [|done..]. done. }
  apply eqb_prop in Eb. by exists rid, ck, F, A, Y', n, s, t, c.
Qed.

Lemma cround3_Finalize_ret r rand out r' out' rand' :
  cround3_Finalize fuel r rand out = Ret (r', out', rand') ->
  exists rid ck, r' = mkCRound4 (mkCRound3 (update_hash (ck_round2 r) (RID_any (Some rid))) (SchnorrCommitments r)) rid ck.
Proof.
  intros E. unfold cround3_Finalize in E. apply bind_ret_inv in E as (ck & _ & E). apply bind_ret_inv in E as (rid & _ & E).
  apply bind_ret_inv in E as (pk & _ & E). apply bind_ret_inv in E as ([md rd1] & _ & E).
  apply bind_ret_inv in E as (aux & _ & E). apply bind_ret_inv in E as ([pr rd2] & _ & E).
  apply bind_ret_inv in E as (o1 & _ & E). apply bind_ret_inv in E as ([o2 rd3] & _ & E).
  injection E as <- _ _. eauto.
Qed.

Lemma cround4_StoreBroadcast_ret r m r' : cround4_StoreBroadcastMessage fuel r m = Ret r' -> r' = r.
Proof.
  unfold cround4_StoreBroadcastMessage. destruct (rm_Content m); [done..| |done|done].
  intros (p & _ & E)%bind_ret_inv. apply bind_ret_inv in E as (ok & _ & E).
  destruct (negb ok); [done|]. destruct (negb _); [done|]. by injection E as <-.
Qed.

Lemma cround4_Store_ret r m r' :
  cround4_StoreMessage r m = Ret r' ->
  exists s F, VSSPolynomials (ck_round2 (ck_round3 r)) !! rm_From m = Some F /\
    s • 𝐆 = Exponent_Evaluate F (ID_Scalar (cselfID (ck_round1 (ck_round2 (ck_round3 r))))) /\
    r' = mkCRound4 (mkCRound3 (set_share (ck_round2 (ck_round3 r)) (rm_From m) s) (SchnorrCommitments (ck_round3 r)))
           (cmp_RID r) (cmp_ChainKey r).
Proof.
  unfold cround4_StoreMessage. destruct (rm_Content m) as [| | |sh fac|]; [done..| |done].
  intros (d & _ & E)%bind_ret_inv. destruct (negb (d =? _)%Z); [done|].
  apply bind_ret_inv in E as (F & EF%deref_ret & E). unfold PEqual in E.
  destruct (bool_decide_reflect (ActOnBase (scalar_of d) = Exponent_Evaluate F
    (ID_Scalar (cselfID (ck_round1 (ck_round2 (ck_round3 r))))))) as [Eq|]; [|done].
  injection E as <-. by exists (scalar_of d), F.
Qed.

Lemma cround5_Store_ret r m r' : cround5_StoreBroadcastMessage r m = Ret r' -> r' = r.
Proof.
  unfold cround5_StoreBroadcastMessage. destruct (rm_Content m) as [| | | |[z|]]; [done..| |done].
  destruct (negb _); [done|]. intros (p & _ & E)%bind_ret_inv. apply bind_ret_inv in E as (A & _ & E).
  apply bind_ret_inv in E as (ok & _ & E). destruct (negb ok); [done|]. by injection E as <-.
Qed.


Lemma cround4_Finalize_ret r out r' out' :
  cround4_Finalize r out = Ret (r', out') ->
  let r2 := ck_round2 (ck_round3 r) in
  let hp := ck_Helper (ck_round1 r2) in
  exists x F PD rid ck,
    add_received (ShareReceived r2) (default 0 (PreviousSecretECDSA (ck_round1 r2))) (partyIDs hp) = Ret x /\
    Polynomial.Sum (range_order (VSSPolynomials r2)).*2 = Ret F /\
    public_data r2 F (partyIDs hp) ∅ = Ret PD /\
    let config := mkCmpConfig (SelfID (info hp)) (Threshold (info hp)) x (ElGamalSecret r2) (PaillierSecret r2) rid ck PD in
    r' = mkCRound5 (mkCRound4 (mkCRound3 (update_hash r2 (Config_any config)) (SchnorrCommitments (ck_round3 r)))
           (cmp_RID r) (cmp_ChainKey r)) config.
Proof.
  intros E r2 hp. unfold cround4_Finalize in E. fold r2 hp in E.
  apply bind_ret_inv in E as (x & Ex & E). apply bind_ret_inv in E as (F & EF & E).
  apply bind_ret_inv in E as (PD & EP & E). apply bind_ret_inv in E as (own & _ & E).
  apply bind_ret_inv in E as (pf & _ & E). apply bind_ret_inv in E as (o & _ & E). injection E as <- _.
  exists x, F, PD, (RID_Copy (cmp_RID r)), (RID_Copy (cmp_ChainKey r)). done.
Qed.

Lemma ckg_same_round r r' :
  ckg_helper r' = ckg_helper r -> ckg_Number r' = ckg_Number r -> same_round (RO := ckg_ops fuel) r r'.
Proof. intros E1 E2. unfold same_round. cbn. rewrite E1. destruct r, r'; done. Qed.

Lemma finalized_inv {A} (next : A -> ckg_round) m out rand s out' rand' :
  finalized next m out rand = (Ret s, out', rand') -> exists r, m = Ret (r, out', rand') /\ s = Running (next r).
Proof. unfold finalized. destruct m as [[[r o] rd]| |]; [|done..]. intros [= <- <- <-]. by exists r. Qed.

Lemma finalized2_inv {A} (next : A -> ckg_round) (m : outcome (A * _)) out rand s out' rand' :
  finalized next ('(r', out) ← m; Ret (r', out, rand)) out rand = (Ret s, out', rand') ->
  exists r, m = Ret (r, out') /\ s = Running (next r).
Proof.
  intros (r & E & ->)%finalized_inv. apply bind_ret_inv in E as ([r' o] & Em & [= <- <- _]). by exists r'.
Qed.

#[export] Instance ckg_laws : RoundLaws (RO := ckg_ops fuel).
Proof.
  constructor; cbn.
  - intros []; cbn; lia.
  - intros [r|r|r|r|r] m r' E; cbn in E; [by injection E as <-..| |by injection E as <-].
    apply bind_ret_inv in E as (r4 & (s & F & _ & _ & ->)%cround4_Store_ret & [= <-]). by apply ckg_same_round.
  - intros [r|r|r|r|r] m r' E; cbn in E; [by injection E as <-|..].
    + apply bind_ret_inv in E as (r2 & (cm & ->)%cround2_Store_ret & [= <-]). by apply ckg_same_round.
    + apply bind_ret_inv in E as (r3 & (? & ? & ? & ? & ? & ? & ? & ? & ? & _ & _ & _ & _ & _ & ->)%cround3_Store_ret & [= <-]).
      by apply ckg_same_round.
    + apply bind_ret_inv in E as (r4 & ->%cround4_StoreBroadcast_ret & [= <-]). done.
    + apply bind_ret_inv in E as (r5 & ->%cround5_Store_ret & [= <-]). done.
  - intros [r|r|r|r|r] rand out r' out' rand' E; cbn in E; [..|done].
    + apply finalized_inv in E as (r2 & (E1 & _)%cround1_Finalize_ret & [= ->]). unfold ckg_helper. cbn. by rewrite E1.
    + apply finalized2_inv in E as (r3 & ->%cround2_Finalize_ret & [= ->]). done.
    + apply finalized_inv in E as (r4 & (rid & ck & ->)%cround3_Finalize_ret & [= ->]). done.
    + apply finalized2_inv in E as (r5 & (x & F & PD & rid & ck & _ & _ & _ & ->)%cround4_Finalize_ret & [= ->]). done.
  - intros [r|r|r|r|r] rand out h res out' rand' E; cbn in E.
    + by apply finalized_inv in E as (? & _ & ?).
    + by apply finalized2_inv in E as (? & _ & ?).
    + by apply finalized_inv in E as (? & _ & ?).
    + by apply finalized2_inv in E as (? & _ & ?).
    + by injection E as <- _ _ _.
  - intros [r|r|r|r|r] rand out h e c out' rand' E; cbn in E.
    + by apply finalized_inv in E as (? & _ & ?).
    + by apply finalized2_inv in E as (? & _ & ?).
    + by apply finalized_inv in E as (? & _ & ?).
    + by apply finalized2_inv in E as (? & _ & ?).
    + done.
Qed.

End Laws.

(** ** The invariant of an execution *)

Section Inv.
Context {C : Curve} {CL : CurveLaws C} `{B3 : Blake3} {MO : MapOrder} {MOL : MapOrderLaws} {S : Saferith} {BP : BigPrime}.
Context {CR : Cbor rawExponentData} (fuel : nat) {CB : Cbor ckg_content}.
Add Field scalar_field : scalar_field_theory.

(** The key that the first round refreshes, the zero key in a generation. *)
Record cmp_start_ok (L0 : list Point) (r0 : cround1) : Prop := {
  cs_session : session_ok (ck_Helper r0);
  cs_final : FinalRoundNumber (info (ck_Helper r0)) = cmp_keygen_Rounds;
  cs_length : Z.of_nat (length L0) = (Threshold (info (ck_Helper r0)) + 1)%Z;
  cs_degree : Z.of_nat (length (coefficients (VSSSecret r0))) = (Threshold (info (ck_Helper r0)) + 1)%Z;
  cs_share : share_of L0 (cselfID r0) (default 0 (PreviousSecretECDSA r0));
  cs_public : match PreviousPublicSharesECDSA r0 with
              | Some prev => (forall j P, prev !! j = Some P -> P = hornerP (ID_Scalar j) L0) /\
                             Constant (VSSSecret r0) = Ret 0
              | None => L0 = replicate (length L0) 𝟎
              end
}.

(** A polynomial that matches the one of the party: same degree, and a
    constant term exactly when that one has one. *)
Definition fits (r0 : cround1) (F : Exponent) : Prop :=
  exists c, Constant (VSSSecret r0) = Ret c /\ IsConstant F = IsZero c /\
    Exponent_Degree F = Threshold (info (ck_Helper r0)).

Record polys_ok (r0 : cround1) (polys : gmap ID Exponent) (B : gset ID) : Prop := {
  po_dom : dom polys = {[cselfID r0]} ∪ B;
  po_own : exists e, polys !! cselfID r0 = Some e /\ NewPolynomialExponent (VSSSecret r0) = Ret e;
  po_fits : map_Forall (fun _ F => fits r0 F) polys
}.

Definition received_ok (r0 : cround1) (polys : gmap ID Exponent) (shares : gmap ID Scalar) : Prop :=
  map_Forall (fun l s => exists e, polys !! l = Some e /\
    s • 𝐆 = Exponent_Evaluate e (ID_Scalar (cselfID r0))) shares.

(** The own entries belong to the secrets. *)
Definition own_ok (self : ID) (r : cround2) : Prop :=
  ElGamalPublic r !! self = Some (Some (ActOnBase (ElGamalSecret r))) /\
  PaillierPublic r !! self = Some (sk_PublicKey (PaillierSecret r)).

(** The first round, up to the hash state. *)
Definition same_start (r0 r1 : cround1) : Prop :=
  same_session (ck_Helper r0) (ck_Helper r1) /\ PreviousSecretECDSA r1 = PreviousSecretECDSA r0 /\
  PreviousPublicSharesECDSA r1 = PreviousPublicSharesECDSA r0 /\ VSSSecret r1 = VSSSecret r0.

(** What a delivered configuration is, for a key before and after. *)
Record cmp_output (L0 L : list Point) (r0 : cround1) (c : CmpConfig) : Prop := {
  out_valid : Cmp_valid L c;
  out_ID : cc_ID c = cselfID r0;
  out_threshold : cc_Threshold c = Threshold (info (ck_Helper r0));
  out_parties : dom (cc_Public c) = list_to_set (partyIDs (ck_Helper r0));
  out_key : is_Some (PreviousPublicSharesECDSA r0) -> hornerP 0 L = hornerP 0 L0
}.

Definition ckg_inv (L0 : list Point) (r0 : cround1) (r : ckg_round) (B M : gset ID) : Prop :=
  let others := list_to_set (otherPartyIDs (ck_Helper r0)) in
  match r with
  | CK1 r => r = r0
  | CK2 r => ck_round1 r = r0 /\ polys_ok r0 (VSSPolynomials r) ∅ /\ own_ok (cselfID r0) r /\
      dom (ShareReceived r) = {[cselfID r0]} /\ received_ok r0 (VSSPolynomials r) (ShareReceived r)
  | CK3 r => let r := ck_round2 r in
      ck_round1 r = r0 /\ polys_ok r0 (VSSPolynomials r) B /\ own_ok (cselfID r0) r /\
      dom (ShareReceived r) = {[cselfID r0]} /\ received_ok r0 (VSSPolynomials r) (ShareReceived r)
  | CK4 r => let r := ck_round2 (ck_round3 r) in
      same_start r0 (ck_round1 r) /\ polys_ok r0 (VSSPolynomials r) others /\ own_ok (cselfID r0) r /\
      dom (ShareReceived r) = {[cselfID r0]} ∪ M /\ received_ok r0 (VSSPolynomials r) (ShareReceived r)
  | CK5 r => exists L, cmp_output L0 L r0 (UpdatedConfig r)
  end.

Lemma fits_full r0 F : fits r0 F -> Z.of_nat (length (full F)) = (Threshold (info (ck_Helper r0)) + 1)%Z.
Proof.
  intros (c & _ & _ & Hd). unfold Exponent_Degree in Hd. unfold full. destruct (IsConstant F); cbn [length app]; lia.
Qed.

Lemma own_fits r0 e :
  Z.of_nat (length (coefficients (VSSSecret r0))) = (Threshold (info (ck_Helper r0)) + 1)%Z ->
  NewPolynomialExponent (VSSSecret r0) = Ret e -> fits r0 e.
Proof.
  intros Hl. unfold NewPolynomialExponent, fits, Constant. destruct (coefficients (VSSSecret r0)) as [|a l]; [done|].
  intros [= <-]. exists a. split; [done|]. unfold Exponent_Degree. cbn in *. unfold IsZero.
  case_bool_decide; cbn; (split; [done|]); rewrite length_fmap; cbn; lia.
Qed.

Lemma add_received_ret shares acc ids x :
  add_received shares acc ids = Ret x ->
  x = acc + sumS (getS shares) ids /\ forall j, j ∈ ids -> is_Some (shares !! j).
Proof.
  revert acc. induction ids as [|j ids IH]; intros acc; cbn [add_received sumS].
  - intros [= <-]. split; [ring|]. by intros j ?%elem_of_nil.
  - intros (s & Es%deref_ret & [-> Hi]%IH)%bind_ret_inv. unfold getS at 2. rewrite Es. cbn. split; [ring|].
    intros k [->|Hk]%elem_of_cons; [by rewrite Es|by apply Hi].
Qed.

(** The public data that round four computes for a party. *)
Definition data_of (r : cround2) (F : Exponent) (j : ID) (p : Public) : Prop :=
  pub_ECDSA p = match PreviousPublicSharesECDSA (ck_round1 r) with
                | Some prev => Exponent_Evaluate F (ID_Scalar j) ⊕ getP prev j
                | None => Exponent_Evaluate F (ID_Scalar j)
                end /\
  (forall prev, PreviousPublicSharesECDSA (ck_round1 r) = Some prev -> is_Some (prev !! j)) /\
  ElGamalPublic r !! j = Some (Some (pub_ElGamal p)) /\ PaillierPublic r !! j = Some (pub_Paillier p) /\
  PedersenPublic r !! j = Some (pub_Pedersen p).

Lemma public_data_ret r F ids acc PD :
  public_data r F ids acc = Ret PD -> map_Forall (data_of r F) acc ->
  map_Forall (data_of r F) PD /\ dom PD = dom acc ∪ list_to_set ids.
Proof.
  revert acc. induction ids as [|j ids IH]; intros acc; cbn [public_data].
  - intros [= <-] Ha. split; [done|]. set_solver.
  - intros (X & EX & E)%bind_ret_inv Ha. apply bind_ret_inv in E as (Y & EY%deref_ret & E).
    apply bind_ret_inv in E as (pk & Epk%deref_ret & E). apply bind_ret_inv in E as (ped & Eped%deref_ret & E).
    apply IH in E as [H1 H2].
    + split; [done|]. rewrite H2, dom_insert_L. cbn. set_solver.
    + apply map_Forall_insert_2; [|done]. assert (ElGamalPublic r !! j = Some (Some Y)) as EY'
        by (destruct (ElGamalPublic r !! j) as [[?|]|]; cbn in EY; congruence).
      unfold data_of. cbn. destruct (PreviousPublicSharesECDSA (ck_round1 r)) as [prev|].
      * apply bind_ret_inv in EX as (P & EP%deref_ret & [= <-]). unfold getP. rewrite EP. cbn.
        split_and!; try done. intros ? [= <-]. by rewrite EP.
      * injection EX as <-. by split_and!.
Qed.

(** The sum of the shares of all parties is the value of the key. *)
Lemma received_sum r0 polys shares ids :
  NoDup ids -> dom polys = list_to_set ids -> received_ok r0 polys shares ->
  (forall j, j ∈ ids -> is_Some (shares !! j)) ->
  sumS (getS shares) ids • 𝐆 = sumP (fun e => Exponent_Evaluate e (ID_Scalar (cselfID r0))) (map_to_list polys).*2.
Proof.
  intros ND Hd Hr Hs.
  set (g l := match polys !! l with Some e => Exponent_Evaluate e (ID_Scalar (cselfID r0)) | None => 𝟎 end).
  rewrite (sumP_map polys _ g ids ND Hd); [|by intros l e He; unfold g; rewrite He].
  rewrite <- sumP_act. apply sumP_ext. intros j Hj. destruct (Hs j Hj) as [s Es].
  destruct (Hr j s Es) as (e & He & E). unfold getS, g. by rewrite Es, He.
Qed.

Lemma refreshed_constant r0 F : fits r0 F -> Constant (VSSSecret r0) = Ret 0 -> hornerP 0 (full F) = 𝟎.
Proof.
  intros (c & Ec & Hc & _) E0. rewrite E0 in Ec. injection Ec as <-. unfold IsZero in Hc. rewrite bool_decide_true in Hc by done.
  unfold full. rewrite Hc. apply hornerP_0_cons.
Qed.

Lemma key_sum_zero es : (forall e, e ∈ es -> hornerP 0 (full e) = 𝟎) -> sumP (fun e => Exponent_Evaluate e 0) es = 𝟎.
Proof.
  induction es as [|e es IH]; intros He; cbn [sumP]; [done|].
  rewrite Exponent_Evaluate_full, He, padd_0_l by (by left). apply IH. intros e' ?. apply He. by right.
Qed.

(** Round four computes a configuration of the summed key. *)
Lemma cround4_output L0 r0 r out r' out' :
  cmp_start_ok L0 r0 -> ckg_inv L0 r0 (CK4 r) ∅ (list_to_set (otherPartyIDs (ck_Helper r0))) ->
  cround4_Finalize r out = Ret (r', out') ->
  cmp_output L0 (key_poly L0 (map_to_list (VSSPolynomials (ck_round2 (ck_round3 r)))).*2) r0 (UpdatedConfig r').
Proof.
  intros St (((Hi & Hp & Ho & _) & Es & Ep & Ev) & P & Own & D & R) E.
  apply cround4_Finalize_ret in E as (x & F & PD & rid & ck & Ex & EF & EP & ->). cbn [UpdatedConfig].
  set (r2 := ck_round2 (ck_round3 r)) in *. set (polys := VSSPolynomials r2) in *.
  set (L := key_poly L0 (map_to_list polys).*2). pose proof (cs_session _ _ St) as So.
  rewrite Hp in Ex, EP. rewrite Hi. apply add_received_ret in Ex as [-> Hx].
  apply public_data_ret in EP as [HP HD]; [|by apply map_Forall_empty]. rewrite dom_empty_L, union_empty_l_L in HD.
  assert (forall e, e ∈ (map_to_list polys).*2 -> fits r0 e) as Hfit.
  { intros e ([id e'] & -> & He%elem_of_map_to_list)%list_elem_of_fmap. by apply (po_fits _ _ _ P id). }
  assert (forall e, e ∈ (map_to_list polys).*2 -> length (full e) = length L0) as Hl.
  { intros e He. pose proof (fits_full _ _ (Hfit e He)). pose proof (cs_length _ _ St). lia. }
  assert (forall z, hornerP z L = hornerP z L0 ⊕ Exponent_Evaluate F z) as HL.
  { intros z. unfold L. rewrite key_poly_horner by done. f_equal. rewrite (Sum_ret _ _ EF).
    by rewrite (range_order_perm _ polys). }
  assert (dom polys = list_to_set (partyIDs (ck_Helper r0))) as Hdom.
  { rewrite (po_dom _ _ _ P), (session_ok_split _ So). done. }
  assert (forall j p, PD !! j = Some p -> pub_ECDSA p = hornerP (ID_Scalar j) L) as HX.
  { intros j p Hj. destruct (HP j p Hj) as (EX & Hprev & _). rewrite HL, EX, Ep. pose proof (cs_public _ _ St) as Hc.
    rewrite Ep in Hprev. destruct (PreviousPublicSharesECDSA r0) as [prev|].
    - destruct (Hprev prev eq_refl) as [Q EQ]. unfold getP. rewrite EQ. cbn. rewrite (proj1 Hc j Q EQ). apply padd_comm.
    - rewrite Hc, hornerP_zero. by rewrite padd_0_l. }
  assert (share_of L (cselfID r0) (default 0 (PreviousSecretECDSA r0) + sumS (getS (ShareReceived r2)) (partyIDs (ck_Helper r0)))) as Hsh.
  { unfold share_of. rewrite act_add. unfold L. rewrite key_poly_horner by done. f_equal; [apply St|].
    apply (received_sum r0 polys); [by apply session_ok_NoDup|done|done|done]. }
  rewrite Es.
  assert (is_Some (PD !! cselfID r0)) as [p Hself].
  { apply elem_of_dom. rewrite HD, elem_of_list_to_set. apply So. }
  split; cbn [cc_ID cc_Threshold cc_Public cc_ECDSA cc_ElGamal cc_Paillier]; try done.
  - split; cbn [cc_ID cc_Threshold cc_Public cc_ECDSA cc_ElGamal cc_Paillier]; [|done|].
    + split; [unfold L; rewrite key_poly_length by done; apply St|]. split; [apply So|]. split; [done|].
      intros k Q (p' & <- & Hk)%lookup_fmap_Some. by apply HX.
    + exists (pub_Pedersen p). fold (cselfID r0). rewrite Hself. f_equal. destruct (HP _ _ Hself) as (_ & _ & E1 & E2 & _).
      destruct Own as [O1 O2]. rewrite O1 in E1. rewrite O2 in E2. pose proof (HX _ _ Hself) as E0.
      rewrite <- Hsh in E0. destruct p as [pe pg pp pd]. cbn [pub_ECDSA pub_ElGamal pub_Paillier pub_Pedersen] in *.
      injection E1 as <-. injection E2 as <-. by rewrite E0.
  - intros [prev Hprev]. rewrite HL. pose proof (cs_public _ _ St) as Hc. rewrite Hprev in Hc. destruct Hc as [_ Hc].
    rewrite (Sum_ret _ _ EF), (range_order_perm _ polys), key_sum_zero; [by rewrite padd_0_r|].
    intros e He. by apply (refreshed_constant r0 e (Hfit e He)).
Qed.

#[local] Instance ops_fuel : RoundOps ckg_round ckg_content CmpConfig := ckg_ops fuel.

Lemma polys_ok_insert r0 polys B id F :
  polys_ok r0 polys B -> id <> cselfID r0 -> fits r0 F -> polys_ok r0 (<[id := F]> polys) ({[id]} ∪ B).
Proof.
  intros [D (e & Ho & Ee) Hf] N HF. split.
  - rewrite dom_insert_L, D. set_solver.
  - exists e. by rewrite lookup_insert_ne.
  - by apply map_Forall_insert_2.
Qed.

Lemma received_ok_insert r0 polys shares id F :
  received_ok r0 polys shares -> shares !! id = None \/ id = cselfID r0 -> id <> cselfID r0 ->
  received_ok r0 (<[id := F]> polys) shares.
Proof.
  intros R Hn N j s Hj. destruct (R j s Hj) as (e & He & E). exists e. split; [|done].
  rewrite lookup_insert_ne; [done|]. intros ->. destruct Hn as [Hn|]; congruence.
Qed.

(** The senders of a complete round are the other parties. *)
Lemma all_senders L0 r0 r B M :
  cmp_start_ok L0 r0 -> reached (CK1 r0) r B M -> complete r B M -> (2 <= ckg_Number r)%Z ->
  (ckg_is_broadcast r = true -> B = list_to_set (otherPartyIDs (ck_Helper r0))) /\
  (is_Some (ckg_MessageContent r) -> M = list_to_set (otherPartyIDs (ck_Helper r0))).
Proof.
  intros St Re Hc Hn. pose proof (reached_session _ _ _ _ Re) as (Hi & _ & Ho & _).
  assert (2 <= r_Number r <= r_Final r)%Z as Hr.
  { split; [done|]. unfold r_Final. rewrite Hi. change (r_helper (CK1 r0)) with (ck_Helper r0). rewrite (cs_final _ _ St).
    unfold cmp_keygen_Rounds. destruct r; cbn; lia. }
  specialize (Hc Hr). unfold r_others in Hc. rewrite Ho in Hc. split; intros Hb; apply set_eq; intros id;
    rewrite elem_of_list_to_set; (split; [intros Hid; apply (reached_senders _ _ _ _ id Re); tauto|]);
    intros Hid; by apply (Hc id Hid).
Qed.

Lemma ckg_reached L0 r0 r B M : cmp_start_ok L0 r0 -> reached (CK1 r0) r B M -> ckg_inv L0 r0 r B M.
Proof.
  intros St Re. pose proof (cs_session _ _ St) as So.
  assert (forall id, id ∈ otherPartyIDs (ck_Helper r0) -> id <> cselfID r0) as Hne.
  { intros id. rewrite (so_others _ So), elem_of_Remove. unfold cselfID. tauto. }
  induction Re as [|r B M m r' Re IH Hb _ Ho _ Es|r B M m r' Re IH _ _ Ho _ _ _ Es|r B M rand r' o q Re IH Hc E];
    [done|..].
  - apply reached_session in Re as (_ & _ & Eo & _). unfold r_others in Ho. rewrite Eo in Ho. apply Hne in Ho.
    destruct r as [r|r|r|r|r]; [done|..]; cbn in Es, IH.
    + apply bind_ret_inv in Es as (r2 & (cm & ->)%cround2_Store_ret & [= <-]). exact IH.
    + apply bind_ret_inv in Es as (r3 & (rid & ck & F & A & Y & n & s & t & c & Ec & Hc & Hd & _ & _ & ->)%cround3_Store_ret & [= <-]).
      destruct IH as (E1 & P & [O1 O2] & D & R). cbn. rewrite E1 in Ec, Hd.
      assert (ShareReceived (ck_round2 r) !! rm_From m = None) as Hn by (apply not_elem_of_dom; rewrite D; set_solver).
      split_and!; [done|apply polys_ok_insert; [done|done|by exists c]| |done|].
      * split; cbn; by rewrite lookup_insert_ne.
      * apply received_ok_insert; [done|by left|done].
    + apply bind_ret_inv in Es as (r4 & ->%cround4_StoreBroadcast_ret & [= <-]). exact IH.
    + apply bind_ret_inv in Es as (r5 & ->%cround5_Store_ret & [= <-]). exact IH.
  - destruct r as [r|r|r|r|r]; cbn in Es, IH; [by injection Es as <-..| |by injection Es as <-].
    apply bind_ret_inv in Es as (r4 & (s & F & HF & Hs & ->)%cround4_Store_ret & [= <-]).
    destruct IH as (((Hi & Hp & Hot & Hss) & E2 & E3 & E4) & P & O & D & R). cbn. split_and!; try done.
    + rewrite dom_insert_L, D. set_solver.
    + apply map_Forall_insert_2; [|done]. exists F. split; [done|]. rewrite Hs. unfold cselfID. by rewrite Hi.
  - destruct r as [r|r|r|r|r]; cbn in E, IH; [..|done].
    + subst r. apply finalized_inv in E as (r2 & Ef & [= ->]).
      apply cround1_Finalize_ret in Ef as (E1 & Hx & (e & EP & Ee) & ES & EG & EK & _). cbn.
      split_and!; [done| | | |].
      * rewrite EP. split; [rewrite dom_singleton_L; set_solver|exists e; by rewrite lookup_singleton_eq|].
        apply map_Forall_singleton. apply own_fits; [apply St|done].
      * split; [by rewrite EG, lookup_singleton_eq|by rewrite EK, lookup_singleton_eq].
      * by rewrite ES, dom_singleton_L.
      * rewrite ES, EP. apply map_Forall_singleton. exists e. rewrite lookup_singleton_eq. split; [done|].
        symmetry. by apply Exponent_Evaluate_base.
    + apply finalized2_inv in E as (r3 & ->%cround2_Finalize_ret & [= ->]). exact IH.
    + apply finalized_inv in E as (r4 & (rid & ck & ->)%cround3_Finalize_ret & [= ->]).
      destruct (all_senders L0 r0 (CK3 r) B M St Re Hc) as [HB _]; [cbn; lia|]. rewrite (HB eq_refl) in IH.
      destruct IH as (E1 & P & O & D & R). cbn. rewrite E1. split_and!; try done. by rewrite union_empty_r_L.
    + apply finalized2_inv in E as (r5 & Ef & [= ->]).
      destruct (all_senders L0 r0 (CK4 r) B M St Re Hc) as [_ HM]; [cbn; lia|]. rewrite HM in IH by done.
      eexists. by apply (cround4_output L0 r0 r _ r5 _ St IH Ef).
Qed.

Lemma ckg_delivered L0 r0 c : cmp_start_ok L0 r0 -> delivered (CK1 r0) c -> exists L, cmp_output L0 L r0 c.
Proof.
  intros St D. inversion D as [r B M rand h res out' rand' Re Hc E]; subst.
  apply (ckg_reached L0) in Re; [|done]. destruct r as [r|r|r|r|r]; cbn in E.
  - by apply finalized_inv in E as (? & _ & ?).
  - by apply finalized2_inv in E as (? & _ & ?).
  - by apply finalized_inv in E as (? & _ & ?).
  - by apply finalized2_inv in E as (? & _ & ?).
  - injection E as _ <- _ _. exact Re.
Qed.

(** ** The starts *)

Lemma sample_coefficients_length n rand l rand' : sample_coefficients n rand = Ret (l, rand') -> length l = n.
Proof.
  revert rand l. induction n as [|n IH]; intros rand l; cbn; [by intros [= <- _]|].
  intros ([a r] & _ & E)%bind_ret_inv. apply bind_ret_inv in E as ([l' r'] & Hl & [= <- <-]). cbn. f_equal. by eapply IH.
Qed.

Lemma NewPolynomial_ret t c rand f rand' :
  NewPolynomial t (Some c) rand = Ret (f, rand') ->
  Z.of_nat (length (coefficients f)) = (t + 1)%Z /\ Constant f = Ret c.
Proof.
  unfold NewPolynomial. destruct (decide _); [done|]. intros ([l r] & Hl%sample_coefficients_length & [= <- _])%bind_ret_inv.
  cbn. rewrite Hl. split; [lia|done].
Qed.

Definition zero_key (t : Z) : list Point := replicate (Z.to_nat (t + 1)) 𝟎.

Lemma Cmp_Keygen_start self ids t sid rand r rand' :
  Cmp_Keygen self ids t sid rand = Ret (Running r, rand') ->
  exists r0, r = CK1 r0 /\ cmp_start_ok (zero_key t) r0 /\ cselfID r0 = self /\ Threshold (info (ck_Helper r0)) = t /\
    partyIDs (ck_Helper r0) = NewIDSlice ids /\ PreviousPublicSharesECDSA r0 = None.
Proof.
  intros (h & [So Hi]%wrap_err_ret%NewSession_ok & E)%bind_ret_inv. apply bind_ret_inv in E as ([c rd] & _ & E).
  apply bind_ret_inv in E as ([f rd2] & Hf%NewPolynomial_ret & [= <- _]). eexists. split; [done|].
  pose proof (so_threshold _ So). rewrite Hi in *. cbn in *. unfold cselfID. cbn. rewrite Hi.
  split; [|split_and!; try done; by rewrite (so_ids _ So), Hi]. split; cbn; try done; rewrite ?Hi; cbn; try done.
  - unfold zero_key. rewrite length_replicate. lia.
  - apply Hf.
  - unfold share_of, zero_key. by rewrite hornerP_zero, act_0.
  - unfold zero_key. by rewrite length_replicate.
Qed.

Lemma Cmp_Refresh_start L0 config sid rand r rand' :
  Cmp_valid L0 config -> Cmp_Refresh config sid rand = Ret (Running r, rand') ->
  exists r0, r = CK1 r0 /\ cmp_start_ok L0 r0 /\ cselfID r0 = cc_ID config /\
    Threshold (info (ck_Helper r0)) = cc_Threshold config /\
    partyIDs (ck_Helper r0) = NewIDSlice (PartyIDs config) /\ is_Some (PreviousPublicSharesECDSA r0).
Proof.
  intros V (h & [So Hi]%wrap_err_ret%NewSession_ok & E)%bind_ret_inv.
  apply bind_ret_inv in E as ([f rd2] & [Hl Hc]%NewPolynomial_ret & [= <- _]). eexists. split; [done|].
  pose proof (cv_key _ _ V) as (K1 & K2 & _ & K3). rewrite Hi in *. cbn in *. unfold cselfID. cbn. rewrite Hi.
  split; [|split_and!; try done; by rewrite (so_ids _ So), Hi]. split; cbn; try done; rewrite ?Hi; cbn; try done.
  unfold cselfID. cbn. rewrite Hi. exact (cv_share _ _ V).
Qed.

End Inv.
