(* ===== verification/CmpSign.v ===== *)
(** * protocols/cmp/sign: threshold ECDSA signing in five rounds

    The rounds of the interactive CMP signing protocol; every handler of
    [sign/round*.go] is one definition.  [Parallelize] is the loop it is
    without a pool. *)

From Stdlib Require Import ZArith Lia Zmod Field.
From Stdlib Require Import Strings.Byte.
From stdpp Require Import base gmap strings list pretty numbers.
From S2P Require Import Prelude Hash Curve Party Sample Polynomial Round Message Handler.
From S2P Require Import Arith SampleInts PaillierMath Paillier Pedersen Zk ZkEnc ZkAff Mta Ecdsa CmpConfig.

Local Open Scope curve_scope.

Definition protocolSignID : string := "cmp/sign".
Definition protocolSignRounds : Number := 5%Z.

Section Sign.
Context {C : Curve} `{B3 : Blake3} {MO : MapOrder} {S : Saferith}.

(** ** Rounds and messages *)

Record sgn1 := mkSgn1 {
  sg_Helper : Helper;
  sg_PublicKey : Point;
  sg_SecretECDSA : Scalar;
  sg_SecretPaillier : SecretKey;
  sg_Paillier : gmap ID PublicKey;
  sg_Pedersen : gmap ID Parameters;
  sg_ECDSA : gmap ID Point;
  sg_Message : bytes
}.

Record sgn2 := mkSgn2 {
  sg_round1 : sgn1;
  sg_K : gmap ID Ciphertext;
  sg_G : gmap ID Ciphertext;
  sg_BigGammaShare : gmap ID Point;
  sg_GammaShare : Z;
  sg_KShare : Scalar;
  sg_KNonce : Z;
  sg_GNonce : Z
}.

Record sgn3 := mkSgn3 {
  sg_round2 : sgn2;
  sg_DeltaShareAlpha : gmap ID Z;
  sg_DeltaShareBeta : gmap ID Z;
  sg_ChiShareAlpha : gmap ID Z;
  sg_ChiShareBeta : gmap ID Z
}.

Record sgn4 := mkSgn4 {
  sg_round3 : sgn3;
  sg_DeltaShares : gmap ID Scalar;
  sg_BigDeltaShares : gmap ID Point;
  sg_Gamma : Point;
  sg_ChiShare : Scalar
}.

Record sgn5 := mkSgn5 {
  sg_round4 : sgn4;
  sg_SigmaShares : gmap ID Scalar;
  sg_Delta : Scalar;
  sg_BigDelta : Point;
  sg_BigR : Point;
  sg_R : Scalar
}.

Inductive sgn_round :=
| SG1 (r : sgn1)
| SG2 (r : sgn2)
| SG3 (r : sgn3)
| SG4 (r : sgn4)
| SG5 (r : sgn5).

Inductive sgn_content :=
| SgBroadcast2 (K G : option Ciphertext)
| SgMessage2 (ProofEnc : option zkenc_Proof)
| SgBroadcast3 (BigGammaShare : option Point)
| SgMessage3 (DeltaD DeltaF : option Ciphertext) (DeltaProof : option zkaffg_Proof)
    (ChiD ChiF : option Ciphertext) (ChiProof : option zkaffg_Proof) (ProofLog : option zklogstar_Proof)
| SgBroadcast4 (DeltaShare : option Scalar) (BigDeltaShare : option Point)
| SgMessage4 (ProofLog : option zklogstar_Proof)
| SgBroadcast5 (SigmaShare : option Scalar).

Definition sgn_round1 (r : sgn_round) : sgn1 :=
  match r with
  | SG1 r => r
  | SG2 r => sg_round1 r
  | SG3 r => sg_round1 (sg_round2 r)
  | SG4 r => sg_round1 (sg_round2 (sg_round3 r))
  | SG5 r => sg_round1 (sg_round2 (sg_round3 (sg_round4 r)))
  end.

Definition sgn_helper (r : sgn_round) : Helper := sg_Helper (sgn_round1 r).
Definition sgn_self (r : sgn1) : ID := SelfID (info (sg_Helper r)).

Definition sgn_Number (r : sgn_round) : Number :=
  match r with SG1 _ => 1 | SG2 _ => 2 | SG3 _ => 3 | SG4 _ => 4 | SG5 _ => 5 end%Z.

Definition sgn_is_broadcast (r : sgn_round) : bool := match r with SG1 _ => false | _ => true end.

Definition sgn_MessageContent (r : sgn_round) : option sgn_content :=
  match r with
  | SG1 _ => None
  | SG2 _ => Some (SgMessage2 None)
  | SG3 _ => Some (SgMessage3 None None (Some zkaffg_Empty) None None (Some zkaffg_Empty) (Some zklogstar_Empty))
  | SG4 _ => Some (SgMessage4 (Some zklogstar_Empty))
  | SG5 _ => None
  end.

Definition sgn_BroadcastContent (r : sgn_round) : option sgn_content :=
  match r with
  | SG1 _ => None
  | SG2 _ => Some (SgBroadcast2 None None)
  | SG3 _ => Some (SgBroadcast3 (Some 𝟎))
  | SG4 _ => Some (SgBroadcast4 (Some 0) (Some 𝟎))
  | SG5 _ => Some (SgBroadcast5 (Some 0))
  end.

Definition sgn_RoundNumber (c : sgn_content) : Number :=
  match c with
  | SgBroadcast2 _ _ | SgMessage2 _ => 2
  | SgBroadcast3 _ | SgMessage3 _ _ _ _ _ _ _ => 3
  | SgBroadcast4 _ _ | SgMessage4 _ => 4
  | SgBroadcast5 _ => 5
  end%Z.

Abbreviation sgn_message := (round_Message sgn_content).
Abbreviation sgn_session := (Session sgn_round Signature).

(** ** Round 1 *)

(** The proofs for the other parties. *)
Fixpoint send_enc_proofs (r : sgn1) (K : Ciphertext) (KShare : Scalar) (KNonce : Z) (ids : list ID)
    (rand : reader) (out : chan sgn_message) : outcome (chan sgn_message * reader) :=
  match ids with
  | [] => Ret (out, rand)
  | j :: ids =>
      pk ← deref (sg_Paillier r !! sgn_self r);
      aux ← deref (sg_Pedersen r !! j);
      '(proof, rand) ← zkenc_NewProof (HashForID (sg_Helper r) (sgn_self r)) (mkEncPublic K pk aux)
                         (mkEncPrivate (MakeInt KShare) KNonce) rand;
      out ← SendMessage (sg_Helper r) out (SgMessage2 (Some proof)) j;
      send_enc_proofs r K KShare KNonce ids rand out
  end.

Definition sgn1_Finalize (r : sgn1) (rand : reader) (out : chan sgn_message) :
    outcome (sgn2 * chan sgn_message * reader) :=
  let h := sg_Helper r in
  let self := sgn_self r in
  '(GammaShare, BigGammaShare, rand) ← sample_ScalarPointPair rand;
  pk ← deref (sg_Paillier r !! self);
  '(G, GNonce, rand) ← Enc pk (MakeInt GammaShare) rand;
  '(KShare, rand) ← sample_Scalar rand;
  '(K, KNonce, rand) ← Enc pk (MakeInt KShare) rand;
  out ← BroadcastMessage h out (SgBroadcast2 (Some K) (Some G));
  '(out, rand) ← send_enc_proofs r K KShare KNonce (otherPartyIDs h) rand out;
  Ret (mkSgn2 r {[self := K]} {[self := G]} {[self := BigGammaShare]} (MakeInt GammaShare) KShare KNonce GNonce,
       out, rand).

(** ** Round 2 *)

Definition sgn2_StoreBroadcastMessage (r : sgn2) (msg : sgn_message) : outcome sgn2 :=
  let from := rm_From msg in
  match rm_Content msg with
  | SgBroadcast2 K G =>
      pk ← deref (sg_Paillier (sg_round1 r) !! from);
      if negb (ValidateCiphertexts pk [K; G]) then Fail "invalid K, G"
      else
        K ← deref K;
        G ← deref G;
        Ret (mkSgn2 (sg_round1 r) (<[from := K]> (sg_K r)) (<[from := G]> (sg_G r)) (sg_BigGammaShare r)
               (sg_GammaShare r) (sg_KShare r) (sg_KNonce r) (sg_GNonce r))
  | _ => Fail ErrInvalidContent
  end.

Definition sgn2_VerifyMessage (r : sgn2) (msg : sgn_message) : outcome unit :=
  let from := rm_From msg in
  let r1 := sg_round1 r in
  match rm_Content msg with
  | SgMessage2 ProofEnc =>
      match ProofEnc with
      | None => Fail Round.ErrNilFields
      | Some proof =>
          K ← deref (sg_K r !! from);
          pk ← deref (sg_Paillier r1 !! from);
          aux ← deref (sg_Pedersen r1 !! rm_To msg);
          ok ← zkenc_Verify (Some proof) (HashForID (sg_Helper r1) from) (mkEncPublic K pk aux);
          guard_or ok "failed to validate enc proof for K"
      end
  | _ => Fail ErrInvalidContent
  end.

(** The two MtA and the proof for one party, and the two shares β. *)
Definition mta_step (r : sgn2) (j : ID) (rand : reader) (out : chan sgn_message) :
    outcome (Z * Z * chan sgn_message * reader) :=
  let r1 := sg_round1 r in
  let self := sgn_self r1 in
  let h := HashForID (sg_Helper r1) self in
  BigGamma ← deref (sg_BigGammaShare r !! self);
  Kj ← deref (sg_K r !! j);
  pkj ← deref (sg_Paillier r1 !! j);
  auxj ← deref (sg_Pedersen r1 !! j);
  '(DeltaBeta, DeltaD, DeltaF, DeltaProof, rand) ←
    ProveAffG h (sg_GammaShare r) BigGamma Kj (sg_SecretPaillier r1) pkj auxj rand;
  X ← deref (sg_ECDSA r1 !! self);
  '(ChiBeta, ChiD, ChiF, ChiProof, rand) ←
    ProveAffG h (MakeInt (sg_SecretECDSA r1)) X Kj (sg_SecretPaillier r1) pkj auxj rand;
  G ← deref (sg_G r !! self);
  pk ← deref (sg_Paillier r1 !! self);
  '(proof, rand) ← zklogstar_NewProof h (mkLogstarPublic G BigGamma None pk auxj)
                     (mkLogstarPrivate (sg_GammaShare r) (sg_GNonce r)) rand;
  out ← SendMessage (sg_Helper r1) out
          (SgMessage3 (Some DeltaD) (Some DeltaF) (Some DeltaProof) (Some ChiD) (Some ChiF) (Some ChiProof)
             (Some proof)) j;
  Ret (DeltaBeta, ChiBeta, out, rand).

Fixpoint mta_loop (r : sgn2) (ids : list ID) (deltas chis : gmap ID Z) (rand : reader) (out : chan sgn_message) :
    outcome (gmap ID Z * gmap ID Z * chan sgn_message * reader) :=
  match ids with
  | [] => Ret (deltas, chis, out, rand)
  | j :: ids =>
      '(DeltaBeta, ChiBeta, out, rand) ← mta_step r j rand out;
      mta_loop r ids (<[j := DeltaBeta]> deltas) (<[j := ChiBeta]> chis) rand out
  end.

Definition sgn2_Finalize (r : sgn2) (rand : reader) (out : chan sgn_message) :
    outcome (sgn3 * chan sgn_message * reader) :=
  let h := sg_Helper (sg_round1 r) in
  out ← BroadcastMessage h out (SgBroadcast3 (sg_BigGammaShare r !! sgn_self (sg_round1 r)));
  '(deltas, chis, out, rand) ← mta_loop r (otherPartyIDs h) ∅ ∅ rand out;
  Ret (mkSgn3 r ∅ deltas ∅ chis, out, rand).

(** ** Round 3 *)

Definition set_BigGamma (r : sgn2) (m : gmap ID Point) : sgn2 :=
  mkSgn2 (sg_round1 r) (sg_K r) (sg_G r) m (sg_GammaShare r) (sg_KShare r) (sg_KNonce r) (sg_GNonce r).

Definition sgn3_StoreBroadcastMessage (r : sgn3) (msg : sgn_message) : outcome sgn3 :=
  match rm_Content msg with
  | SgBroadcast3 BigGammaShare =>
      P ← deref BigGammaShare;
      if IsIdentity P then Fail Round.ErrNilFields
      else Ret (mkSgn3 (set_BigGamma (sg_round2 r) (<[rm_From msg := P]> (sg_BigGammaShare (sg_round2 r))))
                  (sg_DeltaShareAlpha r) (sg_DeltaShareBeta r) (sg_ChiShareAlpha r) (sg_ChiShareBeta r))
  | _ => Fail ErrInvalidContent
  end.

(** [zkaffg.Verify] on ciphertexts of a message: the challenge of a proof on a
    nil ciphertext is an error. *)
Definition affg_verified (p : option zkaffg_Proof) (h : Hash) (Kv : Ciphertext) (Dv Fp : option Ciphertext) (Xp : Point)
    (prover verifier : PublicKey) (aux : Parameters) : outcome bool :=
  match Dv, Fp with
  | Some D, Some F => zkaffg_Verify p h (mkAffgPublic Kv D F Xp prover verifier aux)
  | _, _ => _ ← zkaffg_IsValid p (mkAffgPublic Kv 0%Z 0%Z Xp prover verifier aux); Ret false
  end.

Definition sgn3_VerifyMessage (r : sgn3) (msg : sgn_message) : outcome unit :=
  let from := rm_From msg in
  let to := rm_To msg in
  let r2 := sg_round2 r in
  let r1 := sg_round1 r2 in
  let h := HashForID (sg_Helper r1) from in
  match rm_Content msg with
  | SgMessage3 DeltaD DeltaF DeltaProof ChiD ChiF ChiProof ProofLog =>
      K ← deref (sg_K r2 !! to);
      Gamma ← deref (sg_BigGammaShare r2 !! from);
      prover ← deref (sg_Paillier r1 !! from);
      verifier ← deref (sg_Paillier r1 !! to);
      aux ← deref (sg_Pedersen r1 !! to);
      ok ← affg_verified DeltaProof h K DeltaD DeltaF Gamma prover verifier aux;
      _ ← guard_or ok "failed to validate affg proof for Delta MtA";
      X ← deref (sg_ECDSA r1 !! from);
      ok ← affg_verified ChiProof h K ChiD ChiF X prover verifier aux;
      _ ← guard_or ok "failed to validate affg proof for Chi MtA";
      G ← deref (sg_G r2 !! from);
      ok ← zklogstar_Verify ProofLog h (mkLogstarPublic G Gamma None prover aux);
      guard_or ok "failed to validate log proof"
  | _ => Fail ErrInvalidContent
  end.

Definition sgn3_StoreMessage (r : sgn3) (msg : sgn_message) : outcome sgn3 :=
  let from := rm_From msg in
  let sk := sg_SecretPaillier (sg_round1 (sg_round2 r)) in
  match rm_Content msg with
  | SgMessage3 DeltaD _ _ ChiD _ _ _ =>
      DeltaShareAlpha ← wrap_err "failed to decrypt alpha share for delta: " (Dec sk DeltaD);
      ChiShareAlpha ← wrap_err "failed to decrypt alpha share for chi: " (Dec sk ChiD);
      Ret (mkSgn3 (sg_round2 r) (<[from := DeltaShareAlpha]> (sg_DeltaShareAlpha r)) (sg_DeltaShareBeta r)
             (<[from := ChiShareAlpha]> (sg_ChiShareAlpha r)) (sg_ChiShareBeta r))
  | _ => Panic "interface conversion: round.Content is not *sign.message3"
  end.

(** [for _, j := range r.OtherPartyIDs() { share += α[j]; share += β[j] }] *)
Fixpoint add_shares_of (alpha beta : gmap ID Z) (acc : Z) (ids : list ID) : outcome Z :=
  match ids with
  | [] => Ret acc
  | j :: ids =>
      a ← deref (alpha !! j);
      b ← deref (beta !! j);
      add_shares_of alpha beta (acc + a + b)%Z ids
  end.

Fixpoint send_log_proofs (r : sgn3) (BigDeltaShare Gamma : Point) (ids : list ID) (rand : reader)
    (out : chan sgn_message) : outcome (chan sgn_message * reader) :=
  match ids with
  | [] => Ret (out, rand)
  | j :: ids =>
      let r2 := sg_round2 r in
      let r1 := sg_round1 r2 in
      K ← deref (sg_K r2 !! sgn_self r1);
      pk ← deref (sg_Paillier r1 !! sgn_self r1);
      aux ← deref (sg_Pedersen r1 !! j);
      '(proofLog, rand) ← zklogstar_NewProof (HashForID (sg_Helper r1) (sgn_self r1))
                            (mkLogstarPublic K BigDeltaShare (Some Gamma) pk aux)
                            (mkLogstarPrivate (MakeInt (sg_KShare r2)) (sg_KNonce r2)) rand;
      out ← SendMessage (sg_Helper r1) out (SgMessage4 (Some proofLog)) j;
      send_log_proofs r BigDeltaShare Gamma ids rand out
  end.

Definition sgn3_Finalize (r : sgn3) (rand : reader) (out : chan sgn_message) :
    outcome (sgn4 * chan sgn_message * reader) :=
  let r2 := sg_round2 r in
  let r1 := sg_round1 r2 in
  let h := sg_Helper r1 in
  let self := sgn_self r1 in
  let Gamma := foldl PAdd 𝟎 (range_order (sg_BigGammaShare r2)).*2 in
  let KShareInt := MakeInt (sg_KShare r2) in
  let BigDeltaShare := sg_KShare r2 • Gamma in
  let DeltaShare := (sg_GammaShare r2 * KShareInt)%Z in
  let ChiShare := (MakeInt (sg_SecretECDSA r1) * KShareInt)%Z in
  DeltaShare ← add_shares_of (sg_DeltaShareAlpha r) (sg_DeltaShareBeta r) DeltaShare (otherPartyIDs h);
  ChiShare ← add_shares_of (sg_ChiShareAlpha r) (sg_ChiShareBeta r) ChiShare (otherPartyIDs h);
  let DeltaShareScalar := scalar_of DeltaShare in
  out ← BroadcastMessage h out (SgBroadcast4 (Some DeltaShareScalar) (Some BigDeltaShare));
  '(out, rand) ← send_log_proofs r BigDeltaShare Gamma (otherPartyIDs h) rand out;
  Ret (mkSgn4 r {[self := DeltaShareScalar]} {[self := BigDeltaShare]} Gamma (scalar_of ChiShare), out, rand).

(** ** Round 4 *)

Definition sgn4_StoreBroadcastMessage (r : sgn4) (msg : sgn_message) : outcome sgn4 :=
  match rm_Content msg with
  | SgBroadcast4 DeltaShare BigDeltaShare =>
      d ← deref DeltaShare;
      if IsZero d then Fail Round.ErrNilFields
      else
        D ← deref BigDeltaShare;
        if IsIdentity D then Fail Round.ErrNilFields
        else Ret (mkSgn4 (sg_round3 r) (<[rm_From msg := d]> (sg_DeltaShares r))
                    (<[rm_From msg := D]> (sg_BigDeltaShares r)) (sg_Gamma r) (sg_ChiShare r))
  | _ => Fail ErrInvalidContent
  end.

Definition sgn4_VerifyMessage (r : sgn4) (msg : sgn_message) : outcome unit :=
  let from := rm_From msg in
  let r2 := sg_round2 (sg_round3 r) in
  let r1 := sg_round1 r2 in
  match rm_Content msg with
  | SgMessage4 ProofLog =>
      K ← deref (sg_K r2 !! from);
      X ← deref (sg_BigDeltaShares r !! from);
      prover ← deref (sg_Paillier r1 !! from);
      aux ← deref (sg_Pedersen r1 !! rm_To msg);
      ok ← zklogstar_Verify ProofLog (HashForID (sg_Helper r1) from)
             (mkLogstarPublic K X (Some (sg_Gamma r)) prover aux);
      guard_or ok "failed to validate log proof"
  | _ => Fail ErrInvalidContent
  end.

(** [for _, j := range r.PartyIDs()]: the sums δ and Δ. *)
Fixpoint sum_deltas (deltas : gmap ID Scalar) (bigs : gmap ID Point) (d : Scalar) (D : Point) (ids : list ID) :
    outcome (Scalar * Point) :=
  match ids with
  | [] => Ret (d, D)
  | j :: ids =>
      dj ← deref (deltas !! j);
      Dj ← deref (bigs !! j);
      sum_deltas deltas bigs (d + dj) (D ⊕ Dj) ids
  end.

(** Either the next round or the error of the abort round. *)
Definition sgn4_Finalize (r : sgn4) (out : chan sgn_message) : outcome ((sgn5 + string) * chan sgn_message) :=
  let r2 := sg_round2 (sg_round3 r) in
  let r1 := sg_round1 r2 in
  let h := sg_Helper r1 in
  '(Delta, BigDelta) ← sum_deltas (sg_DeltaShares r) (sg_BigDeltaShares r) 0 𝟎 (partyIDs h);
  let deltaComputed := ActOnBase Delta in
  if negb (PEqual deltaComputed BigDelta) then Ret (inr "computed Δ is inconsistent with [δ]G", out)
  else
    let deltaInv := Invert Delta in
    let BigR := deltaInv • sg_Gamma r in
    let R := XScalar BigR in
    let km := FromHash (sg_Message r1) * sg_KShare r2 in
    let SigmaShare := R * sg_ChiShare r + km in
    out ← BroadcastMessage h out (SgBroadcast5 (Some SigmaShare));
    Ret (inl (mkSgn5 r {[sgn_self r1 := SigmaShare]} Delta BigDelta BigR R), out).

(** ** Round 5 *)

Definition sgn5_StoreBroadcastMessage (r : sgn5) (msg : sgn_message) : outcome sgn5 :=
  match rm_Content msg with
  | SgBroadcast5 SigmaShare =>
      s ← deref SigmaShare;
      if IsZero s then Fail Round.ErrNilFields
      else Ret (mkSgn5 (sg_round4 r) (<[rm_From msg := s]> (sg_SigmaShares r)) (sg_Delta r) (sg_BigDelta r)
                  (sg_BigR r) (sg_R r))
  | _ => Fail ErrInvalidContent
  end.

Fixpoint sum_sigmas (sigmas : gmap ID Scalar) (s : Scalar) (ids : list ID) : outcome Scalar :=
  match ids with
  | [] => Ret s
  | j :: ids => sj ← deref (sigmas !! j); sum_sigmas sigmas (s + sj) ids
  end.

Definition sgn5_Finalize (r : sgn5) : outcome (Signature + string) :=
  let r1 := sg_round1 (sg_round2 (sg_round3 (sg_round4 r))) in
  Sigma ← sum_sigmas (sg_SigmaShares r) 0 (partyIDs (sg_Helper r1));
  let signature := mkSignature (sg_BigR r) Sigma in
  if negb (Verify signature (sg_PublicKey r1) (sg_Message r1)) then Ret (inr "failed to validate signature")
  else Ret (inl signature).

(** ** The round interface *)

Definition sgn_VerifyMessage (r : sgn_round) (msg : sgn_message) : outcome unit :=
  match r with
  | SG2 r => sgn2_VerifyMessage r msg
  | SG3 r => sgn3_VerifyMessage r msg
  | SG4 r => sgn4_VerifyMessage r msg
  | _ => Ret tt
  end.

Definition sgn_StoreMessage (r : sgn_round) (msg : sgn_message) : outcome sgn_round :=
  match r with SG3 r => r' ← sgn3_StoreMessage r msg; Ret (SG3 r') | _ => Ret r end.

Definition sgn_StoreBroadcastMessage (r : sgn_round) (msg : sgn_message) : outcome sgn_round :=
  match r with
  | SG1 _ => Ret r
  | SG2 r => r' ← sgn2_StoreBroadcastMessage r msg; Ret (SG2 r')
  | SG3 r => r' ← sgn3_StoreBroadcastMessage r msg; Ret (SG3 r')
  | SG4 r => r' ← sgn4_StoreBroadcastMessage r msg; Ret (SG4 r')
  | SG5 r => r' ← sgn5_StoreBroadcastMessage r msg; Ret (SG5 r')
  end.

Definition sgn_Finalize (r : sgn_round) (rand : reader) (out : chan sgn_message) :
    outcome sgn_session * chan sgn_message * reader :=
  match
    match r with
    | SG1 r => '(r', out, rand) ← sgn1_Finalize r rand out; Ret (Running (SG2 r'), out, rand)
    | SG2 r => '(r', out, rand) ← sgn2_Finalize r rand out; Ret (Running (SG3 r'), out, rand)
    | SG3 r => '(r', out, rand) ← sgn3_Finalize r rand out; Ret (Running (SG4 r'), out, rand)
    | SG4 r' =>
        '(s, out) ← sgn4_Finalize r' out;
        Ret (match s with inl r5 => Running (SG5 r5) | inr e => Abort (sgn_helper r) e [] end, out, rand)
    | SG5 r' =>
        s ← sgn5_Finalize r';
        Ret (match s with inl sig => Output (sgn_helper r) sig | inr e => Abort (sgn_helper r) e [] end, out, rand)
    end
  with
  | Ret (s, out, rand) => (Ret s, out, rand)
  | Fail e => (Fail e, out, rand)
  | Panic p => (Panic p, out, rand)
  end.

Context {CB : Cbor sgn_content}.

#[export] Instance sgn_ops : RoundOps sgn_round sgn_content Signature := {|
  r_helper := sgn_helper;
  r_Number := sgn_Number;
  r_is_broadcast := sgn_is_broadcast;
  r_MessageContent := sgn_MessageContent;
  r_BroadcastContent := sgn_BroadcastContent;
  r_VerifyMessage := sgn_VerifyMessage;
  r_StoreMessage := sgn_StoreMessage;
  r_StoreBroadcastMessage := sgn_StoreBroadcastMessage;
  r_Finalize := sgn_Finalize;
  c_RoundNumber := sgn_RoundNumber;
  c_Cbor := CB
|}.

(** ** Starting the protocol *)

Definition SigningMessage_any (m : bytes) : any := AWriterTo "types.SigningMessage" "Signature Message" (Ret m).

(** The scaled public data of the signers, in order. *)
Fixpoint scale_public (lagrange : gmap ID Scalar) (public : gmap ID Public) (ids : list ID)
    (acc : gmap ID Point * gmap ID PublicKey * gmap ID Parameters * Point) :
    outcome (gmap ID Point * gmap ID PublicKey * gmap ID Parameters * Point) :=
  match ids with
  | [] => Ret acc
  | j :: ids =>
      p ← deref (public !! j);
      l ← deref (lagrange !! j);
      let '(ECDSA, Paillier, Pedersen, PublicKey) := acc in
      let X := l • pub_ECDSA p in
      scale_public lagrange public ids
        (<[j := X]> ECDSA, <[j := pub_Paillier p]> Paillier, <[j := pub_Pedersen p]> Pedersen, PublicKey ⊕ X)
  end.

(** One call of the function that [StartSign] returns. *)
Definition StartSign (config : CmpConfig) (signers : list ID) (message : bytes) (sessionID : option bytes) :
    outcome sgn_session :=
  if decide (length message = 0%nat) then Fail "sign.Create: message is nil"
  else
    let info := mkInfo protocolSignID protocolSignRounds (cc_ID config) signers (cc_Threshold config) (Some Name) in
    helper ← wrap_err "sign.Create: "
      (NewSession info sessionID [Some (Config_any config); Some (SigningMessage_any message)]);
    if negb (CanSign config (partyIDs helper)) then Fail "sign.Create: signers is not a valid signing subset"
    else
      lagrange ← Lagrange signers;
      l ← deref (lagrange !! cc_ID config);
      let SecretECDSA := l * cc_ECDSA config in
      '(ECDSA, Paillier, Pedersen, PublicKey) ←
        scale_public lagrange (cc_Public config) (partyIDs helper) (∅, ∅, ∅, 𝟎);
      Ret (Running (SG1 (mkSgn1 helper PublicKey SecretECDSA (cc_Paillier config) Paillier Pedersen ECDSA message))).

End Sign.
