(* ===== verification/CmpSignProps.v ===== *)
(** * What CMP signing guarantees

    A reported signature verifies, whatever the others sent; the MtA shares of
    honest parties add up to the products; and when they do, the rounds
    compute a signature that verifies. *)

From Stdlib Require Import ZArith Lia Zmod Field.
From stdpp Require Import base gmap strings list pretty numbers.
From S2P Require Import Prelude Hash Curve Party Sample Polynomial Round Message Handler HandlerSpec.
From S2P Require Import Arith SampleInts PaillierMath Paillier Pedersen Zk ZkEnc ZkAff Mta Ecdsa FrostConfig CmpConfig CmpSign.

Local Open Scope curve_scope.

Section Laws.
Context {C : Curve} `{B3 : Blake3} {MO : MapOrder} {S : Saferith} {CB : Cbor sgn_content}.

Lemma sgn_Finalize_inv r rand out s out' rand' :
  sgn_Finalize r rand out = (Ret s, out', rand') ->
  match r with
  | SG1 r1 => exists r2, s = Running (SG2 r2) /\ sgn1_Finalize r1 rand out = Ret (r2, out', rand')
  | SG2 r2 => exists r3, s = Running (SG3 r3) /\ sgn2_Finalize r2 rand out = Ret (r3, out', rand')
  | SG3 r3 => exists r4, s = Running (SG4 r4) /\ sgn3_Finalize r3 rand out = Ret (r4, out', rand')
  | SG4 r4 => exists x, sgn4_Finalize r4 out = Ret (x, out') /\
      s = match x with inl r5 => Running (SG5 r5) | inr e => Abort (sgn_helper r) e [] end
  | SG5 r5 => exists x, sgn5_Finalize r5 = Ret x /\
      s = match x with inl sig => Output (sgn_helper r) sig | inr e => Abort (sgn_helper r) e [] end
  end.
Proof.
  unfold sgn_Finalize. destruct (match r with SG1 _ => _ | _ => _ end) as [[[s' o] rd]| |] eqn:E; [|done..].
  intros [= -> -> ->]. destruct r as [r|r|r|r|r].
  - apply bind_ret_inv in E as ([[r2 o] rd] & E & [= <- <- <-]). by exists r2.
  - apply bind_ret_inv in E as ([[r3 o] rd] & E & [= <- <- <-]). by exists r3.
  - apply bind_ret_inv in E as ([[r4 o] rd] & E & [= <- <- <-]). by exists r4.
  - apply bind_ret_inv in E as ([x o] & E & [= <- <- _]). by exists x.
  - apply bind_ret_inv in E as (x & E & [= <- _ _]). by exists x.
Qed.

Lemma sgn1_Finalize_ret r rand out r' out' rand' :
  sgn1_Finalize r rand out = Ret (r', out', rand') ->
  exists γ k K G ρ ν pk rd1 rd2 rd3 rd4, sg_Paillier r !! sgn_self r = Some pk /\
    Enc pk (MakeInt γ) rd1 = Ret (G, ν, rd2) /\ Enc pk (MakeInt k) rd3 = Ret (K, ρ, rd4) /\
    r' = mkSgn2 r {[sgn_self r := K]} {[sgn_self r := G]} {[sgn_self r := ActOnBase γ]} (MakeInt γ) k ρ ν.
Proof.
  intros E. unfold sgn1_Finalize in E. apply bind_ret_inv in E as ([[γ Γ] rd1] & Eg & E).
  apply bind_ret_inv in E as (pk & Epk%deref_ret & E). apply bind_ret_inv in E as ([[G ν] rd2] & EG & E).
  apply bind_ret_inv in E as ([k rd3] & _ & E). apply bind_ret_inv in E as ([[K ρ] rd4] & EK & E).
  apply bind_ret_inv in E as (o & _ & E). apply bind_ret_inv in E as ([o2 rd5] & _ & E). injection E as <- _ _.
  unfold sample_ScalarPointPair in Eg. apply bind_ret_inv in Eg as ([a rd] & _ & [= -> <- ->]).
  by exists γ, k, K, G, ρ, ν, pk, rd1, rd2, rd3, rd4.
Qed.

Lemma sgn2_Store_ret r m r' :
  sgn2_StoreBroadcastMessage r m = Ret r' ->
  exists K G, r' = mkSgn2 (sg_round1 r) (<[rm_From m := K]> (sg_K r)) (<[rm_From m := G]> (sg_G r)) (sg_BigGammaShare r)
               (sg_GammaShare r) (sg_KShare r) (sg_KNonce r) (sg_GNonce r).
Proof.
  unfold sgn2_StoreBroadcastMessage. destruct (rm_Content m) as [K G| | | | | |]; [|done..].
  intros (pk & _ & E)%bind_ret_inv. destruct (negb _); [done|]. apply bind_ret_inv in E as (K' & _ & E).
  apply bind_ret_inv in E as (G' & _ & [= <-]). eauto.
Qed.

Lemma sgn2_Finalize_ret r rand out r' out' rand' :
  sgn2_Finalize r rand out = Ret (r', out', rand') ->
  exists deltas chis o, mta_loop r (otherPartyIDs (sg_Helper (sg_round1 r))) ∅ ∅ rand o = Ret (deltas, chis, out', rand') /\
    r' = mkSgn3 r ∅ deltas ∅ chis.
Proof.
  intros (o & _ & E)%bind_ret_inv. apply bind_ret_inv in E as ([[[d c] o2] rd] & Em & [= <- <- <-]). by exists d, c, o.
Qed.

Lemma sgn3_StoreBroadcast_ret r m r' :
  sgn3_StoreBroadcastMessage r m = Ret r' ->
  exists P, P <> 𝟎 /\ r' = mkSgn3 (set_BigGamma (sg_round2 r) (<[rm_From m := P]> (sg_BigGammaShare (sg_round2 r))))
                  (sg_DeltaShareAlpha r) (sg_DeltaShareBeta r) (sg_ChiShareAlpha r) (sg_ChiShareBeta r).
Proof.
  unfold sgn3_StoreBroadcastMessage. destruct (rm_Content m); [done..| |done|done|done|done].
  intros (P & _ & E)%bind_ret_inv. unfold IsIdentity in E. case_bool_decide; [done|]. injection E as <-. by exists P.
Qed.

Lemma sgn3_Store_ret r m r' :
  sgn3_StoreMessage r m = Ret r' ->
  exists DD DF DP CD CF CP PL a c, rm_Content m = SgMessage3 DD DF DP CD CF CP PL /\
    Dec (sg_SecretPaillier (sg_round1 (sg_round2 r))) DD = Ret a /\
    Dec (sg_SecretPaillier (sg_round1 (sg_round2 r))) CD = Ret c /\
    r' = mkSgn3 (sg_round2 r) (<[rm_From m := a]> (sg_DeltaShareAlpha r)) (sg_DeltaShareBeta r)
             (<[rm_From m := c]> (sg_ChiShareAlpha r)) (sg_ChiShareBeta r).
Proof.
  unfold sgn3_StoreMessage. destruct (rm_Content m) as [| | |DD DF DP CD CF CP PL| | |]; [done..| |done|done|done].
  intros (a & Ea%wrap_err_ret & E)%bind_ret_inv. apply bind_ret_inv in E as (c & Ec%wrap_err_ret & [= <-]).
  by exists DD, DF, DP, CD, CF, CP, PL, a, c.
Qed.

Lemma sgn3_Finalize_ret r rand out r' out' rand' :
  sgn3_Finalize r rand out = Ret (r', out', rand') ->
  let r2 := sg_round2 r in let r1 := sg_round1 r2 in
  let Γ := foldl PAdd 𝟎 (range_order (sg_BigGammaShare r2)).*2 in
  exists d c, add_shares_of (sg_DeltaShareAlpha r) (sg_DeltaShareBeta r) (sg_GammaShare r2 * MakeInt (sg_KShare r2))%Z
                (otherPartyIDs (sg_Helper r1)) = Ret d /\
    add_shares_of (sg_ChiShareAlpha r) (sg_ChiShareBeta r) (MakeInt (sg_SecretECDSA r1) * MakeInt (sg_KShare r2))%Z
      (otherPartyIDs (sg_Helper r1)) = Ret c /\
    r' = mkSgn4 r {[sgn_self r1 := scalar_of d]} {[sgn_self r1 := sg_KShare r2 • Γ]} Γ (scalar_of c).
Proof.
  intros E r2 r1 Γ. unfold sgn3_Finalize in E. apply bind_ret_inv in E as (d & Ed & E).
  apply bind_ret_inv in E as (c & Ec & E). apply bind_ret_inv in E as (o & _ & E).
  apply bind_ret_inv in E as ([o2 rd] & _ & E). injection E as <- _ _. by exists d, c.
Qed.

Lemma sgn4_Store_ret r m r' :
  sgn4_StoreBroadcastMessage r m = Ret r' ->
  exists d D, r' = mkSgn4 (sg_round3 r) (<[rm_From m := d]> (sg_DeltaShares r))
                    (<[rm_From m := D]> (sg_BigDeltaShares r)) (sg_Gamma r) (sg_ChiShare r).
Proof.
  unfold sgn4_StoreBroadcastMessage. destruct (rm_Content m); [done..| |done|done].
  intros (d & _ & E)%bind_ret_inv. destruct (IsZero d); [done|]. apply bind_ret_inv in E as (D & _ & E).
  destruct (IsIdentity D); [done|]. injection E as <-. eauto.
Qed.

Lemma sgn4_Finalize_ret r out x out' :
  sgn4_Finalize r out = Ret (inl x, out') -> sg_round4 x = r.
Proof.
  intros ([d D] & _ & E)%bind_ret_inv. cbn zeta in E. destruct (PEqual _ _); [|done]. cbn [negb] in E.
  apply bind_ret_inv in E as (o & _ & E). by injection E as <- _.
Qed.

Lemma sgn5_Store_ret r m r' :
  sgn5_StoreBroadcastMessage r m = Ret r' ->
  exists s, r' = mkSgn5 (sg_round4 r) (<[rm_From m := s]> (sg_SigmaShares r)) (sg_Delta r) (sg_BigDelta r)
                  (sg_BigR r) (sg_R r).
Proof.
  unfold sgn5_StoreBroadcastMessage. destruct (rm_Content m); [done..|].
  intros (s & _ & E)%bind_ret_inv. destruct (IsZero s); [done|]. injection E as <-. eauto.
Qed.

Lemma sgn5_Finalize_ret r sig :
  sgn5_Finalize r = Ret (inl sig) ->
  let r1 := sg_round1 (sg_round2 (sg_round3 (sg_round4 r))) in Verify sig (sg_PublicKey r1) (sg_Message r1) = true.
Proof.
  intros (s & _ & E)%bind_ret_inv. cbn zeta in E. destruct (Verify _ _ _) eqn:V; [|done]. cbn [negb] in E. by injection E as <-.
Qed.

(** Storing keeps the first round. *)
Lemma sgn_store_round1 r m r' :
  sgn_StoreMessage r m = Ret r' -> sgn_round1 r' = sgn_round1 r /\ sgn_Number r' = sgn_Number r.
Proof.
  destruct r as [r|r|r|r|r]; cbn; try (by intros [= <-]).
  intros (r3 & (? & ? & ? & ? & ? & ? & ? & ? & ? & _ & _ & _ & ->)%sgn3_Store_ret & [= <-])%bind_ret_inv. done.
Qed.

Lemma sgn_store_broadcast_round1 r m r' :
  sgn_StoreBroadcastMessage r m = Ret r' -> sgn_round1 r' = sgn_round1 r /\ sgn_Number r' = sgn_Number r.
Proof.
  destruct r as [r|r|r|r|r]; cbn; [by intros [= <-]|..]; intros (r1 & E & [= <-])%bind_ret_inv.
  - by apply sgn2_Store_ret in E as (? & ? & ->).
  - by apply sgn3_StoreBroadcast_ret in E as (? & _ & ->).
  - by apply sgn4_Store_ret in E as (? & ? & ->).
  - by apply sgn5_Store_ret in E as (? & ->).
Qed.

Lemma sgn_next_round1 r rand out r' out' rand' :
  sgn_Finalize r rand out = (Ret (Running r'), out', rand') ->
  sgn_round1 r' = sgn_round1 r /\ sgn_Number r' = (sgn_Number r + 1)%Z.
Proof.
  intros E%sgn_Finalize_inv. destruct r as [r|r|r|r|r].
  - destruct E as (r2 & [= ->] & (? & ? & ? & ? & ? & ? & ? & ? & ? & ? & ? & _ & _ & _ & ->)%sgn1_Finalize_ret). done.
  - destruct E as (r3 & [= ->] & (? & ? & ? & _ & ->)%sgn2_Finalize_ret). done.
  - destruct E as (r4 & [= ->] & (? & ? & _ & _ & ->)%sgn3_Finalize_ret). done.
  - destruct E as ([r5|e] & E & [= ->]). apply sgn4_Finalize_ret in E as <-. done.
  - by destruct E as ([sig|e] & _ & ?).
Qed.

Lemma sgn_same_round r r' :
  sgn_round1 r' = sgn_round1 r -> sgn_Number r' = sgn_Number r -> same_round r r'.
Proof. intros E1 E2. unfold same_round. cbn. unfold sgn_helper. rewrite E1. destruct r, r'; done. Qed.

#[export] Instance sgn_laws : RoundLaws (R := sgn_round).
Proof.
  constructor; cbn.
  - intros []; cbn; lia.
  - intros r m r' [E1 E2]%sgn_store_round1. by apply sgn_same_round.
  - intros r m r' [E1 E2]%sgn_store_broadcast_round1. by apply sgn_same_round.
  - intros r rand out r' out' rand' [E1 E2]%sgn_next_round1. split; [done|]. unfold sgn_helper. by rewrite E1.
  - intros r rand out h res out' rand' E%sgn_Finalize_inv. destruct r as [r|r|r|r|r]; try (by destruct E as (? & ? & _)).
    + by destruct E as ([?|?] & _ & ?).
    + by destruct E as ([?|?] & _ & [= -> _]).
  - intros r rand out h e c out' rand' E%sgn_Finalize_inv. destruct r as [r|r|r|r|r]; try (by destruct E as (? & ? & _)).
    + by destruct E as ([?|?] & _ & [= -> _ _]).
    + by destruct E as ([?|?] & _ & [= -> _ _]).
Qed.

(** The first round is part of every reached round. *)
Lemma sgn_reached r0 r B M : reached (SG1 r0) r B M -> sgn_round1 r = r0.
Proof.
  induction 1 as [|r B M m r' _ IH _ _ _ _ E|r B M m r' _ IH _ _ _ _ _ _ E|r B M rand r' o q _ IH _ E]; [done|..].
  - by apply sgn_store_broadcast_round1 in E as [-> _].
  - by apply sgn_store_round1 in E as [-> _].
  - by apply sgn_next_round1 in E as [-> _].
Qed.

(** A delivered signature verifies under the key of the session. *)
Lemma sgn_delivered r0 sig : delivered (SG1 r0) sig -> Verify sig (sg_PublicKey r0) (sg_Message r0) = true.
Proof.
  intros D. inversion D as [r B M rand h res out' rand' Re%sgn_reached Hc E]; subst.
  apply sgn_Finalize_inv in E. destruct r as [r|r|r|r|r]; try (by destruct E as (? & ? & _)).
  - by destruct E as ([?|?] & _ & ?).
  - destruct E as ([x|?] & E & Eo); [|done]. injection Eo as _ ->. apply (sgn5_Finalize_ret _ _ E).
Qed.

End Laws.

(** ** The start *)

Section Start.
Context {C : Curve} {CL : CurveLaws C} `{B3 : Blake3} {MO : MapOrder} {S : Saferith}.
Add Field scalar_field : scalar_field_theory.

Lemma scale_public_ret l public ids E P D Y E' P' D' Y' :
  scale_public l public ids (E, P, D, Y) = Ret (E', P', D', Y') ->
  Y' = Y ⊕ sumP (fun j => getS l j • getP (pub_ECDSA <$> public) j) ids.
Proof.
  revert E P D Y. induction ids as [|j ids IH]; intros E P D Y; cbn [scale_public sumP].
  - intros [= _ _ _ ->]. by rewrite padd_0_r.
  - intros (p & Ep%deref_ret & H)%bind_ret_inv. apply bind_ret_inv in H as (x & Ex%deref_ret & ->%IH).
    unfold getS at 2, getP at 2. rewrite Ex, lookup_fmap, Ep. cbn. by rewrite padd_assoc.
Qed.

Lemma scale_public_some l public ids acc r :
  scale_public l public ids acc = Ret r -> forall j, j ∈ ids -> is_Some (public !! j).
Proof.
  revert acc. induction ids as [|i ids IH]; intros acc; cbn [scale_public]; [by intros _ j ?%elem_of_nil|].
  intros (p & Ep%deref_ret & H)%bind_ret_inv. apply bind_ret_inv in H as (x & _ & H). destruct acc as [[[? ?] ?] ?].
  intros j [->|Hj]%elem_of_cons; [by rewrite Ep|]. by eapply IH.
Qed.

(** A session that starts has a key, a scaled share and the parties of its
    signers. *)
Lemma StartSign_ret config signers msg sid r :
  StartSign config signers msg sid = Ret (Running r) ->
  exists r0 l, r = SG1 r0 /\ Lagrange signers = Ret l /\ session_ok (sg_Helper r0) /\
    sgn_self r0 = cc_ID config /\ sg_Message r0 = msg /\ partyIDs (sg_Helper r0) = NewIDSlice signers /\
    CanSign config (NewIDSlice signers) = true /\ sg_SecretPaillier r0 = cc_Paillier config /\
    sg_SecretECDSA r0 = getS l (cc_ID config) * cc_ECDSA config /\
    sg_PublicKey r0 = sumP (fun j => getS l j • getP (pub_ECDSA <$> cc_Public config) j) (NewIDSlice signers) /\
    (forall j, j ∈ signers -> is_Some (cc_Public config !! j)).
Proof.
  unfold StartSign. destruct (decide _); [done|]. intros (h & [So Hi]%wrap_err_ret%NewSession_ok & E)%bind_ret_inv.
  destruct (CanSign config (partyIDs h)) eqn:Ec; [|done]. cbn [negb] in E. apply bind_ret_inv in E as (l & El & E).
  apply bind_ret_inv in E as (x & Ex%deref_ret & E). apply bind_ret_inv in E as ([[[Es Ps] Ds] Y] & Ey & [= <-]).
  assert (partyIDs h = NewIDSlice signers) as Ep by (rewrite (so_ids _ So), Hi; done). rewrite Ep in Ey, Ec.
  eexists _, l. split; [done|]. split; [done|]. cbn. split_and!; try done.
  - unfold sgn_self. cbn. by rewrite Hi.
  - unfold getS. by rewrite Ex.
  - apply scale_public_ret in Ey. by rewrite Ey, padd_0_l.
  - intros j Hj. eapply scale_public_some; [exact Ey|]. by rewrite NewIDSlice_perm.
Qed.

(** The scaled public shares of the signers add up to the key of the
    configuration. *)
Lemma scaled_key L config signers l :
  Cmp_valid L config -> ids_ok signers -> Lagrange signers = Ret l -> CanSign config (NewIDSlice signers) = true ->
  (forall j, j ∈ signers -> is_Some (cc_Public config !! j)) ->
  sumP (fun j => getS l j • getP (pub_ECDSA <$> cc_Public config) j) (NewIDSlice signers) = hornerP 0 L.
Proof.
  intros V Hids El Hc Hs. destruct (cv_key _ _ V) as (Hl & Ht & _ & HV).
  rewrite <- (Lagrange_hornerP signers l L Hids El).
  - rewrite NewIDSlice_perm. apply sumP_ext. intros j Hj. f_equal. unfold getP.
    destruct (Hs j Hj) as [p Ep]. specialize (HV j (pub_ECDSA p)). rewrite lookup_fmap, Ep in HV |- *. by apply HV.
  - assert (length (NewIDSlice signers) = length signers) as El' by (by rewrite NewIDSlice_perm).
    unfold CanSign, ValidThreshold in Hc. rewrite El' in Hc.
    destruct (bool_decide_reflect (cc_Threshold config < 0 ∨ 2 ^ 32 - 1 < cc_Threshold config)%Z); [done|].
    destruct (bool_decide_reflect (Z.of_nat (length signers) <= 0 ∨ Z.of_nat (length signers) - 1 < cc_Threshold config)%Z);
      [done|]. lia.
Qed.

(** The key of the session is the key of the configuration. *)
Lemma StartSign_key L config signers msg sid r0 :
  Cmp_valid L config -> ids_ok signers ->
  StartSign config signers msg sid = Ret (Running (SG1 r0)) -> sg_PublicKey r0 = hornerP 0 L.
Proof.
  intros V Hids (r & l & [= <-] & El & _ & _ & _ & _ & Hc & _ & _ & -> & Hs)%StartSign_ret. by apply scaled_key.
Qed.

(** The scaled share is a share of the key: the scaled shares of all signers
    add up to the secret key. *)
Lemma StartSign_share L config signers msg sid r0 l :
  Cmp_valid L config -> Lagrange signers = Ret l ->
  StartSign config signers msg sid = Ret (Running (SG1 r0)) ->
  sg_SecretECDSA r0 • 𝐆 = getS l (cc_ID config) • hornerP (ID_Scalar (cc_ID config)) L.
Proof.
  intros V El (r & l' & [= <-] & El' & _ & _ & _ & _ & _ & _ & Es & _)%StartSign_ret.
  rewrite El in El'. injection El' as <-. rewrite Es, act_mul. f_equal. exact (cv_share _ _ V).
Qed.

End Start.

(** ** Correctness *)

Section Correct.
Context {C : Curve} {CL : CurveLaws C} `{B3 : Blake3} {MO : MapOrder} {MOL : MapOrderLaws} {S : Saferith}.
Add Field scalar_field2 : scalar_field_theory.

Lemma scalar_of_MakeInt s : scalar_of (MakeInt s) = s.
Proof. rewrite scalar_of_eq, MakeInt_spec. apply Zmod.of_Z_to_Z. Qed.

Lemma scalar_of_add x y : scalar_of (x + y) = scalar_of x + scalar_of y.
Proof. rewrite !scalar_of_eq. apply Zmod.of_Z_add. Qed.

Lemma scalar_of_mul x y : scalar_of (x * y) = scalar_of x * scalar_of y.
Proof. rewrite !scalar_of_eq. apply Zmod.of_Z_mul. Qed.

Lemma foldl_PAdd P l : foldl PAdd P l = P ⊕ sumP id l.
Proof.
  revert P. induction l as [|Q l IH]; intros P; cbn; [by rewrite padd_0_r|]. by rewrite IH, padd_assoc.
Qed.

Definition getZ (m : gmap ID Z) (j : ID) : Z := default 0%Z (m !! j).

Lemma add_shares_of_ret a b acc ids x :
  add_shares_of a b acc ids = Ret x ->
  scalar_of x = scalar_of acc + sumS (fun j => scalar_of (getZ a j + getZ b j)) ids.
Proof.
  revert acc. induction ids as [|j ids IH]; intros acc; cbn [add_shares_of sumS]; [intros [= <-]; ring|].
  intros (y & Ey%deref_ret & E)%bind_ret_inv. apply bind_ret_inv in E as (z & Ez%deref_ret & ->%IH).
  unfold getZ at 3 4. rewrite Ey, Ez. cbn. rewrite <- Z.add_assoc, scalar_of_add. ring.
Qed.

Lemma sum_deltas_ret ds bs d D ids d' D' :
  sum_deltas ds bs d D ids = Ret (d', D') ->
  d' = d + sumS (getS ds) ids /\ D' = D ⊕ sumP (getP bs) ids.
Proof.
  revert d D. induction ids as [|j ids IH]; intros d D; cbn [sum_deltas sumS sumP].
  - intros [= <- <-]. split; [ring|by rewrite padd_0_r].
  - intros (x & Ex%deref_ret & E)%bind_ret_inv. apply bind_ret_inv in E as (X & EX%deref_ret & [-> ->]%IH).
    unfold getS at 2, getP at 2. rewrite Ex, EX. cbn. split; [ring|by rewrite padd_assoc].
Qed.

Lemma sum_deltas_total ds bs d D ids :
  (forall j, j ∈ ids -> is_Some (ds !! j) /\ is_Some (bs !! j)) -> exists r, sum_deltas ds bs d D ids = Ret r.
Proof.
  revert d D. induction ids as [|j ids IH]; intros d D H; cbn [sum_deltas]; [eauto|].
  destruct (H j) as [[x ->] [X ->]]; [by left|]. cbn. apply IH. intros i ?. apply H. by right.
Qed.

Lemma sum_sigmas_ret ss s ids :
  (forall j, j ∈ ids -> is_Some (ss !! j)) -> sum_sigmas ss s ids = Ret (s + sumS (getS ss) ids).
Proof.
  revert s. induction ids as [|j ids IH]; intros s H; cbn [sum_sigmas sumS]; [f_equal; ring|].
  destruct (H j) as [x Ex]; [by left|]. rewrite Ex. cbn. rewrite IH by (intros i ?; apply H; by right).
  unfold getS at 2. rewrite Ex. cbn. f_equal. ring.
Qed.

(** *** Sums over pairs of parties *)

Lemma sumS_swap {A B} (f : A -> B -> Scalar) l l' :
  sumS (fun i => sumS (f i) l') l = sumS (fun j => sumS (fun i => f i j) l) l'.
Proof.
  induction l as [|i l IH]; cbn [sumS].
  - induction l' as [|j l' IH']; cbn [sumS]; [done|]. rewrite <- IH'. ring.
  - by rewrite IH, <- sumS_add.
Qed.

Lemma sumS_Remove (f : ID -> Scalar) ids i :
  sumS f (Remove ids i) = sumS (fun j => if decide (i = j) then 0 else f j) ids.
Proof.
  induction ids as [|j ids IH]; [done|]. cbn [sumS]. destruct (decide (i = j)) as [->|N].
  - rewrite Remove_cons_eq, IH. ring.
  - rewrite Remove_cons_ne by done. cbn [sumS]. by rewrite IH.
Qed.

Lemma sumS_pairs (f : ID -> ID -> Scalar) ids :
  sumS (fun i => sumS (f i) (Remove ids i)) ids = sumS (fun i => sumS (fun j => f j i) (Remove ids i)) ids.
Proof.
  rewrite (sumS_ext (fun i => sumS (f i) (Remove ids i)) (fun i => sumS (fun j => if decide (i = j) then 0 else f i j) ids))
    by (intros; apply sumS_Remove).
  rewrite sumS_swap. apply sumS_ext. intros j _. rewrite sumS_Remove. apply sumS_ext. intros i _.
  destruct (decide (i = j)), (decide (j = i)); congruence.
Qed.

(** A product of sums, from the diagonal and the pairs. *)
Lemma sumS_product (a b : ID -> Scalar) ids :
  NoDup ids -> sumS (fun i => a i * b i + sumS (fun j => a j * b i) (Remove ids i)) ids = sumS a ids * sumS b ids.
Proof.
  intros ND. rewrite (sumS_ext _ (fun i => b i * sumS a ids)).
  - rewrite (sumS_ext _ (fun i => sumS a ids * b i)) by (intros; ring). by rewrite sumS_mul.
  - intros i Hi. rewrite (sumS_perm a _ _ (Remove_perm ids i ND Hi)). cbn [sumS].
    rewrite (sumS_ext (fun j => a j * b i) (fun j => b i * a j)) by (intros; ring). rewrite sumS_mul. ring.
Qed.

(** Additive shares of pairwise products, with those of the diagonal, add up
    to the product of the sums. *)
Lemma mta_sum (a b : ID -> Scalar) (α β : ID -> ID -> Scalar) ids :
  NoDup ids -> (forall i j, i ∈ ids -> j ∈ ids -> i <> j -> α i j + β j i = a j * b i) ->
  sumS (fun i => a i * b i + sumS (fun j => α i j + β i j) (Remove ids i)) ids = sumS a ids * sumS b ids.
Proof.
  intros ND H. rewrite <- sumS_product by done. rewrite !sumS_add. f_equal.
  rewrite (sumS_ext _ (fun i => sumS (α i) (Remove ids i) + sumS (β i) (Remove ids i))) by (intros; apply sumS_add).
  rewrite sumS_add, (sumS_pairs β), <- sumS_add. apply sumS_ext. intros i Hi. rewrite <- sumS_add. apply sumS_ext.
  intros j [Hj N]%elem_of_Remove. by apply H.
Qed.

(** *** The rounds of honest signers *)

(** The signers [ids] before round three is finalized: shares kᵢ, γᵢ, xᵢ, and
    MtA shares of their products. *)
Record signing (ids : list ID) (k γ x : ID -> Scalar) (Y : Point) (msg : bytes) (r : ID -> sgn3) : Prop := {
  si_session i : i ∈ ids -> session_ok (sg_Helper (sg_round1 (sg_round2 (r i))));
  si_self i : i ∈ ids -> sgn_self (sg_round1 (sg_round2 (r i))) = i;
  si_ids i : i ∈ ids -> partyIDs (sg_Helper (sg_round1 (sg_round2 (r i)))) = ids;
  si_key i : i ∈ ids -> sg_PublicKey (sg_round1 (sg_round2 (r i))) = Y;
  si_msg i : i ∈ ids -> sg_Message (sg_round1 (sg_round2 (r i))) = msg;
  si_k i : i ∈ ids -> sg_KShare (sg_round2 (r i)) = k i;
  si_γ i : i ∈ ids -> sg_GammaShare (sg_round2 (r i)) = MakeInt (γ i);
  si_x i : i ∈ ids -> sg_SecretECDSA (sg_round1 (sg_round2 (r i))) = x i;
  si_Γ i : i ∈ ids -> dom (sg_BigGammaShare (sg_round2 (r i))) = list_to_set ids /\
             (forall j P, sg_BigGammaShare (sg_round2 (r i)) !! j = Some P -> P = γ j • 𝐆);
  si_δ i j : i ∈ ids -> j ∈ ids -> i <> j ->
    (getZ (sg_DeltaShareAlpha (r i)) j + getZ (sg_DeltaShareBeta (r j)) i = MakeInt (γ j) * MakeInt (k i))%Z;
  si_χ i j : i ∈ ids -> j ∈ ids -> i <> j ->
    (getZ (sg_ChiShareAlpha (r i)) j + getZ (sg_ChiShareBeta (r j)) i = MakeInt (x j) * MakeInt (k i))%Z
}.

Section Honest.
Context {ids : list ID} {k γ x : ID -> Scalar} {Y : Point} {msg : bytes} {r3 : ID -> sgn3}.
Hypothesis Hs : signing ids k γ x Y msg r3.
Context {r4 : ID -> sgn4}.
Hypothesis H3 : forall i, i ∈ ids -> exists rand out out' rand', sgn3_Finalize (r3 i) rand out = Ret (r4 i, out', rand').

Definition δ_of (i : ID) : Scalar := getS (sg_DeltaShares (r4 i)) i.
Definition χ_of (i : ID) : Scalar := sg_ChiShare (r4 i).

Lemma honest_NoDup i : i ∈ ids -> NoDup ids.
Proof. intros Hi. rewrite <- (si_ids _ _ _ _ _ _ _ Hs i Hi). apply session_ok_NoDup, Hs, Hi. Qed.

Lemma honest_Gamma i : i ∈ ids -> foldl PAdd 𝟎 (range_order (sg_BigGammaShare (sg_round2 (r3 i)))).*2 = sumS γ ids • 𝐆.
Proof.
  intros Hi. destruct (si_Γ _ _ _ _ _ _ _ Hs i Hi) as [Hd HP]. rewrite foldl_PAdd, padd_0_l.
  rewrite (range_order_perm _ (sg_BigGammaShare _)), <- sumP_act.
  apply (sumP_map _ id (fun j => γ j • 𝐆) ids); [by apply (honest_NoDup i)|done|]. intros l P HlP. by apply HP.
Qed.

(** What round three computes. *)
Lemma honest_round4 i :
  i ∈ ids ->
  sg_round3 (r4 i) = r3 i /\ sg_Gamma (r4 i) = sumS γ ids • 𝐆 /\
  sg_DeltaShares (r4 i) !! i = Some (δ_of i) /\
  sg_BigDeltaShares (r4 i) !! i = Some ((k i * sumS γ ids) • 𝐆) /\
  δ_of i = γ i * k i + sumS (fun j => scalar_of (getZ (sg_DeltaShareAlpha (r3 i)) j)
                               + scalar_of (getZ (sg_DeltaShareBeta (r3 i)) j)) (Remove ids i) /\
  χ_of i = x i * k i + sumS (fun j => scalar_of (getZ (sg_ChiShareAlpha (r3 i)) j)
                               + scalar_of (getZ (sg_ChiShareBeta (r3 i)) j)) (Remove ids i).
Proof.
  intros Hi. destruct (H3 i Hi) as (rand & out & out' & rand' & E).
  apply sgn3_Finalize_ret in E as (d & c & Ed & Ec & E). rewrite honest_Gamma in E by done.
  rewrite (so_others _ (si_session _ _ _ _ _ _ _ Hs i Hi)) in Ed, Ec. fold (sgn_self (sg_round1 (sg_round2 (r3 i)))) in Ed, Ec.
  rewrite (si_self _ _ _ _ _ _ _ Hs i Hi), (si_ids _ _ _ _ _ _ _ Hs i Hi) in *.
  apply add_shares_of_ret in Ed, Ec. rewrite (si_k _ _ _ _ _ _ _ Hs i Hi) in *.
  rewrite (si_γ _ _ _ _ _ _ _ Hs i Hi), scalar_of_mul, !scalar_of_MakeInt in Ed.
  rewrite (si_x _ _ _ _ _ _ _ Hs i Hi), scalar_of_mul, !scalar_of_MakeInt in Ec.
  unfold δ_of, χ_of. rewrite E. cbn [sg_round3 sg_Gamma sg_DeltaShares sg_BigDeltaShares sg_ChiShare].
  rewrite act_mul. unfold getS. rewrite !lookup_singleton_eq. cbn [default from_option id]. split_and!; try done.
  - rewrite Ed. f_equal. apply sumS_ext. intros j _. apply scalar_of_add.
  - rewrite Ec. f_equal. apply sumS_ext. intros j _. apply scalar_of_add.
Qed.

Lemma honest_delta i0 : i0 ∈ ids -> sumS δ_of ids = sumS γ ids * sumS k ids.
Proof.
  intros H0. rewrite <- (mta_sum γ k (fun i j => scalar_of (getZ (sg_DeltaShareAlpha (r3 i)) j))
    (fun i j => scalar_of (getZ (sg_DeltaShareBeta (r3 i)) j)) ids).
  - apply sumS_ext. intros i Hi. apply honest_round4, Hi.
  - by apply (honest_NoDup i0).
  - intros i j Hi Hj N. rewrite <- scalar_of_add, (si_δ _ _ _ _ _ _ _ Hs i j Hi Hj N), scalar_of_mul. by rewrite !scalar_of_MakeInt.
Qed.

Lemma honest_chi i0 : i0 ∈ ids -> sumS χ_of ids = sumS x ids * sumS k ids.
Proof.
  intros H0. rewrite <- (mta_sum x k (fun i j => scalar_of (getZ (sg_ChiShareAlpha (r3 i)) j))
    (fun i j => scalar_of (getZ (sg_ChiShareBeta (r3 i)) j)) ids).
  - apply sumS_ext. intros i Hi. apply honest_round4, Hi.
  - by apply (honest_NoDup i0).
  - intros i j Hi Hj N. rewrite <- scalar_of_add, (si_χ _ _ _ _ _ _ _ Hs i j Hi Hj N), scalar_of_mul. by rewrite !scalar_of_MakeInt.
Qed.

(** The state of signer [i] once it has stored what the others broadcast in
    round four, and then in round five. *)
Definition all_of {A} (f : ID -> A) : gmap ID A := list_to_map ((fun j => (j, f j)) <$> ids).

Lemma lookup_all_of {A} (f : ID -> A) j : NoDup ids -> j ∈ ids -> all_of f !! j = Some (f j).
Proof.
  intros ND Hj. apply elem_of_list_to_map_1.
  - rewrite <- list_fmap_compose. cbn. by rewrite list_fmap_id.
  - apply list_elem_of_fmap. by exists j.
Qed.

Definition view4 (i : ID) : sgn4 :=
  mkSgn4 (sg_round3 (r4 i)) (all_of δ_of) (all_of (fun j => getP (sg_BigDeltaShares (r4 j)) j))
    (sg_Gamma (r4 i)) (sg_ChiShare (r4 i)).

Definition nonce_point : Point := Invert (sumS k ids) • 𝐆.
Definition σ_of (i : ID) : Scalar := XScalar nonce_point * χ_of i + FromHash msg * k i.

(** Round four does not abort, and computes the share σᵢ. *)
Lemma honest_round5 i out :
  i ∈ ids -> sumS k ids <> 0 -> sumS γ ids <> 0 -> (length (ch_buf out) < ch_cap out)%nat ->
  exists out', sgn4_Finalize (view4 i) out
    = Ret (inl (mkSgn5 (view4 i) {[i := σ_of i]} (sumS γ ids * sumS k ids) ((sumS γ ids * sumS k ids) • 𝐆)
                  nonce_point (XScalar nonce_point)), out').
Proof.
  intros Hi Nk Nγ Ho. destruct (honest_round4 i Hi) as (E3 & EΓ & _). pose proof (honest_NoDup i Hi) as ND.
  unfold sgn4_Finalize. cbn [view4 sg_round3 sg_DeltaShares sg_BigDeltaShares sg_Gamma sg_ChiShare]. rewrite E3.
  rewrite (si_ids _ _ _ _ _ _ _ Hs i Hi), (si_self _ _ _ _ _ _ _ Hs i Hi), (si_msg _ _ _ _ _ _ _ Hs i Hi), (si_k _ _ _ _ _ _ _ Hs i Hi).
  destruct (sum_deltas_total (all_of δ_of) (all_of (fun j => getP (sg_BigDeltaShares (r4 j)) j)) 0 𝟎 ids) as [[d D] Ed].
  { intros j Hj. by rewrite !lookup_all_of. }
  rewrite Ed. cbn [mbind outcome_bind]. apply sum_deltas_ret in Ed as [-> ->].
  assert (sumS (getS (all_of δ_of)) ids = sumS γ ids * sumS k ids) as Esum.
  { rewrite <- (honest_delta i Hi). apply sumS_ext. intros j Hj. unfold getS. by rewrite lookup_all_of. }
  assert (sumP (getP (all_of (fun j => getP (sg_BigDeltaShares (r4 j)) j))) ids = (sumS γ ids * sumS k ids) • 𝐆) as ED.
  { rewrite <- sumS_mul, <- sumP_act. apply sumP_ext. intros j Hj. unfold getP at 1. rewrite lookup_all_of by done.
    destruct (honest_round4 j Hj) as (_ & _ & _ & EB & _). unfold getP. rewrite EB. cbn. f_equal. ring. }
  rewrite Esum, ED, padd_0_l, Zmod.add_0_l. unfold PEqual, ActOnBase. rewrite bool_decide_true by done. cbn [negb].
  unfold BroadcastMessage, try_send. rewrite decide_True by done. cbn [mbind outcome_bind].
  assert (Invert (sumS γ ids * sumS k ids) • sg_Gamma (r4 i) = nonce_point) as ER.
  { rewrite EΓ, <- act_mul. unfold nonce_point, Invert. f_equal. field. by split. }
  rewrite ER. eexists. done.
Qed.

Definition view5 (i : ID) : sgn5 :=
  mkSgn5 (view4 i) (all_of σ_of) (sumS γ ids * sumS k ids) ((sumS γ ids * sumS k ids) • 𝐆)
    nonce_point (XScalar nonce_point).

(** Round five outputs a signature that verifies. *)
Lemma honest_output i :
  i ∈ ids -> Y = sumS x ids • 𝐆 -> sumS k ids <> 0 -> XScalar nonce_point <> 0 ->
  FromHash msg + XScalar nonce_point * sumS x ids <> 0 ->
  sgn5_Finalize (view5 i) = Ret (inl (mkSignature nonce_point
    (sumS k ids * (FromHash msg + XScalar nonce_point * sumS x ids)))).
Proof.
  intros Hi HY Nk Nr Ns. destruct (honest_round4 i Hi) as (E3 & _). pose proof (honest_NoDup i Hi) as ND.
  unfold sgn5_Finalize. cbn [view5 view4 sg_round3 sg_round4 sg_SigmaShares sg_BigR]. rewrite E3.
  rewrite (si_ids _ _ _ _ _ _ _ Hs i Hi), (si_msg _ _ _ _ _ _ _ Hs i Hi), (si_key _ _ _ _ _ _ _ Hs i Hi).
  rewrite sum_sigmas_ret by (intros j Hj; by rewrite lookup_all_of). cbn [mbind outcome_bind].
  assert (0 + sumS (getS (all_of σ_of)) ids = sumS k ids * (FromHash msg + XScalar nonce_point * sumS x ids)) as ->.
  { rewrite (sumS_ext _ (fun j => XScalar nonce_point * χ_of j + FromHash msg * k j)).
    - rewrite sumS_add, !sumS_mul, (honest_chi i Hi). ring.
    - intros j Hj. unfold getS. by rewrite lookup_all_of. }
  assert (Verify (mkSignature nonce_point (sumS k ids * (FromHash msg + XScalar nonce_point * sumS x ids))) Y msg = true) as ->;
    [|done].
  apply ecdsa_Verify_spec. unfold ecdsa_equation. cbn [sig_R sig_S]. split_and!; [done| |].
  - intros E. apply Ns. assert (forall a b : Scalar, a <> 0 -> a * b = 0 -> b = 0) as H.
    { intros a b Na Hab. replace b with (a * b / a) by (field; done). rewrite Hab. field. done. }
    by apply (H _ _ Nk).
  - rewrite HY. set (r := XScalar nonce_point). unfold nonce_point. rewrite <- !act_mul, <- act_add. f_equal. unfold Invert. field. done.
Qed.

End Honest.

End Correct.

(** ** The MtA of two signers *)

Section Pair.
Context {C : Curve} `{B3 : Blake3} {MO : MapOrder} {S : Saferith} {SL : SaferithLaws S}.

Lemma ProveAffG_decrypts h a A sender receiver aux rand β D F pf rand' b ρ :
  pk_ok (sk_PublicKey sender) -> sk_ok receiver -> unitZ ρ (pk_N (sk_PublicKey receiver)) ->
  ProveAffG h a A (Zmod.to_Z (pk_enc (sk_PublicKey receiver) b ρ)) sender (sk_PublicKey receiver) aux rand
    = Ret (β, D, F, pf, rand') ->
  (Z.abs (a * b - β) <= pk_N (sk_PublicKey receiver) / 2)%Z -> Dec receiver (Some D) = Ret (a * b - β)%Z.
Proof.
  intros Hs Hr Hρ (S' & R & r1 & _ & HS & _ & -> & _)%ProveAffG_inv Hb; [|done|apply Hr]. by apply mta_decrypts.
Qed.

(** The shares β that a signer keeps are short. *)
Lemma mta_step_betas r j rand out dβ cβ out' rand' sk :
  let r1 := sg_round1 r in
  pk_ok (sk_PublicKey (sg_SecretPaillier r1)) -> pk_ok (sk_PublicKey sk) -> sg_Paillier r1 !! j = Some (sk_PublicKey sk) ->
  mta_step r j rand out = Ret (dβ, cβ, out', rand') ->
  (Z.abs dβ < 2 ^ Z.of_nat params_LPrime /\ Z.abs cβ < 2 ^ Z.of_nat params_LPrime)%Z.
Proof.
  intros r1 Hs Hsk Hpk E. unfold mta_step in E. fold r1 in E.
  apply bind_ret_inv in E as (Γ & _ & E). apply bind_ret_inv in E as (K & _ & E).
  apply bind_ret_inv in E as (pkj & Epk%deref_ret & E). apply bind_ret_inv in E as (aux & _ & E).
  apply bind_ret_inv in E as ([[[[db D] F] pf] rd1] & Ed & E). apply bind_ret_inv in E as (X & _ & E).
  apply bind_ret_inv in E as ([[[[cb CD] CF] cp] rd2] & Ec & E). apply bind_ret_inv in E as (G & _ & E).
  apply bind_ret_inv in E as (pk & _ & E). apply bind_ret_inv in E as ([pl rd3] & _ & E).
  apply bind_ret_inv in E as (o & _ & E). injection E as -> -> _ _. assert (pkj = sk_PublicKey sk) as -> by congruence.
  apply ProveAffG_inv in Ed as (? & ? & ? & Hd & _); [|done..]. by apply ProveAffG_inv in Ec as (? & ? & ? & Hc & _).
Qed.

Lemma MakeInt_bound {CL : CurveLaws C} (s : Scalar) : (order <= 2 ^ 256)%Z -> (Z.abs (MakeInt s) <= 2 ^ Z.of_nat params_L)%Z.
Proof.
  intros Ho. rewrite MakeInt_spec. pose proof (scalar_range s) as Hr. change (Z.of_nat params_L) with 256%Z. lia.
Qed.

(** What a signer sends to another in round two, and the shares it keeps. *)
Lemma mta_step_ret r j rand out dβ cβ out' rand' sk k ρ :
  let r1 := sg_round1 r in
  pk_ok (sk_PublicKey (sg_SecretPaillier r1)) -> sk_ok sk -> sg_Paillier r1 !! j = Some (sk_PublicKey sk) ->
  unitZ ρ (pk_N (sk_PublicKey sk)) -> sg_K r !! j = Some (Zmod.to_Z (pk_enc (sk_PublicKey sk) (MakeInt k) ρ)) ->
  mta_step r j rand out = Ret (dβ, cβ, out', rand') ->
  (Z.abs (sg_GammaShare r * MakeInt k - dβ) <= pk_N (sk_PublicKey sk) / 2)%Z ->
  (Z.abs (MakeInt (sg_SecretECDSA r1) * MakeInt k - cβ) <= pk_N (sk_PublicKey sk) / 2)%Z ->
  exists DD DF DP CD CF CP PL,
    ch_buf out' = ch_buf out ++ [mkRoundMessage (sgn_self r1) j false (SgMessage3 DD DF DP CD CF CP PL)] /\
    Dec sk DD = Ret (sg_GammaShare r * MakeInt k - dβ)%Z /\
    Dec sk CD = Ret (MakeInt (sg_SecretECDSA r1) * MakeInt k - cβ)%Z.
Proof.
  intros r1 Hs Hsk Hpk Hρ HK E Hd Hc. unfold mta_step in E. fold r1 in E.
  apply bind_ret_inv in E as (Γ & _ & E). apply bind_ret_inv in E as (K & EK%deref_ret & E).
  apply bind_ret_inv in E as (pkj & Epk%deref_ret & E). apply bind_ret_inv in E as (aux & _ & E).
  apply bind_ret_inv in E as ([[[[db D] F] pf] rd1] & Ed & E). apply bind_ret_inv in E as (X & _ & E).
  apply bind_ret_inv in E as ([[[[cb CD] CF] cp] rd2] & Ec & E). apply bind_ret_inv in E as (G & _ & E).
  apply bind_ret_inv in E as (pk & _ & E). apply bind_ret_inv in E as ([pl rd3] & _ & E).
  apply bind_ret_inv in E as (o & Eo & E). injection E as -> -> -> _.
  assert (K = Zmod.to_Z (pk_enc (sk_PublicKey sk) (MakeInt k) ρ)) as ->
    by (apply (inj Some); exact (eq_trans (eq_sym EK) HK)).
  assert (pkj = sk_PublicKey sk) as -> by congruence.
  eexists _, _, _, _, _, _, _. split.
  - unfold SendMessage, try_send in Eo. destruct (decide _); [|done]. injection Eo as <-. cbn. reflexivity.
  - split; [by eapply ProveAffG_decrypts|by eapply ProveAffG_decrypts].
Qed.

End Pair.
