(* ===== verification/CmpPresign.v ===== *)
(** * protocols/cmp/presign: signing with identifiable abort

    The seven rounds that produce a presignature, the two rounds that turn one
    into a signature, and the two abort rounds in which the parties open their
    secrets to find out who cheated; every handler of [presign/*.go] is one
    definition.  [Parallelize] is the loop it is without a pool. *)

From Stdlib Require Import ZArith Lia Zmod Field.
From Stdlib Require Import Strings.Byte.
From stdpp Require Import base gmap strings list pretty numbers.
From S2P Require Import Elgamal.
From S2P Require Import Prelude Hash Curve Party Sample Polynomial Round Message Handler.
From S2P Require Import Arith SampleInts PaillierMath Paillier Pedersen Zk ZkEnc ZkGroup ZkAff ZkMul Mta Ecdsa.
From S2P Require Import CmpConfig CmpSign.

Local Open Scope curve_scope.

Definition protocolOfflineID : string := "cmp/presign-offline".
Definition protocolOnlineID : string := "cmp/presign-online".
Definition protocolFullID : string := "cmp/presign-full".
Definition protocolOfflineRounds : Number := 7%Z.
Definition protocolFullRounds : Number := 8%Z.

Section Presign.
Context {C : Curve} `{B3 : Blake3} {MO : MapOrder} {S : Saferith}.

(** ** Rounds and messages *)

(** A message of nil bytes asks for a presignature. *)
Record presign1 := mkPresign1 {
  ps_Helper : Helper;
  ps_SecretECDSA : Scalar;
  ps_SecretElGamal : Scalar;
  ps_SecretPaillier : SecretKey;
  ps_PublicKey : Point;
  ps_ECDSA : gmap ID Point;
  ps_ElGamal : gmap ID Point;
  ps_Paillier : gmap ID PublicKey;
  ps_Pedersen : gmap ID Parameters;
  ps_Message : option bytes
}.

Record presign2 := mkPresign2 {
  ps_round1 : presign1;
  ps_K : gmap ID Ciphertext;
  ps_G : gmap ID Ciphertext;
  ps_GammaShare : Z;
  ps_KShare : Scalar;
  ps_KNonce : Z;
  ps_GNonce : Z;
  ps_ElGamalKNonce : Scalar;
  ps_ElGamalK : gmap ID Elgamal.Ciphertext;
  ps_PresignatureID : gmap ID bytes;
  ps_CommitmentID : gmap ID bytes;
  ps_DecommitmentID : bytes
}.

(** The ciphertexts that one party sent to the others; a nil pointer is
    [None]. *)
Abbreviation ciphertexts := (gmap ID (option Ciphertext)).

Record presign3 := mkPresign3 {
  ps_round2 : presign2;
  ps_DeltaShareBeta : gmap ID Z;
  ps_ChiShareBeta : gmap ID Z;
  ps_DeltaCiphertext : gmap ID ciphertexts;
  ps_ChiCiphertext : gmap ID ciphertexts
}.

Record presign4 := mkPresign4 {
  ps_round3 : presign3;
  ps_DeltaShareAlpha : gmap ID Z;
  ps_ChiShareAlpha : gmap ID Z;
  ps_ElGamalChiNonce : Scalar;
  ps_ElGamalChi : gmap ID Elgamal.Ciphertext;
  ps_DeltaShares : gmap ID Scalar;
  ps_ChiShare : Scalar
}.

Record presign5 := mkPresign5 { ps_round4 : presign4; ps_BigGammaShare : gmap ID Point }.

Record presign6 := mkPresign6 { ps_round5 : presign5; ps_BigDeltaShares : gmap ID Point; ps_Gamma : Point }.

Record presign7 := mkPresign7 {
  ps_round6 : presign6;
  ps_Delta : Scalar;
  ps_S : gmap ID Point;
  ps_R : Point;
  ps_RBar : gmap ID Point
}.

Record abort1 := mkAbort1 {
  ab_round6 : presign6;
  ab_GammaShares : gmap ID Z;
  ab_KShares : gmap ID Z;
  ab_DeltaAlphas : gmap ID (gmap ID Z)
}.

Record abort2 := mkAbort2 {
  ab_round7 : presign7;
  ab_YHat : gmap ID Point;
  ab_KScalars : gmap ID Scalar;
  ab_ChiAlphas : gmap ID (gmap ID Scalar)
}.

Record sign1 := mkSign1 {
  sn_Helper : Helper;
  sn_PublicKey : Point;
  sn_Message : bytes;
  sn_PreSignature : PreSignature
}.

Record sign2 := mkSign2 { sn_sign1 : sign1; sn_SigmaShares : gmap ID Scalar }.

Inductive ps_round :=
| PS1 (r : presign1)
| PS2 (r : presign2)
| PS3 (r : presign3)
| PS4 (r : presign4)
| PS5 (r : presign5)
| PS6 (r : presign6)
| PS7 (r : presign7)
| PA1 (r : abort1)
| PA2 (r : abort2)
| SN1 (r : sign1)
| SN2 (r : sign2).

(** What a session returns. *)
Inductive ps_result :=
| RPreSignature (p : PreSignature)
| RSignature (s : Signature).

(** The plaintext of a ciphertext, its hidden nonce and the proof for it. *)
Record abortNth := mkAbortNth {
  an_Plaintext : option Z;
  an_Nonce : option Z;
  an_Proof : option zknth_Proof
}.

Inductive ps_content :=
| PBroadcast2 (K G : option Ciphertext) (Z : option Elgamal.Ciphertext) (CommitmentID : bytes)
| PMessage2 (Proof : option zkencelg_Proof)
| PBroadcast3 (DeltaCiphertext ChiCiphertext : option ciphertexts)
| PMessage3 (DeltaF : option Ciphertext) (DeltaProof : option zkaffp_Proof) (ChiF : option Ciphertext)
    (ChiProof : option zkaffg_Proof)
| PBroadcast4 (DeltaShare : option Scalar) (ElGamalChi : option Elgamal.Ciphertext)
| PBroadcast5 (BigGammaShare : option Point)
| PMessage5 (ProofLog : option zklogstar_Proof)
| PBroadcast6 (BigDeltaShare : option Point) (Proof : option zkelog_Proof)
| PBroadcast7 (S : option Point) (Proof : option zkelog_Proof) (DecommitmentID PresignatureID : bytes)
| PBroadcastAbort1 (GammaShare : option Z) (KProof : option abortNth) (DeltaProofs : gmap ID (option abortNth))
| PBroadcastAbort2 (YHat : option Point) (YHatProof : option zklog_Proof) (KProof : option abortNth)
    (ChiProofs : gmap ID (option abortNth))
| PBroadcastSign2 (Sigma : option Scalar).

Definition ps_1of3 (r : presign3) : presign1 := ps_round1 (ps_round2 r).
Definition ps_3of6 (r : presign6) : presign3 := ps_round3 (ps_round4 (ps_round5 r)).
Definition ps_2of6 (r : presign6) : presign2 := ps_round2 (ps_3of6 r).
Definition ps_1of6 (r : presign6) : presign1 := ps_round1 (ps_2of6 r).

Definition ps_helper (r : ps_round) : Helper :=
  match r with
  | PS1 r => ps_Helper r
  | PS2 r => ps_Helper (ps_round1 r)
  | PS3 r => ps_Helper (ps_1of3 r)
  | PS4 r => ps_Helper (ps_1of3 (ps_round3 r))
  | PS5 r => ps_Helper (ps_1of3 (ps_round3 (ps_round4 r)))
  | PS6 r => ps_Helper (ps_1of6 r)
  | PS7 r => ps_Helper (ps_1of6 (ps_round6 r))
  | PA1 r => ps_Helper (ps_1of6 (ab_round6 r))
  | PA2 r => ps_Helper (ps_1of6 (ps_round6 (ab_round7 r)))
  | SN1 r => sn_Helper r
  | SN2 r => sn_Helper (sn_sign1 r)
  end.

Definition ps_self (r : presign1) : ID := SelfID (info (ps_Helper r)).

Definition ps_Number (r : ps_round) : Number :=
  match r with
  | PS1 _ => 1 | PS2 _ => 2 | PS3 _ => 3 | PS4 _ => 4 | PS5 _ => 5 | PS6 _ => 6 | PS7 _ => 7
  | PA1 _ => 7 | PA2 _ => 8 | SN1 _ => 1 | SN2 _ => 8
  end%Z.

Definition ps_is_broadcast (r : ps_round) : bool := match r with PS1 _ | SN1 _ => false | _ => true end.

Definition ps_MessageContent (r : ps_round) : option ps_content :=
  match r with
  | PS2 _ => Some (PMessage2 (Some zkencelg_Empty))
  | PS3 _ => Some (PMessage3 None None None (Some zkaffg_Empty))
  | PS5 _ => Some (PMessage5 (Some zklogstar_Empty))
  | _ => None
  end.

Definition ps_BroadcastContent (r : ps_round) : option ps_content :=
  match r with
  | PS1 _ | SN1 _ => None
  | PS2 _ => Some (PBroadcast2 None None (Some Elgamal.elgamal_Empty) [])
  | PS3 _ => Some (PBroadcast3 None None)
  | PS4 _ => Some (PBroadcast4 (Some 0) (Some Elgamal.elgamal_Empty))
  | PS5 _ => Some (PBroadcast5 (Some 𝟎))
  | PS6 _ => Some (PBroadcast6 (Some 𝟎) (Some zkelog_Empty))
  | PS7 _ => Some (PBroadcast7 (Some 𝟎) (Some zkelog_Empty) [] [])
  | PA1 _ => Some (PBroadcastAbort1 None None ∅)
  | PA2 _ => Some (PBroadcastAbort2 (Some 𝟎) (Some zklog_Empty) None ∅)
  | SN2 _ => Some (PBroadcastSign2 (Some 0))
  end.

Definition ps_RoundNumber (c : ps_content) : Number :=
  match c with
  | PBroadcast2 _ _ _ _ | PMessage2 _ => 2
  | PBroadcast3 _ _ | PMessage3 _ _ _ _ => 3
  | PBroadcast4 _ _ => 4
  | PBroadcast5 _ | PMessage5 _ => 5
  | PBroadcast6 _ _ => 6
  | PBroadcast7 _ _ _ _ => 7
  | PBroadcastAbort1 _ _ _ => 7
  | PBroadcastAbort2 _ _ _ _ => 8
  | PBroadcastSign2 _ => 8
  end%Z.

Abbreviation ps_message := (round_Message ps_content).
Abbreviation ps_session := (Session ps_round ps_result).

(** [m[j][k]] on the maps of ciphertexts. *)
Definition ciphertext_at (m : gmap ID ciphertexts) (j k : ID) : option Ciphertext :=
  match m !! j with
  | Some m => match m !! k with Some c => c | None => None end
  | None => None
  end.

(** ** Round 1 *)

(** The proofs for the other parties. *)
Fixpoint send_encelg_proofs (r : presign1) (K : Ciphertext) (ElGamalK : Elgamal.Ciphertext) (KShare : Scalar)
    (KNonce : Z) (ElGamalNonce : Scalar) (ids : list ID) (rand : reader) (out : chan ps_message) :
    outcome (chan ps_message * reader) :=
  match ids with
  | [] => Ret (out, rand)
  | j :: ids =>
      Y ← deref (ps_ElGamal r !! ps_self r);
      pk ← deref (ps_Paillier r !! ps_self r);
      aux ← deref (ps_Pedersen r !! j);
      '(proof, rand) ← zkencelg_NewProof (HashForID (ps_Helper r) (ps_self r))
                         (mkElgPublic K Y (Elgamal.ct_L ElGamalK) (Elgamal.ct_M ElGamalK) pk aux)
                         (mkElgPrivate (MakeInt KShare) KNonce (ps_SecretElGamal r) ElGamalNonce) rand;
      out ← SendMessage (ps_Helper r) out (PMessage2 (Some proof)) j;
      send_encelg_proofs r K ElGamalK KShare KNonce ElGamalNonce ids rand out
  end.

Definition presign1_Finalize (r : presign1) (rand : reader) (out : chan ps_message) :
    outcome (presign2 * chan ps_message * reader) :=
  let h := ps_Helper r in
  let self := ps_self r in
  '(GammaShare, rand) ← sample_Scalar rand;
  pk ← deref (ps_Paillier r !! self);
  '(G, GNonce, rand) ← Enc pk (MakeInt GammaShare) rand;
  '(KShare, rand) ← sample_Scalar rand;
  '(K, KNonce, rand) ← Enc pk (MakeInt KShare) rand;
  Y ← deref (ps_ElGamal r !! self);
  '(ElGamalK, ElGamalNonce, rand) ← Elgamal.elgamal_Encrypt Y KShare rand;
  '(presignatureID, rand) ← NewRID rand;
  '(commitmentID, decommitmentID, rand) ← Commit (HashForID h self) rand [RID_any (Some presignatureID)];
  out ← BroadcastMessage h out (PBroadcast2 (Some K) (Some G) (Some ElGamalK) commitmentID);
  '(out, rand) ← send_encelg_proofs r K ElGamalK KShare KNonce ElGamalNonce (otherPartyIDs h) rand out;
  Ret (mkPresign2 r {[self := K]} {[self := G]} (MakeInt GammaShare) KShare KNonce GNonce ElGamalNonce
         {[self := ElGamalK]} {[self := presignatureID]} ∅ decommitmentID, out, rand).

(** ** Round 2 *)

Definition presign2_StoreBroadcastMessage (r : presign2) (msg : ps_message) : outcome presign2 :=
  let from := rm_From msg in
  match rm_Content msg with
  | PBroadcast2 K G Z CommitmentID =>
      pk ← deref (ps_Paillier (ps_round1 r) !! from);
      if negb (ValidateCiphertexts pk [K; G]) || negb (Elgamal.elgamal_Valid Z) then Fail Round.ErrNilFields
      else
        _ ← Commitment_Validate CommitmentID;
        K ← deref K;
        G ← deref G;
        Z ← deref Z;
        Ret (mkPresign2 (ps_round1 r) (<[from := K]> (ps_K r)) (<[from := G]> (ps_G r)) (ps_GammaShare r)
               (ps_KShare r) (ps_KNonce r) (ps_GNonce r) (ps_ElGamalKNonce r) (<[from := Z]> (ps_ElGamalK r))
               (ps_PresignatureID r) (<[from := CommitmentID]> (ps_CommitmentID r)) (ps_DecommitmentID r))
  | _ => Fail ErrInvalidContent
  end.

Definition presign2_VerifyMessage (r : presign2) (msg : ps_message) : outcome unit :=
  let from := rm_From msg in
  let r1 := ps_round1 r in
  match rm_Content msg with
  | PMessage2 Proof =>
      K ← deref (ps_K r !! from);
      A ← deref (ps_ElGamal r1 !! from);
      Z ← deref (ps_ElGamalK r !! from);
      pk ← deref (ps_Paillier r1 !! from);
      aux ← deref (ps_Pedersen r1 !! rm_To msg);
      ok ← zkencelg_Verify Proof (HashForID (ps_Helper r1) from)
             (mkElgPublic K A (Elgamal.ct_L Z) (Elgamal.ct_M Z) pk aux);
      guard_or ok "failed to validate enc-elg proof for K"
  | _ => Fail ErrInvalidContent
  end.

(** [mtaOut]: β, D, F and the proof of the two MtA with one party. *)
Record mtaOut := mkMtaOut {
  DeltaBeta : Z;
  mo_DeltaD : Ciphertext;
  mo_DeltaF : Ciphertext;
  mo_DeltaProof : zkaffp_Proof;
  ChiBeta : Z;
  mo_ChiD : Ciphertext;
  mo_ChiF : Ciphertext;
  mo_ChiProof : zkaffg_Proof
}.

Definition presign_mta (r : presign2) (j : ID) (rand : reader) : outcome (mtaOut * reader) :=
  let r1 := ps_round1 r in
  let self := ps_self r1 in
  let h := HashForID (ps_Helper r1) self in
  G ← deref (ps_G r !! self);
  Kj ← deref (ps_K r !! j);
  pkj ← deref (ps_Paillier r1 !! j);
  auxj ← deref (ps_Pedersen r1 !! j);
  '(DeltaBeta, DeltaD, DeltaF, DeltaProof, rand) ←
    ProveAffP h (ps_GammaShare r) G (ps_GNonce r) Kj (ps_SecretPaillier r1) pkj auxj rand;
  X ← deref (ps_ECDSA r1 !! self);
  '(ChiBeta, ChiD, ChiF, ChiProof, rand) ←
    ProveAffG h (MakeInt (ps_SecretECDSA r1)) X Kj (ps_SecretPaillier r1) pkj auxj rand;
  Ret (mkMtaOut DeltaBeta DeltaD DeltaF DeltaProof ChiBeta ChiD ChiF ChiProof, rand).

Fixpoint presign_mtas (r : presign2) (ids : list ID) (rand : reader) : outcome (list (ID * mtaOut) * reader) :=
  match ids with
  | [] => Ret ([], rand)
  | j :: ids =>
      '(m, rand) ← presign_mta r j rand;
      '(ms, rand) ← presign_mtas r ids rand;
      Ret ((j, m) :: ms, rand)
  end.

(** [for id, msg := range msgs { r.SendMessage(out, msg, id) }] *)
Fixpoint send_all (h : Helper) (msgs : list (ID * ps_content)) (out : chan ps_message) : outcome (chan ps_message) :=
  match msgs with
  | [] => Ret out
  | (id, msg) :: msgs => out ← SendMessage h out msg id; send_all h msgs out
  end.

Definition presign2_Finalize (r : presign2) (rand : reader) (out : chan ps_message) :
    outcome (presign3 * chan ps_message * reader) :=
  let h := ps_Helper (ps_round1 r) in
  let self := ps_self (ps_round1 r) in
  '(mtaOuts, rand) ← presign_mtas r (otherPartyIDs h) rand;
  let outs : gmap ID mtaOut := list_to_map mtaOuts in
  let DeltaCiphertext : ciphertexts := (fun m => Some (mo_DeltaD m)) <$> outs in
  let ChiCiphertext : ciphertexts := (fun m => Some (mo_ChiD m)) <$> outs in
  let msgs := (fun m => PMessage3 (Some (mo_DeltaF m)) (Some (mo_DeltaProof m)) (Some (mo_ChiF m))
                          (Some (mo_ChiProof m))) <$> outs in
  out ← BroadcastMessage h out (PBroadcast3 (Some DeltaCiphertext) (Some ChiCiphertext));
  out ← send_all h (range_order msgs) out;
  Ret (mkPresign3 r (DeltaBeta <$> outs) (ChiBeta <$> outs) {[self := DeltaCiphertext]} {[self := ChiCiphertext]},
       out, rand).

(** ** Round 3 *)

(** [for _, id := range r.PartyIDs()]: every ciphertext is valid. *)
Fixpoint ciphertexts_valid (paillier : gmap ID PublicKey) (from : ID) (delta chi : ciphertexts) (ids : list ID) :
    outcome unit :=
  match ids with
  | [] => Ret tt
  | id :: ids =>
      if decide (id = from) then ciphertexts_valid paillier from delta chi ids
      else
        pk ← deref (paillier !! id);
        if negb (ValidateCiphertexts pk [mjoin (delta !! id); mjoin (chi !! id)])
        then Fail "received invalid ciphertext"
        else ciphertexts_valid paillier from delta chi ids
  end.

Definition presign3_StoreBroadcastMessage (r : presign3) (msg : ps_message) : outcome presign3 :=
  let from := rm_From msg in
  let r1 := ps_1of3 r in
  match rm_Content msg with
  | PBroadcast3 DeltaCiphertext ChiCiphertext =>
      match DeltaCiphertext, ChiCiphertext with
      | Some delta, Some chi =>
          _ ← ciphertexts_valid (ps_Paillier r1) from delta chi (partyIDs (ps_Helper r1));
          Ret (mkPresign3 (ps_round2 r) (ps_DeltaShareBeta r) (ps_ChiShareBeta r)
                 (<[from := delta]> (ps_DeltaCiphertext r)) (<[from := chi]> (ps_ChiCiphertext r)))
      | _, _ => Fail Round.ErrNilFields
      end
  | _ => Fail ErrInvalidContent
  end.

(** [zkaffp.Verify] on ciphertexts of a message: the challenge of a proof on a
    nil ciphertext is an error. *)
Definition affp_verified (p : option zkaffp_Proof) (h : Hash) (Kv : Ciphertext) (Dv Fp : option Ciphertext)
    (Xp : Ciphertext) (prover verifier : PublicKey) (aux : Parameters) : outcome bool :=
  match Dv, Fp with
  | Some D, Some F => zkaffp_Verify p h (mkAffpPublic Kv D F Xp prover verifier aux)
  | _, _ => _ ← zkaffp_IsValid p (mkAffpPublic Kv 0%Z 0%Z Xp prover verifier aux); Ret false
  end.

Definition presign3_VerifyMessage (r : presign3) (msg : ps_message) : outcome unit :=
  let from := rm_From msg in
  let to := rm_To msg in
  let r2 := ps_round2 r in
  let r1 := ps_round1 r2 in
  let h := HashForID (ps_Helper r1) from in
  match rm_Content msg with
  | PMessage3 DeltaF DeltaProof ChiF ChiProof =>
      K ← deref (ps_K r2 !! to);
      G ← deref (ps_G r2 !! from);
      prover ← deref (ps_Paillier r1 !! from);
      verifier ← deref (ps_Paillier r1 !! to);
      aux ← deref (ps_Pedersen r1 !! to);
      ok ← affp_verified DeltaProof h K (ciphertext_at (ps_DeltaCiphertext r) from to) DeltaF G prover verifier aux;
      _ ← guard_or ok "failed to validate affp proof for Delta MtA";
      X ← deref (ps_ECDSA r1 !! from);
      ok ← affg_verified ChiProof h K (ciphertext_at (ps_ChiCiphertext r) from to) ChiF X prover verifier aux;
      guard_or ok "failed to validate affg proof for Chi MtA"
  | _ => Fail ErrInvalidContent
  end.

(** The two shares, the α of every party and the parties whose ciphertexts do
    not decrypt. *)
Record opened := mkOpened {
  op_Delta : Z;
  op_Chi : Z;
  op_DeltaAlpha : gmap ID Z;
  op_ChiAlpha : gmap ID Z;
  op_culprits : list ID
}.

Fixpoint open_shares (r : presign3) (st : opened) (ids : list ID) : outcome opened :=
  match ids with
  | [] => Ret st
  | j :: ids =>
      let r1 := ps_1of3 r in
      let self := ps_self r1 in
      let culprit := mkOpened (op_Delta st) (op_Chi st) (op_DeltaAlpha st) (op_ChiAlpha st) (op_culprits st ++ [j]) in
      match Dec (ps_SecretPaillier r1) (ciphertext_at (ps_DeltaCiphertext r) j self) with
      | Panic p => Panic p
      | Fail _ => open_shares r culprit ids
      | Ret a =>
          match Dec (ps_SecretPaillier r1) (ciphertext_at (ps_ChiCiphertext r) j self) with
          | Panic p => Panic p
          | Fail _ => open_shares r culprit ids
          | Ret ahat =>
              b ← deref (ps_DeltaShareBeta r !! j);
              bhat ← deref (ps_ChiShareBeta r !! j);
              open_shares r
                (mkOpened (op_Delta st + a + b) (op_Chi st + ahat + bhat) (<[j := a]> (op_DeltaAlpha st))
                   (<[j := ahat]> (op_ChiAlpha st)) (op_culprits st)) ids
          end
      end
  end%Z.

(** Either the next round or the culprits. *)
Definition presign3_Finalize (r : presign3) (rand : reader) (out : chan ps_message) :
    outcome ((presign4 + list ID) * chan ps_message * reader) :=
  let r2 := ps_round2 r in
  let r1 := ps_round1 r2 in
  let h := ps_Helper r1 in
  let self := ps_self r1 in
  let KShareInt := MakeInt (ps_KShare r2) in
  let DeltaShare := (ps_GammaShare r2 * KShareInt)%Z in
  let ChiShare := (MakeInt (ps_SecretECDSA r1) * KShareInt)%Z in
  st ← open_shares r (mkOpened DeltaShare ChiShare ∅ ∅ []) (otherPartyIDs h);
  match op_culprits st with
  | _ :: _ => Ret (inr (op_culprits st), out, rand)
  | [] =>
      Y ← deref (ps_ElGamal r1 !! self);
      '(ElGamalChi, ElGamalChiNonce, rand) ← Elgamal.elgamal_Encrypt Y (scalar_of (op_Chi st)) rand;
      let DeltaShareScalar := scalar_of (op_Delta st) in
      out ← BroadcastMessage h out (PBroadcast4 (Some DeltaShareScalar) (Some ElGamalChi));
      Ret (inl (mkPresign4 r (op_DeltaAlpha st) (op_ChiAlpha st) ElGamalChiNonce {[self := ElGamalChi]}
                  {[self := DeltaShareScalar]} (scalar_of (op_Chi st))), out, rand)
  end.

(** ** Round 4 *)

Definition presign4_StoreBroadcastMessage (r : presign4) (msg : ps_message) : outcome presign4 :=
  match rm_Content msg with
  | PBroadcast4 DeltaShare ElGamalChi =>
      d ← deref DeltaShare;
      if IsZero d || negb (Elgamal.elgamal_Valid ElGamalChi) then Fail Round.ErrNilFields
      else
        Z ← deref ElGamalChi;
        Ret (mkPresign4 (ps_round3 r) (ps_DeltaShareAlpha r) (ps_ChiShareAlpha r) (ps_ElGamalChiNonce r)
               (<[rm_From msg := Z]> (ps_ElGamalChi r)) (<[rm_From msg := d]> (ps_DeltaShares r)) (ps_ChiShare r))
  | _ => Fail ErrInvalidContent
  end.

Fixpoint send_gamma_proofs (r : presign4) (BigGammaShare : Point) (ids : list ID) (rand : reader)
    (out : chan ps_message) : outcome (chan ps_message * reader) :=
  match ids with
  | [] => Ret (out, rand)
  | j :: ids =>
      let r2 := ps_round2 (ps_round3 r) in
      let r1 := ps_round1 r2 in
      G ← deref (ps_G r2 !! ps_self r1);
      pk ← deref (ps_Paillier r1 !! ps_self r1);
      aux ← deref (ps_Pedersen r1 !! j);
      '(proofLog, rand) ← zklogstar_NewProof (HashForID (ps_Helper r1) (ps_self r1))
                            (mkLogstarPublic G BigGammaShare None pk aux)
                            (mkLogstarPrivate (ps_GammaShare r2) (ps_GNonce r2)) rand;
      out ← SendMessage (ps_Helper r1) out (PMessage5 (Some proofLog)) j;
      send_gamma_proofs r BigGammaShare ids rand out
  end.

Definition presign4_Finalize (r : presign4) (rand : reader) (out : chan ps_message) :
    outcome (presign5 * chan ps_message * reader) :=
  let r2 := ps_round2 (ps_round3 r) in
  let h := ps_Helper (ps_round1 r2) in
  let BigGammaShare := ActOnBase (scalar_of (ps_GammaShare r2)) in
  out ← BroadcastMessage h out (PBroadcast5 (Some BigGammaShare));
  '(out, rand) ← send_gamma_proofs r BigGammaShare (otherPartyIDs h) rand out;
  Ret (mkPresign5 r {[ps_self (ps_round1 r2) := BigGammaShare]}, out, rand).

(** ** Round 5 *)

Definition presign5_StoreBroadcastMessage (r : presign5) (msg : ps_message) : outcome presign5 :=
  match rm_Content msg with
  | PBroadcast5 BigGammaShare =>
      P ← deref BigGammaShare;
      if IsIdentity P then Fail Round.ErrNilFields
      else Ret (mkPresign5 (ps_round4 r) (<[rm_From msg := P]> (ps_BigGammaShare r)))
  | _ => Fail ErrInvalidContent
  end.

Definition presign5_VerifyMessage (r : presign5) (msg : ps_message) : outcome unit :=
  let from := rm_From msg in
  let r2 := ps_round2 (ps_round3 (ps_round4 r)) in
  let r1 := ps_round1 r2 in
  match rm_Content msg with
  | PMessage5 ProofLog =>
      G ← deref (ps_G r2 !! from);
      X ← deref (ps_BigGammaShare r !! from);
      prover ← deref (ps_Paillier r1 !! from);
      aux ← deref (ps_Pedersen r1 !! rm_To msg);
      ok ← zklogstar_Verify ProofLog (HashForID (ps_Helper r1) from) (mkLogstarPublic G X None prover aux);
      guard_or ok "failed to validate log* proof for BigGammaShare"
  | _ => Fail ErrInvalidContent
  end.

Definition presign5_Finalize (r : presign5) (rand : reader) (out : chan ps_message) :
    outcome (presign6 * chan ps_message * reader) :=
  let r2 := ps_round2 (ps_round3 (ps_round4 r)) in
  let r1 := ps_round1 r2 in
  let h := ps_Helper r1 in
  let self := ps_self r1 in
  let Gamma := foldl PAdd 𝟎 (range_order (ps_BigGammaShare r)).*2 in
  let BigDeltaShare := ps_KShare r2 • Gamma in
  E ← deref (ps_ElGamalK r2 !! self);
  Y ← deref (ps_ElGamal r1 !! self);
  '(proofLog, rand) ← zkelog_NewProof (HashForID h self) (mkElogPublic E Y Gamma BigDeltaShare)
                        (mkElogPrivate (ps_KShare r2) (ps_ElGamalKNonce r2)) rand;
  out ← BroadcastMessage h out (PBroadcast6 (Some BigDeltaShare) (Some proofLog));
  Ret (mkPresign6 r {[self := BigDeltaShare]} Gamma, out, rand).

(** ** Round 6 *)

Definition presign6_StoreBroadcastMessage (r : presign6) (msg : ps_message) : outcome presign6 :=
  let from := rm_From msg in
  let r1 := ps_1of6 r in
  match rm_Content msg with
  | PBroadcast6 BigDeltaShare Proof =>
      D ← deref BigDeltaShare;
      if IsIdentity D then Fail Round.ErrNilFields
      else
        E ← deref (ps_ElGamalK (ps_2of6 r) !! from);
        Y ← deref (ps_ElGamal r1 !! from);
        ok ← zkelog_Verify Proof (HashForID (ps_Helper r1) from) (mkElogPublic E Y (ps_Gamma r) D);
        _ ← guard_or ok "failed to validate elog proof for BigDeltaShare";
        Ret (mkPresign6 (ps_round5 r) (<[from := D]> (ps_BigDeltaShares r)) (ps_Gamma r))
  | _ => Fail ErrInvalidContent
  end.

(** An error of [DecWithRandomness] is ignored: the nil nonce panics. *)
Definition proveNth (h : Hash) (paillierSecret : SecretKey) (c : option Ciphertext) (rand : reader) :
    outcome (abortNth * reader) :=
  match DecWithRandomness paillierSecret c with
  | Panic p => Panic p
  | Fail _ => deref None
  | Ret (deltaShareAlpha, deltaNonce) =>
      let pk := sk_PublicKey paillierSecret in
      let deltaNonceHidden := Modulus_Exp (pk_nSquared pk) deltaNonce (pk_N pk) in
      '(proof, rand) ← zknth_NewProof h (mkNthPublic pk deltaNonceHidden) deltaNonce rand;
      Ret (mkAbortNth (Some deltaShareAlpha) (Some deltaNonceHidden) (Some proof), rand)
  end.

(** The proofs for the ciphertexts that the other parties sent to this one. *)
Fixpoint prove_all (h : Hash) (sk : SecretKey) (m : gmap ID ciphertexts) (self : ID) (ids : list ID) (rand : reader) :
    outcome (gmap ID (option abortNth) * reader) :=
  match ids with
  | [] => Ret (∅, rand)
  | j :: ids =>
      '(p, rand) ← proveNth h sk (ciphertext_at m j self) rand;
      '(ps, rand) ← prove_all h sk m self ids rand;
      Ret (<[j := Some p]> ps, rand)
  end.

Definition presign6_abort (r : presign6) (rand : reader) (out : chan ps_message) :
    outcome (abort1 * chan ps_message * reader) :=
  let r2 := ps_2of6 r in
  let r1 := ps_1of6 r in
  let hp := ps_Helper r1 in
  let self := ps_self r1 in
  let h := HashForID hp self in
  let sk := ps_SecretPaillier r1 in
  '(DeltaProofs, rand) ← prove_all h sk (ps_DeltaCiphertext (ps_3of6 r)) self (otherPartyIDs hp) rand;
  '(KProof, rand) ← proveNth h sk (ps_K r2 !! self) rand;
  out ← BroadcastMessage hp out (PBroadcastAbort1 (Some (ps_GammaShare r2)) (Some KProof) DeltaProofs);
  Ret (mkAbort1 r {[self := ps_GammaShare r2]} {[self := MakeInt (ps_KShare r2)]}
         {[self := ps_DeltaShareAlpha (ps_round4 (ps_round5 r))]}, out, rand).

Definition presign6_Finalize (r : presign6) (rand : reader) (out : chan ps_message) :
    outcome ((presign7 + abort1) * chan ps_message * reader) :=
  let r4 := ps_round4 (ps_round5 r) in
  let r2 := ps_2of6 r in
  let r1 := ps_1of6 r in
  let h := ps_Helper r1 in
  let self := ps_self r1 in
  let Delta := foldl Zmod.add 0 (range_order (ps_DeltaShares r4)).*2 in
  let DeltaInv := Invert Delta in
  let R := DeltaInv • ps_Gamma r in
  let BigDeltaExpected := ActOnBase Delta in
  let BigDeltaActual := foldl PAdd 𝟎 (range_order (ps_BigDeltaShares r)).*2 in
  if negb (PEqual BigDeltaActual BigDeltaExpected) then
    '(a, out, rand) ← presign6_abort r rand out;
    Ret (inr a, out, rand)
  else
    let S' := ps_ChiShare r4 • R in
    let RBar := (fun D => DeltaInv • D) <$> ps_BigDeltaShares r in
    E ← deref (ps_ElGamalChi r4 !! self);
    Y ← deref (ps_ElGamal r1 !! self);
    '(proof, rand) ← zkelog_NewProof (HashForID h self) (mkElogPublic E Y R S')
                       (mkElogPrivate (ps_ChiShare r4) (ps_ElGamalChiNonce r4)) rand;
    out ← BroadcastMessage h out (PBroadcast7 (Some S') (Some proof) (ps_DecommitmentID r2)
                                    (default [] (ps_PresignatureID r2 !! self)));
    Ret (inl (mkPresign7 r Delta {[self := S']} R RBar), out, rand).

(** ** Round 7 *)

(** Storing S and the identifier of a party. *)
Definition store_S (r : presign7) (from : ID) (P : Point) (id : bytes) : presign7 :=
  let r6 := ps_round6 r in
  let r5 := ps_round5 r6 in
  let r4 := ps_round4 r5 in
  let r3 := ps_round3 r4 in
  let r2 := ps_round2 r3 in
  mkPresign7
    (mkPresign6
      (mkPresign5
        (mkPresign4
          (mkPresign3
            (mkPresign2 (ps_round1 r2) (ps_K r2) (ps_G r2) (ps_GammaShare r2) (ps_KShare r2) (ps_KNonce r2)
               (ps_GNonce r2) (ps_ElGamalKNonce r2) (ps_ElGamalK r2) (<[from := id]> (ps_PresignatureID r2))
               (ps_CommitmentID r2) (ps_DecommitmentID r2))
            (ps_DeltaShareBeta r3) (ps_ChiShareBeta r3) (ps_DeltaCiphertext r3) (ps_ChiCiphertext r3))
          (ps_DeltaShareAlpha r4) (ps_ChiShareAlpha r4) (ps_ElGamalChiNonce r4) (ps_ElGamalChi r4)
          (ps_DeltaShares r4) (ps_ChiShare r4))
        (ps_BigGammaShare r5))
      (ps_BigDeltaShares r6) (ps_Gamma r6))
    (ps_Delta r) (<[from := P]> (ps_S r)) (ps_R r) (ps_RBar r).

Definition presign7_StoreBroadcastMessage (r : presign7) (msg : ps_message) : outcome presign7 :=
  let from := rm_From msg in
  let r6 := ps_round6 r in
  let r1 := ps_1of6 r6 in
  let h := HashForID (ps_Helper r1) from in
  match rm_Content msg with
  | PBroadcast7 S' Proof DecommitmentID PresignatureID =>
      P ← deref S';
      if IsIdentity P then Fail Round.ErrNilFields
      else
        _ ← Decommitment_Validate DecommitmentID;
        _ ← RID_Validate PresignatureID;
        if negb (Decommit h (default [] (ps_CommitmentID (ps_2of6 r6) !! from)) DecommitmentID
                   [RID_any (Some PresignatureID)])
        then Fail "failed to decommit presignature ID"
        else
          E ← deref (ps_ElGamalChi (ps_round4 (ps_round5 r6)) !! from);
          Y ← deref (ps_ElGamal r1 !! from);
          ok ← zkelog_Verify Proof h (mkElogPublic E Y (ps_R r) P);
          _ ← guard_or ok "failed to validate elog proof for S";
          Ret (store_S r from P PresignatureID)
  | _ => Fail ErrInvalidContent
  end.

(** [for _, id := range r.PresignatureID { presignatureID.XOR(id) }] *)
Fixpoint xor_ids (acc : bytes) (l : list bytes) : outcome bytes :=
  match l with
  | [] => Ret acc
  | id :: l => acc ← RID_XOR acc id; xor_ids acc l
  end.

Definition presign7_abort (r : presign7) (rand : reader) (out : chan ps_message) :
    outcome (abort2 * chan ps_message * reader) :=
  let r6 := ps_round6 r in
  let r4 := ps_round4 (ps_round5 r6) in
  let r2 := ps_2of6 r6 in
  let r1 := ps_1of6 r6 in
  let hp := ps_Helper r1 in
  let self := ps_self r1 in
  let h := HashForID hp self in
  let sk := ps_SecretPaillier r1 in
  let nonce := ps_ElGamalChiNonce r4 in
  Y ← deref (ps_ElGamal r1 !! self);
  let YHat := nonce • Y in
  '(YHatProof, rand) ← zklog_NewProof h (mkLogPublic (ActOnBase nonce) Y YHat)
                         (mkLogPrivate (ps_SecretElGamal r1) nonce) rand;
  '(ChiProofs, rand) ← prove_all h sk (ps_ChiCiphertext (ps_3of6 r6)) self (otherPartyIDs hp) rand;
  '(KProof, rand) ← proveNth h sk (ps_K r2 !! self) rand;
  out ← BroadcastMessage hp out (PBroadcastAbort2 (Some YHat) (Some YHatProof) (Some KProof) ChiProofs);
  Ret (mkAbort2 r {[self := YHat]} {[self := ps_KShare r2]}
         {[self := scalar_of <$> ps_ChiShareAlpha r4]}, out, rand).

Definition sign1_Finalize (r : sign1) (out : chan ps_message) : outcome (sign2 * chan ps_message) :=
  let SigmaShare := SignatureShare (sn_PreSignature r) (sn_Message r) in
  out ← BroadcastMessage (sn_Helper r) out (PBroadcastSign2 (Some SigmaShare));
  Ret (mkSign2 r {[SelfID (info (sn_Helper r)) := SigmaShare]}, out).

(** The presignature, the first round of signing or the abort round. *)
Definition presign7_Finalize (r : presign7) (rand : reader) (out : chan ps_message) :
    outcome ((PreSignature + sign2 + abort2) * chan ps_message * reader) :=
  let r6 := ps_round6 r in
  let r4 := ps_round4 (ps_round5 r6) in
  let r2 := ps_2of6 r6 in
  let r1 := ps_1of6 r6 in
  let PublicKeyComputed := foldl PAdd 𝟎 (range_order (ps_S r)).*2 in
  presignatureID ← xor_ids EmptyRID (range_order (ps_PresignatureID r2)).*2;
  if negb (PEqual (ps_PublicKey r1) PublicKeyComputed) then
    '(a, out, rand) ← presign7_abort r rand out;
    Ret (inr a, out, rand)
  else
    let preSignature := mkPreSignature presignatureID (ps_R r) (ps_RBar r) (ps_S r) (ps_KShare r2) (ps_ChiShare r4) in
    match ps_Message r1 with
    | None => Ret (inl (inl preSignature), out, rand)
    | Some message =>
        '(s, out) ← sign1_Finalize (mkSign1 (ps_Helper r1) (ps_PublicKey r1) message preSignature) out;
        Ret (inl (inr s), out, rand)
    end.

(** ** The abort rounds *)

Definition abortNth_Verify (msg : option abortNth) (h : Hash) (paillierPublic : PublicKey) (c : option Ciphertext) :
    outcome bool :=
  match msg with
  | None => Ret false
  | Some msg =>
      let NSquared := mod_n (pk_nSquared paillierPublic) in
      require IsValidNatModN NSquared [an_Nonce msg];
      match an_Plaintext msg with
      | None => Ret false
      | Some m =>
          cExpected ← deref c;
          cActual ← EncWithNonce paillierPublic m 1;
          nonce ← deref (an_Nonce msg);
          require bool_decide (cExpected = (cActual * nonce) mod NSquared)%Z;
          ok ← zknth_Verify (an_Proof msg) h (mkNthPublic paillierPublic nonce);
          require ok;
          Ret true
      end
  end.

(** [for id, proof := range proofs { alphas[id] = proof.Plaintext }]; a nil
    proof is dereferenced, a nil plaintext is left out. *)
Fixpoint plaintexts (proofs : list (ID * option abortNth)) : outcome (gmap ID Z) :=
  match proofs with
  | [] => Ret ∅
  | (id, p) :: proofs =>
      p ← deref p;
      alphas ← plaintexts proofs;
      Ret (match an_Plaintext p with Some a => <[id := a]> alphas | None => alphas end)
  end.

(** [for id, proof := range proofs]: the proof is checked against the
    ciphertext that its sender sent to [id]. *)
Fixpoint proofs_verified (h : Hash) (public : PublicKey) (m : gmap ID ciphertexts) (from : ID)
    (proofs : list (ID * option abortNth)) : outcome unit :=
  match proofs with
  | [] => Ret tt
  | (id, p) :: proofs =>
      ok ← abortNth_Verify p h public (ciphertext_at m from id);
      _ ← guard_or ok "failed to validate Delta MtA Nth proof";
      proofs_verified h public m from proofs
  end.

Definition abort1_StoreBroadcastMessage (r : abort1) (msg : ps_message) : outcome abort1 :=
  let from := rm_From msg in
  let r6 := ab_round6 r in
  let r1 := ps_1of6 r6 in
  let h := HashForID (ps_Helper r1) from in
  match rm_Content msg with
  | PBroadcastAbort1 GammaShare KProof DeltaProofs =>
      alphas ← plaintexts (range_order DeltaProofs);
      kp ← deref KProof;
      public ← deref (ps_Paillier r1 !! from);
      ok ← abortNth_Verify KProof h public (ps_K (ps_2of6 r6) !! from);
      _ ← guard_or ok "failed to verify validity of k";
      γ ← deref GammaShare;
      k ← deref (an_Plaintext kp);
      BigGamma ← deref (ps_BigGammaShare (ps_round5 r6) !! from);
      _ ← guard_or (PEqual BigGamma (ActOnBase (scalar_of γ))) "different BigGammaShare";
      _ ← proofs_verified h public (ps_DeltaCiphertext (ps_3of6 r6)) from (range_order DeltaProofs);
      Ret (mkAbort1 r6 (<[from := γ]> (ab_GammaShares r)) (<[from := k]> (ab_KShares r))
             (<[from := alphas]> (ab_DeltaAlphas r)))
  | _ => Fail ErrInvalidContent
  end.

(** [r.Alphas[j][l]] *)
Definition alpha_at {A} (m : gmap ID (gmap ID A)) (j l : ID) : outcome A :=
  deref (match m !! j with Some m => m !! l | None => None end).

(** [for _, l := range r.PartyIDs()]: the share δ of [j] from the opened
    secrets. *)
Fixpoint delta_of (r : abort1) (j : ID) (γ : Z) (delta : Z) (ids : list ID) : outcome Z :=
  match ids with
  | [] => Ret delta
  | l :: ids =>
      if decide (l = j) then delta_of r j γ delta ids
      else
        ajl ← alpha_at (ab_DeltaAlphas r) j l;
        kl ← deref (ab_KShares r !! l);
        alj ← alpha_at (ab_DeltaAlphas r) l j;
        delta_of r j γ (delta + ajl + kl * γ - alj)%Z ids
  end.

Fixpoint delta_culprits (r : abort1) (parties ids : list ID) : outcome (list ID) :=
  match ids with
  | [] => Ret []
  | j :: ids =>
      k ← deref (ab_KShares r !! j);
      γ ← deref (ab_GammaShares r !! j);
      delta ← delta_of r j γ (k * γ)%Z parties;
      dj ← deref (ps_DeltaShares (ps_round4 (ps_round5 (ab_round6 r))) !! j);
      culprits ← delta_culprits r parties ids;
      Ret (if bool_decide (scalar_of delta = dj) then culprits else j :: culprits)
  end.

Definition abort1_Finalize (r : abort1) : outcome (list ID) :=
  let h := ps_Helper (ps_1of6 (ab_round6 r)) in
  delta_culprits r (partyIDs h) (otherPartyIDs h).

(** The loop of [abort2], where a nil plaintext is dereferenced. *)
Fixpoint plaintext_scalars (proofs : list (ID * option abortNth)) : outcome (gmap ID Scalar) :=
  match proofs with
  | [] => Ret ∅
  | (id, p) :: proofs =>
      p ← deref p;
      a ← deref (an_Plaintext p);
      alphas ← plaintext_scalars proofs;
      Ret (<[id := scalar_of a]> alphas)
  end.

Definition abort2_StoreBroadcastMessage (r : abort2) (msg : ps_message) : outcome abort2 :=
  let from := rm_From msg in
  let r6 := ps_round6 (ab_round7 r) in
  let r1 := ps_1of6 r6 in
  let h := HashForID (ps_Helper r1) from in
  match rm_Content msg with
  | PBroadcastAbort2 YHat YHatProof KProof ChiProofs =>
      alphas ← plaintext_scalars (range_order ChiProofs);
      kp ← deref KProof;
      k ← deref (an_Plaintext kp);
      H ← deref (ps_ElGamalChi (ps_round4 (ps_round5 r6)) !! from);
      X ← deref (ps_ElGamal r1 !! from);
      Y ← deref YHat;
      ok ← zklog_Verify YHatProof h (mkLogPublic (Elgamal.ct_L H) X Y);
      _ ← guard_or ok "failed to verify YHat log proof";
      public ← deref (ps_Paillier r1 !! from);
      ok ← abortNth_Verify KProof h public (ps_K (ps_2of6 r6) !! from);
      _ ← guard_or ok "failed to verify validity of k";
      _ ← proofs_verified h public (ps_ChiCiphertext (ps_3of6 r6)) from (range_order ChiProofs);
      Ret (mkAbort2 (ab_round7 r) (<[from := Y]> (ab_YHat r)) (<[from := scalar_of k]> (ab_KScalars r))
             (<[from := alphas]> (ab_ChiAlphas r)))
  | _ => Fail ErrInvalidContent
  end.

(** [for _, l := range r.PartyIDs()]: the point M of [j] from the opened
    secrets. *)
Fixpoint chi_of (r : abort2) (j : ID) (Xj M : Point) (ids : list ID) : outcome Point :=
  match ids with
  | [] => Ret M
  | l :: ids =>
      if decide (l = j) then chi_of r j Xj M ids
      else
        ajl ← alpha_at (ab_ChiAlphas r) j l;
        kl ← deref (ab_KScalars r !! l);
        alj ← alpha_at (ab_ChiAlphas r) l j;
        chi_of r j Xj (PSub (M ⊕ ActOnBase ajl ⊕ kl • Xj) (ActOnBase alj)) ids
  end.

Fixpoint chi_culprits (r : abort2) (parties ids : list ID) : outcome (list ID) :=
  match ids with
  | [] => Ret []
  | j :: ids =>
      let r6 := ps_round6 (ab_round7 r) in
      YHat ← deref (ab_YHat r !! j);
      k ← deref (ab_KScalars r !! j);
      Xj ← deref (ps_ECDSA (ps_1of6 r6) !! j);
      M ← chi_of r j Xj (𝟎 ⊕ YHat ⊕ k • Xj) parties;
      Z ← deref (ps_ElGamalChi (ps_round4 (ps_round5 r6)) !! j);
      culprits ← chi_culprits r parties ids;
      Ret (if PEqual M (Elgamal.ct_M Z) then culprits else j :: culprits)
  end.

Definition abort2_Finalize (r : abort2) : outcome (list ID) :=
  let h := ps_Helper (ps_1of6 (ps_round6 (ab_round7 r))) in
  chi_culprits r (partyIDs h) (otherPartyIDs h).

(** ** Signing with a presignature *)

Definition sign2_StoreBroadcastMessage (r : sign2) (msg : ps_message) : outcome sign2 :=
  match rm_Content msg with
  | PBroadcastSign2 Sigma =>
      s ← deref Sigma;
      if IsZero s then Fail Round.ErrNilFields
      else Ret (mkSign2 (sn_sign1 r) (<[rm_From msg := s]> (sn_SigmaShares r)))
  | _ => Fail ErrInvalidContent
  end.

(** The signature, or the parties whose shares do not verify. *)
Definition sign2_Finalize (r : sign2) : Signature + list ID :=
  let s := pre_Signature (sn_PreSignature (sn_sign1 r)) (sn_SigmaShares r) in
  if Verify s (sn_PublicKey (sn_sign1 r)) (sn_Message (sn_sign1 r)) then inl s
  else inr (VerifySignatureShares (sn_PreSignature (sn_sign1 r)) (sn_SigmaShares r) (sn_Message (sn_sign1 r))).

(** ** The round interface *)

Definition ps_VerifyMessage (r : ps_round) (msg : ps_message) : outcome unit :=
  match r with
  | PS2 r => presign2_VerifyMessage r msg
  | PS3 r => presign3_VerifyMessage r msg
  | PS5 r => presign5_VerifyMessage r msg
  | _ => Ret tt
  end.

Definition ps_StoreMessage (r : ps_round) (msg : ps_message) : outcome ps_round := Ret r.

Definition ps_StoreBroadcastMessage (r : ps_round) (msg : ps_message) : outcome ps_round :=
  match r with
  | PS1 _ | SN1 _ => Ret r
  | PS2 r => r' ← presign2_StoreBroadcastMessage r msg; Ret (PS2 r')
  | PS3 r => r' ← presign3_StoreBroadcastMessage r msg; Ret (PS3 r')
  | PS4 r => r' ← presign4_StoreBroadcastMessage r msg; Ret (PS4 r')
  | PS5 r => r' ← presign5_StoreBroadcastMessage r msg; Ret (PS5 r')
  | PS6 r => r' ← presign6_StoreBroadcastMessage r msg; Ret (PS6 r')
  | PS7 r => r' ← presign7_StoreBroadcastMessage r msg; Ret (PS7 r')
  | PA1 r => r' ← abort1_StoreBroadcastMessage r msg; Ret (PA1 r')
  | PA2 r => r' ← abort2_StoreBroadcastMessage r msg; Ret (PA2 r')
  | SN2 r => r' ← sign2_StoreBroadcastMessage r msg; Ret (SN2 r')
  end.

Definition ps_Finalize (r : ps_round) (rand : reader) (out : chan ps_message) :
    outcome ps_session * chan ps_message * reader :=
  let h := ps_helper r in
  match
    match r with
    | PS1 r => '(r', out, rand) ← presign1_Finalize r rand out; Ret (Running (PS2 r'), out, rand)
    | PS2 r => '(r', out, rand) ← presign2_Finalize r rand out; Ret (Running (PS3 r'), out, rand)
    | PS3 r =>
        '(s, out, rand) ← presign3_Finalize r rand out;
        Ret (match s with
             | inl r' => Running (PS4 r')
             | inr culprits => Abort h "failed to decrypt alpha shares for mta" culprits
             end, out, rand)
    | PS4 r => '(r', out, rand) ← presign4_Finalize r rand out; Ret (Running (PS5 r'), out, rand)
    | PS5 r => '(r', out, rand) ← presign5_Finalize r rand out; Ret (Running (PS6 r'), out, rand)
    | PS6 r =>
        '(s, out, rand) ← presign6_Finalize r rand out;
        Ret (match s with inl r' => Running (PS7 r') | inr a => Running (PA1 a) end, out, rand)
    | PS7 r =>
        '(s, out, rand) ← presign7_Finalize r rand out;
        Ret (match s with
             | inl (inl p) => Output h (RPreSignature p)
             | inl (inr s) => Running (SN2 s)
             | inr a => Running (PA2 a)
             end, out, rand)
    | PA1 r => culprits ← abort1_Finalize r; Ret (Abort h "abort1: detected culprit" culprits, out, rand)
    | PA2 r => culprits ← abort2_Finalize r; Ret (Abort h "abort2: detected culprit" culprits, out, rand)
    | SN1 r => '(r', out) ← sign1_Finalize r out; Ret (Running (SN2 r'), out, rand)
    | SN2 r =>
        Ret (match sign2_Finalize r with
             | inl s => Output h (RSignature s)
             | inr culprits => Abort h "signature failed to verify" culprits
             end, out, rand)
    end
  with
  | Ret (s, out, rand) => (Ret s, out, rand)
  | Fail e => (Fail e, out, rand)
  | Panic p => (Panic p, out, rand)
  end.

Context {CB : Cbor ps_content}.

#[export] Instance ps_ops : RoundOps ps_round ps_content ps_result := {|
  r_helper := ps_helper;
  r_Number := ps_Number;
  r_is_broadcast := ps_is_broadcast;
  r_MessageContent := ps_MessageContent;
  r_BroadcastContent := ps_BroadcastContent;
  r_VerifyMessage := ps_VerifyMessage;
  r_StoreMessage := ps_StoreMessage;
  r_StoreBroadcastMessage := ps_StoreBroadcastMessage;
  r_Finalize := ps_Finalize;
  c_RoundNumber := ps_RoundNumber;
  c_Cbor := CB
|}.

(** ** Starting the protocols *)

(** [types.SigningMessage]: the domain of nil is its own. *)
Definition message_any (m : option bytes) : any :=
  AWriterTo "types.SigningMessage" (match m with None => "Empty Message" | Some _ => "Signature Message" end)
    (Ret (default [] m)).

(** [ElGamal[j] = public.ElGamal] for the signers. *)
Fixpoint collect_elgamal (public : gmap ID Public) (ids : list ID) (acc : gmap ID Point) : outcome (gmap ID Point) :=
  match ids with
  | [] => Ret acc
  | j :: ids => p ← deref (public !! j); collect_elgamal public ids (<[j := pub_ElGamal p]> acc)
  end.

(** One call of the function that [StartPresign] returns. *)
Definition StartPresign (c : option CmpConfig) (signers : list ID) (message : option bytes) (sessionID : option bytes) :
    outcome ps_session :=
  match c with
  | None => Fail "presign: config is nil"
  | Some c =>
      let '(rounds, protocol) :=
        if decide (length (default [] message) = 0%nat) then (protocolOfflineRounds, protocolOfflineID)
        else (protocolFullRounds, protocolFullID) in
      let info := mkInfo protocol rounds (cc_ID c) signers (cc_Threshold c) (Some Name) in
      helper ← wrap_err "sign.Create: " (NewSession info sessionID [Some (Config_any c); Some (message_any message)]);
      if negb (CanSign c (partyIDs helper)) then Fail "sign.Create: signers is not a valid signing subset"
      else
        lagrange ← Lagrange signers;
        l ← deref (lagrange !! cc_ID c);
        let SecretECDSA := l * cc_ECDSA c in
        '(ECDSA, Paillier, Pedersen, PublicKey) ←
          scale_public lagrange (cc_Public c) (partyIDs helper) (∅, ∅, ∅, 𝟎);
        ElGamal ← collect_elgamal (cc_Public c) (partyIDs helper) ∅;
        Ret (Running (PS1 (mkPresign1 helper SecretECDSA (cc_ElGamal c) (cc_Paillier c) PublicKey ECDSA ElGamal
                             Paillier Pedersen message)))
  end.

(** One call of the function that [StartPresignOnline] returns. *)
Definition StartPresignOnline (c : option CmpConfig) (preSignature : option PreSignature) (message : bytes)
    (sessionID : option bytes) : outcome ps_session :=
  match c, preSignature with
  | Some c, Some p =>
      if decide (length message = 0%nat) then Fail "sign.Create: message is nil"
      else
        _ ← wrap_err "sign.Create: " (pre_Validate p);
        let signers := SignerIDs p in
        if negb (CanSign c signers) then Fail "sign.Create: signers is not a valid signing subset"
        else
          let info := mkInfo protocolOnlineID protocolFullRounds (cc_ID c) signers (cc_Threshold c) (Some Name) in
          helper ← wrap_err "sign.Create: "
            (NewSession info sessionID
               [Some (Config_any c); Some (BytesWithDomain "PreSignatureID" (Some (pre_ID p)));
                Some (message_any (Some message))]);
          X ← PublicPoint c;
          Ret (Running (SN1 (mkSign1 helper X message p)))
  | _, _ => Fail "presign: config or preSignature is nil"
  end.

End Presign.
