(* ===== verification/CmpPresignProps.v ===== *)
(** * What CMP presigning guarantees

    Whatever the others sent, a reported signature verifies, a reported
    presignature is consistent, and when its shares do not combine to a valid
    signature somebody is named.  Honest signers, whose MtA shares add up to
    the products, reach a presignature of the key. *)

From Stdlib Require Import ZArith Lia Zmod Field.
From stdpp Require Import base gmap strings list pretty numbers.
From S2P Require Import Elgamal.
From S2P Require Import Prelude Hash Curve Party Sample Polynomial Round Message Handler HandlerSpec.
From S2P Require Import Arith SampleInts PaillierMath Paillier Pedersen Zk ZkEnc ZkGroup ZkAff ZkMul Mta Ecdsa.
From S2P Require Import FrostConfig CmpConfig CmpSign CmpSignProps CmpPresign.

Local Open Scope curve_scope.

(** ** Inversion of the handlers *)

Section Rounds.
Context {C : Curve} `{B3 : Blake3} {MO : MapOrder} {S : Saferith}.

(** The first round inside of a round of presigning. *)
Definition first_of (r : ps_round) : option presign1 :=
  match r with
  | PS1 r => Some r
  | PS2 r => Some (ps_round1 r)
  | PS3 r => Some (ps_1of3 r)
  | PS4 r => Some (ps_1of3 (ps_round3 r))
  | PS5 r => Some (ps_1of3 (ps_round3 (ps_round4 r)))
  | PS6 r => Some (ps_1of6 r)
  | PS7 r => Some (ps_1of6 (ps_round6 r))
  | PA1 r => Some (ps_1of6 (ab_round6 r))
  | PA2 r => Some (ps_1of6 (ps_round6 (ab_round7 r)))
  | SN1 _ | SN2 _ => None
  end.

Lemma ps_Finalize_inv r rand out s out' rand' :
  ps_Finalize r rand out = (Ret s, out', rand') ->
  let h := ps_helper r in
  match r with
  | PS1 r1 => exists r2, s = Running (PS2 r2) /\ presign1_Finalize r1 rand out = Ret (r2, out', rand')
  | PS2 r2 => exists r3, s = Running (PS3 r3) /\ presign2_Finalize r2 rand out = Ret (r3, out', rand')
  | PS3 r3 => exists x, presign3_Finalize r3 rand out = Ret (x, out', rand') /\
      s = match x with inl r4 => Running (PS4 r4) | inr c => Abort h "failed to decrypt alpha shares for mta" c end
  | PS4 r4 => exists r5, s = Running (PS5 r5) /\ presign4_Finalize r4 rand out = Ret (r5, out', rand')
  | PS5 r5 => exists r6, s = Running (PS6 r6) /\ presign5_Finalize r5 rand out = Ret (r6, out', rand')
  | PS6 r6 => exists x, presign6_Finalize r6 rand out = Ret (x, out', rand') /\
      s = match x with inl r7 => Running (PS7 r7) | inr a => Running (PA1 a) end
  | PS7 r7 => exists x, presign7_Finalize r7 rand out = Ret (x, out', rand') /\
      s = match x with
          | inl (inl p) => Output h (RPreSignature p) | inl (inr s) => Running (SN2 s) | inr a => Running (PA2 a)
          end
  | PA1 a => exists c, abort1_Finalize a = Ret c /\ s = Abort h "abort1: detected culprit" c
  | PA2 a => exists c, abort2_Finalize a = Ret c /\ s = Abort h "abort2: detected culprit" c
  | SN1 r1 => exists r2, s = Running (SN2 r2) /\ sign1_Finalize r1 out = Ret (r2, out')
  | SN2 r2 => s = match sign2_Finalize r2 with
                  | inl g => Output h (RSignature g) | inr c => Abort h "signature failed to verify" c
                  end
  end.
Proof.
  unfold ps_Finalize. destruct (match r with PS1 _ => _ | _ => _ end) as [[[s' o] rd]| |] eqn:E; [|done..].
  intros [= -> -> ->]. destruct r as [r|r|r|r|r|r|r|r|r|r|r].
  11: { by injection E as <- _ _. }
  10: { apply bind_ret_inv in E as ([x o] & E & [= <- <- _]). by exists x. }
  all: apply bind_ret_inv in E as (x & E & Es).
  8, 9: exists x; split; [done|by injection Es as <- _ _].
  all: destruct x as [[x o] rd]; injection Es as <- <- <-; by exists x.
Qed.

Lemma presign1_ret r rand out r' out' rand' :
  presign1_Finalize r rand out = Ret (r', out', rand') -> ps_round1 r' = r.
Proof.
  intros E. unfold presign1_Finalize in E. cbn zeta in E.
  repeat (apply bind_ret_inv in E as (? & _ & E); repeat case_match). by injection E as <- _ _.
Qed.

Lemma presign2_ret r rand out r' out' rand' :
  presign2_Finalize r rand out = Ret (r', out', rand') -> ps_round2 r' = r.
Proof.
  intros ([ms rd] & _ & E)%bind_ret_inv. do 2 apply bind_ret_inv in E as (? & _ & E). by injection E as <- _ _.
Qed.

Lemma presign3_ret r rand out r' out' rand' :
  presign3_Finalize r rand out = Ret (inl r', out', rand') ->
  let r2 := ps_round2 r in let r1 := ps_round1 r2 in
  exists st, open_shares r (mkOpened (ps_GammaShare r2 * MakeInt (ps_KShare r2))
                              (MakeInt (ps_SecretECDSA r1) * MakeInt (ps_KShare r2)) ∅ ∅ [])
               (otherPartyIDs (ps_Helper r1)) = Ret st /\ op_culprits st = [] /\
    ps_round3 r' = r /\ ps_DeltaShares r' = {[ps_self r1 := scalar_of (op_Delta st)]} /\
    ps_ChiShare r' = scalar_of (op_Chi st).
Proof.
  intros (st & Est & E)%bind_ret_inv r2 r1. exists st. split; [exact Est|]. destruct (op_culprits st); [|done].
  apply bind_ret_inv in E as (? & _ & E). apply bind_ret_inv in E as ([[? ?] ?] & _ & E).
  apply bind_ret_inv in E as (? & _ & E). by injection E as <- _ _.
Qed.

Lemma presign4_ret r rand out r' out' rand' :
  presign4_Finalize r rand out = Ret (r', out', rand') ->
  ps_round4 r' = r /\ let r2 := ps_round2 (ps_round3 r) in
  ps_BigGammaShare r' = {[ps_self (ps_round1 r2) := ActOnBase (scalar_of (ps_GammaShare r2))]}.
Proof.
  intros (? & _ & E)%bind_ret_inv. apply bind_ret_inv in E as ([? ?] & _ & E). by injection E as <- _ _.
Qed.

Lemma presign5_ret r rand out r' out' rand' :
  presign5_Finalize r rand out = Ret (r', out', rand') ->
  ps_round5 r' = r /\ let r2 := ps_round2 (ps_round3 (ps_round4 r)) in
  ps_Gamma r' = foldl PAdd 𝟎 (range_order (ps_BigGammaShare r)).*2 /\
  ps_BigDeltaShares r' = {[ps_self (ps_round1 r2) := ps_KShare r2 • ps_Gamma r']}.
Proof.
  intros (? & _ & E)%bind_ret_inv. apply bind_ret_inv in E as (? & _ & E).
  apply bind_ret_inv in E as ([? ?] & _ & E). apply bind_ret_inv in E as (? & _ & E). by injection E as <- _ _.
Qed.

Definition δ_sum (r : presign6) : Scalar := foldl Zmod.add 0 (range_order (ps_DeltaShares (ps_round4 (ps_round5 r)))).*2.

Lemma presign6_ret r rand out x out' rand' :
  presign6_Finalize r rand out = Ret (x, out', rand') ->
  match x with
  | inl r' =>
      foldl PAdd 𝟎 (range_order (ps_BigDeltaShares r)).*2 = ActOnBase (δ_sum r) /\
      ps_round6 r' = r /\ ps_R r' = Invert (δ_sum r) • ps_Gamma r /\
      ps_RBar r' = (fun D => Invert (δ_sum r) • D) <$> ps_BigDeltaShares r /\
      ps_S r' = {[ps_self (ps_1of6 r) := ps_ChiShare (ps_round4 (ps_round5 r)) • ps_R r']}
  | inr a => ab_round6 a = r
  end.
Proof.
  unfold presign6_Finalize. fold (δ_sum r). unfold PEqual. destruct (bool_decide_reflect
    (foldl PAdd 𝟎 (range_order (ps_BigDeltaShares r)).*2 = ActOnBase (δ_sum r))) as [H|H]; cbn [negb]; intros E.
  - do 2 apply bind_ret_inv in E as (? & _ & E). apply bind_ret_inv in E as ([? ?] & _ & E).
    apply bind_ret_inv in E as (? & _ & E). by injection E as <- _ _.
  - apply bind_ret_inv in E as ([[a o] rd] & Ea & [= <- _ _]).
    unfold presign6_abort in Ea. apply bind_ret_inv in Ea as ([? ?] & _ & E). apply bind_ret_inv in E as ([? ?] & _ & E).
    apply bind_ret_inv in E as (? & _ & E). by injection E as <- _ _.
Qed.

Lemma presign7_abort_ret r rand out a out' rand' :
  presign7_abort r rand out = Ret (a, out', rand') ->
  ab_round7 a = r /\ dom (ab_YHat a) = {[ps_self (ps_1of6 (ps_round6 r))]}.
Proof.
  intros (Y & _ & E)%bind_ret_inv. do 3 apply bind_ret_inv in E as ([? ?] & _ & E).
  apply bind_ret_inv in E as (? & _ & E). injection E as <- _ _. split; [done|apply dom_singleton_L].
Qed.

Lemma presign7_ret r rand out x out' rand' :
  presign7_Finalize r rand out = Ret (x, out', rand') ->
  let r1 := ps_1of6 (ps_round6 r) in
  match x with
  | inl y => ps_PublicKey r1 = foldl PAdd 𝟎 (range_order (ps_S r)).*2 /\
      exists id, let p := mkPreSignature id (ps_R r) (ps_RBar r) (ps_S r) (ps_KShare (ps_2of6 (ps_round6 r)))
                            (ps_ChiShare (ps_round4 (ps_round5 (ps_round6 r)))) in
        match y with
        | inl p' => ps_Message r1 = None /\ p' = p
        | inr s => exists m, ps_Message r1 = Some m /\
            s = mkSign2 (mkSign1 (ps_Helper r1) (ps_PublicKey r1) m p) {[ps_self r1 := SignatureShare p m]}
        end
  | inr a => ab_round7 a = r /\ dom (ab_YHat a) = {[ps_self r1]}
  end.
Proof.
  intros (id & _ & E)%bind_ret_inv r1. fold r1 in E. unfold PEqual in E. destruct (bool_decide_reflect
    (ps_PublicKey r1 = foldl PAdd 𝟎 (range_order (ps_S r)).*2)) as [H|H]; cbn [negb] in E.
  - destruct (ps_Message r1) as [m|] eqn:Em.
    + apply bind_ret_inv in E as ([s o] & Es & [= <- _ _]). split; [done|]. exists id. exists m. split; [done|].
      unfold sign1_Finalize in Es. apply bind_ret_inv in Es as (? & _ & Es). by injection Es as <- _.
    + injection E as <- _ _. split; [done|]. by exists id.
  - apply bind_ret_inv in E as ([[a o] rd] & Ea & [= <- _ _]). by apply presign7_abort_ret in Ea.
Qed.

End Rounds.

(** ** Soundness *)

Section Sound.
Context {C : Curve} {CL : CurveLaws C} `{B3 : Blake3} {MO : MapOrder} {MOL : MapOrderLaws} {S : Saferith}.
Context {CB : Cbor ps_content}.
Add Field scalar_field : scalar_field_theory.

(** A presignature whose points add up to the base point and to the key. *)
Record consistent (p : PreSignature) (ids : list ID) (X : Point) : Prop := {
  co_RBar : dom (pre_RBar p) = list_to_set ids;
  co_S : dom (pre_S p) = list_to_set ids;
  co_key : sumP (getP (pre_S p)) ids = X;
  co_base : pre_R p <> 𝟎 -> sumP (getP (pre_RBar p)) ids = 𝐆
}.

Lemma range_points (m : gmap ID Point) ids :
  NoDup ids -> dom m = list_to_set ids -> foldl PAdd 𝟎 (range_order m).*2 = sumP (getP m) ids.
Proof.
  intros ND Hd. rewrite foldl_PAdd, padd_0_l, (range_order_perm _ m). apply sumP_map; [done..|].
  intros l v E. unfold getP. by rewrite E.
Qed.

(** Nobody is named only when the combined signature is valid. *)
Lemma consistent_verify p ids X shares hash :
  NoDup ids -> consistent p ids X -> dom shares = list_to_set ids ->
  VerifySignatureShares p shares hash = [] -> pre_R p <> 𝟎 -> XScalar (pre_R p) <> 0 ->
  sig_S (pre_Signature p shares) <> 0 -> Verify (pre_Signature p shares) X hash = true.
Proof.
  intros ND Hc Hd Hn N0 Nr Ns. apply ecdsa_Verify_spec. unfold ecdsa_equation. split_and!; [done..|].
  cbn [pre_Signature sig_R sig_S] in *. rewrite (range_sum shares (getS shares) ids ND Hd).
  - rewrite <- (co_base _ _ _ Hc N0), <- (co_key _ _ _ Hc), <- sumP_act, <- !sumP_act_r, <- sumP_add. apply sumP_ext. intros j Hj.
    assert (j ∈ dom shares) as [s Es]%elem_of_dom by (rewrite Hd; by apply elem_of_list_to_set).
    destruct (bad_share p (FromHash hash) (XScalar (pre_R p)) j s) eqn:Eb.
    { assert (j ∈ VerifySignatureShares p shares hash) as Hin; [|rewrite Hn in Hin; by apply elem_of_nil in Hin].
      unfold VerifySignatureShares. rewrite list_elem_of_omap. exists (j, s). cbn. rewrite Eb. split; [|done].
      rewrite range_order_perm. by apply elem_of_map_to_list. }
    unfold bad_share in Eb.
    assert (j ∈ dom (pre_RBar p)) as [Rj ER]%elem_of_dom by (rewrite (co_RBar _ _ _ Hc); by apply elem_of_list_to_set).
    assert (j ∈ dom (pre_S p)) as [Sj ES]%elem_of_dom by (rewrite (co_S _ _ _ Hc); by apply elem_of_list_to_set).
    rewrite ER, ES in Eb. apply negb_false_iff, bool_decide_eq_true in Eb. unfold getS, getP. by rewrite Es, ER, ES.
  - intros j Hj. assert (j ∈ dom shares) as [s Es]%elem_of_dom by (rewrite Hd; by apply elem_of_list_to_set).
    unfold getS. by rewrite Es.
Qed.

(** How a session starts: the messages of every round are expected. *)
Record presign_start (r0 : presign1) : Prop := {
  pst_session : session_ok (ps_Helper r0);
  pst_final : (7 <= FinalRoundNumber (info (ps_Helper r0)))%Z;
  pst_full : ps_Message r0 <> None -> FinalRoundNumber (info (ps_Helper r0)) = 8%Z
}.

(** The senders whose data a map holds, besides the party's own. *)
Definition holds {A} (r0 : presign1) (m : gmap ID A) (B : gset ID) : Prop := dom m = {[ps_self r0]} ∪ B.

Definition ps_inv (r0 : presign1) (r : ps_round) (B : gset ID) : Prop :=
  B ⊆ list_to_set (otherPartyIDs (ps_Helper r0)) /\
  match r with
  | PS6 r => ps_1of6 r = r0 /\ holds r0 (ps_BigDeltaShares r) B
  | PS7 r => ps_1of6 (ps_round6 r) = r0 /\ holds r0 (ps_S r) B /\
      dom (ps_RBar r) = list_to_set (partyIDs (ps_Helper r0)) /\
      (ps_R r <> 𝟎 -> sumP (getP (ps_RBar r)) (partyIDs (ps_Helper r0)) = 𝐆)
  | SN1 _ => False
  | SN2 s => sn_Helper (sn_sign1 s) = ps_Helper r0 /\ sn_PublicKey (sn_sign1 s) = ps_PublicKey r0 /\
      ps_Message r0 = Some (sn_Message (sn_sign1 s)) /\ holds r0 (sn_SigmaShares s) B /\
      consistent (sn_PreSignature (sn_sign1 s)) (partyIDs (ps_Helper r0)) (ps_PublicKey r0)
  | r => first_of r = Some r0
  end.

Lemma ps_inv_helper r0 r B : ps_inv r0 r B -> ps_helper r = ps_Helper r0.
Proof.
  intros [_ H]. destruct r; cbn in *; try (by injection H as ->); try done.
  - by destruct H as [-> _].
  - by destruct H as [-> _].
  - by destruct H as [-> _].
Qed.

Lemma holds_singleton {A} r0 (a : A) : holds r0 {[ps_self r0 := a]} ∅.
Proof. unfold holds. rewrite dom_singleton_L. set_solver. Qed.

Lemma holds_insert {A} r0 (m : gmap ID A) B j a : holds r0 m B -> holds r0 (<[j := a]> m) ({[j]} ∪ B).
Proof. unfold holds. intros H. rewrite dom_insert_L, H. set_solver. Qed.

(** Once every other party has sent, a map holds the data of all. *)
Lemma holds_all {A} r0 (m : gmap ID A) B :
  session_ok (ps_Helper r0) -> holds r0 m B -> B ⊆ list_to_set (otherPartyIDs (ps_Helper r0)) ->
  (forall id, id ∈ otherPartyIDs (ps_Helper r0) -> id ∈ B) -> dom m = list_to_set (partyIDs (ps_Helper r0)).
Proof.
  unfold holds. intros So -> HB Hall. apply set_eq. intros j. rewrite elem_of_union, elem_of_singleton, elem_of_list_to_set.
  split.
  - intros [->|Hj%HB]; [apply (so_self _ So)|]. rewrite elem_of_list_to_set, (so_others _ So) in Hj.
    by apply elem_of_Remove in Hj as [? _].
  - intros Hj. destruct (decide (j = ps_self r0)) as [->|N]; [by left|]. right. apply Hall. rewrite (so_others _ So).
    apply elem_of_Remove. by split.
Qed.

Lemma ps_inv_broadcast r0 r B m r' :
  ps_inv r0 r B -> rm_From m ∈ otherPartyIDs (ps_Helper r0) ->
  ps_StoreBroadcastMessage r m = Ret r' -> ps_inv r0 r' ({[rm_From m]} ∪ B).
Proof.
  intros [HB H] Hm E. split; [set_solver|]. destruct r as [r|r|r|r|r|r|r|r|r|r|r]; cbn [ps_StoreBroadcastMessage] in E.
  1: by injection E as <-.
  9: done.
  all: apply bind_ret_inv in E as (x & E & [= <-]).
  - unfold presign2_StoreBroadcastMessage in E. destruct (rm_Content m); try done. apply bind_ret_inv in E as (? & _ & E).
    destruct (_ || _); [done|]. do 4 apply bind_ret_inv in E as (? & _ & E). by injection E as <-.
  - unfold presign3_StoreBroadcastMessage in E. destruct (rm_Content m) as [| |[?|] [?|]| | | | | | | | |]; try done.
    apply bind_ret_inv in E as (? & _ & E). by injection E as <-.
  - unfold presign4_StoreBroadcastMessage in E. destruct (rm_Content m); try done. apply bind_ret_inv in E as (? & _ & E).
    destruct (_ || _); [done|]. apply bind_ret_inv in E as (? & _ & E). by injection E as <-.
  - unfold presign5_StoreBroadcastMessage in E. destruct (rm_Content m); try done. apply bind_ret_inv in E as (P & _ & E).
    destruct (IsIdentity P); [done|]. by injection E as <-.
  - unfold presign6_StoreBroadcastMessage in E. destruct (rm_Content m); try done. apply bind_ret_inv in E as (P & _ & E).
    destruct (IsIdentity P); [done|]. do 4 apply bind_ret_inv in E as (? & _ & E). injection E as <-.
    destruct H as [H1 H2]. split; [done|]. by apply holds_insert.
  - unfold presign7_StoreBroadcastMessage in E. destruct (rm_Content m); try done. apply bind_ret_inv in E as (P & _ & E).
    destruct (IsIdentity P); [done|]. do 2 apply bind_ret_inv in E as (? & _ & E). destruct (negb _); [done|].
    do 4 apply bind_ret_inv in E as (? & _ & E). injection E as <-. destruct H as (H1 & H2 & H3).
    split; [done|]. split; [by apply holds_insert|done].
  - unfold abort1_StoreBroadcastMessage in E. destruct (rm_Content m); try done. repeat apply bind_ret_inv in E as (? & _ & E).
    by injection E as <-.
  - unfold abort2_StoreBroadcastMessage in E. destruct (rm_Content m); try done. repeat apply bind_ret_inv in E as (? & _ & E).
    by injection E as <-.
  - unfold sign2_StoreBroadcastMessage in E. destruct (rm_Content m); try done. apply bind_ret_inv in E as (s & _ & E).
    destruct (IsZero s); [done|]. injection E as <-. destruct H as (H1 & H2 & H3 & H4 & H5).
    split_and!; try done. by apply holds_insert.
Qed.

(** What the invariant says of a round that has everything it waits for. *)
Lemma ps_complete r0 r B M :
  presign_start r0 -> ps_inv r0 r B -> complete r B M -> ps_is_broadcast r = true -> (ps_Number r <= 7)%Z ->
  forall id, id ∈ otherPartyIDs (ps_Helper r0) -> id ∈ B.
Proof.
  intros St Hi Hc Hb Hn id Hid. pose proof (ps_inv_helper _ _ _ Hi) as Eh.
  assert (2 <= ps_Number r)%Z by (destruct r; cbn in *; done || lia).
  apply (Hc ltac:(unfold r_Final; cbn; rewrite Eh; pose proof (pst_final _ St); lia) id); [|done].
  unfold r_others. cbn. by rewrite Eh.
Qed.

Lemma inv_sum_zero (s : Scalar) P : Invert s • P <> 𝟎 -> s <> 0.
Proof. intros H ->. apply H. unfold Invert. rewrite Zmod.inv_0. apply act_0. Qed.

Lemma ps_inv_round7 r0 r B x :
  session_ok (ps_Helper r0) -> dom (ps_BigDeltaShares r) = list_to_set (partyIDs (ps_Helper r0)) -> ps_1of6 r = r0 ->
  foldl PAdd 𝟎 (range_order (ps_BigDeltaShares r)).*2 = ActOnBase (δ_sum r) -> ps_round6 x = r ->
  ps_R x = Invert (δ_sum r) • ps_Gamma r ->
  ps_RBar x = (fun D => Invert (δ_sum r) • D) <$> ps_BigDeltaShares r ->
  ps_S x = {[ps_self (ps_1of6 r) := B]} -> ps_inv r0 (PS7 x) ∅.
Proof.
  intros So Hd E1 Hs E6 ER EB ES. split; [set_solver|]. rewrite E6, ER, EB, ES, E1. split_and!; [done|apply holds_singleton| |].
  - by rewrite dom_fmap_L.
  - intros N%inv_sum_zero. rewrite (range_points _ _ (session_ok_NoDup _ So) Hd) in Hs.
    rewrite (sumP_ext _ (fun j => Invert (δ_sum r) • getP (ps_BigDeltaShares r) j)).
    + rewrite sumP_act_r, Hs. unfold ActOnBase, Invert. rewrite <- act_mul.
      replace (Zmod.inv (δ_sum r) * δ_sum r) with 1 by (field; done). apply act_1.
    + intros j _. unfold getP. rewrite lookup_fmap. destruct (ps_BigDeltaShares r !! j); [done|]. cbn.
      by rewrite act_identity.
Qed.

Lemma ps_inv_next r0 r B M rand out r' out' rand' :
  presign_start r0 -> ps_inv r0 r B -> complete r B M ->
  ps_Finalize r rand out = (Ret (Running r'), out', rand') -> ps_inv r0 r' ∅.
Proof.
  intros St Hi Hc E%ps_Finalize_inv. pose proof (pst_session _ St) as So. pose proof (ps_complete _ _ _ _ St Hi Hc) as Hall.
  destruct Hi as [HB H]. destruct r as [r|r|r|r|r|r|r|r|r|r|r]; cbn zeta in E.
  - destruct E as (x & [= ->] & <-%presign1_ret). by split; [set_solver|].
  - destruct E as (x & [= ->] & <-%presign2_ret). by split; [set_solver|].
  - destruct E as ([x|c] & E & [= ->]). apply presign3_ret in E as (_ & _ & _ & <- & _). by split; [set_solver|].
  - destruct E as (x & [= ->] & [<- _]%presign4_ret). by split; [set_solver|].
  - destruct E as (x & [= ->] & (E5 & _ & EB)%presign5_ret). cbn in H. split; [set_solver|].
    rewrite EB, <- E5 in *. injection H as <-. split; [done|]. apply holds_singleton.
  - destruct H as [H1 H2]. destruct E as ([x|a] & E & [= ->]); apply presign6_ret in E.
    + destruct E as (Hs & E6 & ER & EB & ES). eapply ps_inv_round7; try done.
      apply (holds_all _ _ B); try done. apply Hall; done.
    + split; [set_solver|]. cbn. by rewrite E, H1.
  - destruct H as (H1 & H2 & H3 & H4). destruct E as ([[p|s]|a] & E & [= ->]); apply presign7_ret in E.
    + destruct E as (Hk & id & m & Em & ->). rewrite H1 in *. split; [set_solver|]. cbn. split_and!; try done; [apply holds_singleton|].
      assert (dom (ps_S r) = list_to_set (partyIDs (ps_Helper r0))) as HS by (apply (holds_all _ _ B); try done; by apply Hall).
      constructor; cbn; try done. by rewrite Hk, (range_points _ _ (session_ok_NoDup _ So) HS).
    + destruct E as [E _]. split; [set_solver|]. cbn. by rewrite E, H1.
  - by destruct E as (? & _ & ?).
  - by destruct E as (? & _ & ?).
  - done.
  - by destruct (sign2_Finalize r).
Qed.

Lemma ps_reached r0 r B M : presign_start r0 -> reached (PS1 r0) r B M -> ps_inv r0 r B.
Proof.
  intros St. induction 1 as [|r B M m r' _ IH _ _ Hm _ E|r B M m r' _ IH _ _ _ _ _ _ E|r B M rand r' o q _ IH Hc E].
  - by split; [set_solver|].
  - eapply ps_inv_broadcast; [done| |done]. unfold r_others in Hm. cbn in Hm. by rewrite (ps_inv_helper _ _ _ IH) in Hm.
  - cbn in E. unfold ps_StoreMessage in E. by injection E as <-.
  - exact (ps_inv_next _ _ _ _ _ _ _ _ _ St IH Hc E).
Qed.

(** A delivered result: a presignature that is consistent, or a signature
    that verifies. *)
Lemma ps_delivered r0 res :
  presign_start r0 -> delivered (PS1 r0) res ->
  match res with
  | RPreSignature p => ps_Message r0 = None /\ consistent p (partyIDs (ps_Helper r0)) (ps_PublicKey r0)
  | RSignature s => exists m, ps_Message r0 = Some m /\ Verify s (ps_PublicKey r0) m = true
  end.
Proof.
  intros St D. inversion D as [r B M rand h res' out' rand' Re Hc E]; subst. apply (ps_reached _ _ _ _ St) in Re.
  pose proof (ps_complete _ _ _ _ St Re Hc) as Hall. destruct Re as [HB H]. pose proof (pst_session _ St) as So.
  apply ps_Finalize_inv in E. destruct r as [r|r|r|r|r|r|r|r|r|r|r]; cbn zeta in E; try (by destruct E as (? & ? & _)).
  - by destruct E as ([?|?] & _ & ?).
  - by destruct E as ([?|?] & _ & ?).
  - destruct H as (H1 & H2 & H3 & H4). destruct E as ([[p|s]|a] & E & Es); [|done..]. injection Es as _ ->.
    apply presign7_ret in E as (Hk & id & Em & ->). rewrite H1 in *. split; [done|].
    assert (dom (ps_S r) = list_to_set (partyIDs (ps_Helper r0))) as HS by (apply (holds_all _ _ B); try done; by apply Hall).
    constructor; cbn; try done. by rewrite Hk, (range_points _ _ (session_ok_NoDup _ So) HS).
  - by destruct E as (? & _ & ?).
  - by destruct E as (? & _ & ?).
  - destruct H as (_ & H2 & H3 & _). unfold sign2_Finalize in E. destruct (Verify _ _ _) eqn:V; [|done]. injection E as _ ->.
    exists (sn_Message (sn_sign1 r)). by rewrite <- H2.
Qed.

(** When the shares do not combine to a signature, somebody is named. *)
Lemma ps_named r0 r B M culprits :
  presign_start r0 -> reached (PS1 r0) (SN2 r) B M -> complete (SN2 r) B M ->
  let p := sn_PreSignature (sn_sign1 r) in
  pre_R p <> 𝟎 -> XScalar (pre_R p) <> 0 -> sig_S (pre_Signature p (sn_SigmaShares r)) <> 0 ->
  sign2_Finalize r = inr culprits -> culprits <> [].
Proof.
  intros St Re Hc p N0 Nr Ns E ->. apply (ps_reached _ _ _ _ St) in Re as [HB (Eh & EY & Em & Hs & Hco)].
  pose proof (pst_session _ St) as So. unfold sign2_Finalize in E. destruct (Verify _ _ _) eqn:V; [done|]. injection E as E.
  rewrite EY in V. rewrite (consistent_verify p (partyIDs (ps_Helper r0)) (ps_PublicKey r0) (sn_SigmaShares r)) in V; try done.
  - by apply session_ok_NoDup.
  - apply (holds_all _ _ B); try done. intros id Hid. apply (Hc ltac:(
      unfold r_Final; cbn; rewrite Eh, (pst_full _ St) by congruence; lia) id); [|done]. unfold r_others. cbn. by rewrite Eh.
Qed.

End Sound.

(** ** Opening ciphertexts *)

Section Nth.
Context {C : Curve} `{B3 : Blake3} {MO : MapOrder} {S : Saferith} {SL : SaferithLaws S}.

Lemma DecWithRandomness_pk sk (c : residue (pk_N (sk_PublicKey sk) * pk_N (sk_PublicKey sk))) :
  sk_ok sk -> is_unit c -> exists m r,
    DecWithRandomness sk (Some (Zmod.to_Z c)) = Ret (m, r) /\ (Z.abs m <= pk_N (sk_PublicKey sk) / 2)%Z /\
    unitZ r (pk_N (sk_PublicKey sk)) /\ pk_enc (sk_PublicKey sk) m r = c.
Proof.
  intros OK. revert c. unfold pk_enc. rewrite (sk_N _ OK). intros c Hc.
  destruct (DecWithRandomness_spec OK c Hc) as (m & r & E & Hm & Hr & _ & Ec). by exists m, r.
Qed.

(** The proof for a ciphertext is accepted for this ciphertext, and for no
    other. *)
Lemma proveNth_verify sk (c : residue (pk_N (sk_PublicKey sk) * pk_N (sk_PublicKey sk))) h rand p rand' c' :
  sk_ok sk -> is_unit c -> proveNth h sk (Some (Zmod.to_Z c)) rand = Ret (p, rand') ->
  abortNth_Verify (Some p) h (sk_PublicKey sk) (Some c') = Ret (bool_decide (c' = Zmod.to_Z c)).
Proof.
  intros OK Hc E. pose proof (sk_pk_ok _ OK) as Hpk. pose proof Hpk as [H1 Hn Hs Hsq Hnat Hpl].
  destruct (DecWithRandomness_pk sk c OK Hc) as (m & r & Ed & Hm & Hr & Ec).
  unfold proveNth in E. rewrite Ed in E. apply bind_ret_inv in E as ([pf rd] & Ep & E). injection E as <- _.
  set (pk := sk_PublicKey sk) in *. set (R := Modulus_Exp (pk_nSquared pk) r (pk_N pk)) in *.
  assert (R = Zmod.to_Z (Zmod.pow (Zmod.of_Z (pk_N pk * pk_N pk) r) (pk_N pk))) as ER
    by (unfold R; rewrite Modulus_Exp_spec, Hsq by (done || lia); reflexivity).
  unfold abortNth_Verify. cbn [an_Nonce an_Plaintext an_Proof]. rewrite Hsq, ER.
  pose proof (IsValidNatModN_residues (pk_N pk * pk_N pk)
    [Zmod.pow (Zmod.of_Z (pk_N pk * pk_N pk) r) (pk_N pk)] ltac:(nia)) as V. cbn [fmap list_fmap] in V.
  rewrite V by (constructor; [by apply is_unit_pow, nonce_unit|done]). cbn [deref mbind outcome_bind].
  rewrite EncWithNonce_ret by done. cbn [mbind outcome_bind]. rewrite <- Zmod.to_Z_mul.
  assert (Zmod.mul (pk_enc pk m 1) (Zmod.pow (Zmod.of_Z (pk_N pk * pk_N pk) r) (pk_N pk)) = c) as ->.
  { rewrite <- Ec. unfold pk_enc, enc. rewrite Zmod.pow_1_l, Zmod.mul_1_r by lia. done. }
  destruct (decide (c' = Zmod.to_Z c)) as [Eq|Ne];
    [rewrite !(bool_decide_true _ Eq)|rewrite !(bool_decide_false _ Ne); done].
  rewrite <- ER. erewrite zknth_accepts; [done| |exact Ep]. split; [done|]. split; [done|exact ER].
Qed.

End Nth.

(** ** The abort rounds *)

Section Aborts.
Context {C : Curve} {CL : CurveLaws C} `{B3 : Blake3} {MO : MapOrder} {MOL : MapOrderLaws} {S : Saferith}.
Context {SL : SaferithLaws S} {CB : Cbor ps_content}.

Lemma prove_all_ret h sk m self ids rand ps rand' :
  prove_all h sk m self ids rand = Ret (ps, rand') ->
  dom ps = list_to_set ids /\
  (forall j op, ps !! j = Some op -> exists p rd rd', op = Some p /\ proveNth h sk (ciphertext_at m j self) rd = Ret (p, rd')).
Proof.
  revert rand rand' ps. induction ids as [|i ids IH]; intros rand rand' ps; cbn [prove_all].
  - intros [= <- _]. split; [by rewrite dom_empty_L|by intros j op ?%lookup_empty_Some].
  - intros ([p rd] & Ep & E)%bind_ret_inv. apply bind_ret_inv in E as ([ps' rd'] & [Hd Hp]%IH & [= <- _]). split.
    + by rewrite dom_insert_L, Hd.
    + intros j op. rewrite lookup_insert_Some. intros [[<- <-]|[_ Hj]]; [by exists p, rand, rd|by apply Hp].
Qed.

Lemma plaintexts_total (l : list (ID * option abortNth)) :
  (forall j op, (j, op) ∈ l -> is_Some op) -> exists m, plaintexts l = Ret m.
Proof.
  induction l as [|[j op] l IH]; intros H; cbn [plaintexts]; [eauto|].
  destruct (H j op) as [p ->]; [by left|]. cbn. destruct IH as [m ->]; [intros i o ?; apply (H i); by right|]. cbn. eauto.
Qed.

(** What an honest party broadcasts when δ is wrong is rejected: its proofs
    are compared with the ciphertexts that it sent, and not with those it
    received. *)
Lemma abort1_rejects (p6 : presign6) (v : abort1) rand out a out' rand' :
  let p1 := ps_1of6 p6 in let v6 := ab_round6 v in let P := ps_self p1 in let pk := sk_PublicKey (ps_SecretPaillier p1) in
  sk_ok (ps_SecretPaillier p1) ->
  HashForID (ps_Helper (ps_1of6 v6)) P = HashForID (ps_Helper p1) P ->
  ps_Paillier (ps_1of6 v6) !! P = Some pk ->
  valid_ct (pk := pk) (ps_K (ps_2of6 p6) !! P) -> ps_K (ps_2of6 v6) !! P = ps_K (ps_2of6 p6) !! P ->
  ps_BigGammaShare (ps_round5 v6) !! P = Some (ActOnBase (scalar_of (ps_GammaShare (ps_2of6 p6)))) ->
  otherPartyIDs (ps_Helper p1) <> [] ->
  (forall j, j ∈ otherPartyIDs (ps_Helper p1) ->
     valid_ct (pk := pk) (ciphertext_at (ps_DeltaCiphertext (ps_3of6 p6)) j P) /\
     exists c, ciphertext_at (ps_DeltaCiphertext (ps_3of6 v6)) P j = Some c /\
               ciphertext_at (ps_DeltaCiphertext (ps_3of6 p6)) j P <> Some c) ->
  presign6_abort p6 rand out = Ret (a, out', rand') ->
  exists content, ch_buf out' = ch_buf out ++ [mkRoundMessage P "" true content] /\
    abort1_StoreBroadcastMessage v (mkRoundMessage P "" true content) = Fail "failed to validate Delta MtA Nth proof".
Proof.
  intros p1 v6 P pk OK Hh Hpk HK HK' HΓ Hne Hct E. unfold presign6_abort in E. fold p1 P in E.
  apply bind_ret_inv in E as ([ps rd] & [Hd Hp]%prove_all_ret & E). apply bind_ret_inv in E as ([kp rd2] & Ek & E).
  apply bind_ret_inv in E as (o & Eo & E). injection E as _ <- _.
  unfold BroadcastMessage, try_send in Eo. destruct (decide _); [|done]. injection Eo as <-. eexists. split; [cbn; reflexivity|].
  unfold abort1_StoreBroadcastMessage. cbn [rm_From rm_Content]. fold v6.
  destruct (plaintexts_total (range_order ps)) as [al ->].
  { intros j op Hin. rewrite range_order_perm, elem_of_map_to_list in Hin.
    destruct (Hp j op Hin) as (p & _ & _ & -> & _). eauto. }
  cbn [deref mbind outcome_bind]. rewrite Hpk. cbn [deref mbind outcome_bind]. rewrite Hh.
  destruct HK as (κ & EK & Uκ). rewrite (eq_trans HK' EK).
  assert (proveNth (HashForID (ps_Helper p1) P) (ps_SecretPaillier p1) (Some (Zmod.to_Z κ)) rd = Ret (kp, rd2)) as Ek'
    by (rewrite <- Ek; f_equal; symmetry; exact EK). clear Ek. rename Ek' into Ek.
  rewrite (proveNth_verify _ κ _ _ _ _ _ OK Uκ Ek), bool_decide_true by done. cbn [guard_or mbind outcome_bind].
  assert (is_Some (an_Plaintext kp)) as [k ->].
  { unfold proveNth in Ek. destruct (DecWithRandomness _ _) as [[m r]| |]; [|done..].
    apply bind_ret_inv in Ek as ([? ?] & _ & Ek). injection Ek as <- _. cbn. eauto. }
  cbn [deref mbind outcome_bind]. rewrite HΓ. cbn [deref mbind outcome_bind]. unfold PEqual. rewrite bool_decide_true by done.
  cbn [guard_or mbind outcome_bind].
  destruct (range_order ps) as [|[j op] tl] eqn:El.
  { exfalso. assert (map_to_list ps = []) as En by (apply Permutation_nil; by rewrite <- range_order_perm, El).
    apply map_to_list_empty_iff in En. rewrite En, dom_empty_L in Hd. destruct (otherPartyIDs (ps_Helper p1)); [done|set_solver]. }
  assert (ps !! j = Some op) as Hj by (apply elem_of_map_to_list; rewrite <- range_order_perm, El; by left).
  destruct (Hp j op Hj) as (p & rd3 & rd4 & -> & Epj). apply elem_of_dom_2 in Hj. rewrite Hd, elem_of_list_to_set in Hj.
  destruct (Hct j Hj) as [(x & Ex & Ux) (c & Ec & Nc)].
  rewrite Ex in Epj, Nc. cbn [proofs_verified]. rewrite Ec.
  rewrite (proveNth_verify _ x _ _ _ _ _ OK Ux Epj), bool_decide_false by (intros ->; by apply Nc). done.
Qed.

(** Without a message to sign the second abort round is beyond the last round
    of the session: the handler does not wait for its messages, and
    finalizing it panics. *)
Lemma abort2_panics r0 r B M rand out a out' rand' :
  presign_start r0 -> FinalRoundNumber (info (ps_Helper r0)) = 7%Z -> otherPartyIDs (ps_Helper r0) <> [] ->
  reached (PS1 r0) (PS7 r) B M -> ps_Finalize (PS7 r) rand out = (Ret (Running (PA2 a)), out', rand') ->
  complete (PA2 a) ∅ ∅ /\
  forall rand2 out2, exists e, ps_Finalize (PA2 a) rand2 out2 = (Panic e, out2, rand2).
Proof.
  intros St Hf Hne Re%(ps_reached _ _ _ _ St) E. destruct Re as [_ (H1 & _)]. apply ps_Finalize_inv in E as ([[?|?]|a'] & E & [= <-]).
  apply presign7_ret in E as [E7 Hd]. split.
  - intros [_ Hle] id _. unfold r_Final in Hle. cbn in Hle. rewrite E7, H1, Hf in Hle. lia.
  - intros rand2 out2. unfold ps_Finalize, abort2_Finalize. rewrite E7, H1. pose proof (pst_session _ St) as So.
    destruct (otherPartyIDs (ps_Helper r0)) as [|j l] eqn:Eo; [done|]. cbn [chi_culprits].
    assert (ab_YHat a !! j = None) as ->; [|cbn; eauto]. apply not_elem_of_dom. rewrite Hd, H1, elem_of_singleton.
    assert (j ∈ otherPartyIDs (ps_Helper r0)) as Hj by (rewrite Eo; by left). rewrite (so_others _ So) in Hj.
    by apply elem_of_Remove in Hj as [_ ?].
Qed.

End Aborts.

(** ** The starts *)

Section Start.
Context {C : Curve} {CL : CurveLaws C} `{B3 : Blake3} {MO : MapOrder} {MOL : MapOrderLaws} {S : Saferith}.
Context {CB : Cbor ps_content}.

Lemma StartPresign_ret c signers msg sid r :
  StartPresign (Some c) signers msg sid = Ret (Running r) ->
  exists r0 l, r = PS1 r0 /\ Lagrange signers = Ret l /\ session_ok (ps_Helper r0) /\ ps_Message r0 = msg /\
    partyIDs (ps_Helper r0) = NewIDSlice signers /\ CanSign c (NewIDSlice signers) = true /\
    FinalRoundNumber (info (ps_Helper r0)) =
      (if decide (length (default [] msg) = 0%nat) then protocolOfflineRounds else protocolFullRounds) /\
    ps_PublicKey r0 = sumP (fun j => getS l j • getP (pub_ECDSA <$> cc_Public c) j) (NewIDSlice signers) /\
    (forall j, j ∈ signers -> is_Some (cc_Public c !! j)).
Proof.
  unfold StartPresign. destruct (if decide _ then _ else _) as [rounds proto] eqn:Er.
  intros (h & [So Hi]%wrap_err_ret%NewSession_ok & E)%bind_ret_inv.
  destruct (CanSign c (partyIDs h)) eqn:Ec; [|done]. cbn [negb] in E. apply bind_ret_inv in E as (l & El & E).
  apply bind_ret_inv in E as (x & Ex%deref_ret & E). apply bind_ret_inv in E as ([[[Es Ps] Ds] Y] & Ey & E).
  apply bind_ret_inv in E as (eg & _ & [= <-]).
  assert (partyIDs h = NewIDSlice signers) as Ep by (rewrite (so_ids _ So), Hi; done). rewrite Ep in Ey, Ec.
  eexists _, l. split; [done|]. split; [done|]. cbn. split_and!; try done.
  - rewrite Hi. cbn. by destruct (decide _); injection Er as <- _.
  - apply scale_public_ret in Ey. by rewrite Ey, padd_0_l.
  - intros j Hj. eapply scale_public_some; [exact Ey|]. by rewrite NewIDSlice_perm.
Qed.

(** A session for a presignature, or for a message that is not empty. *)
Lemma StartPresign_start c signers msg sid r0 :
  msg <> Some [] -> StartPresign (Some c) signers msg sid = Ret (Running (PS1 r0)) ->
  presign_start r0 /\ ps_Message r0 = msg.
Proof.
  intros Hm (r & l & [= <-] & _ & So & Em & _ & _ & Hf & _)%StartPresign_ret. split; [|done]. constructor; [done|..].
  - rewrite Hf. case_decide; done.
  - rewrite Em, Hf. intros Hn. destruct msg as [[|b m]|]; [done| |done]. cbn. done.
Qed.

Lemma StartPresign_key L c signers msg sid r0 :
  Cmp_valid L c -> ids_ok signers ->
  StartPresign (Some c) signers msg sid = Ret (Running (PS1 r0)) -> ps_PublicKey r0 = hornerP 0 L.
Proof.
  intros V Hids (r & l & [= <-] & El & _ & _ & _ & Hc & _ & -> & Hs)%StartPresign_ret. by apply scaled_key.
Qed.

Lemma StartPresignOnline_ret c p msg sid r :
  StartPresignOnline (Some c) (Some p) msg sid = Ret (Running r) ->
  exists r0, r = SN1 r0 /\ session_ok (sn_Helper r0) /\ pre_Validate p = Ret tt /\ sn_PreSignature r0 = p /\
    sn_Message r0 = msg /\ PublicPoint c = Ret (sn_PublicKey r0) /\ CanSign c (SignerIDs p) = true.
Proof.
  unfold StartPresignOnline. destruct (decide _); [done|]. intros ([] & Hv%wrap_err_ret & E)%bind_ret_inv.
  destruct (CanSign _ _) eqn:Ec; [|done]. cbn [negb] in E.
  apply bind_ret_inv in E as (h & [So Hi]%wrap_err_ret%NewSession_ok & E). apply bind_ret_inv in E as (X & EX & [= <-]).
  by eexists.
Qed.

(** The rounds of online signing. *)
Lemma sn_reached r0 r B M :
  reached (SN1 r0) r B M -> r = SN1 r0 \/ exists s, r = SN2 s /\ sn_sign1 s = r0.
Proof.
  induction 1 as [|r B M m r' _ IH Hb _ _ _ E|r B M m r' _ IH _ _ _ _ _ _ E|r B M rand r' o q _ IH _ E]; [by left|..].
  - right. cbn in E. destruct IH as [->|(s & -> & <-)]; cbn in E.
    + done.
    + apply bind_ret_inv in E as (s' & E & [= <-]). exists s'. split; [done|].
      unfold sign2_StoreBroadcastMessage in E. destruct (rm_Content m); try done. apply bind_ret_inv in E as (x & _ & E).
      destruct (IsZero x); [done|]. by injection E as <-.
  - cbn in E. unfold ps_StoreMessage in E. by injection E as <-.
  - right. cbn in E. apply ps_Finalize_inv in E. destruct IH as [->|(s & -> & <-)]; cbn zeta in E.
    + destruct E as (s & [= ->] & E). exists s. split; [done|]. unfold sign1_Finalize in E.
      apply bind_ret_inv in E as (? & _ & E). by injection E as <- _.
    + by destruct (sign2_Finalize s).
Qed.

(** What online signing delivers verifies under the key of the configuration. *)
Lemma sn_delivered r0 res :
  delivered (SN1 r0) res -> exists s, res = RSignature s /\ Verify s (sn_PublicKey r0) (sn_Message r0) = true.
Proof.
  intros D. inversion D as [r B M rand h res' out' rand' Re%sn_reached Hc E]; subst. apply ps_Finalize_inv in E.
  destruct Re as [->|(s & -> & <-)]; cbn zeta in E.
  - by destruct E as (? & ? & _).
  - unfold sign2_Finalize in E. destruct (Verify _ _ _) eqn:V; [|done]. injection E as _ ->. eauto.
Qed.

End Start.

(** ** Correctness *)

Section Correct.
Context {C : Curve} {CL : CurveLaws C} `{B3 : Blake3} {MO : MapOrder} {MOL : MapOrderLaws} {S : Saferith}.
Context {SL : SaferithLaws S}.
Add Field scalar_field2 : scalar_field_theory.

(** The map holds [f j] for each of the parties. *)
Definition table {A} (m : gmap ID A) (ids : list ID) (f : ID -> A) : Prop :=
  dom m = list_to_set ids /\ forall j, j ∈ ids -> m !! j = Some (f j).

Lemma table_points (m : gmap ID Point) ids f :
  NoDup ids -> table m ids f -> foldl PAdd 𝟎 (range_order m).*2 = sumP f ids.
Proof.
  intros ND [Hd Hf]. rewrite (range_points m ids ND Hd). apply sumP_ext. intros j Hj. unfold getP. by rewrite Hf.
Qed.

Lemma table_scalars (m : gmap ID Scalar) ids f :
  NoDup ids -> table m ids f -> foldl Zmod.add 0 (range_order m).*2 = sumS f ids.
Proof.
  intros ND [Hd Hf]. rewrite <- (range_sum m f ids ND Hd Hf). generalize (0 : Scalar).
  induction (range_order m) as [|p l IH]; intros s; cbn; [done|apply IH].
Qed.

(** The value of a ciphertext that decrypts. *)
Definition dec_of (sk : SecretKey) (c : option Ciphertext) : Z := match Dec sk c with Ret m => m | _ => 0%Z end.

(** Shares α from the other parties and β kept from the own MtA. *)
Lemma open_shares_ret r st ids :
  let sk := ps_SecretPaillier (ps_1of3 r) in let self := ps_self (ps_1of3 r) in
  (forall j, j ∈ ids -> is_ret (Dec sk (ciphertext_at (ps_DeltaCiphertext r) j self)) = true /\
     is_ret (Dec sk (ciphertext_at (ps_ChiCiphertext r) j self)) = true /\
     is_Some (ps_DeltaShareBeta r !! j) /\ is_Some (ps_ChiShareBeta r !! j)) ->
  exists st', open_shares r st ids = Ret st' /\ op_culprits st' = op_culprits st /\
    scalar_of (op_Delta st') = scalar_of (op_Delta st) +
      sumS (fun j => scalar_of (dec_of sk (ciphertext_at (ps_DeltaCiphertext r) j self))
                     + scalar_of (getZ (ps_DeltaShareBeta r) j)) ids /\
    scalar_of (op_Chi st') = scalar_of (op_Chi st) +
      sumS (fun j => scalar_of (dec_of sk (ciphertext_at (ps_ChiCiphertext r) j self))
                     + scalar_of (getZ (ps_ChiShareBeta r) j)) ids.
Proof.
  intros sk self. revert st. induction ids as [|j ids IH]; intros st H; cbn [open_shares sumS].
  - exists st. split_and!; try done; ring.
  - destruct (H j ltac:(by left)) as (Hd & Hc & [b Eb] & [bh Ebh]). fold sk self.
    destruct (Dec sk (ciphertext_at (ps_DeltaCiphertext r) j self)) as [a| |] eqn:Ea; [|done..].
    destruct (Dec sk (ciphertext_at (ps_ChiCiphertext r) j self)) as [ah| |] eqn:Eah; [|done..].
    rewrite Eb, Ebh. cbn [deref mbind outcome_bind].
    assert (dec_of sk (ciphertext_at (ps_DeltaCiphertext r) j self) = a) as -> by (unfold dec_of; by rewrite Ea).
    assert (dec_of sk (ciphertext_at (ps_ChiCiphertext r) j self) = ah) as -> by (unfold dec_of; by rewrite Eah).
    assert (getZ (ps_DeltaShareBeta r) j = b) as -> by (unfold getZ; by rewrite Eb).
    assert (getZ (ps_ChiShareBeta r) j = bh) as -> by (unfold getZ; by rewrite Ebh).
    destruct (IH (mkOpened (op_Delta st + a + b) (op_Chi st + ah + bh) (<[j := a]> (op_DeltaAlpha st))
                   (<[j := ah]> (op_ChiAlpha st)) (op_culprits st))) as (st' & E & Ec & ED & EX).
    { intros i Hi. apply H. by right. }
    exists st'. rewrite E, Ec, ED, EX. cbn [op_Delta op_Chi op_culprits]. rewrite !scalar_of_add. split_and!; try done; ring.
Qed.

(** The signers [ids] when the messages of round three have arrived. *)
Record presigning (ids : list ID) (k γ x : ID -> Scalar) (Y : Point) (r : ID -> presign3) : Prop := {
  pn_session i : i ∈ ids -> session_ok (ps_Helper (ps_1of3 (r i)));
  pn_self i : i ∈ ids -> ps_self (ps_1of3 (r i)) = i;
  pn_ids i : i ∈ ids -> partyIDs (ps_Helper (ps_1of3 (r i))) = ids;
  pn_key i : i ∈ ids -> ps_PublicKey (ps_1of3 (r i)) = Y;
  pn_k i : i ∈ ids -> ps_KShare (ps_round2 (r i)) = k i;
  pn_γ i : i ∈ ids -> ps_GammaShare (ps_round2 (r i)) = MakeInt (γ i);
  pn_x i : i ∈ ids -> ps_SecretECDSA (ps_1of3 (r i)) = x i;
  pn_elgamal i : i ∈ ids -> is_Some (ps_ElGamal (ps_1of3 (r i)) !! i);
  pn_dec i j : i ∈ ids -> j ∈ ids -> i <> j ->
    let sk := ps_SecretPaillier (ps_1of3 (r i)) in
    is_ret (Dec sk (ciphertext_at (ps_DeltaCiphertext (r i)) j i)) = true /\
    is_ret (Dec sk (ciphertext_at (ps_ChiCiphertext (r i)) j i)) = true /\
    is_Some (ps_DeltaShareBeta (r i) !! j) /\ is_Some (ps_ChiShareBeta (r i) !! j);
  pn_δ i j : i ∈ ids -> j ∈ ids -> i <> j ->
    (dec_of (ps_SecretPaillier (ps_1of3 (r i))) (ciphertext_at (ps_DeltaCiphertext (r i)) j i)
     + getZ (ps_DeltaShareBeta (r j)) i = MakeInt (γ j) * MakeInt (k i))%Z;
  pn_χ i j : i ∈ ids -> j ∈ ids -> i <> j ->
    (dec_of (ps_SecretPaillier (ps_1of3 (r i))) (ciphertext_at (ps_ChiCiphertext (r i)) j i)
     + getZ (ps_ChiShareBeta (r j)) i = MakeInt (x j) * MakeInt (k i))%Z
}.

Section Honest.
Context {ids : list ID} {k γ x : ID -> Scalar} {Y : Point} {r3 : ID -> presign3}.
Hypothesis Hp : presigning ids k γ x Y r3.

Definition δ_share (i : ID) : Scalar :=
  γ i * k i + sumS (fun j => scalar_of (dec_of (ps_SecretPaillier (ps_1of3 (r3 i))) (ciphertext_at (ps_DeltaCiphertext (r3 i)) j i))
                             + scalar_of (getZ (ps_DeltaShareBeta (r3 i)) j)) (Remove ids i).
Definition χ_share (i : ID) : Scalar :=
  x i * k i + sumS (fun j => scalar_of (dec_of (ps_SecretPaillier (ps_1of3 (r3 i))) (ciphertext_at (ps_ChiCiphertext (r3 i)) j i))
                             + scalar_of (getZ (ps_ChiShareBeta (r3 i)) j)) (Remove ids i).

Lemma presigning_NoDup i : i ∈ ids -> NoDup ids.
Proof. intros Hi. rewrite <- (pn_ids _ _ _ _ _ _ Hp i Hi). apply session_ok_NoDup, Hp, Hi. Qed.

Lemma δ_share_sum i0 : i0 ∈ ids -> sumS δ_share ids = sumS γ ids * sumS k ids.
Proof.
  intros H0. unfold δ_share. apply mta_sum; [by apply (presigning_NoDup i0)|]. intros i j Hi Hj N.
  rewrite <- scalar_of_add, (pn_δ _ _ _ _ _ _ Hp i j Hi Hj N), scalar_of_mul. by rewrite !scalar_of_MakeInt.
Qed.

Lemma χ_share_sum i0 : i0 ∈ ids -> sumS χ_share ids = sumS x ids * sumS k ids.
Proof.
  intros H0. unfold χ_share. apply mta_sum; [by apply (presigning_NoDup i0)|]. intros i j Hi Hj N.
  rewrite <- scalar_of_add, (pn_χ _ _ _ _ _ _ Hp i j Hi Hj N), scalar_of_mul. by rewrite !scalar_of_MakeInt.
Qed.

(** The channel has room for one more message. *)
Definition room (out : chan (round_Message ps_content)) : Prop := (length (ch_buf out) < ch_cap out)%nat.

Lemma BroadcastMessage_room h out c : room out -> exists out', BroadcastMessage h out c = Ret out'.
Proof. intros H. unfold BroadcastMessage, try_send. rewrite decide_True by done. eauto. Qed.

(** Round three finds no culprit and computes the shares. *)
Lemma honest_presign3 i rand out :
  i ∈ ids -> steady [] rand -> room out ->
  exists r4 out' rand', presign3_Finalize (r3 i) rand out = Ret (inl r4, out', rand') /\
    ps_round3 r4 = r3 i /\ ps_DeltaShares r4 = {[i := δ_share i]} /\ ps_ChiShare r4 = χ_share i /\
    is_Some (ps_ElGamalChi r4 !! i).
Proof.
  intros Hi Hst Hr. pose proof (pn_session _ _ _ _ _ _ Hp i Hi) as So. pose proof (pn_self _ _ _ _ _ _ Hp i Hi) as Es.
  destruct (open_shares_ret (r3 i) (mkOpened (ps_GammaShare (ps_round2 (r3 i)) * MakeInt (ps_KShare (ps_round2 (r3 i))))
    (MakeInt (ps_SecretECDSA (ps_1of3 (r3 i))) * MakeInt (ps_KShare (ps_round2 (r3 i)))) ∅ ∅ []) (Remove ids i))
    as (st & Est & Ec & ED & EX).
  { rewrite Es. intros j [Hj N]%elem_of_Remove. by apply (pn_dec _ _ _ _ _ _ Hp i j). }
  assert (otherPartyIDs (ps_Helper (ps_1of3 (r3 i))) = Remove ids i) as Eo.
  { rewrite (so_others _ So), (pn_ids _ _ _ _ _ _ Hp i Hi). f_equal. exact Es. }
  unfold presign3_Finalize. fold (ps_1of3 (r3 i)). rewrite Eo, Est. cbn [mbind outcome_bind]. rewrite Ec. cbn [op_culprits].
  rewrite Es. destruct (pn_elgamal _ _ _ _ _ _ Hp i Hi) as [G ->]. cbn [deref mbind outcome_bind].
  unfold Elgamal.elgamal_Encrypt. zk_sample.
  destruct (BroadcastMessage_room (ps_Helper (ps_1of3 (r3 i))) out (PBroadcast4 (Some (scalar_of (op_Delta st)))
    (Some (Elgamal.elgamal_enc G (scalar_of (op_Chi st)) x0))) Hr) as [out' ->]. cbn [mbind outcome_bind].
  do 3 eexists. split; [reflexivity|]. cbn [ps_round3 ps_DeltaShares ps_ChiShare ps_ElGamalChi].
  rewrite ED, EX, Es. cbn [op_Delta op_Chi]. rewrite !scalar_of_mul, (pn_γ _ _ _ _ _ _ Hp i Hi), (pn_k _ _ _ _ _ _ Hp i Hi),
    (pn_x _ _ _ _ _ _ Hp i Hi), !scalar_of_MakeInt, lookup_singleton_eq. split_and!; done.
Qed.

(** Signer [i] in round six, with what everybody broadcast. *)
Record saw6 (i : ID) (r6 : presign6) : Prop := {
  s6_round3 : ps_3of6 r6 = r3 i;
  s6_δ : table (ps_DeltaShares (ps_round4 (ps_round5 r6))) ids δ_share;
  s6_χ : ps_ChiShare (ps_round4 (ps_round5 r6)) = χ_share i;
  s6_elgamal : is_Some (ps_ElGamalChi (ps_round4 (ps_round5 r6)) !! i);
  s6_Δ : table (ps_BigDeltaShares r6) ids (fun j => (k j * sumS γ ids) • 𝐆);
  s6_Γ : ps_Gamma r6 = sumS γ ids • 𝐆
}.

(** Round six does not abort. *)
Lemma honest_presign6 i r6 rand out :
  i ∈ ids -> saw6 i r6 -> sumS k ids <> 0 -> sumS γ ids <> 0 -> steady [] rand -> room out ->
  exists r7 out' rand', presign6_Finalize r6 rand out = Ret (inl r7, out', rand') /\ ps_round6 r7 = r6 /\
    ps_R r7 = Invert (sumS k ids) • 𝐆 /\ table (ps_RBar r7) ids (fun j => k j • ps_R r7) /\
    ps_S r7 = {[i := χ_share i • ps_R r7]}.
Proof.
  intros Hi Hv Nk Nγ Hst Hr. pose proof (presigning_NoDup i Hi) as ND. destruct Hv as [E3 Hδ Eχ [Z HZ] HΔ EΓ].
  assert (δ_sum r6 = sumS γ ids * sumS k ids) as Eδ.
  { unfold δ_sum. rewrite (table_scalars _ ids δ_share ND Hδ). by apply (δ_share_sum i). }
  assert (foldl PAdd 𝟎 (range_order (ps_BigDeltaShares r6)).*2 = ActOnBase (δ_sum r6)) as EΔ.
  { rewrite (table_points _ ids _ ND HΔ), Eδ. unfold ActOnBase. rewrite <- sumS_mul, <- sumP_act. apply sumP_ext. intros j _.
    f_equal. ring. }
  assert (ps_self (ps_1of6 r6) = i) as Es by (unfold ps_1of6, ps_2of6; rewrite E3; by apply Hp).
  assert (Invert (δ_sum r6) • ps_Gamma r6 = Invert (sumS k ids) • 𝐆) as ER.
  { rewrite EΓ, Eδ, <- act_mul. unfold Invert. f_equal. field. by split. }
  destruct (pn_elgamal _ _ _ _ _ _ Hp i Hi) as [G HG].
  assert (ps_ElGamal (ps_1of6 r6) !! i = Some G) as HG' by (unfold ps_1of6, ps_2of6; rewrite E3; exact HG).
  unfold presign6_Finalize. fold (δ_sum r6). unfold PEqual. rewrite bool_decide_true by done. cbn [negb].
  rewrite Es, HZ, HG'. cbn [deref mbind outcome_bind]. unfold zkelog_NewProof at 1. do 2 zk_sample. unfold zkelog_challenge. zk_challenged.
  match goal with |- context [BroadcastMessage ?h out ?c] => destruct (BroadcastMessage_room h out c Hr) as [out' ->] end.
  cbn [mbind outcome_bind]. do 3 eexists. split; [reflexivity|]. cbn [ps_round6 ps_R ps_RBar ps_S]. rewrite ER, Eχ.
  split_and!; try done. destruct HΔ as [Hd Hl]. split; [by rewrite dom_fmap_L|]. intros j Hj. rewrite lookup_fmap, Hl by done. cbn.
  f_equal. rewrite <- !act_mul, Eδ. unfold Invert. f_equal. field. by split.
Qed.

(** Signer [i] in round seven, with what everybody broadcast. *)
Record saw7 (i : ID) (r7 : presign7) : Prop := {
  s7_round3 : ps_3of6 (ps_round6 r7) = r3 i;
  s7_χ : ps_ChiShare (ps_round4 (ps_round5 (ps_round6 r7))) = χ_share i;
  s7_R : ps_R r7 = Invert (sumS k ids) • 𝐆;
  s7_RBar : table (ps_RBar r7) ids (fun j => k j • ps_R r7);
  s7_S : table (ps_S r7) ids (fun j => χ_share j • ps_R r7);
  s7_ids : Forall (fun b => length b = SecBytes) (range_order (ps_PresignatureID (ps_2of6 (ps_round6 r7)))).*2
}.

Lemma xor_ids_total acc l :
  length acc = SecBytes -> Forall (fun b => length b = SecBytes) l -> exists id, xor_ids acc l = Ret id.
Proof.
  revert acc. induction l as [|b l IH]; intros acc Ha Hf; cbn [xor_ids]; [eauto|]. apply Forall_cons_iff in Hf as [Hb Hl].
  unfold RID_XOR at 1. rewrite decide_False by lia. cbn [mbind outcome_bind]. apply IH; [|done].
  rewrite length_app, length_zip_with, !length_take, length_drop. lia.
Qed.

(** Round seven outputs the presignature of the key. *)
Lemma honest_presign7 i r7 rand out :
  i ∈ ids -> saw7 i r7 -> Y = sumS x ids • 𝐆 -> sumS k ids <> 0 -> ps_Message (ps_1of3 (r3 i)) = None ->
  exists p, presign7_Finalize r7 rand out = Ret (inl (inl p), out, rand) /\
    presigned p ids (sumS k ids) (sumS x ids) k χ_share /\ KShare p = k i /\ ChiShare p = χ_share i.
Proof.
  intros Hi [E3 Eχ ER HB HS Hid] HY Nk Hm. pose proof (presigning_NoDup i Hi) as ND.
  assert (sumS χ_share ids = sumS k ids * sumS x ids) as Eχs by (rewrite (χ_share_sum i Hi); ring).
  assert (foldl PAdd 𝟎 (range_order (ps_S r7)).*2 = Y) as EY.
  { rewrite (table_points _ ids _ ND HS), sumP_act, Eχs, HY, ER, <- act_mul. unfold Invert. f_equal. field. done. }
  unfold presign7_Finalize. destruct (xor_ids_total EmptyRID _ eq_refl Hid) as [id ->]. cbn [mbind outcome_bind]. rewrite EY.
  assert (ps_1of6 (ps_round6 r7) = ps_1of3 (r3 i)) as E1 by (unfold ps_1of6, ps_2of6; rewrite E3; done). rewrite E1.
  rewrite (pn_key _ _ _ _ _ _ Hp i Hi). unfold PEqual. rewrite bool_decide_true by done. cbn [negb]. rewrite Hm.
  eexists. split; [reflexivity|]. cbn [KShare ChiShare]. split_and!; [|unfold ps_2of6; rewrite E3; by apply Hp|done].
  constructor; cbn [pre_R pre_RBar pre_S]; try done; [by apply HB|by apply HS].
Qed.

End Honest.
End Correct.
