(* ===== verification/Runs.v ===== *)
(** * Whole executions, evaluated

    The handler, key generation, refresh and signing run end to end on the
    small group, with messages that pass through the codec and the network.
    The states they reach are the concrete inputs of the witnesses. *)

From Stdlib Require Import ZArith Lia Zmod.
From Stdlib Require Import Strings.Byte.
From stdpp Require Import base gmap strings list pretty numbers.
From S2P Require Import Prelude Hash Curve Toy Party Polynomial Round Message Handler HandlerSpec Codec Network Lockstep.
From S2P Require Import Schnorr Taproot FrostConfig FrostKeygen FrostSign Xor.

Local Open Scope Z_scope.

(** ** Codecs for the message contents *)

#[export] Instance toy_Exponent_eq_dec : EqDecision (@Exponent toy_curve).
Proof. solve_decision. Defined.

#[export] Instance toy_Exponent_pack : Pack (@Exponent toy_curve).
Proof.
  refine (inj_pack (fun e => (IsConstant e, e_coefficients e : list (Zmod.Zmod toy_order)))
            (fun '(a, b) => mkExponent a b) _).
  by intros [].
Defined.

#[export] Instance toy_Proof_pack : Pack (@Proof toy_curve).
Proof.
  refine (inj_pack (fun p => (prf_C p : Zmod.Zmod toy_order, prf_Z p : Zmod.Zmod toy_order))
            (fun '(a, b) => @mkProof toy_curve a b) _).
  by intros [].
Defined.

Abbreviation toy_kg_content := (@kg_content toy_curve).
Abbreviation toy_sg_content := (@sg_content toy_curve).

#[export] Instance toy_kg_content_pack : Pack toy_kg_content.
Proof.
  refine (inj_pack
    (fun c => match c with
              | Broadcast2 p s m => inl (p, s, m)
              | Broadcast3 c d => inr (inl (c, d))
              | Message3 f => inr (inr (f : option (Zmod.Zmod toy_order)))
              end)
    (fun x => match x with
              | inl (p, s, m) => Broadcast2 p s m
              | inr (inl (c, d)) => Broadcast3 c d
              | inr (inr f) => Message3 f
              end) _).
  by intros [].
Defined.

#[export] Instance toy_sg_content_pack : Pack toy_sg_content.
Proof.
  refine (inj_pack
    (fun c => match c with
              | SBroadcast2 d e => inl (d : Zmod.Zmod toy_order, e : Zmod.Zmod toy_order)
              | SBroadcast3 z => inr (z : option (Zmod.Zmod toy_order))
              end)
    (fun x => match x with
              | inl (d, e) => @SBroadcast2 toy_curve d e
              | inr z => @SBroadcast3 toy_curve z
              end) _).
  by intros [].
Defined.

#[export] Instance Round2Message_pack : Pack Round2Message.
Proof. refine (inj_pack XOR mkRound2Message _). by intros []. Defined.

#[export] Instance toy_kg_cbor : Cbor toy_kg_content := pack_cbor toy_kg_content.
#[export] Instance toy_sg_cbor : Cbor toy_sg_content := pack_cbor toy_sg_content.
#[export] Instance toy_xor_cbor : Cbor Round2Message := pack_cbor Round2Message.

#[export] Existing Instance toy_blake3.
#[export] Existing Instance key_order.

#[export] Instance toy_blake3_keyed : Blake3Keyed := {|
  blake3_derive_key := fun _ material _ => material;
  blake3_keyed_xof := fun key input n => blake3_xof (key ++ input) (n + 7)
|}.

(** ** Executions *)

Definition toy_ids : list ID := ["a"; "b"; "c"].

(** Independent sources of randomness. *)
Definition toy_rand (k : nat) : reader :=
  stream_reader (fun n => let n := Z.of_nat n in byte_of_Z (1 + n * 7 + Z.of_nat k * 13 + n * n)).

Definition toy_rands : list reader := [toy_rand 1; toy_rand 2; toy_rand 3].

Definition toy_helper : Helper := mkHelper (mkInfo "" 0 "" [] 0 None) [] [] [] [].

(** The example protocol. *)
Definition xor_first (id : ID) : xor_round :=
  match StartXOR id toy_ids (Some [x01]) with Ret (Running r) => r | _ => Round1 toy_helper end.

Definition xor_ps : list (xor_round * reader) := zip (xor_first <$> toy_ids) toy_rands.

Definition xor_at (k i : nat) : @MultiHandler xor_round bytes := party_at xor_ps (Round1 toy_helper, toy_rand 0) k i.

(** Taproot key generation, threshold 1. *)
Definition kg_dummy : @round1 toy_curve := mkRound1 toy_helper true 0 false Zmod.zero ∅ Zmod.zero.

Definition kg_of (s : outcome (Session (@kg_round toy_curve) (@kg_result toy_curve))) : @round1 toy_curve :=
  match s with Ret (Running (KG1 r)) => r | _ => kg_dummy end.

Definition is_kg (s : outcome (Session (@kg_round toy_curve) (@kg_result toy_curve))) : bool :=
  match s with Ret (Running (KG1 _)) => true | _ => false end.

Lemma kg_of_spec (s : outcome (Session (@kg_round toy_curve) (@kg_result toy_curve)) * @captured toy_curve) :
  is_kg s.1 = true -> s = (Ret (Running (KG1 (kg_of s.1))), s.2).
Proof. by destruct s as [[[[]| |]| |]]. Qed.

Definition kg_first (id : ID) : @round1 toy_curve := kg_of (KeygenTaproot id toy_ids 1 None).1.

Definition kg_ps : list (@kg_round toy_curve * reader) :=
  zip ((fun id => KG1 (kg_first id)) <$> toy_ids) toy_rands.

Abbreviation kg_end := (party_at kg_ps (KG1 kg_dummy, toy_rand 0) 2 0).

(** The same parties in lockstep, up to their last round. *)
Abbreviation kg_lock := (lockstep2 id id kg_ps).

Definition kg_last (p : party) : option (@round3 toy_curve) :=
  match p_round p with KG3 r => Some r | _ => None end.

Definition kg_index (id : ID) : nat := if decide (id = "a") then 0 else if decide (id = "b") then 1 else 2.

(** Their results, and the commitments they used. *)
Definition kg_res (id : ID) : @kg_result toy_curve :=
  match (p ← kg_lock !! kg_index id; kg_last p) with
  | Some r => match round3_Finalize r with Ret res => res | _ => RConfig EmptyConfig end
  | None => RConfig EmptyConfig
  end.

Definition kg_phis : gmap ID (@Exponent toy_curve) :=
  match (p ← kg_lock !! 0%nat; kg_last p) with Some r => Phi (k_round2 r) | None => ∅ end.

(** The third party deviates: it commits to a constant polynomial, with a
    valid proof of knowledge, and sends shares of it. *)
Definition bad_phi : @Exponent toy_curve := mkExponent false [Zmod.of_Z toy_order 5].

Definition bad_proof : option (@Proof toy_curve) :=
  match NewProof (HashForID (k_Helper (kg_first "c")) "c") (Zmod.of_Z toy_order 5 : @Point toy_curve)
          (Zmod.of_Z toy_order 5) None (toy_rand 9) with
  | Ret (p, _) => Some p
  | _ => None
  end.

Definition bad_message (m : round_Message toy_kg_content) : round_Message toy_kg_content :=
  if decide (rm_From m = "c") then
    mkRoundMessage (rm_From m) (rm_To m) (rm_Broadcast m)
      match rm_Content m with
      | Broadcast2 _ _ c => Broadcast2 (Some bad_phi) bad_proof c
      | Message3 _ => @Message3 toy_curve (Some (Zmod.of_Z toy_order 5))
      | c => c
      end
  else m.

Abbreviation kg_bad := (lockstep2 (map bad_message) (map bad_message) kg_ps).

(** A key with threshold 1 and even public key, and its configurations. *)
Definition toy_key : list (Zmod.Zmod toy_order) := [Zmod.of_Z toy_order 34; Zmod.of_Z toy_order 7].

Definition toy_shares : gmap ID (@Point toy_curve) :=
  list_to_map ((fun id => (id, @ActOnBase toy_curve (@horner toy_curve (ID_Scalar id) toy_key)))
               <$> toy_ids).

Definition toy_public : @Point toy_curve := @ActOnBase toy_curve (@horner toy_curve Zmod.zero toy_key).

Definition toy_config (id : ID) : @Config toy_curve :=
  mkConfig id 1 (@horner toy_curve (ID_Scalar id) toy_key) toy_public [] toy_shares.

Definition toy_tconfig (id : ID) : @TaprootConfig toy_curve :=
  mkTaprootConfig id 1 (@horner toy_curve (ID_Scalar id) toy_key) (XBytes toy_public) [] toy_shares.

(** Refreshing it. *)
Definition rf_first (id : ID) : @round1 toy_curve := kg_of (Refresh (toy_config id) toy_ids None).1.

Definition rf_ps : list (@kg_round toy_curve * reader) :=
  zip ((fun id => KG1 (rf_first id)) <$> toy_ids) toy_rands.

Abbreviation rf_end := (party_at rf_ps (KG1 kg_dummy, toy_rand 0) 2 0).

Definition rft_first (id : ID) : @round1 toy_curve :=
  kg_of (RefreshTaproot (toy_tconfig id) toy_ids None).1.

Definition rft_ps : list (@kg_round toy_curve * reader) :=
  zip ((fun id => KG1 (rft_first id)) <$> toy_ids) toy_rands.

Abbreviation rft_end := (party_at rft_ps (KG1 kg_dummy, toy_rand 0) 2 0).

(** Two of the three sign with it. *)
Definition sg_dummy : @sround1 toy_curve := mkSround1 toy_helper true None Zmod.zero ∅ Zmod.zero.

Definition toy_signers : list ID := ["a"; "c"].

Definition toy_message : option bytes := Some (bytes_of_string "message").

Definition sg_of (s : outcome (Session (@sg_round toy_curve) (@sg_result toy_curve))) : @sround1 toy_curve :=
  match s with Ret (Running (SG1 r)) => r | _ => sg_dummy end.

Definition is_sg (s : outcome (Session (@sg_round toy_curve) (@sg_result toy_curve))) : bool :=
  match s with Ret (Running (SG1 _)) => true | _ => false end.

Lemma sg_of_spec s : is_sg s = true -> s = Ret (Running (SG1 (sg_of s))).
Proof. by destruct s as [[[]| |]| |]. Qed.

Definition sg_first (id : ID) : @sround1 toy_curve :=
  sg_of (SignTaproot (toy_tconfig id) toy_signers toy_message None).

Definition sg_ps : list (@sg_round toy_curve * reader) :=
  [(SG1 (sg_first "a"), toy_rand 4); (SG1 (sg_first "c"), toy_rand 5)].

Abbreviation sg_end := (party_at sg_ps (SG1 sg_dummy, toy_rand 0) 2 0).

Definition sgf_first (id : ID) : @sround1 toy_curve :=
  sg_of (Frost_Sign (toy_config id) toy_signers toy_message None).

Definition sgf_ps : list (@sg_round toy_curve * reader) :=
  [(SG1 (sgf_first "a"), toy_rand 4); (SG1 (sgf_first "c"), toy_rand 5)].

Abbreviation sgf_end := (party_at sgf_ps (SG1 sg_dummy, toy_rand 0) 2 0).

(** The same signers in lockstep. *)
Definition sgl_first (id : ID) : @sround1 toy_curve :=
  sg_of (StartSignCommon true (toy_config id) toy_signers toy_message None).

Definition sgl_ps : list (@sg_round toy_curve * reader) :=
  [(SG1 (sgl_first "a"), toy_rand 4); (SG1 (sgl_first "c"), toy_rand 5)].

Abbreviation sg_lock1 := (lockstep1 id sgl_ps).
Abbreviation sg_lock2 := (lockstep2 id id sgl_ps).
