(* ===== verification/CmpRuns.v ===== *)
(** * Executions of the CMP protocols

    A key generation of one party with moduli of full size, for which the
    search for primes is carried out by reasoning instead of evaluation; and
    evaluated sessions of signing and presigning with small moduli. *)

From Stdlib Require Import ZArith Lia Zmod.
From Stdlib Require Import Strings.Byte.
From stdpp Require Import base gmap strings list pretty numbers.
From S2P Require Import Elgamal.
From S2P Require Import Prelude Hash Curve Party Sample Polynomial Round Message Handler HandlerSpec.
From S2P Require Import Primes Arith SampleInts PaillierMath Paillier Pedersen Zk Mta Ecdsa.
From S2P Require Import ZkSetup ExponentCodec CmpConfig CmpKeygen CmpSign CmpPresign Toy Codec Runs.

Local Open Scope Z_scope.

(** ** A search that succeeds at once *)

Lemma cross_out2_first fuel s i p : (0 < i)%nat -> cross_out2 fuel s i p !! 0%nat = s !! 0%nat.
Proof.
  revert s i. induction fuel as [|fuel IH]; intros s i Hi; cbn [cross_out2]; [done|]. case_decide; [|done].
  rewrite IH by lia. by rewrite !list_lookup_insert_ne by lia.
Qed.

Lemma cross_out3_first fuel s i : (0 < i)%nat -> cross_out3 fuel s i !! 0%nat = s !! 0%nat.
Proof.
  revert s i. induction fuel as [|fuel IH]; intros s i Hi; cbn [cross_out3]; [done|]. case_decide; [|done].
  rewrite IH by lia. by rewrite !list_lookup_insert_ne by lia.
Qed.

Lemma sieve_first base s ps :
  Forall (fun p => (0 < p)%nat /\ base mod Z.of_nat p <> 0) ps -> foldl (sieve_prime base) s ps !! 0%nat = s !! 0%nat.
Proof.
  intros H. revert s. induction H as [|p ps [Hp Hb] _ IH]; intros s; cbn [foldl]; [done|]. rewrite IH. unfold sieve_prime.
  pose proof (Z.mod_pos_bound base (Z.of_nat p) ltac:(lia)). rewrite decide_False by lia. apply cross_out2_first. lia.
Qed.

(** Every number passes the primality test. *)
Definition all_prime : BigPrime := fun _ _ => true.

Lemma try_blum_first bits size ps rand buf rand' :
  ReadFull rand ((bits + 7) / 8) = (Some buf, rand') -> (0 < size)%nat ->
  let base := be_to_Z (set_bits buf) in
  Forall (fun p => (0 < p)%nat /\ base mod Z.of_nat p <> 0) ps -> TrueLen base <= Z.of_nat bits ->
  try_blum (B := all_prime) bits size ps rand = (Some base, rand').
Proof.
  intros E Hs base Hf Hl. unfold try_blum. rewrite E. fold base. f_equal.
  pose proof (sieve_first base (cross_out3 size (replicate size true) 1) ps Hf) as H0.
  rewrite cross_out3_first in H0 by lia. rewrite lookup_replicate_2 in H0 by done.
  destruct (foldl _ _ _) as [|b s]; [done|]. injection H0 as ->. cbn [scan].
  rewrite Z.add_0_l. by destruct (Z.ltb_spec (Z.of_nat bits) (TrueLen base)); [lia|].
Qed.

(** Numbers without small prime factors. *)
Definition rough (n : Z) : Prop := forall p, Z.prime p -> p < 2 ^ 20 -> ~ (p | n).

Lemma rough_prime p : Z.prime p -> 2 ^ 20 <= p -> rough p.
Proof. intros Hp Hl q Hq Hlt Hd. apply Z.divide_prime_prime in Hd; [lia|done..]. Qed.

Lemma rough_mul a b : rough a -> rough b -> rough (a * b).
Proof. intros Ha Hb p Hp Hl [?|?]%Z.divide_prime_mul; [by eapply Ha|by eapply Hb|done]. Qed.

Lemma primeBound_eq : Z.of_nat primeBound = 2 ^ 20.
Proof. unfold primeBound. by rewrite Nat.shiftl_mul_pow2, Nat.mul_1_l, Nat2Z.inj_pow. Qed.

Lemma rough_primes n : rough n -> Forall (fun p => (0 < p)%nat /\ n mod Z.of_nat p <> 0) (primes primeBound).
Proof.
  intros Hn. apply list.Forall_forall. intros p H. apply elem_of_primes in H as [[H3 Hp%Nat2Z.inj_lt] Pp]. rewrite primeBound_eq in Hp.
  split; [lia|]. intros E. apply (Hn (Z.of_nat p)); [done..|]. apply Z.mod_divide; [lia|done].
Qed.

(** Two numbers of 1024 bits with the shape of Blum primes: the field prime
    and the order of secp256k1, and the largest prime below 2³². *)
Definition small_prime : Z := 2 ^ 32 - 5.
Definition blum_p : Z := secp256k1_p * (secp256k1_p * (secp256k1_p * secp256k1_order)).
Definition blum_q : Z :=
  let r2 := small_prime * small_prime in let r4 := r2 * r2 in
  secp256k1_p * (secp256k1_p * (secp256k1_p * (r4 * r4))).

Lemma small_prime_prime : Z.prime small_prime.
Proof.
  apply (pock_check_prime _ 2 [(22605091, 1)]); [|by vm_compute].
  constructor; [|constructor]. split; [|done]. by apply trial_prime; [|vm_compute].
Qed.

Lemma secp256k1_p_rough : rough secp256k1_p.
Proof. apply rough_prime; [apply secp256k1_p_prime|by vm_compute]. Qed.

Lemma small_prime_rough : rough small_prime.
Proof. apply rough_prime; [apply small_prime_prime|by vm_compute]. Qed.

Lemma blum_p_rough : rough blum_p.
Proof.
  unfold blum_p. do 3 (apply rough_mul; [apply secp256k1_p_rough|]).
  apply rough_prime; [apply secp256k1_order_prime|by vm_compute].
Qed.

Lemma blum_q_rough : rough blum_q.
Proof.
  unfold blum_q. cbn zeta. do 3 (apply rough_mul; [apply secp256k1_p_rough|]).
  repeat apply (rough_mul (_ * _) (_ * _)). all: apply rough_mul; apply small_prime_rough.
Qed.

(** The stream that yields the two numbers first. *)
Definition blum_bytes : bytes := Eval vm_compute in be_of_Z 128 blum_p ++ be_of_Z 128 blum_q.
Definition blum_stream (n : nat) : byte := nth n blum_bytes x01.

Definition after_blum : reader := Reader blum_stream 256 (fun _ => false) 2.

Lemma tryBlumPrime_stream off calls base :
  be_to_Z (set_bits (map blum_stream (seq off 128))) = base -> rough base -> TrueLen base = 1024 ->
  tryBlumPrime (B := all_prime) (Reader blum_stream off (fun _ => false) calls)
  = (Some base, Reader blum_stream (off + 128) (fun _ => false) (S calls)).
Proof.
  intros Eb Hr Hl. unfold tryBlumPrime.
  rewrite (try_blum_first BitsBlumPrime sieveSize (primes primeBound) _ (map blum_stream (seq off 128))
    (Reader blum_stream (off + 128) (fun _ => false) (S calls))).
  - by rewrite Eb.
  - reflexivity.
  - unfold sieveSize. rewrite Nat.shiftl_mul_pow2, Nat.mul_1_l. apply Nat.neq_0_lt_0, Nat.pow_nonzero. done.
  - rewrite Eb. by apply rough_primes.
  - rewrite Eb, Hl. by vm_compute.
Qed.

Lemma blum_p_stream : be_to_Z (set_bits (map blum_stream (seq 0 128))) = blum_p.
Proof. by vm_compute. Qed.

Lemma blum_q_stream : be_to_Z (set_bits (map blum_stream (seq 128 128))) = blum_q.
Proof. by vm_compute. Qed.

Lemma sample_Paillier_stream :
  sample_Paillier (B := all_prime) 2 (stream_reader blum_stream) = Ret (blum_p, blum_q, after_blum).
Proof.
  pose proof (tryBlumPrime_stream 0 0 blum_p blum_p_stream blum_p_rough ltac:(by vm_compute)) as E1.
  pose proof (tryBlumPrime_stream 128 1 blum_q blum_q_stream blum_q_rough ltac:(by vm_compute)) as E2.
  unfold sample_Paillier. cbn [searchAlone]. unfold stream_reader. cbn [Nat.add] in E1, E2. rewrite E1.
  cbn [mbind outcome_bind]. rewrite E2. reflexivity.
Qed.

(** ** A key generation of one party *)

(** An arithmetic that is cheap to evaluate; nothing that is shown of key
    generation depends on it. *)
Definition quick_saferith : Saferith := {|
  sf_Exp := fun _ _ _ => 1;
  sf_ExpI := fun _ _ _ => 1;
  sf_ModInverse := fun _ _ => 1;
  sf_IsUnit := fun _ _ => true;
  sf_MarshalBinary := be_min
|}.

(** A hash that is cheap to evaluate. *)
Definition quick_blake3 : Blake3 := fun _ _ => x01.

(** No message is encoded in a session of one party. *)
Definition no_cbor (T : Type) : Cbor T := {|
  cbor_Marshal := fun _ => Ret [];
  cbor_Unmarshal := fun t _ => Ret t
|}.

(** The session of the only party "a". *)
Definition only : list ID := ["a"].

Definition ones : reader := stream_reader (fun _ => x01).

#[local] Existing Instance quick_saferith.
#[local] Existing Instance quick_blake3.
#[local] Existing Instance all_prime.
#[local] Existing Instance no_cbor.

(** A stream whose first number is five, a non-residue of symbol -1. *)
Definition five : reader :=
  stream_reader (fun n => if decide (n < 255)%nat then x00 else if decide (n = 255)%nat then x05 else x01).

Definition blum_sk : SecretKey := NewSecretKeyFromPrimes blum_p blum_q.
Definition blum_N : Z := blum_p * blum_q.

Lemma NewSecretKey_stream : NewSecretKey 2 (stream_reader blum_stream) = Ret (blum_sk, after_blum).
Proof. unfold NewSecretKey. by rewrite sample_Paillier_stream. Qed.

(** A reader whose remaining bytes are all one yields the same number at
    every draw. *)
Definition flat (rand : reader) : Prop :=
  (forall k, (r_off rand <= k)%nat -> r_bytes rand k = x01) /\ forall k, r_fails rand k = false.

Lemma flat_ones off calls : flat (Reader (fun _ => x01) off (fun _ => false) calls).
Proof. by split. Qed.

Lemma flat_read rand n :
  flat rand -> exists rand', flat rand' /\ mustReadBits rand n = Ret (replicate n x01, rand').
Proof.
  intros [Hb Hf]. unfold mustReadBits, maxIterations. cbn [read_loop]. unfold ReadFull. rewrite Hf. eexists. split; [|do 2 f_equal].
  - split; cbn; [|done]. intros k Hk. apply Hb. lia.
  - apply list_eq_same_length with n; [by rewrite length_replicate|by rewrite length_map, length_seq|].
    intros i x y Hi. rewrite lookup_replicate_2 by done. intros E.
    apply list_lookup_fmap_Some in E as (k & -> & Hk%lookup_seq). intros [= <-]. apply Hb. lia.
Qed.

(** Numbers above the one that is drawn. *)
Definition above_ones (n : Z) : Prop := be_to_Z (replicate (modulus_bytes n) x01) < n.

Lemma ModN_flat fuel rand n :
  flat rand -> above_ones n -> exists v rand', flat rand' /\ ModN (S fuel) rand n = Ret (v, rand').
Proof.
  intros Hr Hn. destruct (flat_read rand (modulus_bytes n) Hr) as (r & Hr' & E). cbn [ModN]. rewrite E. cbn [mbind outcome_bind].
  destruct (Z.ltb_spec (be_to_Z (replicate (modulus_bytes n) x01)) n) as [_|?]; [eauto|unfold above_ones in Hn; lia].
Qed.

Lemma sample_ys_flat fuel count n rand :
  flat rand -> above_ones n -> exists ys, sample_ys (S fuel) count n rand = Ret ys.
Proof.
  intros Hr Hn. revert rand Hr. induction count as [|count IH]; intros rand Hr; cbn [sample_ys]; [eauto|].
  destruct (ModN_flat fuel rand n Hr Hn) as (v & r & Hr' & E). rewrite E. cbn [mbind outcome_bind].
  destruct (IH r Hr') as [ys ->]. cbn. eauto.
Qed.

Lemma sample_exponents_flat fuel count n rand :
  flat rand -> above_ones n -> exists l rand', sample_exponents (S fuel) count n rand = Ret (l, rand').
Proof.
  intros Hr Hn. revert rand Hr. induction count as [|count IH]; intros rand Hr; cbn [sample_exponents]; [eauto|].
  destruct (ModN_flat fuel rand n Hr Hn) as (v & r & Hr' & E). rewrite E. cbn [mbind outcome_bind].
  destruct (IH r Hr') as (l & r2 & ->). cbn. eauto.
Qed.

Lemma blum_N_above : above_ones blum_N.
Proof. by vm_compute. Qed.

Lemma blum_phi_above : above_ones (sk_phi blum_sk).
Proof. by vm_compute. Qed.

(** The proofs of round three are made whatever has been hashed. *)
Lemma zkmod_flat h private n rand w rand' :
  QNR rand n = Ret (w, rand') -> above_ones n -> exists pf, zkmod_NewProof 2 h private n rand = Ret (pf, rand').
Proof.
  intros E Hn. unfold zkmod_NewProof. rewrite E. cbn [mbind outcome_bind].
  unfold zkmod_challenge. destruct (WriteAny_ok h [Modulus_any n; ABigInt (Some w)]) as [h' ->]; [solve_writes|].
  destruct (sample_ys_flat 1 StatParam n (Digest h')) as [ys ->]; [apply flat_ones|done|].
  cbn [mbind outcome_bind]. eauto.
Qed.

Definition after_five : reader := Reader (r_bytes five) 256 (fun _ => false) 1.

Lemma after_five_flat : flat after_five.
Proof. split; [|done]. intros k Hk. cbn -[decide] in *. by rewrite !decide_False by lia. Qed.

Lemma QNR_first rand buf rand' n w :
  mustReadBits rand (BitsIntModN / 8) = Ret (buf, rand') -> be_to_Z buf mod n = w -> Jacobi w n = Ret (-1) ->
  QNR rand n = Ret (w, rand').
Proof.
  intros E Ew Ej. unfold QNR, maxIterations. cbn [QNR_loop]. rewrite E. cbn [mbind outcome_bind]. by rewrite Ew, Ej.
Qed.

Lemma QNR_five : QNR five blum_N = Ret (5, after_five).
Proof.
  apply QNR_first with (map (r_bytes five) (seq 0 256)); [reflexivity|by vm_compute|by vm_compute].
Qed.

Lemma zkmod_made h private : exists pf, zkmod_NewProof 2 h private blum_N five = Ret (pf, after_five).
Proof. apply zkmod_flat with 5; [apply QNR_five|apply blum_N_above]. Qed.

Lemma zkprm_made h aux private rand :
  flat rand -> prmPhi private = sk_phi blum_sk -> exists pf rand', zkprm_NewProof 2 h aux private rand = Ret (pf, rand').
Proof.
  intros Hr Hp. unfold zkprm_NewProof. rewrite Hp.
  destruct (sample_exponents_flat 1 StatParam (sk_phi blum_sk) rand Hr blum_phi_above) as (l & r & ->).
  cbn [mbind outcome_bind]. destruct (zkprm_challenge _ _ _). eauto.
Qed.

#[local] Opaque blum_N blum_sk blum_stream after_blum five after_five.

(** The rounds of a key generation without other parties: rounds one and
    three without the search for primes and the proofs. *)
Section Rounds.
Context {C : Curve} {MO : MapOrder} {CR : Cbor rawExponentData}.

Definition stage1 (r : cround1) : option cround2 :=
  match cround1_share 2 r blum_sk after_blum (mkChan 2 []) with Ret (r2, _, _) => Some r2 | _ => None end.

Definition stage2 (r : cround2) : option cround3 :=
  match cround2_Finalize r (mkChan 2 []) with Ret (r3, _) => Some r3 | _ => None end.

Definition stage3 (r : cround3) : option cround4 :=
  let r2 := ck_round2 r in
  let r1 := ck_round1 r2 in
  let hp := ck_Helper r1 in
  match (if decide (PreviousChainKey r1 = [])
         then xor_all (cmp_ChainKeys r2) EmptyRID (partyIDs hp) else Ret (PreviousChainKey r1)),
        xor_all (RIDs r2) EmptyRID (partyIDs hp), PaillierPublic r2 !! cselfID r1, PedersenPublic r2 !! cselfID r1 with
  | Ret chainKey, Ret rid, Some pk, Some _ =>
      if (pk_N pk =? blum_N) && (sk_phi (PaillierSecret r2) =? sk_phi blum_sk)
      then Some (mkCRound4 (mkCRound3 (update_hash r2 (RID_any (Some rid))) (SchnorrCommitments r)) rid chainKey)
      else None
  | _, _, _, _ => None
  end.

Definition stage4 (r : cround4) : option cround5 :=
  match cround4_Finalize r (mkChan 2 []) with Ret (r5, _) => Some r5 | _ => None end.

(** The round waits for no one. *)
Definition alone_in (r : ckg_round) : bool :=
  bool_decide (otherPartyIDs (ckg_helper r) = []) && bool_decide (N (ckg_helper r) = 1%nat).

Definition ckg_run (r1 : cround1) : option CmpConfig :=
  if alone_in (CK1 r1) then
    r2 ← stage1 r1; if alone_in (CK2 r2) then
    r3 ← stage2 r2; if alone_in (CK3 r3) then
    r4 ← stage3 r3; if alone_in (CK4 r4) then
    r5 ← stage4 r4; if alone_in (CK5 r5) then
    Some (UpdatedConfig r5) else None else None else None else None else None.

Context {CB : Cbor ckg_content}.
#[local] Existing Instance ckg_ops.

Lemma stage_next r0 r r' rand out' rand' :
  reached (RO := ckg_ops 2) r0 r ∅ ∅ -> alone_in r = true ->
  ckg_Finalize 2 r rand (mkChan 2 []) = (Ret (Running r'), out', rand') -> reached (RO := ckg_ops 2) r0 r' ∅ ∅.
Proof.
  intros Hr [Ho%bool_decide_eq_true Hn%bool_decide_eq_true]%andb_true_iff E. eapply (reached_next r0 r); [done| |].
  - intros _ id Hid. unfold r_others in Hid. cbn in Hid. rewrite Ho in Hid. by apply elem_of_nil in Hid.
  - unfold fresh_out. cbn [r_Finalize r_helper ckg_ops]. rewrite Hn. exact E.
Qed.

Lemma stage1_next r r2 : stage1 r = Some r2 ->
  exists out rand, ckg_Finalize 2 (CK1 r) (stream_reader blum_stream) (mkChan 2 []) = (Ret (Running (CK2 r2)), out, rand).
Proof.
  unfold stage1, ckg_Finalize, cround1_Finalize. rewrite NewSecretKey_stream. cbn [mbind outcome_bind].
  destruct (cround1_share _ _ _ _ _) as [[[r' out] rand]| |]; intros [= ->]. cbn. eauto.
Qed.

Lemma stage2_next r r3 : stage2 r = Some r3 ->
  exists out rand, ckg_Finalize 2 (CK2 r) ones (mkChan 2 []) = (Ret (Running (CK3 r3)), out, rand).
Proof.
  unfold stage2, ckg_Finalize. destruct (cround2_Finalize _ _) as [[r' out]| |]; intros [= ->]. cbn. eauto.
Qed.

Lemma stage3_next r r4 : alone_in (CK3 r) = true -> stage3 r = Some r4 ->
  exists out rand, ckg_Finalize 2 (CK3 r) five (mkChan 2 []) = (Ret (Running (CK4 r4)), out, rand).
Proof.
  intros [Ho%bool_decide_eq_true _]%andb_true_iff. change (otherPartyIDs (ck_Helper (ck_round1 (ck_round2 r))) = []) in Ho.
  unfold stage3, ckg_Finalize, cround3_Finalize.
  destruct (if decide _ then _ else _) as [ck| |]; try done. destruct (xor_all _ _ _) as [rid| |]; try done.
  destruct (PaillierPublic _ !! _) as [pk|]; try done. destruct (PedersenPublic _ !! _) as [ped|]; try done.
  destruct (Z.eqb_spec (pk_N pk) blum_N) as [EN|]; try done. destruct (Z.eqb_spec (sk_phi (PaillierSecret (ck_round2 r))) (sk_phi blum_sk)) as [Ep|]; try done.
  intros [= <-]. cbn [mbind outcome_bind deref]. rewrite EN.
  match goal with |- context [zkmod_NewProof 2 ?h ?p blum_N five] => destruct (zkmod_made h p) as [pf ->] end.
  cbn [mbind outcome_bind deref].
  match goal with |- context [zkprm_NewProof 2 ?h ?a ?p after_five] =>
    destruct (zkprm_made h a p after_five after_five_flat Ep) as (prm & r' & ->) end.
  cbn [mbind outcome_bind]. unfold BroadcastMessage, try_send. cbn [ch_cap ch_buf length]. rewrite decide_True by lia.
  cbn [mbind outcome_bind]. rewrite Ho. cbn [send_encrypted mbind outcome_bind finalized]. eauto.
Qed.

Lemma stage4_next r r5 : stage4 r = Some r5 ->
  exists out rand, ckg_Finalize 2 (CK4 r) ones (mkChan 2 []) = (Ret (Running (CK5 r5)), out, rand).
Proof.
  unfold stage4, ckg_Finalize. destruct (cround4_Finalize _ _) as [[r' out]| |]; intros [= ->]. cbn. eauto.
Qed.

Lemma ckg_run_delivered r c : ckg_run r = Some c -> delivered (RO := ckg_ops 2) (CK1 r) c.
Proof.
  unfold ckg_run. destruct (alone_in _) eqn:A1; [|done].
  destruct (stage1 r) as [r2|] eqn:E1; [|done]. cbn [mbind option_bind]. destruct (alone_in (CK2 r2)) eqn:A2; [|done].
  destruct (stage2 r2) as [r3|] eqn:E2; [|done]. cbn [mbind option_bind]. destruct (alone_in (CK3 r3)) eqn:A3; [|done].
  destruct (stage3 r3) as [r4|] eqn:E3; [|done]. cbn [mbind option_bind]. destruct (alone_in (CK4 r4)) eqn:A4; [|done].
  destruct (stage4 r4) as [r5|] eqn:E4; [|done]. cbn [mbind option_bind]. destruct (alone_in (CK5 r5)) eqn:A5; [|done].
  intros [= <-]. apply stage1_next in E1 as (o1 & d1 & E1). apply stage2_next in E2 as (o2 & d2 & E2).
  apply (stage3_next _ _ A3) in E3 as (o3 & d3 & E3). apply stage4_next in E4 as (o4 & d4 & E4).
  eapply (delivered_output (CK1 r) (CK5 r5) ∅ ∅ ones).
  - eapply stage_next, E4; [|done]. eapply stage_next, E3; [|done]. eapply stage_next, E2; [|done].
    eapply stage_next, E1; [|done]. constructor.
  - apply andb_true_iff in A5 as [Ho%bool_decide_eq_true _]. clear -Ho. intros _ id Hid. unfold r_others in Hid. cbn in Hid.
    rewrite Ho in Hid. by apply elem_of_nil in Hid.
  - reflexivity.
Qed.

End Rounds.

Definition ckg_start : option cround1 :=
  match Cmp_Keygen "a" only 0 None ones with Ret (Running (CK1 r), _) => Some r | _ => None end.

Definition defined {A} (o : option A) : bool := match o with Some _ => true | None => false end.

Lemma ckg_start_run : defined (ckg_start ≫= ckg_run) = true.
Proof. vm_cast_no_check (eq_refl true). Qed.

Lemma ckg_delivered_alone : exists r rand c,
  Cmp_Keygen "a" only 0 None ones = Ret (Running r, rand) /\ delivered (RO := ckg_ops 2) r c.
Proof.
  pose proof ckg_start_run as H. destruct ckg_start as [r|] eqn:E; [|discriminate H]. cbn [mbind option_bind] in H.
  destruct (ckg_run r) as [c|] eqn:Er; [|discriminate H]. revert E. unfold ckg_start.
  destruct (Cmp_Keygen _ _ _ _ _) as [[[[]|? ?|? ? ?] rand]| |]; intros [= ->]. exists (CK1 r), rand, c.
  split; [done|]. by apply ckg_run_delivered.
Qed.

(** A refresh of the key 34 of the only party. *)
Definition one_sk : SecretKey := NewSecretKeyFromPrimes 103 107.

Definition one_config : @CmpConfig toy_curve :=
  let x := Zmod.of_Z toy_order 34 in
  mkCmpConfig "a" 0 x x one_sk (replicate 32 x01) (replicate 32 x02)
    {["a" := mkPublic (ActOnBase x) (ActOnBase x) (sk_PublicKey one_sk) (mkParameters (pk_n (sk_PublicKey one_sk)) 1 1)]}.

Definition crf_start : option cround1 :=
  match Cmp_Refresh one_config None ones with Ret (Running (CK1 r), _) => Some r | _ => None end.

Lemma crf_start_run : defined (crf_start ≫= ckg_run) = true.
Proof. vm_cast_no_check (eq_refl true). Qed.

Lemma crf_delivered_alone : exists r rand c,
  Cmp_Refresh one_config None ones = Ret (Running r, rand) /\ delivered (RO := ckg_ops 2) r c.
Proof.
  pose proof crf_start_run as H. destruct crf_start as [r|] eqn:E; [|discriminate H]. cbn [mbind option_bind] in H.
  destruct (ckg_run r) as [c|] eqn:Er; [|discriminate H]. revert E. unfold crf_start.
  destruct (Cmp_Refresh _ _ _) as [[[[]|? ?|? ? ?] rand]| |]; intros [= ->]. exists (CK1 r), rand, c.
  split; [done|]. by apply ckg_run_delivered.
Qed.
