(* ===== verification/CmpDuo.v ===== *)
(** * Two parties in step

    A driver that runs a protocol at two parties: both finalize their round,
    then each takes the broadcasts and the messages of the other.  The second
    party may deviate: [tamper] replaces its rounds, knowing those of the first.  What the driver computes
    for the first party is an execution in the sense of [reached].  The
    sessions of CMP signing and presigning are evaluated with it, with small
    moduli and the operations of [quick_saferith]. *)

From Stdlib Require Import ZArith Lia Zmod.
From Stdlib Require Import Strings.Byte.
From stdpp Require Import base gmap strings list pretty numbers.
From S2P Require Import Elgamal.
From S2P Require Import Prelude Hash Curve Party Sample Polynomial Round Message Handler HandlerSpec.
From S2P Require Import Primes Arith SampleInts PaillierMath Paillier Pedersen Zk Mta Ecdsa FrostConfig.
From S2P Require Import ExponentCodec CmpConfig CmpKeygen CmpSign CmpPresign Toy Codec Runs CmpRuns.

Local Open Scope Z_scope.

Section Duo.
Context {R Content Result : Type} {RO : RoundOps R Content Result}.

(** A round with the senders of the broadcasts and messages it has taken. *)
Record station := mkStation { st_r : R; st_B : gset ID; st_M : gset ID }.

Definition take_in (s : station) (m : round_Message Content) : option station :=
  let '(mkStation r B M) := s in
  if rm_Broadcast m then
    if decide (r_is_broadcast r = true /\ rm_From m ∈ r_others r /\ rm_From m ∉ B) then
      match r_StoreBroadcastMessage r m with Ret r' => Some (mkStation r' ({[rm_From m]} ∪ B) M) | _ => None end
    else None
  else
    if decide (is_Some (r_MessageContent r) /\ rm_From m ∈ r_others r /\ (rm_From m ∉ M) /\
               (r_is_broadcast r = true -> rm_From m ∈ B)) then
      match r_VerifyMessage r m, r_StoreMessage r m with
      | Ret tt, Ret r' => Some (mkStation r' B ({[rm_From m]} ∪ M))
      | _, _ => None
      end
    else None.

Definition ready (s : station) : bool :=
  let '(mkStation r B M) := s in
  bool_decide (Forall (fun id => (r_is_broadcast r = true -> id ∈ B) /\ (is_Some (r_MessageContent r) -> id ∈ M))
    (r_others r)).

Definition advance (s : station) (rand : reader) : option (R * list (round_Message Content)) :=
  if ready s then
    match r_Finalize (st_r s) rand (fresh_out (st_r s)) with
    | (Ret (Running r'), out, _) => Some (r', ch_buf out)
    | _ => None
    end
  else None.

Definition result (s : station) (rand : reader) : option Result :=
  if ready s then
    match r_Finalize (st_r s) rand (fresh_out (st_r s)) with
    | (Ret (Output _ res), _, _) => Some res
    | _ => None
    end
  else None.

Fixpoint take_all (s : station) (ms : list (round_Message Content)) : option station :=
  match ms with [] => Some s | m :: ms => match take_in s m with Some s => take_all s ms | None => None end end.

(** Broadcasts come before messages. *)
Definition inbox (ms : list (round_Message Content)) : list (round_Message Content) :=
  filter (fun m => rm_Broadcast m = true) ms ++ filter (fun m => rm_Broadcast m = false) ms.

(** One round of both parties. *)
Definition duo_round (tamper : R -> R -> R) (ab : station * station) (rands : reader * reader) : option (station * station) :=
  match advance ab.1 rands.1, advance ab.2 rands.2 with
  | Some (ra, outa), Some (rb, outb) =>
      match take_all (mkStation ra ∅ ∅) (inbox outb), take_all (mkStation rb ∅ ∅) (inbox outa) with
      | Some sa, Some sb => Some (sa, mkStation (tamper (st_r sa) (st_r sb)) (st_B sb) (st_M sb))
      | _, _ => None
      end
  | _, _ => None
  end.

Fixpoint duo (tamper : R -> R -> R) (ab : station * station) (rands : list (reader * reader)) : option (station * station) :=
  match rands with
  | [] => Some ab
  | rand :: rands => match duo_round tamper ab rand with Some ab => duo tamper ab rands | None => None end
  end.

Context `{Blake3}.

Definition at_station (r0 : R) (s : station) : Prop := reached r0 (st_r s) (st_B s) (st_M s).

Lemma take_in_reached r0 s m s' : at_station r0 s -> take_in s m = Some s' -> at_station r0 s'.
Proof.
  destruct s as [r B M]. unfold at_station, take_in. cbn [st_r st_B st_M]. intros Hr. destruct (rm_Broadcast m) eqn:Eb.
  - case_decide as Hd; [|done]. destruct Hd as (H1 & H2 & H3). destruct (r_StoreBroadcastMessage r m) eqn:E; [|done..].
    intros [= <-]. by eapply reached_broadcast.
  - case_decide as Hd; [|done]. destruct Hd as (H1 & H2 & H3 & H4). destruct (r_VerifyMessage r m) as [[]| |] eqn:Ev; [|done..].
    destruct (r_StoreMessage r m) eqn:E; [|done..]. intros [= <-]. by eapply reached_message.
Qed.

Lemma take_all_reached r0 ms s s' : at_station r0 s -> take_all s ms = Some s' -> at_station r0 s'.
Proof.
  revert s. induction ms as [|m ms IH]; intros s Hs; cbn [take_all]; [by intros [= <-]|].
  destruct (take_in s m) as [s1|] eqn:E; [|done]. apply IH. by eapply take_in_reached.
Qed.

Lemma ready_complete s : ready s = true -> complete (st_r s) (st_B s) (st_M s).
Proof.
  destruct s as [r B M]. intros Hf%bool_decide_eq_true _ id Hid. by apply (proj1 (list.Forall_forall _ _) Hf).
Qed.

Lemma advance_reached r0 s rand r' out : at_station r0 s -> advance s rand = Some (r', out) -> reached r0 r' ∅ ∅.
Proof.
  unfold advance. destruct (ready s) eqn:Hc; [|done]. apply ready_complete in Hc. intros Hs.
  destruct (r_Finalize _ _ _) as [[o ch] rd] eqn:E. destruct o as [[r2|h res|h e c]| |]; try done.
  intros [= <- <-]. by eapply reached_next.
Qed.

Lemma result_delivered r0 s rand res : at_station r0 s -> result s rand = Some res -> delivered r0 res.
Proof.
  unfold result. destruct (ready s) eqn:Hc; [|done]. apply ready_complete in Hc. intros Hs.
  destruct (r_Finalize _ _ _) as [[o ch] rd] eqn:E. destruct o as [[r2|h res'|h e c]| |]; try done.
  intros [= <-]. by eapply delivered_output.
Qed.

Lemma duo_reached r0 tamper ab rands ab' :
  at_station r0 ab.1 -> duo tamper ab rands = Some ab' -> at_station r0 ab'.1.
Proof.
  revert ab. induction rands as [|rand rands IH]; intros ab Hs; cbn [duo]; [by intros [= <-]|].
  destruct (duo_round _ _ _) as [ab1|] eqn:E; [|done]. apply IH. revert E. unfold duo_round.
  destruct (advance ab.1 _) as [[ra outa]|] eqn:Ea; [|done]. destruct (advance ab.2 _) as [[rb outb]|]; [|done].
  destruct (take_all (mkStation ra _ _) _) as [sa|] eqn:Et; [|done]. destruct (take_all (mkStation rb _ _) _) as [sb|]; [|done].
  intros [= <-]. cbn [fst]. eapply take_all_reached, Et. by eapply advance_reached.
Qed.

End Duo.

(** ** Sessions of two parties *)

#[local] Existing Instance quick_saferith.

(** A hash whose only other byte is the last of a commitment: every challenge
    is zero. *)
Definition zero_blake3 : Blake3 := fun _ n => if Nat.eqb n 63 then x01 else x00.

#[local] Existing Instance zero_blake3.

(** A stream of zeros with the byte [b] at some places. *)
Definition marked (b : byte) (places : list nat) : reader :=
  stream_reader (fun n => if existsb (Nat.eqb n) places then b else x00).

Definition duo_ids : list ID := ["a"; "b"].

Definition duo_sk : SecretKey := NewSecretKeyFromPrimes 103 107.

Definition duo_public : gmap ID (@Public toy_curve) :=
  list_to_map ((fun id => (id, mkPublic (ActOnBase (horner (ID_Scalar id) toy_key)) (ActOnBase (ID_Scalar id))
     (sk_PublicKey duo_sk) (mkParameters (pk_n (sk_PublicKey duo_sk)) 1 1))) <$> duo_ids).

Definition duo_config (id : ID) : @CmpConfig toy_curve :=
  mkCmpConfig id 1 (horner (ID_Scalar id) toy_key) (ID_Scalar id) duo_sk (replicate 32 x01) (replicate 32 x02) duo_public.

(** *** Presigning *)

Definition ps_cbor : Cbor ps_content := no_cbor ps_content.
#[local] Existing Instance ps_cbor.

Definition ps_first (msg : option bytes) (id : ID) : option presign1 :=
  match StartPresign (Some (duo_config id)) duo_ids msg None with Ret (Running (PS1 r)) => Some r | _ => None end.

(** The places of the secrets, nonces and masks that must not be zero. *)
Definition ps_places : list (list nat) :=
  [[31; 65; 99; 131; 163; 583]; [2038]; [31]; [96]; [31; 63]; [31; 63]; [31; 63]]%nat.

Definition duo_rands (places : list (list nat)) : list (reader * reader) :=
  (fun l => (marked x02 l, marked x03 l)) <$> places.

(** The second party knows the secrets of the first, and corrects its MtA
    shares so that the sums are the products. *)
Definition fix_shares (fixδ fixχ : bool) (ra rb : @ps_round toy_curve) : @ps_round toy_curve :=
  match ra, rb with
  | PS3 a, PS3 b =>
      let k r := MakeInt (ps_KShare (ps_round2 r)) in
      let γ r := ps_GammaShare (ps_round2 r) in
      let x r := MakeInt (ps_SecretECDSA (ps_1of3 r)) in
      PS3 (mkPresign3 (ps_round2 b) {["a" := if fixδ then γ a * k b + γ b * k a else 0]}
             {["a" := if fixχ then x a * k b + x b * k a else 0]} (ps_DeltaCiphertext b) (ps_ChiCiphertext b))
  | _, _ => rb
  end.

Definition ps_run (msg : option bytes) (fixδ fixχ : bool) (n : nat) : option (station (R := ps_round) * station) :=
  match ps_first msg "a", ps_first msg "b" with
  | Some a, Some b => duo (fix_shares fixδ fixχ) (mkStation (PS1 a) ∅ ∅, mkStation (PS1 b) ∅ ∅) (take n (duo_rands ps_places))
  | _, _ => None
  end.

Lemma ps_run_reached msg fixδ fixχ n r ab :
  ps_first msg "a" = Some r -> ps_run msg fixδ fixχ n = Some ab -> at_station (PS1 r) ab.1.
Proof.
  intros E. unfold ps_run. rewrite E. destruct (ps_first msg "b"); [|done]. apply duo_reached. constructor.
Qed.

Lemma ps_first_start msg r :
  ps_first msg "a" = Some r -> StartPresign (Some (duo_config "a")) duo_ids msg None = Ret (Running (PS1 r)).
Proof. unfold ps_first. by destruct (StartPresign _ _ _ _) as [[[]|? ?|? ? ?]| |]; intros [= ->]. Qed.

(** From a test of the station that is reached to the execution. *)
Lemma ps_run_ok msg fixδ fixχ n (test : station -> bool) :
  match ps_run msg fixδ fixχ n with Some (s, _) => test s | None => false end = true ->
  exists r s, StartPresign (Some (duo_config "a")) duo_ids msg None = Ret (Running (PS1 r)) /\
    at_station (PS1 r) s /\ test s = true.
Proof.
  destruct (ps_first msg "a") as [r|] eqn:E; [|unfold ps_run; by rewrite E].
  destruct (ps_run msg fixδ fixχ n) as [[s s']|] eqn:Er; [|done]. intros Ht. exists r, s.
  split; [by apply ps_first_start|]. split; [|done]. exact (ps_run_reached _ _ _ _ _ _ E Er).
Qed.

(** With corrected shares the first party gets its presignature. *)
Definition offline_test (s : station (R := @ps_round toy_curve)) : bool := defined (result s (marked x02 [])).

Lemma ps_offline_run :
  match ps_run None true true 6 with Some (s, _) => offline_test s | None => false end = true.
Proof. vm_cast_no_check (eq_refl true). Qed.

Lemma ps_offline : exists r res,
  StartPresign (Some (duo_config "a")) duo_ids None None = Ret (Running r) /\ delivered r res.
Proof.
  destruct (ps_run_ok None true true 6 offline_test ps_offline_run) as (r & s & E & Hs & Ht). unfold offline_test in Ht.
  destruct (result s _) as [res|] eqn:Es; [|done]. exists (PS1 r), res. split; [done|]. by eapply result_delivered.
Qed.

(** A wrong share of the signature: the first party names the second. *)
Definition duo_message : bytes := [x07].

Definition wrong_sigma : round_Message (@ps_content toy_curve) :=
  mkRoundMessage "b" "" true (PBroadcastSign2 (Some (Zmod.of_Z toy_order 50))).

Definition ps_wrong (s : station (R := @ps_round toy_curve)) : option station :=
  match advance s (marked x02 []) with Some (r, _) => take_in (mkStation r ∅ ∅) wrong_sigma | None => None end.

Definition names_culprit (s : station (R := @ps_round toy_curve)) : bool :=
  match st_r s with
  | SN2 r =>
      let p := sn_PreSignature (sn_sign1 r) in
      ready s && negb (IsIdentity (pre_R p)) && negb (IsZero (XScalar (pre_R p)))
      && negb (IsZero (sig_S (pre_Signature p (sn_SigmaShares r))))
      && match sign2_Finalize r with inr _ => true | _ => false end
  | _ => false
  end.

Definition wrong_test (s : station (R := @ps_round toy_curve)) : bool :=
  match ps_wrong s with Some s => names_culprit s | None => false end.

Lemma ps_wrong_run :
  match ps_run (Some duo_message) true true 6 with Some (s, _) => wrong_test s | None => false end = true.
Proof. vm_cast_no_check (eq_refl true). Qed.

Lemma ps_wrong_reached : exists r0 r B M culprits,
  let p := sn_PreSignature (sn_sign1 r) in
  StartPresign (Some (duo_config "a")) duo_ids (Some duo_message) None = Ret (Running (PS1 r0)) /\
  reached (PS1 r0) (SN2 r) B M /\ complete (SN2 r) B M /\ pre_R p <> 𝟎%C /\ XScalar (pre_R p) <> Zmod.zero /\
  sig_S (pre_Signature p (sn_SigmaShares r)) <> Zmod.zero /\ sign2_Finalize r = inr culprits.
Proof.
  destruct (ps_run_ok (Some duo_message) true true 6 wrong_test ps_wrong_run) as (r0 & s & E & Hs & Ht). unfold wrong_test in Ht.
  destruct (ps_wrong s) as [s2|] eqn:Ew; [|done]. assert (at_station (PS1 r0) s2) as Hs2.
  { unfold ps_wrong in Ew. destruct (advance s _) as [[r o]|] eqn:Ea; [|done]. eapply take_in_reached, Ew.
    by eapply advance_reached. }
  unfold names_culprit in Ht. destruct s2 as [r B M]. unfold at_station in Hs2. cbn [st_r st_B st_M] in Hs2, Ht.
  destruct r as [r|r|r|r|r|r|r|r|r|r|r]; try done. rewrite !andb_true_iff, !negb_true_iff in Ht.
  destruct Ht as [[[[Hr H1] H2] H3] H4]. apply ready_complete in Hr. destruct (sign2_Finalize r) as [|culprits] eqn:Ef; [done|].
  exists r0, r, B, M, culprits. split_and!; try done; unfold IsIdentity, IsZero in *; intros Ez; by rewrite Ez in *.
Qed.

(** Without the correction of χ the seventh round enters the second abort
    round. *)
Definition enters_abort2 (s : station (R := @ps_round toy_curve)) : bool :=
  match st_r s with
  | PS7 r => match ps_Finalize (PS7 r) (marked x02 [31; 63]%nat) (mkChan 3 []) with
             | (Ret (Running (PA2 _)), _, _) => true
             | _ => false
             end
  | _ => false
  end.

Lemma ps_abort2_run :
  match ps_run None true false 6 with Some (s, _) => enters_abort2 s | None => false end = true.
Proof. vm_cast_no_check (eq_refl true). Qed.

Lemma ps_abort2_reached : exists r0 r B M a out' rand',
  StartPresign (Some (duo_config "a")) duo_ids None None = Ret (Running (PS1 r0)) /\
  reached (PS1 r0) (PS7 r) B M /\
  ps_Finalize (PS7 r) (marked x02 [31; 63]%nat) (mkChan 3 []) = (Ret (Running (PA2 a)), out', rand').
Proof.
  destruct (ps_run_ok None true false 6 enters_abort2 ps_abort2_run) as (r0 & s & E & Hs & Ht). unfold enters_abort2 in Ht.
  destruct s as [r B M]. unfold at_station in Hs. cbn [st_r st_B st_M] in Hs, Ht.
  destruct r as [r|r|r|r|r|r|r|r|r|r|r]; try done. destruct (ps_Finalize _ _ _) as [[o out] rand] eqn:Ef.
  destruct o as [[n|? ?|? ? ?]| |]; try done. destruct n as [n|n|n|n|n|n|n|n|n|n|n]; try done.
  by exists r0, r, B, M, n, out, rand.
Qed.

(** *** Signing *)

Definition sgn_cbor : Cbor sgn_content := no_cbor sgn_content.
#[local] Existing Instance sgn_cbor.

Definition sgn_first (id : ID) : option sgn1 :=
  match StartSign (duo_config id) duo_ids duo_message None with Ret (Running (SG1 r)) => Some r | _ => None end.

Definition fix_sgn (ra rb : @sgn_round toy_curve) : @sgn_round toy_curve :=
  match ra, rb with
  | SG3 a, SG3 b =>
      let k r := MakeInt (sg_KShare (sg_round2 r)) in
      let γ r := sg_GammaShare (sg_round2 r) in
      let x r := MakeInt (sg_SecretECDSA (sg_round1 (sg_round2 r))) in
      SG3 (mkSgn3 (sg_round2 b) {["a" := 0]} {["a" := γ a * k b + γ b * k a]} {["a" := 0]} {["a" := x a * k b + x b * k a]})
  | _, _ => rb
  end.

Definition sgn_places : list (list nat) := [[31; 65]; [261; 2036; 3646]; [96]; []]%nat.

Definition sgn_test : bool :=
  match sgn_first "a", sgn_first "b" with
  | Some a, Some b =>
      match duo fix_sgn (mkStation (SG1 a) ∅ ∅, mkStation (SG1 b) ∅ ∅) (duo_rands sgn_places) with
      | Some (s, _) => defined (result s (marked x02 []))
      | None => false
      end
  | _, _ => false
  end.

Lemma sgn_test_run : sgn_test = true.
Proof. vm_cast_no_check (eq_refl true). Qed.

Lemma sgn_signed : exists r sig,
  StartSign (duo_config "a") duo_ids duo_message None = Ret (Running r) /\ delivered r sig.
Proof.
  pose proof sgn_test_run as H. unfold sgn_test in H. destruct (sgn_first "a") as [a|] eqn:Ea; [|discriminate H].
  destruct (sgn_first "b") as [b|]; [|discriminate H]. destruct (duo _ _ _) as [[s s']|] eqn:Ed; [|discriminate H].
  destruct (result s _) as [sig|] eqn:Es; [|discriminate H]. exists (SG1 a), sig. split.
  - revert Ea. unfold sgn_first. by destruct (StartSign _ _ _ _) as [[[]|? ?|? ? ?]| |]; intros [= ->].
  - eapply result_delivered, Es. apply (duo_reached _ _ _ _ _) with (2 := Ed). constructor.
Qed.

(** The configurations hold shares of one key. *)
Definition duo_key : list (@Point toy_curve) := map (@ActOnBase toy_curve) toy_key.

Lemma duo_valid id : id ∈ duo_ids -> Cmp_valid duo_key (duo_config id).
Proof.
  intros Hid. assert (forall k p, duo_public !! k = Some p -> pub_ECDSA p = ActOnBase (horner (ID_Scalar k) toy_key)) as HP.
  { intros k p Hk. unfold duo_public in Hk. apply elem_of_list_to_map_2, list_elem_of_fmap in Hk as (i & [= -> ->] & _). done. }
  split; cbn [duo_config cc_Threshold cc_Public cc_ID cc_ECDSA cc_ElGamal cc_Paillier].
  - split_and!; [done|lia|done|]. intros k P. rewrite lookup_fmap. destruct (duo_public !! k) as [p|] eqn:E; [|done].
    intros [= <-]. rewrite (HP k p E). exact (eq_sym (hornerP_base _ _)).
  - exact (eq_sym (hornerP_base _ _)).
  - eexists. unfold duo_public. apply elem_of_list_to_map_1; [by vm_compute; repeat constructor; set_solver|].
    apply list_elem_of_fmap. by exists id.
Qed.

Lemma duo_ids_ok : ids_ok (C := toy_curve) duo_ids.
Proof. apply (bool_decide_eq_true_1 (ids_ok duo_ids)). by vm_compute. Qed.
