(* ===== verification/CmpHonest.v ===== *)
(** * States of honest signers

    Two signers with shares of a nonce, of γ and of a key, whose MtA shares
    add up to the products, in the rounds of signing and of presigning; and a
    signer in the first abort round.  The ciphertexts are real ones, of a
    small Paillier key. *)

From Stdlib Require Import ZArith Lia Zmod.
From Stdlib Require Import Strings.Byte.
From stdpp Require Import base gmap strings list pretty numbers.
From S2P Require Import Elgamal.
From S2P Require Import Prelude Hash Curve Party Sample Polynomial Round Message Handler HandlerSpec.
From S2P Require Import Primes Arith SampleInts PaillierMath Paillier Pedersen Zk Mta Ecdsa FrostConfig.
From S2P Require Import CmpConfig CmpSign CmpSignProps CmpPresign CmpPresignProps Toy Codec Runs CmpRuns CmpDuo.

Local Open Scope Z_scope.

#[local] Existing Instance zero_blake3.
#[local] Existing Instance simple_saferith.
#[local] Existing Instance simple_saferith_laws.

Definition hs (n : Z) : Zmod.Zmod toy_order := Zmod.of_Z toy_order n.

Definition pick {A} (x y : A) (i : ID) : A := if String.eqb i "a" then x else y.
Definition peer : ID -> ID := pick "b" "a".

Definition hk : ID -> Zmod.Zmod toy_order := pick (hs 2) (hs 3).
Definition hγ : ID -> Zmod.Zmod toy_order := pick (hs 4) (hs 5).
Definition hx : ID -> Zmod.Zmod toy_order := pick (hs 6) (hs 7).
Definition hY : @Point toy_curve := Act (sumS hx duo_ids) NewBasePoint.

Definition honest_helper (i : ID) : Helper :=
  mkHelper (mkInfo "cmp" 8 i duo_ids 1 None) duo_ids [peer i] (Hash.Sum []) [].

Lemma honest_helper_ok i : i ∈ duo_ids -> session_ok (honest_helper i).
Proof.
  intros [->|[->|[]%elem_of_nil]%elem_of_cons]%elem_of_cons; split; try done; try (by vm_compute); cbn; set_solver.
Qed.

Definition honest_sk : SecretKey := NewSecretKeyFromPrimes 103 107.

Lemma honest_sk_ok : sk_ok honest_sk.
Proof. apply NewSecretKeyFromPrimes_ok; [by apply trial_prime; vm_compute..|done|done|by vm_compute]. Qed.

(** β for the answer that the other signer opened to zero. *)
Definition beta_for (s : ID -> Zmod.Zmod toy_order) (i : ID) : gmap ID Z :=
  {[peer i := MakeInt (s i) * MakeInt (hk (peer i))]}.

Ltac two_signers :=
  repeat match goal with
  | H : _ ∈ duo_ids |- _ => apply elem_of_cons in H as [->|H]
  | H : _ ∈ ["b"] |- _ => apply elem_of_cons in H as [->|H%elem_of_nil]
  end; try done.

Ltac scalar_ne := intros E%(f_equal Zmod.to_Z); vm_compute in E; discriminate E.

(** ** Signing *)

Definition honest_sgn3 (i : ID) : @sgn3 toy_curve :=
  let pk := sk_PublicKey honest_sk in
  let keys : gmap ID PublicKey := {["a" := pk; "b" := pk]} in
  let peds : gmap ID Parameters := {["a" := mkParameters (pk_n pk) 1 1; "b" := mkParameters (pk_n pk) 1 1]} in
  mkSgn3 (mkSgn2 (mkSgn1 (honest_helper i) hY (hx i) honest_sk keys peds ∅ duo_message)
            {["a" := 1; "b" := 1]} {["a" := 1; "b" := 1]}
            {["a" := Act (hγ "a") NewBasePoint; "b" := Act (hγ "b") NewBasePoint]} (MakeInt (hγ i)) (hk i) 1 1)
    {[peer i := 0]} (beta_for hγ i) {[peer i := 0]} (beta_for hx i).

Lemma honest_signing : signing duo_ids hk hγ hx hY duo_message honest_sgn3.
Proof.
  split; try (intros i Hi; by two_signers).
  - intros i Hi. by apply honest_helper_ok.
  - intros i Hi. split; [by two_signers; vm_compute|]. intros j P.
    cbn [honest_sgn3 sg_round2 sg_BigGammaShare]. rewrite lookup_insert_Some, lookup_singleton_Some. naive_solver.
  - intros i j Hi Hj N. by two_signers.
  - intros i j Hi Hj N. by two_signers.
Qed.

(** A stream for the masks of the proofs: zeros and units. *)
Definition honest_rand : reader := marked x01 [98]%nat.

Definition honest_sgn4 (i : ID) : @sgn4 toy_curve :=
  match sgn3_Finalize (honest_sgn3 i) honest_rand (mkChan 3 []) with
  | Ret (r, _, _) => r
  | _ => mkSgn4 (honest_sgn3 i) ∅ ∅ NewPoint Zmod.zero
  end.

Lemma honest_sgn4_ret i : i ∈ duo_ids ->
  exists rand out out' rand', sgn3_Finalize (honest_sgn3 i) rand out = Ret (honest_sgn4 i, out', rand').
Proof.
  intros Hi. exists honest_rand, (mkChan 3 []).
  assert (is_ret (sgn3_Finalize (honest_sgn3 i) honest_rand (mkChan 3 [])) = true) as [[[r out] rand] E]%is_ret_true.
  { two_signers; vm_cast_no_check (eq_refl true). }
  unfold honest_sgn4. rewrite E. by eexists _, _.
Qed.

(** ** Presigning *)

Definition honest_keys : gmap ID PublicKey := {["a" := sk_PublicKey honest_sk; "b" := sk_PublicKey honest_sk]}.
Definition honest_peds : gmap ID Parameters :=
  {["a" := mkParameters (pk_n (sk_PublicKey honest_sk)) 1 1; "b" := mkParameters (pk_n (sk_PublicKey honest_sk)) 1 1]}.

Definition honest_presign1 (i : ID) : @presign1 toy_curve :=
  mkPresign1 (honest_helper i) (hx i) (hs 8) honest_sk hY ∅ {["a" := Act (hs 8) NewBasePoint; "b" := Act (hs 8) NewBasePoint]}
    honest_keys honest_peds None.

Definition honest_presign2 (i : ID) : @presign2 toy_curve :=
  mkPresign2 (honest_presign1 i) {["a" := 1; "b" := 1]} {["a" := 1; "b" := 1]} (MakeInt (hγ i)) (hk i) 1 1 (hs 9)
    ∅ {[i := replicate 32 x01]} ∅ [].

(** Every answer is the encryption of zero with nonce one. *)
Definition honest_p3 (i : ID) : @presign3 toy_curve :=
  mkPresign3 (honest_presign2 i) (beta_for hγ i) (beta_for hx i)
    {["a" := {["b" := Some 1]}; "b" := {["a" := Some 1]}]} {["a" := {["b" := Some 1]}; "b" := {["a" := Some 1]}]}.

Lemma honest_dec : Dec honest_sk (Some 1) = Ret 0.
Proof. by vm_compute. Qed.

Lemma honest_presigning : presigning duo_ids hk hγ hx hY honest_p3.
Proof.
  assert (forall i j, i ∈ duo_ids -> j ∈ duo_ids -> i <> j ->
            ciphertext_at (ps_DeltaCiphertext (honest_p3 i)) j i = Some 1 /\
            ciphertext_at (ps_ChiCiphertext (honest_p3 i)) j i = Some 1) as Hc.
  { intros i j Hi Hj N. by two_signers. }
  split; try (intros i Hi; by two_signers).
  - intros i Hi. by apply honest_helper_ok.
  - intros i j Hi Hj N. destruct (Hc i j Hi Hj N) as [-> ->]. cbn zeta. change (ps_SecretPaillier _) with honest_sk.
    rewrite honest_dec. two_signers; split_and!; try done; eexists; reflexivity.
  - intros i j Hi Hj N. destruct (Hc i j Hi Hj N) as [-> _]. change (ps_SecretPaillier _) with honest_sk.
    unfold dec_of. rewrite honest_dec. by two_signers.
  - intros i j Hi Hj N. destruct (Hc i j Hi Hj N) as [_ ->]. change (ps_SecretPaillier _) with honest_sk.
    unfold dec_of. rewrite honest_dec. by two_signers.
Qed.

(** ** The first abort round *)

(** Signer "a" received the ciphertext 1 and sent the ciphertext 11022. *)
Definition abort_p6 (i : ID) : @presign6 toy_curve :=
  let p3 := mkPresign3 (honest_presign2 i) (beta_for hγ i) (beta_for hx i)
              {["a" := {["b" := Some 11022]}; "b" := {["a" := Some 1]}]} ∅ in
  mkPresign6 (mkPresign5 (mkPresign4 p3 ∅ ∅ (hs 1) ∅ ∅ (hs 1))
                {["a" := Act (hγ "a") NewBasePoint; "b" := Act (hγ "b") NewBasePoint]}) ∅ NewPoint.

Definition abort_v : @abort1 toy_curve := mkAbort1 (abort_p6 "b") ∅ ∅ ∅.

Lemma abort_p6_ret : exists a out' rand',
  presign6_abort (abort_p6 "a") (marked x01 [1; 3]%nat) (mkChan 3 []) = Ret (a, out', rand').
Proof.
  assert (is_ret (presign6_abort (abort_p6 "a") (marked x01 [1; 3]%nat) (mkChan 3 [])) = true)
    as [[[a out] rand] E]%is_ret_true by (vm_cast_no_check (eq_refl true)).
  by exists a, out, rand.
Qed.

Lemma one_valid : valid_ct (pk := sk_PublicKey honest_sk) (Some 1).
Proof.
  exists Zmod.one. split; [by rewrite Zmod.to_Z_1 by done|apply is_unit_one].
Qed.

(** ** One MtA *)

Definition mta_sgn2 : @sgn2 toy_curve :=
  mkSgn2 (mkSgn1 (honest_helper "a") hY (hx "a") honest_sk honest_keys honest_peds
            {["a" := Act (hx "a") NewBasePoint]} duo_message)
    {["b" := Zmod.to_Z (pk_enc (sk_PublicKey honest_sk) (MakeInt (hk "b")) 1)]} {["a" := 1]}
    {["a" := Act (hγ "a") NewBasePoint]} (MakeInt (hγ "a")) (hk "a") 1 1.

(** The nonces are one and everything else that is sampled is zero. *)
Definition mta_rand : reader :=
  marked x01 [162; 164; 488; 490; 1937; 1939; 2263; 2265; 3648]%nat.

Definition mta_test : bool :=
  match mta_step mta_sgn2 "b" mta_rand (mkChan 3 []) with
  | Ret (dβ, cβ, _, _) => (dβ =? 0) && (cβ =? 0)
  | _ => false
  end.

Lemma mta_test_run : mta_test = true.
Proof. vm_cast_no_check (eq_refl true). Qed.

Lemma mta_sgn2_ret : exists out' rand', mta_step mta_sgn2 "b" mta_rand (mkChan 3 []) = Ret (0, 0, out', rand').
Proof.
  pose proof mta_test_run as H. unfold mta_test in H. destruct (mta_step _ _ _ _) as [[[[dβ cβ] out] rand]| |]; [|discriminate H..].
  apply andb_true_iff in H as [->%Z.eqb_eq ->%Z.eqb_eq]. by eexists _, _.
Qed.
