(* ===== verification/HandlerThms.v ===== *)
(** * Theorems about the handler

    The promises of [MultiHandler] to protocols and users, stated for any
    protocol on the round interface, with executions of the example protocol
    as witnesses. *)

From Stdlib Require Import ZArith Lia.
From Stdlib Require Import Strings.Byte.
From stdpp Require Import base gmap strings list pretty numbers.
From S2P Require Import Prelude Hash Party Round Message Handler HandlerSpec HandlerInv Codec Network.
From S2P Require Import TwoParty Curve Toy Xor Runs.

Local Open Scope Z_scope.

(** ** Networks only do what a handler run allows *)

Section Runs.
Context {R Content Result : Type} {RO : RoundOps R Content Result} `{Blake3} {MO : MapOrder}.

Abbreviation handler := (@MultiHandler R Result).

Lemma drain_run (r0 : R) rand (h : handler) : handler_run r0 rand h -> handler_run r0 rand (drain h).2.
Proof.
  unfold drain. cbn. remember (ch_buf (out h)) as buf eqn:E. revert h E.
  induction buf as [|m buf IH]; intros h E Hr.
  - destruct h as [c rs e res ms br bh [cap b] cl rd]. cbn in E. subst b. exact Hr.
  - assert (handler_run r0 rand (set_out h (mkChan (ch_cap (out h)) buf))) as Hr'.
    { eapply (run_receive _ _ h m); [exact Hr|]. unfold Receive. by rewrite <- E. }
    exact (IH (set_out h (mkChan (ch_cap (out h)) buf)) eq_refl Hr').
Qed.

Lemma deliver_run (r0 : R) rand ms (h h' : handler) :
  handler_run r0 rand h -> deliver h ms = Some h' -> handler_run r0 rand h'.
Proof.
  revert h. induction ms as [|m ms IH]; intros h Hr E; cbn in E; [by injection E as <-|].
  destruct (Accept h m) as [h1| | |] eqn:Ea; [|done..]. eapply IH; [|exact E]. by eapply run_accept.
Qed.

Definition runs (ps : list (R * reader)) (hs : list handler) : Prop :=
  Forall2 (fun p h => handler_run p.1 p.2 h) ps hs.

Lemma network_run fuel ps hs hs' : runs ps hs -> network fuel hs = Some hs' -> runs ps hs'.
Proof.
  revert hs. induction fuel as [|fuel IH]; intros hs Hr E; [by injection E as <-|]. cbn [network] in E.
  set (msgs := concat _) in E. destruct (mapM _ hs) as [hs1|] eqn:Em; [|done]. cbn in E.
  eapply IH; [|exact E]. apply mapM_Some_1 in Em. clear E IH. clearbody msgs.
  revert hs1 Em. induction Hr as [|p h ps hs Hp Hr IH]; intros hs1 Em; inversion Em as [|? h1 ? ? Eh Em']; subst.
  - constructor.
  - constructor; [|by apply IH]. eapply deliver_run; [|exact Eh]. by apply drain_run.
Qed.

Lemma start_all_run (ps : list (R * reader)) hs :
  start_all ((fun p => Ret (Running p.1)) <$> ps) ps.*2 = Some hs -> runs ps hs.
Proof.
  unfold start_all. intros E%mapM_Some_1. unfold runs. revert hs E.
  induction ps as [|[r rd] ps IH]; intros hs E; cbn in E; inversion E as [|? h ? hs' Eh E']; subst;
    [constructor|]. constructor; [|by apply IH]. cbn in Eh |- *.
  destruct (finalize _ _) as [h'| | |] eqn:Ef; [|done..]. injection Eh as <-. by apply run_new.
Qed.

(** The evaluated executions are runs of the handler. *)
Lemma states_run (ps : list (R * reader)) k hs : states ps k = Some hs -> runs ps hs.
Proof.
  unfold states, started. destruct (start_all _ _) as [hs0|] eqn:E0; [|done].
  by apply network_run, start_all_run.
Qed.

Lemma party_run (ps : list (R * reader)) d k i r rand :
  ps !! i = Some (r, rand) -> alive ps k i = true -> handler_run r rand (party_at ps d k i).
Proof.
  unfold alive, party_at. intros Ei. destruct (states ps k) as [hs|] eqn:Es; [|by destruct i].
  apply states_run in Es. cbn [from_option id]. destruct (hs !! i) as [h|] eqn:Eh; [|done]. intros _.
  exact (Forall2_lookup_lr _ _ _ _ _ _ Es Ei Eh).
Qed.

Lemma party_result (ps : list (R * reader)) d k i r rand :
  ps !! i = Some (r, rand) -> is_some (result (party_at ps d k i)) = true ->
  handler_run r rand (party_at ps d k i) /\ exists res, result (party_at ps d k i) = Some res.
Proof.
  intros Ei Hr. split.
  - apply party_run; [done|]. revert Hr. unfold party_at, alive. by destruct (default [] (states ps k) !! i).
  - destruct (result _); [eauto|done].
Qed.

End Runs.

(** ** The promises *)

Section Theorems.
Context {R Content Result : Type} {RO : RoundOps R Content Result} `{Blake3} {MO : MapOrder}.
Context {MOL : MapOrderLaws} {RL : RoundLaws}.

(** Further messages and reads, from a given state on. *)
Inductive later (h : @MultiHandler R Result) : @MultiHandler R Result -> Prop :=
| later_now : later h h
| later_accept h1 msg h2 : later h h1 -> Accept h1 msg = HOk h2 -> later h h2
| later_receive h1 m h2 : later h h1 -> Receive h1 = Some (m, h2) -> later h h2.

Lemma finished_Accept (h : @MultiHandler R Result) msg :
  is_Some (err h) \/ is_Some (result h) -> Accept h msg = HOk h.
Proof.
  intros F. unfold Accept.
  assert (negb (CanAccept h msg) || bool_decide (is_Some (err h))
          || bool_decide (is_Some (result h)) || duplicate h msg = true) as ->; [|done].
  destruct F as [He|Hr].
  - by rewrite (bool_decide_true _ He), !orb_true_r.
  - by rewrite (bool_decide_true _ Hr), orb_true_r.
Qed.

Lemma later_finished (h h' : @MultiHandler R Result) :
  is_Some (err h) \/ is_Some (result h) -> later h h' ->
  err h' = err h /\ result h' = result h /\ currentRound h' = currentRound h.
Proof.
  intros F. induction 1 as [|h1 msg h2 _ (E1 & E2 & E3) E|h1 m h2 _ (E1 & E2 & E3) E]; [done|..].
  - rewrite finished_Accept in E by (by rewrite E1, E2). by injection E as <-.
  - unfold Receive in E. destruct (ch_buf (out h1)); [done|]. by injection E as _ <-.
Qed.

Lemma broadcast_hash_states (hs : Hash) (msgs : list Message) :
  foldl (fun h msg => WriteAny_ h [BytesWithDomain "Message" (Some (Message_Hash msg))]) hs msgs
  = hs ++ concat (encode_item <$> ((fun m => ("Message", Message_Hash m)) <$> msgs)).
Proof.
  revert hs. induction msgs as [|m msgs IH]; intros hs; [cbn; by rewrite app_nil_r|].
  cbn [foldl]. rewrite IH, !fmap_cons. cbn [concat]. by rewrite app_assoc.
Qed.

(** The hashed state of a list of broadcasts. *)
Definition broadcasts_state (hs : Hash) (msgs : list Message) : Hash :=
  hs ++ concat (encode_item <$> ((fun m => ("Message", Message_Hash m)) <$> msgs)).

Lemma message_item_fits m : item_fits ("Message", Message_Hash m).
Proof.
  split; [by vm_compute|]. cbn [snd]. unfold Message_Hash, Sum.
  destruct (ReadFull _ _) as [[b|] r] eqn:E; [|by vm_compute].
  apply ReadFull_length in E. cbn. rewrite E. by vm_compute.
Qed.

(** Equal hashes of broadcasts mean equal broadcasts, or a collision. *)
Lemma broadcast_hash_binds hs msgs1 msgs2 :
  Forall message_fits msgs1 -> Forall message_fits msgs2 ->
  broadcast_hash hs msgs1 = broadcast_hash hs msgs2 ->
  msgs1 = msgs2 \/ collides (broadcasts_state hs msgs1) (broadcasts_state hs msgs2) \/
  exists m1 m2, m1 ∈ msgs1 /\ m2 ∈ msgs2 /\ collides (Message_state m1) (Message_state m2).
Proof.
  intros F1 F2 E. unfold broadcast_hash in E. rewrite !broadcast_hash_states in E.
  fold (broadcasts_state hs msgs1) (broadcasts_state hs msgs2) in E.
  destruct (decide (broadcasts_state hs msgs1 = broadcasts_state hs msgs2)) as [Es|N]; [|right; left; by split].
  apply app_inv_head, encode_items_inj in Es;
    [|apply list.Forall_forall; intros it (m & -> & _)%list_elem_of_fmap; apply message_item_fits..].
  clear E. revert msgs2 F2 Es. induction F1 as [|m1 msgs1 H1 F1 IH]; intros [|m2 msgs2] F2 Es; try done; [by left|].
  rewrite !fmap_cons in Es. apply (inj2 cons) in Es as [Em Es]. apply (f_equal snd) in Em. cbn [snd] in Em. inversion F2 as [|? ? Hm2 F2']; subst.
  destruct (Message_Hash_binds m1 m2 H1 Hm2 Em) as [->|Hc].
  - destruct (IH msgs2 F2' Es) as [->|[Hc|(a & b & Ha & Hb & Hc)]]; [by left|..].
    + right. right. destruct Hc as [Hn _]. exfalso. apply Hn. unfold broadcasts_state. by rewrite Es.
    + right. right. exists a, b. set_solver.
  - right. right. exists m1, m2. set_solver.
Qed.

(** C9: the handler refines the abstract execution.  Whatever messages the
    network delivers, a handler that is not finished sits in a round that the
    abstract execution reaches, and a result it reports is one that the
    abstract execution delivers: every round got exactly the broadcasts and
    messages it waits for, each sender at most once, before it was finalised. *)
Theorem handler_refines (r0 : R) rand (h : MultiHandler) :
  session_ok (r_helper r0) -> handler_run r0 rand h ->
  (err h = None -> result h = None ->
     exists r B M, currentRound h = Running r /\ reached r0 r B M) /\
  (forall res, result h = Some res -> delivered r0 res).
Proof.
  intros S Hr. destruct (handler_run_inv r0 S rand h Hr) as [(r & B & M & C & _)|(_ & F & D & _)].
  - split; [exists r, B, M; split; apply C|]. rewrite (hc_result _ _ _ _ _ C). done.
  - split; [|done]. intros E1 E2. rewrite E1, E2 in F. by destruct F as [[]|[]].
Qed.

(** C19: [Accept] always ends.  When the code of the protocol does not panic,
    neither does the handler (it never closes or sends on a closed channel),
    and the recursion of [finalize] never runs out: the call returns, or
    blocks on an outgoing channel that nobody reads. *)
Theorem Accept_total (r0 : R) rand (h : MultiHandler) msg :
  session_ok (r_helper r0) -> never_panics r0 -> handler_run r0 rand h ->
  (exists h', Accept h msg = HOk h') \/ Accept h msg = HBlocked.
Proof.
  intros S NP Hr. pose proof (Accept_wp r0 S h msg (handler_run_inv r0 S rand h Hr)) as W.
  destruct (Accept h msg) as [h'|p| |]; cbn in W; [by left; exists h'|done|by right|done].
Qed.

(** C30: an outcome is final.  Once a handler has a result or an error, no
    later message changes its result, its error or its round. *)
Theorem outcome_stable (r0 : R) rand (h h' : MultiHandler) :
  session_ok (r_helper r0) -> handler_run r0 rand h ->
  is_Some (err h) \/ is_Some (result h) -> later h h' ->
  err h' = err h /\ result h' = result h /\ out_closed h' = true.
Proof.
  intros S Hr F L. pose proof (later_finished h h' F L) as (E1 & E2 & _). split_and!; [done..|].
  assert (handler_run r0 rand h') as Hr'
    by (clear F E1 E2; induction L; [done|by eapply run_accept|by eapply run_receive]).
  destruct (handler_run_inv r0 S rand h' Hr') as [(r & B & M & C & _)|(E & _)]; [|done].
  rewrite <- E1, <- E2, (hc_err _ _ _ _ _ C), (hc_result _ _ _ _ _ C) in F. by destruct F as [[]|[]].
Qed.

(** The condition of [Stop] is inverted.  On a running handler it does
    nothing; on a finished one it sends on the closed channel and panics. *)
Theorem Stop_inverted (r0 : R) rand (h : MultiHandler) :
  session_ok (r_helper r0) -> handler_run r0 rand h ->
  (err h = None -> result h = None -> Stop h = HOk h) /\
  (is_Some (err h) \/ is_Some (result h) -> Stop h = HPanic "send on closed channel").
Proof.
  intros S Hr. unfold Stop. split.
  - intros -> ->. by rewrite !bool_decide_false by (by intros []).
  - intros F. assert (bool_decide (is_Some (err h)) || bool_decide (is_Some (result h)) = true) as ->.
    { destruct F as [F|F]; rewrite (bool_decide_true _ F); [done|apply orb_true_r]. }
    destruct (handler_run_inv r0 S rand h Hr) as [(r & B & M & C & _)|(E & _)].
    + rewrite (hc_err _ _ _ _ _ C), (hc_result _ _ _ _ _ C) in F. by destruct F as [[]|[]].
    + unfold abort. cbn. by rewrite E.
Qed.

(** C14: echo broadcast.  Party 1 is about to finish round [n + 1] (its
    check of the broadcast hashes passes) and holds a message that party 2
    sent when it entered round [n + 1].  If both worked on the same session
    hash, they saw the same broadcasts in round [n], from every party, unless
    two of the hashed states collide. *)
Theorem echo_broadcast (r1 r2 : R) rand1 rand2 (h1 h2 : MultiHandler) n s1 s2 s rm data v1 v2 :
  session_ok (r_helper r1) -> session_ok (r_helper r2) ->
  partyIDs (r_helper r1) = partyIDs (r_helper r2) ->
  handler_run r1 rand1 h1 -> handler_run r2 rand2 h2 ->
  0 < n < 2 ^ 16 - 1 -> s_Number (currentRound h1) = n + 1 -> s_Number s = n + 1 ->
  rounds h1 !! n = Some s1 -> rounds h2 !! n = Some s2 ->
  hash (s_helper s1) = hash (s_helper s2) ->
  broadcastHashes h1 !! n = Some v1 -> broadcastHashes h2 !! n = Some v2 ->
  checkBroadcastHash h1 = true ->
  (exists id, queue_get (messages h1) (n + 1) id = Some (outgoing h2 s rm data) \/
              queue_get (broadcast h1) (n + 1) id = Some (outgoing h2 s rm data)) ->
  exists msgs1 msgs2,
    broadcasts r1 h1 n = Some msgs1 /\ broadcasts r2 h2 n = Some msgs2 /\
    (Forall message_fits msgs1 -> Forall message_fits msgs2 ->
     msgs1 = msgs2 \/
     collides (broadcasts_state (hash (s_helper s1)) msgs1) (broadcasts_state (hash (s_helper s1)) msgs2) \/
     exists m1 m2, m1 ∈ msgs1 /\ m2 ∈ msgs2 /\ collides (Message_state m1) (Message_state m2)).
Proof.
  intros S1 S2 Ep R1 R2 Hn En1 Es E1 E2 Eh V1 V2 Hc (id & Hq).
  assert (hash_ok r1 h1) as O1 by (destruct (handler_run_inv r1 S1 _ _ R1) as [(r & B & M & C & _)|(_ & _ & _ & O)]; [apply C|done]).
  assert (hash_ok r2 h2) as O2 by (destruct (handler_run_inv r2 S2 _ _ R2) as [(r & B & M & C & _)|(_ & _ & _ & O)]; [apply C|done]).
  destruct (O1 n v1 V1) as (s1' & msgs1 & E1' & B1 & ->), (O2 n v2 V2) as (s2' & msgs2 & E2' & B2 & Ev2).
  assert (s1' = s1) as -> by congruence. assert (s2' = s2) as -> by congruence.
  exists msgs1, msgs2. split_and!; [done..|]. intros F1 F2.
  assert (pred16 (n + 1) = n) as Epred by (unfold pred16; rewrite Z.mod_small; lia).
  unfold checkBroadcastHash in Hc. rewrite En1, Epred, V1 in Hc. apply andb_true_iff in Hc as [Hm Hb].
  rewrite !forallb_forall in Hm, Hb.
  assert (verified_by (broadcast_hash (hash (s_helper s1)) msgs1) (Some (outgoing h2 s rm data)) = true) as Hv.
  { destruct Hq as [Hq|Hq]; rewrite <- queue_get_order in Hq; apply list_elem_of_In in Hq.
    - exact (Hm _ Hq).
    - exact (Hb _ Hq). }
  unfold verified_by, bytes_Equal in Hv. apply bool_decide_eq_true in Hv.
  unfold outgoing in Hv. cbn [BroadcastVerification] in Hv. rewrite Es, Epred, V2 in Hv.
  cbn [default from_option] in Hv.
  rewrite Ev2, <- Eh in Hv. by apply broadcast_hash_binds.
Qed.

(** C29: the two-party handler refines the execution in which every round
    processes the one message it expects, and none when it expects none.  A
    state that is not finished sits in a reached round with an open channel; a
    reported result was delivered by the last round; once finished, [Accept]
    changes nothing; and the loop of [advance] always ends. *)
Theorem two_party_refines (r0 : R) leader rand (h : TwoPartyHandler) msg :
  pair_run r0 leader rand h ->
  (tp_finished h = false -> tp_closed h = false /\ exists r, tp_round h = Running r /\ pair_reached r0 r) /\
  (forall res, tp_Result h = Ret res -> pair_delivered r0 res) /\
  (tp_finished h = true -> tp_closed h = true /\ tp_Accept h msg = TOk h) /\
  tp_Accept h msg <> TFuel.
Proof.
  intros Hr. pose proof (pair_run_inv _ _ _ _ Hr) as Hi. unfold tp_inv in Hi. split_and!.
  - intros Hf. by rewrite Hf in Hi.
  - intros res E. unfold tp_Result in E. destruct (tp_result h) as [res'|] eqn:Er; [|by destruct (tp_err h)].
    injection E as ->. unfold tp_finished in Hi. rewrite Er, (bool_decide_true (is_Some (Some _))), orb_true_r in Hi by eauto.
    by apply Hi.
  - intros Hf. rewrite Hf in Hi. split; [apply Hi|]. unfold tp_Accept. by rewrite Hf, orb_true_r.
  - unfold tp_Accept. destruct (negb _ || _) eqn:En; [done|]. apply orb_false_iff in En as [_ Hf].
    rewrite Hf in Hi. destruct Hi as (_ & r & Er & _). destruct (decide _); [apply tp_abort_fuel|].
    apply (tp_advance_fuel _ _ r); [done|]. pose proof (rl_number r). rewrite finalize_fuel_value. lia.
Qed.

End Theorems.

(** ** The promises on the example protocol *)

Lemma xor_session id : is_ret (StartXOR id toy_ids (Some [x01])) = true ->
  session_ok (xor_helper (xor_first id)).
Proof.
  unfold xor_first. destruct (StartXOR id toy_ids (Some [x01])) as [s| |] eqn:E; [|done..]. intros _.
  unfold StartXOR in E. apply bind_ret_inv in E as (h & E%wrap_err_ret & [= <-]).
  by apply NewSession_ok in E as [S _].
Qed.

Lemma xor_codec_never_panics id : never_panics (xor_first id).
Proof.
  assert (exists h, xor_first id = Round1 h) as [h ->].
  { unfold xor_first, StartXOR. destruct (NewSession _ _ _); cbn; by eexists. }
  apply xor_never_panics; [|done]. intros c b p. apply pack_cbor_no_panic.
Qed.

Lemma xor_run k i r rand : xor_ps !! i = Some (r, rand) -> alive xor_ps k i = true ->
  handler_run r rand (xor_at k i).
Proof. intros E A. unfold xor_at. by apply party_run. Qed.

(** Before the second party hears anything, and after everything is delivered. *)
Lemma xor_before : handler_run (xor_first "b") (toy_rand 2) (xor_at 0 1).
Proof. apply xor_run; [done|by vm_compute]. Qed.

Lemma xor_after : handler_run (xor_first "b") (toy_rand 2) (xor_at 1 1).
Proof. apply xor_run; [done|by vm_compute]. Qed.

Lemma handler_refines_witness : exists res, result (xor_at 1 1) = Some res /\ delivered (xor_first "b") res.
Proof.
  assert (is_some (result (xor_at 1 1)) = true) as E by by vm_compute.
  apply (some_default _ []) in E. eexists. split; [exact E|].
  apply (proj2 (handler_refines (xor_first "b") (toy_rand 2) (xor_at 1 1)
                  (xor_session "b" ltac:(by vm_compute)) xor_after)). exact E.
Defined.

(** The first message that the first party sent. *)
Definition xor_msg : Message :=
  default (mkMessage None "" "" "" 0 None false None) (ch_buf (out (xor_at 0 0)) !! 0%nat).

Lemma Accept_total_witness : exists h', Accept (xor_at 0 1) xor_msg = HOk h'.
Proof.
  destruct (Accept_total (xor_first "b") (toy_rand 2) (xor_at 0 1) xor_msg
              (xor_session "b" ltac:(by vm_compute)) (xor_codec_never_panics "b") xor_before) as [H|E];
    [exact H|].
  exfalso. revert E. assert (match Accept (xor_at 0 1) xor_msg with HBlocked => false | _ => true end = true)
    as T by by vm_compute. by destruct (Accept (xor_at 0 1) xor_msg).
Defined.

Lemma outcome_stable_witness : exists h', Accept (xor_at 1 1) xor_msg = HOk h' /\
  result h' = result (xor_at 1 1).
Proof.
  assert (is_Some (result (xor_at 1 1))) as F.
  { assert (is_some (result (xor_at 1 1)) = true) as T by by vm_compute.
    destruct (result (xor_at 1 1)); [by eexists|done]. }
  pose proof (finished_Accept (xor_at 1 1) xor_msg (or_intror F)) as E. eexists. split; [exact E|].
  exact (proj1 (proj2 (outcome_stable (xor_first "b") (toy_rand 2) (xor_at 1 1) _
    (xor_session "b" ltac:(by vm_compute)) xor_after (or_intror F)
    (later_accept _ _ _ _ (later_now _) E)))).
Defined.

Lemma Stop_inverted_witness :
  Stop (xor_at 0 1) = HOk (xor_at 0 1) /\ Stop (xor_at 1 1) = HPanic "send on closed channel".
Proof.
  split.
  - apply (proj1 (Stop_inverted (xor_first "b") (toy_rand 2) (xor_at 0 1)
             (xor_session "b" ltac:(by vm_compute)) xor_before)); by vm_compute.
  - apply (proj2 (Stop_inverted (xor_first "b") (toy_rand 2) (xor_at 1 1)
             (xor_session "b" ltac:(by vm_compute)) xor_after)).
    right. assert (is_some (result (xor_at 1 1)) = true) as T by by vm_compute.
    destruct (result (xor_at 1 1)); [by eexists|done].
Defined.

(** Two parties of the example protocol, the first one leading. *)
Definition pair_first (id : ID) : xor_round :=
  match StartXOR id ["a"; "b"] None with Ret (Running r) => r | _ => Round1 toy_helper end.

Abbreviation pair_start_at leader id rand :=
  (NewTwoPartyHandler (fun _ => Ret (Running (pair_first id))) None leader rand).

Definition pair_ok (m : outcome (@tres xor_round bytes)) : bool :=
  match m with Ret (TOk _) => true | _ => false end.

(** The follower after the first message of the leader. *)
Definition pair_answer (a b : outcome (@tres xor_round bytes)) : option (@TwoPartyHandler xor_round bytes) :=
  match a, b with
  | Ret (TOk a), Ret (TOk b) =>
      match ch_buf (tp_out a) with
      | m :: _ => match tp_Accept b m with TOk h => Some h | _ => None end
      | [] => None
      end
  | _, _ => None
  end.

Lemma pair_answer_run a r0 leader rand h :
  pair_answer a (NewTwoPartyHandler (fun _ => Ret (Running r0)) None leader rand) = Some h ->
  pair_run r0 leader rand h.
Proof.
  unfold pair_answer. destruct a as [[ha| | |]| |]; [|done..].
  destruct (NewTwoPartyHandler _ _ _ _) as [[hb| | |]| |] eqn:Eb; [|done..].
  destruct (ch_buf _) as [|m l]; [done|]. destruct (tp_Accept hb m) as [h1| | |] eqn:E; [|done..].
  intros [= <-]. eapply pair_run_accept; [by apply pair_run_new|exact E].
Qed.

Definition pair_has_result (h : option (@TwoPartyHandler xor_round bytes)) : bool :=
  match h with Some h => is_ret (tp_Result h) | None => false end.

Lemma two_party_refines_witness : exists res, pair_delivered (pair_first "b") res.
Proof.
  assert (pair_has_result (pair_answer (pair_start_at true "a" (toy_rand 1)) (pair_start_at false "b" (toy_rand 2)))
          = true) as T by by vm_compute.
  destruct (pair_answer _ _) as [h|] eqn:E; [|discriminate T]. apply pair_answer_run in E.
  cbn [pair_has_result] in T. destruct (tp_Result h) as [res| |] eqn:Er; [|discriminate T..].
  exists res. exact (proj1 (proj2 (two_party_refines (pair_first "b") false (toy_rand 2) h xor_msg E)) res Er).
Defined.
