(* ===== verification/KeygenThms.v ===== *)
(** * Theorems about FROST key generation and refresh

    What a party holds when its handler delivers a result, what the parties
    of one execution hold together, and what a refresh changes; with the
    evaluated executions of [Runs] as witnesses. *)

From Stdlib Require Import ZArith Lia Zmod.
From Stdlib Require Import Strings.Byte.
From stdpp Require Import base gmap strings list pretty numbers.
From S2P Require Import Prelude Hash Curve Party Polynomial Round Message Handler HandlerSpec HandlerInv.
From S2P Require Import Schnorr Taproot FrostConfig FrostKeygen FrostKeygenProps.
From S2P Require Import Toy Codec Network Lockstep Runs HandlerThms.

Local Open Scope curve_scope.

(** ** Starting *)

Section Start.
Context {C : Curve} {CL : CurveLaws C} {X : XOnly C} `{Blake3}.
Add Field scalar_field : scalar_field_theory.

Definition zero_key (t : Z) : list Point := replicate (S (Z.to_nat t)) 𝟎.
Arguments zero_key : simpl never.

Lemma fresh_shares (m : gmap ID Point) ids k :
  foldl (fun m k => <[k := 𝟎]> m) m ids !! k = if decide (k ∈ ids) then Some 𝟎 else m !! k.
Proof.
  revert m. induction ids as [|i ids IH]; intros m; cbn [foldl]; [by rewrite decide_False by set_solver|].
  rewrite IH. destruct (decide (k ∈ ids)) as [Hk|Hk]; [by rewrite decide_True by set_solver|].
  destruct (decide (k = i)) as [->|N].
  - by rewrite lookup_insert_eq, decide_True by set_solver.
  - rewrite lookup_insert_ne by done. by rewrite decide_False by set_solver.
Qed.

(** A key generation starts from the zero key. *)
Lemma fresh_start_ok tap ids t self sid r cap :
  StartKeygenCommon tap ids t self ∅ fresh_start sid = (Ret (Running r), cap) ->
  exists r0, r = KG1 r0 /\ start_ok (zero_key t) r0 /\
    refresh r0 = false /\ taproot r0 = tap /\ threshold r0 = t /\ selfID r0 = self /\
    partyIDs (k_Helper r0) = NewIDSlice ids.
Proof.
  unfold StartKeygenCommon. destruct (NewSession _ _ _) as [h| |] eqn:E; [|done..].
  apply NewSession_ok in E as [S Ei]. cbn [cap_privateShare fresh_start]. intros [= <- <-].
  pose proof (so_threshold h S) as Ht. rewrite Ei in Ht. cbn in Ht.
  pose proof (so_ids h S) as Hp. rewrite Ei in Hp. cbn in Hp.
  eexists. split; [reflexivity|]. unfold selfID. cbn. rewrite Ei. split_and!; [|done..].
  constructor; cbn; [done|by rewrite Ei| | |].
  - split; [unfold zero_key; rewrite length_replicate; lia|]. split; [lia|].
    split; [by unfold zero_key; rewrite hornerP_zero|].
    intros k P. rewrite fresh_shares, lookup_empty. unfold zero_key. rewrite hornerP_zero.
    destruct (decide _); congruence.
  - unfold share_of, zero_key. by rewrite hornerP_zero, act_0.
  - apply set_eq. intros k. rewrite elem_of_dom, fresh_shares, lookup_empty, Hp, elem_of_list_to_set.
    rewrite (NewIDSlice_perm ids). destruct (decide (k ∈ ids)); [|by split; [intros []|]]. by split; eauto.
Qed.

(** A refresh starts from the key of the configuration. *)
Lemma refresh_start_ok L tap ids t self VS s Y sid r cap :
  shared_key L t Y VS -> share_of L self s -> dom VS = list_to_set ids ->
  StartKeygenCommon tap ids t self VS (mkCaptured (Some s) (Some Y)) sid = (Ret (Running r), cap) ->
  exists r0, r = KG1 r0 /\ start_ok L r0 /\
    refresh r0 = true /\ taproot r0 = tap /\ threshold r0 = t /\ selfID r0 = self /\
    publicKey r0 = Y /\ partyIDs (k_Helper r0) = NewIDSlice ids.
Proof.
  intros K Sh HD. unfold StartKeygenCommon. destruct (NewSession _ _ _) as [h| |] eqn:E; [|done..].
  apply NewSession_ok in E as [S Ei]. cbn [cap_privateShare cap_publicKey]. intros [= <- <-].
  pose proof (so_ids h S) as Hp. rewrite Ei in Hp. cbn in Hp.
  eexists. split; [reflexivity|]. unfold selfID. cbn. rewrite Ei. split_and!; [|done..].
  constructor; cbn; [done|by rewrite Ei|done| |].
  - unfold selfID. cbn. by rewrite Ei.
  - rewrite HD, Hp. apply set_eq. intros k. by rewrite !elem_of_list_to_set, (NewIDSlice_perm ids).
Qed.

End Start.

(** ** Keys *)

Section Keys.
Context {C : Curve} {CL : CurveLaws C} {X : XOnly C} {XL : XOnlyLaws C X} `{Blake3}.
Context {MO : MapOrder} {MOL : MapOrderLaws} {CB : Cbor kg_content}.
Add Field scalar_field : scalar_field_theory.

(** A delivered result as seen from outside: the key with polynomial [L],
    held by [self] as one of [ids] with threshold [t]. *)
Definition holds_key (tap : bool) (ids : list ID) (t : Z) (self : ID) (L : list Point)
    (res : kg_result) : Prop :=
  match res with
  | RConfig c =>
      tap = false /\ c_ID c = self /\ c_Threshold c = t /\
      dom (c_VerificationShares c) = list_to_set ids /\ Config_valid L c
  | RTaproot c =>
      tap = true /\ t_ID c = self /\ t_Threshold c = t /\
      dom (t_VerificationShares c) = list_to_set ids /\
      t_PublicKey c = XBytes (hornerP 0 L) /\ (hornerP 0 L <> 𝟎 -> Taproot_valid (even_key L) c)
  end.

Lemma even_key_horner L :
  hornerP 0 (even_key L) = if HasEvenY (hornerP 0 L) then hornerP 0 L else ⊖ hornerP 0 L.
Proof. unfold even_key. destruct (HasEvenY _); [done|]. apply hornerP_neg. Qed.

Lemma even_key_lift L : hornerP 0 L <> 𝟎 -> LiftX (XBytes (hornerP 0 L)) = Ret (hornerP 0 (even_key L)).
Proof.
  intros N. rewrite even_key_horner. destruct (HasEvenY _) eqn:Ev; [by apply liftx_xbytes|].
  rewrite <- xbytes_neg. apply liftx_xbytes; [by intros ?%neg_eq_identity|]. by rewrite eveny_neg, Ev.
Qed.

Lemma kg_output_holds L r0 res ids :
  kg_output L r0 res -> partyIDs (k_Helper r0) = NewIDSlice ids ->
  holds_key (taproot r0) ids (threshold r0) (selfID r0) L res.
Proof.
  intros O E. assert (list_to_set (partyIDs (k_Helper r0)) =@{gset ID} list_to_set ids) as Ed.
  { rewrite E. apply set_eq. intros k. by rewrite !elem_of_list_to_set, (NewIDSlice_perm ids). }
  destruct res as [c|c]; cbn in O |- *; rewrite Ed in O.
  - destruct O as (Et & O). by rewrite Et.
  - destruct O as (Et & E1 & E2 & E3 & E4 & E5 & E6). rewrite Et. split_and!; try done.
    intros N. exists (hornerP 0 (even_key L)). rewrite E4, E1, E2.
    split; [by apply even_key_lift|done].
Qed.

(** A handler only reports what the abstract execution delivers. *)
Lemma handler_kg_delivers L0 r0 rand h res :
  start_ok L0 r0 -> handler_run (KG1 r0) rand h -> result h = Some res ->
  exists phis, kg_delivers r0 phis res.
Proof.
  intros St Hr E. apply kg_delivered.
  destruct (handler_run_inv (RO := kg_ops) (KG1 r0) (st_session _ _ St) rand h Hr) as [(r & B & M & C' & _)|(_ & _ & D & _)].
  - rewrite (hc_result _ _ _ _ _ C') in E. done.
  - by apply D.
Qed.

(** The delivered key, for the fixed commitments. *)
Lemma fresh_delivers tap ids t self sid r0 cap phis res :
  StartKeygenCommon tap ids t self ∅ fresh_start sid = (Ret (Running (KG1 r0)), cap) ->
  kg_delivers r0 phis res ->
  holds_key tap ids t self (key_poly (zero_key t) (map_to_list phis).*2) res.
Proof.
  intros (r1 & [= <-] & St & _ & <- & <- & <- & Ep)%fresh_start_ok D.
  apply kg_output_holds; [|done]. by apply (kg_delivers_output _ _ _ _ St D).
Qed.

(** The result of a key generation on the handler. *)
Lemma keygen_output tap ids t self sid r cap rand h res :
  StartKeygenCommon tap ids t self ∅ fresh_start sid = (Ret (Running r), cap) ->
  handler_run r rand h -> result h = Some res -> exists L, holds_key tap ids t self L res.
Proof.
  intros Es Hr E. pose proof Es as (r0 & -> & St & _)%fresh_start_ok.
  destruct (handler_kg_delivers _ _ _ _ _ St Hr E) as [phis D].
  eexists. by eapply fresh_delivers.
Qed.

(** The commitments of a refresh add nothing to the key. *)
Lemma refresh_horner L0 (phis : gmap ID Exponent) :
  (forall e, e ∈ (map_to_list phis).*2 -> length (full e) = length L0) ->
  map_Forall (fun _ e => Exponent_Constant e = Ret 𝟎) phis ->
  hornerP 0 (key_poly L0 (map_to_list phis).*2) = hornerP 0 L0.
Proof.
  intros Hl F. rewrite key_poly_horner by done.
  rewrite (sumP_ext _ (fun _ => 𝟎)).
  - assert (forall l : list Exponent, sumP (fun _ => 𝟎) l = 𝟎) as ->; [|apply padd_0_r].
    induction l as [|e l IH]; [done|]. cbn. rewrite IH. apply padd_0_r.
  - intros e ([k e'] & -> & He)%list_elem_of_fmap. apply elem_of_map_to_list in He.
    rewrite Exponent_Evaluate_full. by apply Exponent_Constant_full, (F k).
Qed.

(** Delivered commitments have the degree of the threshold. *)
Lemma kg_delivers_degree L0 r0 phis res e :
  start_ok L0 r0 -> kg_delivers r0 phis res -> e ∈ (map_to_list phis).*2 -> length (full e) = length L0.
Proof.
  intros St (r & B & M & Re & _ & <- & Ef) He. destruct (kg_reached _ _ _ _ _ St Re) as (E1 & P & _).
  unfold round3_Finalize in Ef. apply bind_ret_inv in Ef as (ck & _ & Ef).
  apply bind_ret_inv in Ef as (Y & _ & Ef). apply bind_ret_inv in Ef as (Ex & Es & _).
  assert (Polynomial.Sum (range_order (Phi (k_round2 r))).*2 = Ret Ex) as Es'
    by (unfold must in Es; by destruct (Polynomial.Sum _)).
  rewrite (phis_full _ _ _ _ _ _ P Es' He). destruct (st_key _ _ St) as (Hl & Ht & _). lia.
Qed.

Lemma refresh_delivers L r0 phis res :
  start_ok L r0 -> refresh r0 = true -> kg_delivers r0 phis res ->
  exists L', kg_output L' r0 res /\ hornerP 0 L' = hornerP 0 L.
Proof.
  intros St Hr D. eexists. split; [by apply (kg_delivers_output _ _ _ _ St D)|].
  apply refresh_horner; [intros e; by eapply kg_delivers_degree|].
  destruct (kg_delivers_output _ _ _ _ St D) as (_ & _ & F).
  eapply map_Forall_impl; [exact F|]. cbn. intros _ e (c & Ec & Hc). by rewrite Ec, Hc.
Qed.

(** The public key and the private share of a result. *)
Definition res_key_is (Y : Point) (res : kg_result) : Prop :=
  match res with
  | RConfig c => c_PublicKey c = Y
  | RTaproot c => t_PublicKey c = XBytes Y /\ (Y <> 𝟎 -> HasEvenY Y = true)
  end.

Definition res_share (res : kg_result) : Scalar :=
  match res with RConfig c => c_PrivateShare c | RTaproot c => t_PrivateShare c end.

Definition res_shares (res : kg_result) : gmap ID Point :=
  match res with RConfig c => c_VerificationShares c | RTaproot c => t_VerificationShares c end.

(** The polynomial that is actually shared. *)
Definition final_key (tap : bool) (L : list Point) : list Point := if tap then even_key L else L.

Lemma kg_output_final L r0 res :
  kg_output L r0 res ->
  let K := final_key (taproot r0) L in
  res_key_is (hornerP 0 K) res /\ share_of K (selfID r0) (res_share res) /\
  shared_key K (threshold r0) (hornerP 0 K) (res_shares res) /\
  dom (res_shares res) = list_to_set (partyIDs (k_Helper r0)).
Proof.
  destruct res as [c|c]; cbn; unfold final_key.
  - intros (-> & Ei & Et & Ed & (K & Sh)). pose proof K as (_ & _ & EY & _). rewrite Ei in Sh. rewrite Et, EY in K. done.
  - intros (-> & _ & _ & Ed & -> & K & Sh). split_and!; try done.
    + rewrite even_key_horner. destruct (HasEvenY _); [done|]. by rewrite xbytes_neg.
    + rewrite even_key_horner. destruct (HasEvenY _) eqn:Ev; [done|]. intros N.
      rewrite eveny_neg, Ev; [done|]. intros E. apply N. by rewrite E, neg_identity.
Qed.

End Keys.

(** ** Theorems *)

Section Theorems.
Context {C : Curve} {CL : CurveLaws C} {X : XOnly C} {XL : XOnlyLaws C X} `{Blake3}.
Context {MO : MapOrder} {MOL : MapOrderLaws} {CB : Cbor kg_content}.

(** C1: a delivered key is a key.  Whatever the other parties and the
    network do, when the handler of a (Taproot) key generation reports a
    result, then there is one polynomial of degree [t] in the exponent such
    that the public key is its value at zero, the verification share of every
    participant is its value at that participant, and the private share is the
    discrete logarithm of the party's own verification share.  A Taproot key
    lifts to the even point of the polynomial. *)
Theorem keygen_correct tap ids t self sid r cap rand h res :
  StartKeygenCommon tap ids t self ∅ fresh_start sid = (Ret (Running r), cap) ->
  handler_run r rand h -> result h = Some res ->
  exists L, holds_key tap ids t self L res.
Proof. apply keygen_output. Qed.

(** C11: parties that finished one key generation on the same
    commitments (which the echo broadcast ensures) hold the same public key and
    the same verification shares, and the private shares of any more than [t]
    of them interpolate to the secret key of that public key. *)
Theorem keygen_threshold tap ids t sid phis (r : ID -> round1) (cap : ID -> captured)
    (res : ID -> kg_result) :
  (forall id, id ∈ ids ->
     StartKeygenCommon tap ids t id ∅ fresh_start sid = (Ret (Running (KG1 (r id))), cap id)) ->
  (forall id, id ∈ ids -> kg_delivers (r id) phis (res id)) ->
  exists Y,
    (forall id, id ∈ ids -> res_key_is Y (res id)) /\
    (forall id id', id ∈ ids -> id' ∈ ids -> res_shares (res id) = res_shares (res id')) /\
    (forall quorum m, quorum ⊆ ids -> ids_ok quorum -> (0 <= t < Z.of_nat (length quorum))%Z ->
       Lagrange quorum = Ret m ->
       sumS (fun id => getS m id * res_share (res id)) quorum • 𝐆 = Y).
Proof.
  intros Hs HD. set (K := final_key tap (key_poly (zero_key t) (map_to_list phis).*2)).
  assert (forall id, id ∈ ids ->
    res_key_is (hornerP 0 K) (res id) /\ share_of K id (res_share (res id)) /\
    shared_key K t (hornerP 0 K) (res_shares (res id)) /\
    dom (res_shares (res id)) = list_to_set (NewIDSlice ids)) as HK.
  { intros id Hid. destruct (fresh_start_ok _ _ _ _ _ _ _ (Hs id Hid)) as (r0 & [= <-] & St & _ & Et & Eth & Es & Ep).
    destruct (kg_delivers_output _ _ _ _ St (HD id Hid)) as (O & _). apply kg_output_final in O.
    rewrite Et, Eth, Es, Ep in O. exact O. }
  exists (hornerP 0 K). split_and!.
  - intros id Hid. by apply HK.
  - intros id id' Hid Hid'. destruct (HK id Hid) as (_ & _ & (_ & _ & _ & V1) & D1).
    destruct (HK id' Hid') as (_ & _ & (_ & _ & _ & V2) & D2).
    apply map_eq. intros k. pose proof (V1 k) as W1. pose proof (V2 k) as W2.
    assert (k ∈ dom (res_shares (res id)) <-> k ∈ dom (res_shares (res id'))) as Hk by (by rewrite D1, D2).
    rewrite !elem_of_dom in Hk. destruct (res_shares (res id) !! k) as [P|], (res_shares (res id') !! k) as [Q|].
    + by rewrite (W1 P eq_refl), (W2 Q eq_refl).
    + destruct Hk as [Hk _]. by destruct Hk as [? [=]].
    + destruct Hk as [_ Hk]. by destruct Hk as [? [=]].
    + done.
  - intros q m Hq Hok Ht Em. destruct q as [|i q]; [cbn in Ht; lia|].
    destruct (HK i) as (_ & _ & Ki & _); [set_solver|].
    eapply shares_reconstruct; [exact Ki|done|lia| |done]. intros id Hid. apply HK. set_solver.
Qed.

(** A refresh keeps the key.  From a valid configuration, whatever
    the others do, a refresh that delivers a result delivers a valid
    configuration of the same party, threshold, participants and public key. *)
Theorem refresh_keeps_key L c ids sid r cap rand h res :
  Config_valid L c -> dom (c_VerificationShares c) = list_to_set ids ->
  Refresh c ids sid = (Ret (Running r), cap) -> handler_run r rand h -> result h = Some res ->
  exists c' L', res = RConfig c' /\ Config_valid L' c' /\ c_PublicKey c' = c_PublicKey c /\
    c_ID c' = c_ID c /\ c_Threshold c' = c_Threshold c /\
    dom (c_VerificationShares c') = dom (c_VerificationShares c).
Proof.
  intros [K Sh] Hd Es Hr E.
  destruct (refresh_start_ok L _ _ _ _ _ _ _ _ _ _ K Sh Hd Es) as (r0 & -> & St & Rf & Et & Eth & Ei & EY & Ep).
  destruct (handler_kg_delivers _ _ _ _ _ St Hr E) as [phis D].
  destruct (refresh_delivers L r0 phis res St Rf D) as (L' & O & EH).
  pose proof K as (_ & _ & HY & _). pose proof (kg_output_holds L' r0 res ids O Ep) as O'.
  rewrite Et, Eth, Ei in O'. destruct res as [c'|c']; [|by destruct O'].
  destruct O' as (_ & E1 & E2 & E3 & V). exists c', L'. split_and!; try done; [|by rewrite E3].
  destruct V as ((_ & _ & -> & _) & _). by rewrite EH.
Qed.

(** C15: the same for a Taproot configuration, whose public key is the
    32-byte x coordinate. *)
Theorem taproot_refresh_keeps_key L c ids sid r cap rand h res :
  Taproot_valid L c -> length (t_PublicKey c) = 32%nat ->
  dom (t_VerificationShares c) = list_to_set ids ->
  RefreshTaproot c ids sid = (Ret (Running r), cap) -> handler_run r rand h -> result h = Some res ->
  exists c' L', res = RTaproot c' /\ Taproot_valid L' c' /\ t_PublicKey c' = t_PublicKey c /\
    t_ID c' = t_ID c /\ t_Threshold c' = t_Threshold c /\
    dom (t_VerificationShares c') = dom (t_VerificationShares c).
Proof.
  intros (Y & EY & K & Sh) Hl Hd Es Hr E. unfold RefreshTaproot in Es. rewrite EY in Es.
  destruct (refresh_start_ok L _ _ _ _ _ _ _ _ _ _ K Sh Hd Es) as (r0 & -> & St & Rf & Et & Eth & Ei & EY' & Ep).
  destruct (handler_kg_delivers _ _ _ _ _ St Hr E) as [phis D].
  destruct (refresh_delivers L r0 phis res St Rf D) as (L' & O & EH).
  pose proof K as (_ & _ & HY & _). pose proof (kg_output_holds L' r0 res ids O Ep) as O'.
  destruct (liftx_even _ _ EY) as [NY _].
  rewrite Et, Eth, Ei in O'. destruct res as [c'|c']; [by destruct O'|].
  destruct O' as (_ & E1 & E2 & E3 & E4 & V). exists c', (even_key L'). rewrite EH, <- HY in E4, V.
  split_and!; try done; [by apply V| |by rewrite E3]. by rewrite E4, (liftx_x _ _ Hl EY).
Qed.

(** The start function of a key generation cannot be called twice.
    The first call assigns the zero key to the variables that the closure
    captured, so the second call starts a refresh, of the zero key, without any
    verification shares. *)
Theorem second_start_refreshes tap ids t self sid1 sid2 s1 cap :
  StartKeygenCommon tap ids t self ∅ fresh_start sid1 = (Ret s1, cap) ->
  forall s2 cap2, StartKeygenCommon tap ids t self ∅ cap sid2 = (Ret s2, cap2) ->
  exists r, s2 = Running (KG1 r) /\ refresh r = true /\ publicKey r = 𝟎 /\ privateShare r = 0 /\
    verificationShares r = ∅.
Proof.
  unfold StartKeygenCommon. destruct (NewSession _ sid1 _); [|done..].
  cbn [cap_privateShare fresh_start]. intros [= _ <-] s2 cap2.
  destruct (NewSession _ sid2 _) as [h2| |]; [|done..]. cbn [cap_privateShare cap_publicKey].
  intros [= <- _]. by eexists.
Qed.

End Theorems.

(** ** Witnesses on the small group *)

Lemma toy_key_shared :
  @shared_key toy_curve (@ActOnBase toy_curve <$> toy_key) 1 toy_public toy_shares.
Proof.
  split; [done|]. split; [done|]. split; [by rewrite hornerP_base|].
  intros k P (id & [= -> ->] & _)%elem_of_list_to_map_2%list_elem_of_fmap. by rewrite hornerP_base.
Qed.

Lemma toy_key_share id : @share_of toy_curve (@ActOnBase toy_curve <$> toy_key) id (@horner toy_curve (ID_Scalar id) toy_key).
Proof. unfold share_of. by rewrite hornerP_base. Qed.

Lemma toy_shares_dom : dom toy_shares = list_to_set toy_ids.
Proof. by vm_compute. Qed.

Lemma toy_config_valid id : Config_valid (@ActOnBase toy_curve <$> toy_key) (toy_config id).
Proof. split; [apply toy_key_shared|apply toy_key_share]. Qed.

Lemma toy_tconfig_valid id : Taproot_valid (@ActOnBase toy_curve <$> toy_key) (toy_tconfig id).
Proof.
  exists toy_public. split; [by vm_compute|]. split; [apply toy_key_shared|apply toy_key_share].
Qed.

(** Each of these evaluates a whole execution. *)
Lemma kg_end_run : handler_run (KG1 (kg_first "a")) (toy_rand 1) kg_end /\
  exists res, result kg_end = Some res.
Proof.
  pose proof (party_result (RO := kg_ops) kg_ps (KG1 kg_dummy, toy_rand 0) 2 0 (KG1 (kg_first "a")) (toy_rand 1)) as P.
  apply P; [reflexivity|by vm_compute].
Qed.

Lemma rf_end_run : handler_run (KG1 (rf_first "a")) (toy_rand 1) rf_end /\
  exists res, result rf_end = Some res.
Proof.
  pose proof (party_result (RO := kg_ops) rf_ps (KG1 kg_dummy, toy_rand 0) 2 0 (KG1 (rf_first "a")) (toy_rand 1)) as P.
  apply P; [reflexivity|by vm_compute].
Qed.

Lemma rft_end_run : handler_run (KG1 (rft_first "a")) (toy_rand 1) rft_end /\
  exists res, result rft_end = Some res.
Proof.
  pose proof (party_result (RO := kg_ops) rft_ps (KG1 kg_dummy, toy_rand 0) 2 0 (KG1 (rft_first "a")) (toy_rand 1)) as P.
  apply P; [reflexivity|by vm_compute].
Qed.

Lemma keygen_correct_witness :
  exists L res, result kg_end = Some res /\ holds_key true toy_ids 1 "a" L res.
Proof.
  destruct kg_end_run as [Hr [res E]].
  pose proof (kg_of_spec (KeygenTaproot "a" toy_ids 1 None) ltac:(by vm_compute)) as Es.
  destruct (keygen_correct true toy_ids 1 "a" None (KG1 (kg_first "a")) _ (toy_rand 1) kg_end res Es Hr E)
    as [L HL].
  exists L, res. exact (conj E HL).
Defined.

Lemma refresh_keeps_key_witness :
  exists c', result rf_end = Some (RConfig c') /\ c_PublicKey c' = toy_public.
Proof.
  destruct rf_end_run as [Hr [res E]].
  pose proof (kg_of_spec (Refresh (toy_config "a") toy_ids None) ltac:(by vm_compute)) as Es.
  destruct (refresh_keeps_key _ _ toy_ids None (KG1 (rf_first "a")) _ (toy_rand 1) rf_end res
              (toy_config_valid "a") toy_shares_dom Es Hr E) as (c' & L' & -> & _ & EY & _).
  exists c'. exact (conj E EY).
Defined.

Lemma taproot_refresh_keeps_key_witness :
  exists c', result rft_end = Some (RTaproot c') /\ t_PublicKey c' = XBytes toy_public.
Proof.
  destruct rft_end_run as [Hr [res E]].
  assert (is_kg (RefreshTaproot (toy_tconfig "a") toy_ids None).1 = true) as Es by by vm_compute.
  apply kg_of_spec in Es.
  destruct (taproot_refresh_keeps_key _ _ toy_ids None (KG1 (rft_first "a")) _ (toy_rand 1) rft_end res
              (toy_tconfig_valid "a") eq_refl toy_shares_dom Es Hr E) as (c' & L' & -> & _ & EY & _).
  exists c'. exact (conj E EY).
Defined.

(** Starting twice. *)
Definition kg_twice : outcome (Session (@kg_round toy_curve) (@kg_result toy_curve)) * @captured toy_curve :=
  StartKeygenCommon true toy_ids 1 "a" ∅ (KeygenTaproot "a" toy_ids 1 None).2 None.

Lemma second_start_refreshes_witness : refresh (kg_of kg_twice.1) = true.
Proof.
  pose proof (kg_of_spec (KeygenTaproot "a" toy_ids 1 None) ltac:(by vm_compute)) as E1.
  pose proof (kg_of_spec kg_twice ltac:(by vm_compute)) as E2.
  destruct (second_start_refreshes true toy_ids 1 "a" None None _ _ E1 _ _ E2) as (r & Er & Hr & _).
  apply (f_equal (fun s => kg_of (Ret s))) in Er. change (kg_of kg_twice.1 = r) in Er.
  rewrite Er. exact Hr.
Defined.

(** What the lockstep execution shows of a party. *)
Definition kg_test (i : ID) : bool :=
  match kg_lock !! kg_index i with
  | Some p =>
      match kg_last p with
      | Some r => complete_b p && is_ret (round3_Finalize r) && bool_decide (Phi (k_round2 r) = kg_phis)
      | None => false
      end
  | None => false
  end.

Lemma kg_test_delivers i rand :
  kg_ps !! kg_index i = Some (KG1 (kg_first i), rand) -> kg_test i = true ->
  kg_delivers (kg_first i) kg_phis (kg_res i).
Proof.
  unfold kg_test, kg_res. intros Ei. destruct (kg_lock !! kg_index i) as [p|] eqn:Ep; [|done].
  pose proof (lockstep2_ok (RO := kg_ops) id id kg_ps _ _ _ p Ei) as Hl.
  destruct (Hl Ep) as [Ef Hp]. clear Hl. cbn [mbind option_bind].
  destruct (kg_last p) as [r|] eqn:Er; [|done]. unfold kg_last in Er.
  intros [[Hc Hr]%andb_true_iff Hb]%andb_true_iff.
  apply bool_decide_eq_true in Hb. apply complete_b_ok in Hc. unfold party_ok in Hp.
  destruct (p_round p) as [| |r'] eqn:Epr; try discriminate Er. injection Er as ->.
  rewrite Ef in Hp. exists r, (p_B p), (p_M p).
  destruct (round3_Finalize r) as [res| |]; [|discriminate Hr..].
  exact (conj Hp (conj Hc (conj Hb eq_refl))).
Qed.

Lemma toy_signers_ids : toy_signers ⊆ toy_ids.
Proof. unfold toy_signers, toy_ids. set_solver. Qed.

Lemma toy_quorum : (0 <= 1 < Z.of_nat (length toy_signers))%Z.
Proof. cbn. lia. Qed.

Lemma keygen_threshold_witness :
  exists Y m, Lagrange (C := toy_curve) ["a"; "c"] = Ret m /\
    (forall id, id ∈ toy_ids -> res_key_is Y (kg_res id)) /\
    sumS (C := toy_curve) (fun id => getS m id * res_share (kg_res id)) ["a"; "c"] • 𝐆 = Y.
Proof.
  assert (forallb kg_test toy_ids = true) as T by by vm_compute.
  rewrite forallb_forall in T.
  assert (forall id, id ∈ toy_ids -> exists rand, kg_ps !! kg_index id = Some (KG1 (kg_first id), rand)) as Hi.
  { intros id Hid. repeat (apply elem_of_cons in Hid as [->|Hid]; [eexists; reflexivity|]). by apply elem_of_nil in Hid. }
  assert (forall id, id ∈ toy_ids -> is_kg (KeygenTaproot id toy_ids 1 None).1 = true) as Hk.
  { intros id Hid. repeat (apply elem_of_cons in Hid as [->|Hid]; [by vm_compute|]). by apply elem_of_nil in Hid. }
  assert (bool_decide (@ids_ok toy_curve ["a"; "c"]) = true) as Hok by by vm_compute.
  apply bool_decide_eq_true in Hok.
  destruct (Lagrange_spec _ Hok) as (m & Em & _).
  destruct (keygen_threshold true toy_ids 1 None kg_phis kg_first (fun id => (KeygenTaproot id toy_ids 1 None).2) kg_res)
    as (Y & HY & _ & HS).
  - intros id Hid. exact (kg_of_spec _ (Hk id Hid)).
  - intros id Hid. destruct (Hi id Hid) as [rand E]. apply (kg_test_delivers id rand E).
    apply T. by apply list_elem_of_In.
  - exists Y, m. split; [exact Em|]. split; [exact HY|]. 
    exact (HS ["a"; "c"] m toy_signers_ids Hok toy_quorum Em).
Defined.

(** A deviating participant can crash the others.  The degree of a
    committed polynomial is not checked when it arrives in round 2.  Here a
    participant commits to a constant polynomial, with a valid proof and valid
    shares: every check of the protocol passes, the honest party reaches its
    last round with all messages, and [Finalize] panics on the sum of the
    commitments. *)
Theorem keygen_degree_panic :
  exists r B M e, reached (KG1 (kg_first "a")) (KG3 r) B M /\ complete (KG3 r) B M /\
    round3_Finalize r = Panic e.
Proof.
  assert (match kg_bad !! 0%nat with
          | Some p => match kg_last p with
                      | Some r => complete_b p && match round3_Finalize r with Panic _ => true | _ => false end
                      | None => false
                      end
          | None => false
          end = true) as T by by vm_compute.
  destruct (kg_bad !! 0%nat) as [p|] eqn:Ep; [|discriminate T].
  pose proof (lockstep2_ok (RO := kg_ops) (map bad_message) (map bad_message) kg_ps 0 _ _ p eq_refl) as Hl.
  destruct (Hl Ep) as [Ef Hp]. clear Hl.
  destruct (kg_last p) as [r|] eqn:Er; [|discriminate T]. unfold kg_last in Er.
  apply andb_true_iff in T as [Hc Hr]. apply complete_b_ok in Hc. unfold party_ok in Hp.
  destruct (p_round p) as [| |r'] eqn:Epr; try discriminate Er. injection Er as ->. rewrite Ef in Hp.
  destruct (round3_Finalize r) as [| |e] eqn:E; [discriminate Hr..|].
  exists r, (p_B p), (p_M p), e. exact (conj Hp (conj Hc E)).
Qed.

(** ** The echo broadcast in a key generation *)

(** The first party has entered round 3 and got the broadcast of the second. *)
Definition echo_pair (o : option (list (@MultiHandler (@kg_round toy_curve) (@kg_result toy_curve)))) :
    option (@MultiHandler (@kg_round toy_curve) (@kg_result toy_curve)
            * @MultiHandler (@kg_round toy_curve) (@kg_result toy_curve)) :=
  match o with
  | Some (h1 :: h2 :: _) =>
      match ch_buf (out h2) with
      | m :: _ => match Accept (drain h1).2 m with HOk h => Some (h, h2) | _ => None end
      | [] => None
      end
  | _ => None
  end.

Definition echo_rm : round_Message toy_kg_content := mkRoundMessage "b" "" true (Broadcast3 [] []).

Definition echo_data (h1 : @MultiHandler (@kg_round toy_curve) (@kg_result toy_curve)) : bytes :=
  default [] (m ← queue_get (broadcast h1) 3 "b"; Data m).

Definition echo_check (h1 h2 : @MultiHandler (@kg_round toy_curve) (@kg_result toy_curve)) : bool :=
  match rounds h1 !! 2%Z, rounds h2 !! 2%Z with
  | Some s1, Some s2 =>
      bool_decide (hash (s_helper s1) = hash (s_helper s2))
      && is_some (broadcastHashes h1 !! 2%Z) && is_some (broadcastHashes h2 !! 2%Z)
      && bool_decide (s_Number (currentRound h1) = 3%Z) && bool_decide (s_Number (currentRound h2) = 3%Z)
      && checkBroadcastHash h1
      && bool_decide (queue_get (broadcast h1) 3 "b"
                      = Some (outgoing h2 (currentRound h2) echo_rm (echo_data h1)))
  | _, _ => false
  end.

Lemma kg_sessions : session_ok (k_Helper (kg_first "a")) /\ session_ok (k_Helper (kg_first "b")) /\
  partyIDs (k_Helper (kg_first "a")) = partyIDs (k_Helper (kg_first "b")).
Proof.
  pose proof (kg_of_spec (KeygenTaproot "a" toy_ids 1 None) ltac:(by vm_compute)) as E1.
  pose proof (kg_of_spec (KeygenTaproot "b" toy_ids 1 None) ltac:(by vm_compute)) as E2.
  destruct (fresh_start_ok _ _ _ _ _ _ _ E1) as (r1 & Er1 & S1 & _ & _ & _ & _ & P1).
  destruct (fresh_start_ok _ _ _ _ _ _ _ E2) as (r2 & Er2 & S2 & _ & _ & _ & _ & P2).
  apply (f_equal kg_helper) in Er1, Er2. unfold kg_helper, kg_round1 in Er1, Er2.
  unfold kg_first. rewrite Er1, Er2, P1, P2.
  exact (conj (st_session _ _ S1) (conj (st_session _ _ S2) eq_refl)).
Qed.

Lemma echo_broadcast_witness :
  exists (h1 h2 : @MultiHandler (@kg_round toy_curve) (@kg_result toy_curve)) s1 msgs1 msgs2,
    rounds h1 !! 2%Z = Some s1 /\
    broadcasts (KG1 (kg_first "a")) h1 2 = Some msgs1 /\ broadcasts (KG1 (kg_first "b")) h2 2 = Some msgs2 /\
    (Forall message_fits msgs1 -> Forall message_fits msgs2 ->
     msgs1 = msgs2 \/
     collides (broadcasts_state (hash (s_helper s1)) msgs1) (broadcasts_state (hash (s_helper s1)) msgs2) \/
     exists m1 m2, m1 ∈ msgs1 /\ m2 ∈ msgs2 /\ collides (Message_state m1) (Message_state m2)).
Proof.
  assert (match echo_pair (states kg_ps 1) with Some (h1, h2) => echo_check h1 h2 | None => false end = true)
    as T by by vm_compute.
  pose proof (states_run kg_ps 1) as Hs.
  destruct (states kg_ps 1) as [[|h0 [|h2 hs]]|]; [discriminate T..| |discriminate T].
  specialize (Hs _ eq_refl). unfold echo_pair in T.
  destruct (ch_buf (out h2)) as [|m buf] eqn:Eb; [discriminate T|].
  destruct (Accept (drain h0).2 m) as [h1| | |] eqn:Ea; [|discriminate T..].
  assert (handler_run (KG1 (kg_first "a")) (toy_rand 1) h1 /\ handler_run (KG1 (kg_first "b")) (toy_rand 2) h2)
    as [R1 R2].
  { pose proof (Forall2_lookup_lr _ _ _ 0 (KG1 (kg_first "a"), toy_rand 1) h0 Hs eq_refl eq_refl) as H0.
    split; [exact (run_accept _ _ _ _ _ (drain_run _ _ _ H0) Ea)|].
    exact (Forall2_lookup_lr _ _ _ 1 (KG1 (kg_first "b"), toy_rand 2) h2 Hs eq_refl eq_refl). }
  clear Hs Ea Eb. unfold echo_check in T.
  destruct (rounds h1 !! 2%Z) as [s1|] eqn:E1; [|discriminate T].
  destruct (rounds h2 !! 2%Z) as [s2|] eqn:E2; [|discriminate T].
  rewrite !andb_true_iff, !bool_decide_eq_true in T. destruct T as [[[[[[Eh V1] V2] N1] N2] Hc] Hq].
  destruct (broadcastHashes h1 !! 2%Z) as [v1|] eqn:Ev1; [|discriminate V1].
  destruct (broadcastHashes h2 !! 2%Z) as [v2|] eqn:Ev2; [|discriminate V2].
  destruct kg_sessions as (S1 & S2 & Ep).
  destruct (echo_broadcast (RO := kg_ops) (KG1 (kg_first "a")) (KG1 (kg_first "b")) (toy_rand 1) (toy_rand 2) h1 h2 2 s1 s2
              (currentRound h2) echo_rm (echo_data h1) v1 v2 S1 S2 Ep R1 R2 ltac:(lia) N1 N2 E1 E2 Eh Ev1 Ev2 Hc
              (ex_intro _ "b" (or_intror Hq))) as (msgs1 & msgs2 & B1 & B2 & Hb).
  exists h1, h2, s1, msgs1, msgs2. exact (conj E1 (conj B1 (conj B2 Hb))).
Defined.
