(* ===== verification/SignThms.v ===== *)
(** * Theorems about FROST signing

    Signatures that the handler reports verify, completed executions never
    abort, and honest responses are accepted; with executions on the small
    group as witnesses. *)

From Stdlib Require Import ZArith Lia Zmod.
From Stdlib Require Import Strings.Byte.
From stdpp Require Import base gmap strings list pretty numbers.
From S2P Require Import Prelude Hash Curve Party Polynomial Round Message Handler HandlerSpec HandlerInv.
From S2P Require Import Taproot FrostConfig FrostSign FrostSignProps.
From S2P Require Import Toy Codec Network Lockstep Runs HandlerThms KeygenThms.

Local Open Scope curve_scope.

(** ** Starting *)

Section Start.
Context {C : Curve} {CL : CurveLaws C} {X : XOnly C} {XL : XOnlyLaws C X} `{Blake3} {BK : Blake3Keyed}.
Context {MO : MapOrder} {MOL : MapOrderLaws} {CB : Cbor sg_content}.

(** What the first round holds. *)
Lemma sign_start tap c signers M sid r :
  StartSignCommon tap c signers M sid = Ret (Running r) ->
  exists r0, r = SG1 r0 /\ session_ok (s_Helper r0) /\
    s_taproot r0 = tap /\ s_M r0 = M /\ s_Y r0 = c_PublicKey c /\
    YShares r0 = c_VerificationShares c /\ s_i r0 = c_PrivateShare c /\
    info (s_Helper r0) = mkInfo (if tap then sign_protocolIDTaproot else sign_protocolID)
      sign_protocolRounds (c_ID c) signers (c_Threshold c) (Some Name).
Proof.
  unfold StartSignCommon. intros (h & [S Ei]%wrap_err_ret%NewSession_ok & [= <-])%bind_ret_inv.
  eexists. by split_and!.
Qed.

Lemma sign_start_ok L tap c signers M sid r :
  Config_valid L c -> ids_ok signers ->
  (forall id, id ∈ signers -> is_Some (c_VerificationShares c !! id)) ->
  StartSignCommon tap c signers M sid = Ret (Running r) ->
  exists r0, r = SG1 r0 /\ sign_ok L (c_Threshold c) r0 /\ s_taproot r0 = tap /\ s_M r0 = M /\
    s_Y r0 = c_PublicKey c.
Proof.
  intros [K Sh] Hok Hd (r0 & -> & S & Et & EM & EY & EV & Es & Ei)%sign_start.
  pose proof (Round.so_ids _ S) as Ep. rewrite Ei in Ep. cbn in Ep.
  pose proof (so_threshold _ S) as Ht. rewrite Ei in Ht. cbn in Ht.
  exists r0. split_and!; try done. constructor; try done.
  - by rewrite Ei.
  - by rewrite EY, EV.
  - unfold s_self. rewrite Ei, Es. exact Sh.
  - rewrite Ep. by apply (ids_ok_perm signers); [rewrite NewIDSlice_perm|].
  - lia.
  - intros id. rewrite Ep, (NewIDSlice_perm signers), EV. apply Hd.
Qed.

(** A handler only reports what the abstract execution delivers. *)
Lemma handler_sg_delivered r0 rand h res :
  session_ok (s_Helper r0) -> handler_run (SG1 r0) rand h -> result h = Some res ->
  sig_verifies r0 res.
Proof.
  intros S Hr E. apply sg_delivered.
  destruct (handler_run_inv (RO := sg_ops) (SG1 r0) S rand h Hr) as [(r & B & M & C' & _)|(_ & _ & D & _)].
  - rewrite (hc_result _ _ _ _ _ C') in E. done.
  - by apply D.
Qed.

(** The senders of a completed last round are all the others. *)
Lemma sign_complete_senders L t r0 r B M :
  sign_ok L t r0 -> reached (SG1 r0) (SG3 r) B M -> complete (SG3 r) B M ->
  B = list_to_set (otherPartyIDs (s_Helper r0)).
Proof.
  intros So Re Hc. pose proof (sg_reached_round1 _ _ _ _ Re) as E1. cbn in E1.
  apply set_eq. intros id. rewrite elem_of_list_to_set. split.
  - intros Hid. apply (reached_senders _ _ _ _ id Re). by left.
  - intros Hid. apply Hc; [| |done]; unfold r_Final, r_others; cbn; rewrite E1; [|done].
    rewrite (so_final _ _ _ So). unfold sign_protocolRounds. lia.
Qed.

End Start.

(** ** Theorems *)

Section Theorems.
Context {C : Curve} {CL : CurveLaws C} {X : XOnly C} {XL : XOnlyLaws C X} `{Blake3} {BK : Blake3Keyed}.
Context {MO : MapOrder} {MOL : MapOrderLaws} {CB : Cbor sg_content}.

(** C3: reported signatures verify.  Whatever the other signers and the
    network do, when the handler of a Taproot signing session reports a result,
    it is a BIP-340 signature of the message under the key of the
    configuration. *)
Theorem taproot_sign_sound c signers M sid r rand h res :
  length (t_PublicKey c) = 32%nat ->
  SignTaproot c signers M sid = Ret (Running r) -> handler_run r rand h -> result h = Some res ->
  exists sig, res = SigTaproot sig /\ Verify (t_PublicKey c) sig (default [] M) = true.
Proof.
  intros Hl Es Hr E. unfold SignTaproot in Es. apply bind_ret_inv in Es as (Y & EY & Es).
  apply sign_start in Es as (r0 & -> & S & Et & EM & EY' & _).
  pose proof (handler_sg_delivered r0 rand h res S Hr E) as V.
  destruct res as [sig|sig]; cbn in V; destruct V as [Ht V]; [|congruence].
  exists sig. split; [done|]. rewrite EY', EM in V. cbn in V. by rewrite (liftx_x _ _ Hl EY) in V.
Qed.

(** The same for plain FROST signatures. *)
Theorem frost_sign_sound c signers M sid r rand h res :
  Frost_Sign c signers M sid = Ret (Running r) -> handler_run r rand h -> result h = Some res ->
  exists sig, res = SigPlain sig /\ Signature_Verify sig (c_PublicKey c) M = Ret true.
Proof.
  intros (r0 & -> & S & Et & EM & EY & _)%sign_start Hr E.
  pose proof (handler_sg_delivered r0 rand h res S Hr E) as V.
  destruct res as [sig|sig]; cbn in V; destruct V as [Ht V]; [congruence|].
  exists sig. split; [done|]. by rewrite EY, EM in V.
Qed.

(** C5: a completed execution never aborts.  From a valid
    configuration and enough signers with distinct interpolation points: once
    the last round has accepted a response from every other signer, whoever
    they are and however they made it, the responses add up to a signature that
    verifies, so [Finalize] outputs it.  (In the Taproot case the group
    commitment must not be the identity.) *)
Theorem sign_completes L tap c signers M sid r0 r B Ms :
  Config_valid L c -> ids_ok signers ->
  (forall id, id ∈ signers -> is_Some (c_VerificationShares c !! id)) ->
  (tap = true -> c_PublicKey c <> 𝟎 /\ HasEvenY (c_PublicKey c) = true /\ s_R r <> 𝟎) ->
  StartSignCommon tap c signers M sid = Ret (Running (SG1 r0)) ->
  reached (SG1 r0) (SG3 r) B Ms -> complete (SG3 r) B Ms ->
  exists res, sround3_Finalize r = Ret (Output (s_Helper r0) res) /\ sig_verifies r0 res.
Proof.
  intros V Hok Hd Ht Es Re Hc.
  destruct (sign_start_ok L tap c signers M sid _ V Hok Hd Es) as (r1 & [= <-] & So & Et & EM & EY).
  pose proof (sg_reached _ _ _ _ _ _ So Re) as R3. cbn in R3.
  rewrite (sign_complete_senders _ _ _ _ _ _ So Re Hc) in R3.
  destruct (sround3_Finalize_ok L (c_Threshold c) r0 r XL So R3) as [res E].
  { rewrite Et, EY. exact Ht. }
  exists res. split; [done|]. rewrite <- (r3_round1 _ _ _ R3). by eapply sround3_Finalize_output.
Qed.

(** Honest responses are accepted.  Two signers of one session that
    hold the same nonce commitments: the response that the first computes at
    the end of its second round passes the check of the other. *)
Theorem honest_accepted L tap ci cj signers M sid ri0 rj0 ri rj Bi Mi Bj Mj outi outj ri' rj' oi oj z :
  Config_valid L ci -> ids_ok signers ->
  (forall id, id ∈ signers -> is_Some (c_VerificationShares ci !! id)) ->
  c_VerificationShares ci = c_VerificationShares cj -> c_PublicKey ci = c_PublicKey cj ->
  StartSignCommon tap ci signers M sid = Ret (Running (SG1 ri0)) ->
  StartSignCommon tap cj signers M sid = Ret (Running (SG1 rj0)) ->
  reached (SG1 ri0) (SG2 ri) Bi Mi -> reached (SG1 rj0) (SG2 rj) Bj Mj ->
  s_D ri = s_D rj -> s_E ri = s_E rj ->
  sround2_Finalize ri outi = Ret (ri', oi) -> sround2_Finalize rj outj = Ret (rj', oj) ->
  s_z ri' !! c_ID ci = Some z ->
  exists r, sround3_StoreBroadcastMessage rj'
    (mkRoundMessage (c_ID ci) "" true (SBroadcast3 (Some z))) = Ret r.
Proof.
  intros V Hok Hd EV EYc Ei Ej Rei Rej ED EE Fi Fj Hz.
  destruct (sign_start_ok L tap ci signers M sid _ V Hok Hd Ei) as (r1 & [= <-] & So & _).
  pose proof (sg_reached_round1 _ _ _ _ Rei) as Ei1. cbn in Ei1.
  pose proof (sg_reached_round1 _ _ _ _ Rej) as Ej1. cbn in Ej1.
  pose proof (sg_reached _ _ _ _ _ _ So Rei) as Hi. cbn in Hi.
  destruct (sign_start _ _ _ _ _ _ Ei) as (r1 & [= <-] & Si & Ti & Mi' & Yi & Vi & _ & Ii).
  destruct (sign_start _ _ _ _ _ _ Ej) as (r2 & [= <-] & Sj & Tj & Mj' & Yj & Vj & _ & Ij).
  subst ri0 rj0.
  assert (s_self (s_round1 ri) = c_ID ci) as Eid by (unfold s_self; by rewrite Ii). rewrite <- Eid in *.
  assert (partyIDs (s_Helper (s_round1 ri)) = partyIDs (s_Helper (s_round1 rj))) as Ep
    by (by rewrite (Round.so_ids _ Si), (Round.so_ids _ Sj), Ii, Ij).
  apply (honest_response_accepted L (c_Threshold ci) ri rj outi outj ri' rj' oi oj z); try done; congruence.
Qed.

(** Only one response is acceptable.  In a given state of the last
    round, a signer can only answer with the one correct response: two accepted
    broadcasts of the same sender carry the same scalar. *)
Theorem response_unique r from to to' z z' r1 r2 :
  sround3_StoreBroadcastMessage r (mkRoundMessage from to true (SBroadcast3 (Some z))) = Ret r1 ->
  sround3_StoreBroadcastMessage r (mkRoundMessage from to' true (SBroadcast3 (Some z'))) = Ret r2 ->
  z = z'.
Proof.
  intros (z1 & la & Y & R & [= <-] & E1 & E2 & E3 & Ez & _)%sround3_Store_ret
    (z2 & la' & Y' & R' & [= <-] & E1' & E2' & E3' & Ez' & _)%sround3_Store_ret.
  cbn in *. assert (z • 𝐆 = z' • 𝐆) as E by congruence. by apply base_act_inj.
Qed.

End Theorems.

(** ** Witnesses on the small group *)

Lemma sg_end_run : handler_run (SG1 (sg_first "a")) (toy_rand 4) sg_end /\
  exists res, result sg_end = Some res.
Proof.
  pose proof (party_result (RO := sg_ops) sg_ps (SG1 sg_dummy, toy_rand 0) 2 0 (SG1 (sg_first "a")) (toy_rand 4)) as P.
  apply P; [reflexivity|by vm_compute].
Qed.

Lemma sgf_end_run : handler_run (SG1 (sgf_first "a")) (toy_rand 4) sgf_end /\
  exists res, result sgf_end = Some res.
Proof.
  pose proof (party_result (RO := sg_ops) sgf_ps (SG1 sg_dummy, toy_rand 0) 2 0 (SG1 (sgf_first "a")) (toy_rand 4)) as P.
  apply P; [reflexivity|by vm_compute].
Qed.

Lemma taproot_sign_sound_witness :
  exists sig, result sg_end = Some (SigTaproot sig) /\
    Verify (t_PublicKey (toy_tconfig "a")) sig (default [] toy_message) = true.
Proof.
  destruct sg_end_run as [Hr [res E]].
  assert (is_sg (SignTaproot (toy_tconfig "a") toy_signers toy_message None) = true) as Es by by vm_compute.
  apply sg_of_spec in Es.
  destruct (taproot_sign_sound (toy_tconfig "a") toy_signers toy_message None (SG1 (sg_first "a")) (toy_rand 4)
              sg_end res eq_refl Es Hr E) as (sig & -> & V).
  exists sig. exact (conj E V).
Defined.

Lemma frost_sign_sound_witness :
  exists sig, result sgf_end = Some (SigPlain sig) /\
    Signature_Verify sig (c_PublicKey (toy_config "a")) toy_message = Ret true.
Proof.
  destruct sgf_end_run as [Hr [res E]].
  assert (is_sg (Frost_Sign (toy_config "a") toy_signers toy_message None) = true) as Es by by vm_compute.
  apply sg_of_spec in Es.
  destruct (frost_sign_sound (toy_config "a") toy_signers toy_message None (SG1 (sgf_first "a")) (toy_rand 4)
              sgf_end res Es Hr E) as (sig & -> & V).
  exists sig. exact (conj E V).
Defined.

Lemma toy_signers_ok : @ids_ok toy_curve toy_signers.
Proof.
  assert (bool_decide (@ids_ok toy_curve toy_signers) = true) as H by by vm_compute.
  by apply bool_decide_eq_true in H.
Qed.

Lemma toy_signers_shares id : id ∈ toy_signers -> is_Some (toy_shares !! id).
Proof. intros [->|[->|[]%elem_of_nil]%elem_of_cons]%elem_of_cons; by eexists. Qed.

Lemma sgl_starts id : id ∈ toy_signers ->
  StartSignCommon true (toy_config id) toy_signers toy_message None = Ret (Running (SG1 (sgl_first id))).
Proof. intros [->|[->|[]%elem_of_nil]%elem_of_cons]%elem_of_cons; apply sg_of_spec; by vm_compute. Qed.

Definition sg_third (p : party) : option (@sround3 toy_curve) :=
  match p_round p with SG3 r => Some r | _ => None end.

Definition sg_second (p : party) : option (@sround2 toy_curve) :=
  match p_round p with SG2 r => Some r | _ => None end.

Lemma sign_completes_witness :
  exists r res, sround3_Finalize r = Ret (Output (s_Helper (sgl_first "a")) res) /\
    sig_verifies (sgl_first "a") res.
Proof.
  assert (match sg_lock2 !! 0%nat with
          | Some p => match sg_third p with
                      | Some r => complete_b p && negb (bool_decide (s_R r = 𝟎))
                      | None => false
                      end
          | None => false
          end = true) as T by by vm_compute.
  destruct (sg_lock2 !! 0%nat) as [p|] eqn:Ep; [|discriminate T].
  pose proof (lockstep2_ok (RO := sg_ops) id id sgl_ps 0 _ _ p eq_refl) as Hl.
  destruct (Hl Ep) as [Ef Hp]. clear Hl.
  destruct (sg_third p) as [r|] eqn:Er; [|discriminate T]. unfold sg_third in Er.
  apply andb_true_iff in T as [Hc Hr]. apply complete_b_ok in Hc. unfold party_ok in Hp.
  apply negb_true_iff, bool_decide_eq_false in Hr.
  destruct (p_round p) as [| |r'] eqn:Epr; try discriminate Er. injection Er as ->. rewrite Ef in Hp.
  exists r. refine (sign_completes (@ActOnBase toy_curve <$> toy_key) true (toy_config "a") toy_signers
    toy_message None (sgl_first "a") r (p_B p) (p_M p) (toy_config_valid "a") toy_signers_ok toy_signers_shares
    _ (sgl_starts "a" ltac:(by left)) Hp Hc).
  intros _. split; [by vm_compute|]. split; [by vm_compute|]. exact Hr.
Defined.

(** Both signers after one round: they hold the same nonce commitments, and
    both finish their second round. *)
Definition sg_pair : option (@sround2 toy_curve * @sround2 toy_curve) :=
  match sg_lock1 !! 0%nat, sg_lock1 !! 1%nat with
  | Some p, Some q => match sg_second p, sg_second q with Some r, Some r' => Some (r, r') | _, _ => None end
  | _, _ => None
  end.

Definition sg_pair_test (o : option (@sround2 toy_curve * @sround2 toy_curve)) : bool :=
  match o with
  | Some (r, r') =>
      bool_decide (s_D r = s_D r') && bool_decide (s_E r = s_E r') &&
      match sround2_Finalize r (mkChan 3 []), sround2_Finalize r' (mkChan 3 []) with
      | Ret (r3, _), Ret (r3', _) => is_some (s_z r3 !! "a")
      | _, _ => false
      end
  | None => false
  end.

Lemma sg_second_reached p i who rand :
  sgl_ps !! i = Some (SG1 (sgl_first who), rand) -> sg_lock1 !! i = Some p ->
  forall r, sg_second p = Some r -> reached (SG1 (sgl_first who)) (SG2 r) (p_B p) (p_M p).
Proof.
  intros Ei Ep r Er. destruct (lockstep1_ok (RO := sg_ops) id sgl_ps i _ _ p Ei Ep) as [Ef Hp].
  unfold sg_second in Er. unfold party_ok in Hp. rewrite Ef in Hp.
  destruct (p_round p) as [|r'|]; [discriminate Er| |discriminate Er]. injection Er as ->. exact Hp.
Qed.

Lemma sg_pair_spec : sg_pair_test sg_pair = true ->
  exists ri rj Bi Mi Bj Mj ri' rj' oi oj z,
    reached (SG1 (sgl_first "a")) (SG2 ri) Bi Mi /\ reached (SG1 (sgl_first "c")) (SG2 rj) Bj Mj /\
    s_D ri = s_D rj /\ s_E ri = s_E rj /\
    sround2_Finalize ri (mkChan 3 []) = Ret (ri', oi) /\ sround2_Finalize rj (mkChan 3 []) = Ret (rj', oj) /\
    s_z ri' !! "a" = Some z.
Proof.
  unfold sg_pair_test, sg_pair.
  destruct (sg_lock1 !! 0%nat) as [p|] eqn:Ep; [|discriminate].
  destruct (sg_lock1 !! 1%nat) as [q|] eqn:Eq; [|discriminate].
  destruct (sg_second p) as [ri|] eqn:Er; [|discriminate].
  destruct (sg_second q) as [rj|] eqn:Erj; [|discriminate].
  intros [[ED EE]%andb_true_iff T]%andb_true_iff.
  apply bool_decide_eq_true in ED, EE.
  destruct (sround2_Finalize ri (mkChan 3 [])) as [[ri' oi]| |] eqn:Fi; [|discriminate T..].
  destruct (sround2_Finalize rj (mkChan 3 [])) as [[rj' oj]| |] eqn:Fj; [|discriminate T..].
  destruct (s_z ri' !! "a") as [z|] eqn:Ez; [|discriminate T].
  exists ri, rj, (p_B p), (p_M p), (p_B q), (p_M q), ri', rj', oi, oj, z.
  split; [exact (sg_second_reached p 0 "a" (toy_rand 4) eq_refl Ep ri Er)|].
  split; [exact (sg_second_reached q 1 "c" (toy_rand 5) eq_refl Eq rj Erj)|].
  exact (conj ED (conj EE (conj Fi (conj Fj Ez)))).
Qed.

Lemma sg_pair_ok : sg_pair_test sg_pair = true.
Proof. by vm_compute. Qed.

Lemma honest_accepted_witness :
  exists rj' z r, sround3_StoreBroadcastMessage (C := toy_curve) rj'
    (mkRoundMessage "a" "" true (SBroadcast3 (Some z))) = Ret r.
Proof.
  destruct (sg_pair_spec sg_pair_ok) as (ri & rj & Bi & Mi & Bj & Mj & ri' & rj' & oi & oj & z & Ri & Rj & ED & EE & Fi & Fj & Hz).
  exists rj', z.
  exact (honest_accepted (@ActOnBase toy_curve <$> toy_key) true (toy_config "a") (toy_config "c") toy_signers
    toy_message None (sgl_first "a") (sgl_first "c") ri rj Bi Mi Bj Mj _ _ ri' rj' oi oj z
    (toy_config_valid "a") toy_signers_ok toy_signers_shares eq_refl eq_refl
    (sgl_starts "a" ltac:(by left)) (sgl_starts "c" ltac:(by right; left)) Ri Rj ED EE Fi Fj Hz).
Defined.

(** A last round that expects the response 3 from the first signer. *)
Definition toy_sround3 : @sround3 toy_curve :=
  mkSround3 (mkSround2 (sgl_first "c") Zmod.zero Zmod.zero ∅ ∅) Zmod.zero
    {["a" := Zmod.of_Z toy_order 3]} Zmod.zero ∅ {["a" := Zmod.one]}.

Definition toy_response (to : ID) (z : Z) : outcome (@sround3 toy_curve) :=
  sround3_StoreBroadcastMessage toy_sround3
    (mkRoundMessage "a" to true (@SBroadcast3 toy_curve (Some (Zmod.of_Z toy_order z)))).

Lemma response_unique_witness : is_ret (toy_response "" 3) = true /\ is_ret (toy_response "c" 104) = true /\
  Zmod.of_Z toy_order 3 = Zmod.of_Z toy_order 104.
Proof.
  assert (is_ret (toy_response "" 3) = true) as H1 by by vm_compute.
  assert (is_ret (toy_response "c" 104) = true) as H2 by by vm_compute.
  split; [exact H1|]. split; [exact H2|].
  destruct (toy_response "" 3) as [r1| |] eqn:E1; [|discriminate H1..].
  destruct (toy_response "c" 104) as [r2| |] eqn:E2; [|discriminate H2..].
  exact (response_unique toy_sround3 "a" "" "c" _ _ r1 r2 E1 E2).
Defined.
