(* ===== verification/LibraryThms.v ===== *)
(** * Theorems about the packages below the protocols

    What hashing, commitments, messages, party lists, polynomials, the Schnorr
    proof, BIP-340 signatures, key derivation and the example protocol promise,
    each with a witness on concrete data. *)

From Stdlib Require Import ZArith Lia Zmod.
From Stdlib Require Import Strings.Byte.
From stdpp Require Import base gmap strings list pretty numbers.
From S2P Require Import Prelude Hash Primes Curve Party Sample Polynomial Round Schnorr Taproot Message.
From S2P Require Import Handler HandlerSpec HandlerInv FrostConfig FrostKeygen Xor Toy Codec Network Lockstep Runs HandlerThms KeygenThms.

(** ** Hashing, commitments and messages *)

Section HashThms.
Context `{Blake3}.

(** C35: what [WriteAny] absorbs is unambiguous.  Two lists of values that
    bring a hash to the same state were written as the same sequence of domains
    and contents, for any contents whose length fits 64 bits. *)
Theorem write_injective h data1 data2 h' u1 u2 its1 its2 :
  items_of data1 = Ret its1 -> items_of data2 = Ret its2 ->
  Forall item_fits its1 -> Forall item_fits its2 ->
  WriteAny h data1 = (h', Ret u1) -> WriteAny h data2 = (h', Ret u2) ->
  its1 = its2.
Proof. apply WriteAny_inj. Qed.

(** Commitments bind.  Whoever opens one commitment to two values has
    opened it to the same value with the same decommitment, or holds two hash
    inputs that collide. *)
Theorem commitment_binds h c d1 d2 data1 data2 its1 its2 :
  items_of data1 = Ret its1 -> items_of data2 = Ret its2 ->
  Forall item_fits its1 -> Forall item_fits its2 ->
  Decommit h c d1 data1 = true -> Decommit h c d2 data2 = true ->
  (its1 = its2 /\ d1 = d2) \/ collides (decommit_state h its1 d1) (decommit_state h its2 d2).
Proof. apply Decommit_binding. Qed.

(** What [Commit] returns opens, provided neither the digest nor the
    nonce consists of zeros only (which [Validate] refuses). *)
Theorem commitment_opens h rand rand' data c d :
  Commit h rand data = Ret (c, d, rand') ->
  Commitment_Validate c = Ret tt -> Decommitment_Validate d = Ret tt ->
  Decommit h c d data = true.
Proof. apply Commit_Decommit. Qed.

(** The hash of a message, which the echo broadcast relies on,
    determines every field of the message, unless two hashed states collide. *)
Theorem message_hash_binds m1 m2 :
  message_fits m1 -> message_fits m2 -> Message_Hash m1 = Message_Hash m2 ->
  m1 = m2 \/ collides (Message_state m1) (Message_state m2).
Proof. apply Message_Hash_binds. Qed.

End HashThms.

(** ** Parties and sessions *)

(** Party lists behave as sets.  [NewIDSlice] does not depend on the
    order of its argument, keeps exactly its elements, and is valid if and only
    if nothing is repeated; the binary search of [Contains] decides membership;
    and [Remove] takes out exactly the given party. *)
Theorem id_slice_set l :
  (forall l', l ≡ₚ l' -> NewIDSlice l = NewIDSlice l') /\
  NewIDSlice l ≡ₚ l /\ (Valid (NewIDSlice l) = true <-> NoDup l) /\
  (forall ids, Contains (NewIDSlice l) ids = true <-> Forall (fun x => x ∈ l) ids) /\
  (forall id x, x ∈ Remove (NewIDSlice l) id <-> x ∈ l /\ x <> id).
Proof.
  split_and!.
  - intros l'. apply NewIDSlice_order_irrelevant.
  - apply NewIDSlice_perm.
  - apply NewIDSlice_Valid.
  - intros ids. rewrite Contains_spec by apply NewIDSlice_sorted.
    rewrite !list.Forall_forall. by setoid_rewrite (NewIDSlice_perm l).
  - intros id x. rewrite elem_of_Remove, (NewIDSlice_perm l). done.
Qed.

(** Different party names give different interpolation points, for
    names that are shorter than the scalars and do not start with a zero byte. *)
Theorem party_points_distinct `{Curve} id1 id2 :
  canonical_id id1 = true -> canonical_id id2 = true -> small_id id1 -> small_id id2 ->
  ID_Scalar id1 = ID_Scalar id2 -> id1 = id2.
Proof. apply ID_Scalar_inj. Qed.

(** What a created session guarantees.  The parties are the sorted,
    duplicate-free participants, the own id is one of them and the others are
    the rest, and the threshold is below their number and fits 32 bits. *)
Theorem session_guarantees `{Blake3} i sid aux h :
  NewSession i sid aux = Ret h ->
  NoDup (partyIDs h) /\ partyIDs h ≡ₚ i_PartyIDs i /\ partyIDs h ≡ₚ SelfID i :: otherPartyIDs h /\
  (0 <= Threshold i < Z.of_nat (length (i_PartyIDs i)))%Z /\ (Threshold i < 2 ^ 32)%Z.
Proof.
  intros [S <-]%NewSession_ok. split; [|split; [|split; [|split]]].
  - by apply session_ok_NoDup.
  - rewrite (so_ids h S). apply NewIDSlice_perm.
  - by apply session_ok_split.
  - pose proof (so_threshold h S) as Ht. rewrite (session_ok_N h S) in Ht. exact Ht.
  - apply (so_threshold32 h S).
Qed.

(** The session id does not determine the participants.  The party list
    is hashed as the bare concatenation of the names, so two sessions of
    different participants (here with the same own id, protocol, threshold and
    session id) have the same SSID, for every hash function. *)
Theorem ssid_ambiguous `{Blake3} protocol final t g sid :
  (0 <= t <= 2)%Z ->
  exists h1 h2,
    NewSession (mkInfo protocol final "x" ["a"; "bc"; "x"] t g) sid [] = Ret h1 /\
    NewSession (mkInfo protocol final "x" ["ab"; "c"; "x"] t g) sid [] = Ret h2 /\
    ssid h1 = ssid h2 /\ partyIDs h1 <> partyIDs h2.
Proof.
  intros Ht.
  destruct (NewSession_ret (mkInfo protocol final "x" ["a"; "bc"; "x"] t g) sid) as (h1 & E1 & P1 & H1);
    [by apply (bool_decide_unpack _)|by right; right; left|cbn; lia|cbn; lia|].
  destruct (NewSession_ret (mkInfo protocol final "x" ["ab"; "c"; "x"] t g) sid) as (h2 & E2 & P2 & H2);
    [by apply (bool_decide_unpack _)|by right; right; left|cbn; lia|cbn; lia|].
  exists h1, h2. split; [done|]. split; [done|].
  destruct (NewSession_ok _ _ _ _ E1) as [S1 _], (NewSession_ok _ _ _ _ E2) as [S2 _].
  split; [|by rewrite P1, P2].
  rewrite (so_ssid h1 S1), (so_ssid h2 S2), H1, H2. do 4 f_equal.
Qed.

(** ** Polynomials *)

Section PolynomialThms.
Context {C : Curve} {CL : CurveLaws C}.
Local Open Scope curve_scope.

(** Interpolation.  For parties with distinct, non-zero points,
    [Lagrange] returns coefficients that recover the constant term of every
    polynomial of degree below the number of parties from its values. *)
Theorem lagrange_interpolates ids :
  ids_ok ids ->
  exists m, Lagrange ids = Ret m /\
    forall l, (length l <= length ids)%nat ->
      sumS (fun id => getS m id * horner (ID_Scalar id) l) ids = horner 0 l.
Proof.
  intros Hok. destruct (Lagrange_spec ids Hok) as (m & E & _). exists m. split; [done|].
  intros l Hl. by apply Lagrange_horner.
Qed.

(** Evaluation in the exponent.  Horner evaluation, the
    straightforward sum of powers, and the evaluation of the secret polynomial
    agree; and the sum of commitments evaluates to the sum of the evaluations. *)
Theorem exponent_evaluation :
  (forall e x, evaluateClassic e x = Exponent_Evaluate e x) /\
  (forall p e x, NewPolynomialExponent p = Ret e -> Exponent_Evaluate e x = horner x (coefficients p) • 𝐆) /\
  (forall es r x, Polynomial.Sum es = Ret r ->
     Exponent_Evaluate r x = sumP (fun e => Exponent_Evaluate e x) es).
Proof.
  split; [|split].
  - apply evaluateClassic_spec.
  - apply Exponent_Evaluate_base.
  - intros es r x E. by apply Sum_ret.
Qed.

(** ** The Schnorr proof of knowledge *)

(** Proofs of a true statement verify. *)
Theorem schnorr_complete `{Blake3} h public private gen rand p rand' :
  public = private • gen_or_base gen ->
  NewProof h public private gen rand = Ret (p, rand') ->
  Proof_IsValid (Some p) = true -> Proof_Verify (Some p) h public gen = Ret true.
Proof. apply sch_complete. Qed.

(** C34: special soundness.  Two accepted answers to different challenges on
    one commitment give away the discrete logarithm of the public point. *)
Theorem schnorr_sound `{Blake3} h1 h2 public commitment gen z1 z2 e1 e2 :
  challenge h1 commitment public (gen_or_base gen) = Ret e1 ->
  challenge h2 commitment public (gen_or_base gen) = Ret e2 -> e1 <> e2 ->
  Response_Verify (Some z1) h1 public commitment gen = Ret true ->
  Response_Verify (Some z2) h2 public commitment gen = Ret true ->
  public = ((z1 - z2) / (e1 - e2)) • gen_or_base gen.
Proof. apply sch_special_soundness. Qed.

End PolynomialThms.

(** ** BIP-340 signatures and key derivation *)

Section KeyThms.
Context {C : Curve} {CL : CurveLaws C} {X : XOnly C} {XL : XOnlyLaws C X}.
Local Open Scope curve_scope.

(** C24: [Verify] is the BIP-340 check.  It accepts exactly the byte
    strings that encode an even, non-identity point R and a scalar s with
    s G = R + e P, where P is the even point with the x coordinate of the key
    and e is the tagged challenge hash. *)
Theorem bip340_verify pk sig m :
  Verify pk sig m = true <->
  exists P R s, LiftX pk = Ret P /\ R <> 𝟎 /\ HasEvenY R = true /\
    sig = XBytes R ++ SMarshal s /\ s • 𝐆 = R ⊕ tap_challenge (XBytes R) pk m • P.
Proof. apply Verify_spec. Qed.

(** Key generation ends with a usable key as soon as the source of
    randomness yields one in range, and what it returns is a key pair. *)
Theorem genkey_works fuel f off calls :
  (exists i, (i < fuel)%nat /\
    is_ret (Public (map f (seq (off + i * SecretKeyLength) SecretKeyLength))) = true) ->
  exists secret public rand',
    GenKey fuel (Reader f off (fun _ => false) calls) = Some (Ret (secret, public), rand') /\
    Public secret = Ret public.
Proof.
  intros Hi. destruct (GenKey_ends fuel f off calls Hi) as (s & p & r & E).
  exists s, p, r. split; [done|]. by eapply GenKey_Public.
Qed.

(** Derivation keeps a key a key.  From a valid configuration, every
    derived child is a valid configuration of the same sharing, shifted by the
    public tweak: party, threshold and participants stay. *)
Theorem derive_child_valid L c i c' :
  Config_valid L c -> DeriveChild c i = Ret c' ->
  exists a, Config_valid (shift_key (a • 𝐆) L) c' /\ c_PublicKey c' = c_PublicKey c ⊕ a • 𝐆 /\
    c_ID c' = c_ID c /\ c_Threshold c' = c_Threshold c /\
    dom (c_VerificationShares c') = dom (c_VerificationShares c).
Proof.
  intros V. unfold DeriveChild. intros ([a ck] & _ & E)%bind_ret_inv. exists a.
  destruct (Derive_valid _ _ _ _ _ V E) as [V' EY]. split; [done|]. split; [done|].
  unfold Derive in E. apply bind_ret_inv in E as (k & _ & [= <-]). cbn. by rewrite dom_fmap_L.
Qed.

(** The same for Taproot configurations, which negate the shares when
    the tweaked key is odd: the child key lifts to the even point. *)
Theorem taproot_derive_valid L c adjust ck c' :
  Taproot_valid L c -> Taproot_Derive c adjust ck = Ret c' ->
  (forall Y, LiftX (t_PublicKey c) = Ret Y -> Y ⊕ adjust • 𝐆 <> 𝟎) ->
  exists L', Taproot_valid L' c' /\
    (L' = shift_key (ActOnBase adjust) L \/ L' = PNegate <$> shift_key (ActOnBase adjust) L).
Proof. apply Taproot_Derive_valid. Qed.

End KeyThms.

(** The order of the group is prime, so scalars form a field. *)
Theorem secp256k1_scalars_field : Z.prime secp256k1_order /\ (2 ^ 255 < secp256k1_order < 2 ^ 256)%Z.
Proof. split; [apply secp256k1_order_prime|]. by vm_compute. Qed.

(** A scalar survives its 32-byte encoding, whatever the receiver held. *)
Theorem scalar_roundtrip {C : Curve} {CL : CurveLaws C} (s0 s : Scalar) :
  SUnmarshal s0 (SMarshal s) = (s, Ret tt) /\ length (SMarshal s) = 32%nat.
Proof. split; [apply SUnmarshal_SMarshal|apply SMarshal_length]. Qed.

(** ** The example protocol *)

(** The XOR protocol on the handler.  When the handler of a participant
    reports a result, it is the exclusive or of 32-byte contributions, one of
    every participant, its own included. *)
Theorem xor_result `{Blake3} {MO : MapOrder} {MOL : MapOrderLaws} {CB : Cbor Round2Message}
    self ids sid r rand h res :
  StartXOR self ids sid = Ret (Running r) -> handler_run r rand h -> result h = Some res ->
  exists received, dom received = list_to_set (NewIDSlice ids) /\
    map_Forall (fun _ b => length b = 32%nat) received /\ res = xor_of received.
Proof.
  unfold StartXOR. intros (hp & E%wrap_err_ret & [= <-])%bind_ret_inv Hr Er.
  destruct (NewSession_ok _ _ _ _ E) as [S Ei].
  destruct (handler_run_inv (RO := xor_ops) (Round1 hp) S rand h Hr) as [(r & B & M & C' & _)|(_ & _ & D & _)].
  - rewrite (hc_result _ _ _ _ _ C') in Er. done.
  - destruct (xor_delivered hp res S) as (rc & D1 & D2 & D3); [by rewrite Ei|by apply D|].
    exists rc. split; [|done]. rewrite D1, (so_ids hp S), Ei. done.
Qed.

(** ** Witnesses *)

Definition set_to (m : Message) (to : ID) : Message :=
  mkMessage (SSID m) (From m) to (Protocol m) (RoundNumber m) (Data m) (Broadcast m) (BroadcastVerification m).

Definition toy_data : list any := [BytesWithDomain "Value" (Some [x01; x02])].
Definition toy_items : list (string * bytes) := [("Value", [x01; x02])].

Lemma toy_items_fit : Forall item_fits toy_items.
Proof. apply list.Forall_singleton. by vm_compute. Qed.

(** The same content from a value of another type. *)
Definition toy_data' : list any := [AWriterTo "other.Type" "Value" (Ret [x01; x02])].

Lemma write_injective_witness : items_of toy_data = items_of toy_data'.
Proof.
  exact (f_equal Ret (write_injective [] toy_data toy_data' _ tt tt toy_items toy_items eq_refl eq_refl
    toy_items_fit toy_items_fit eq_refl eq_refl)).
Defined.

Definition toy_commit : bytes * bytes :=
  match Commit [] (toy_rand 3) toy_data with Ret (c, d, _) => (c, d) | _ => ([], []) end.

Lemma commitment_binds_witness :
  (toy_items = toy_items /\ toy_commit.2 = toy_commit.2) \/
  collides (decommit_state [] toy_items toy_commit.2) (decommit_state [] toy_items toy_commit.2).
Proof.
  apply (commitment_binds [] toy_commit.1 toy_commit.2 toy_commit.2 toy_data toy_data);
    [reflexivity|reflexivity|exact toy_items_fit|exact toy_items_fit|by vm_compute|by vm_compute].
Defined.

Lemma commitment_opens_witness : Decommit [] toy_commit.1 toy_commit.2 toy_data = true.
Proof.
  destruct (Commit [] (toy_rand 3) toy_data) as [[[c d] r]| |] eqn:E; [|vm_compute in E; discriminate E..].
  assert (toy_commit = (c, d)) as Ec by (unfold toy_commit; by rewrite E).
  rewrite Ec. apply (commitment_opens [] (toy_rand 3) r toy_data c d E).
  - change c with (c, d).1. rewrite <- Ec. by vm_compute.
  - change d with (c, d).2. rewrite <- Ec. by vm_compute.
Defined.

Definition toy_message0 : Message := mkMessage (Some [x01]) "a" "" "p" 2 (Some [x02]) true None.

Lemma toy_message0_fits : message_fits toy_message0.
Proof. constructor; [done|by vm_compute|]. by apply (bool_decide_unpack _). Qed.

Lemma message_hash_binds_witness :
  toy_message0 = toy_message0 \/ collides (Message_state toy_message0) (Message_state toy_message0).
Proof. exact (message_hash_binds toy_message0 toy_message0 toy_message0_fits toy_message0_fits eq_refl). Defined.

Lemma party_points_distinct_witness : "a" = "a".
Proof. apply (party_points_distinct (H := toy_curve) "a" "a"); by vm_compute. Defined.

Definition toy_info : Info := mkInfo "protocol" 2 "b" toy_ids 1 None.

Lemma session_guarantees_witness : exists h, NewSession toy_info None [] = Ret h /\ NoDup (partyIDs h).
Proof.
  destruct (NewSession toy_info None []) as [h| |] eqn:E; [|vm_compute in E; discriminate E..].
  exists h. split; [reflexivity|]. exact (proj1 (session_guarantees toy_info None [] h E)).
Defined.

Lemma ssid_ambiguous_witness : exists h1 h2,
  NewSession (mkInfo "p" 2 "x" ["a"; "bc"; "x"] 1 None) None [] = Ret h1 /\
  NewSession (mkInfo "p" 2 "x" ["ab"; "c"; "x"] 1 None) None [] = Ret h2 /\
  ssid h1 = ssid h2 /\ partyIDs h1 <> partyIDs h2.
Proof. apply (ssid_ambiguous "p" 2 1 None None). lia. Defined.

Lemma toy_ids_ok : @ids_ok toy_curve toy_ids.
Proof. by apply (bool_decide_unpack _). Qed.

Lemma lagrange_interpolates_witness : exists m, @Lagrange toy_curve toy_ids = Ret m /\
  @sumS toy_curve _ (fun id => (@getS toy_curve m id * horner (ID_Scalar id) toy_key)%C) toy_ids
  = @horner toy_curve Zmod.zero toy_key.
Proof.
  destruct (lagrange_interpolates toy_ids toy_ids_ok) as (m & E & H). exists m. split; [exact E|].
  apply (H toy_key). cbn. lia.
Defined.

Definition toy_exponent : @Exponent toy_curve := mkExponent false (toy_key : list (@Point toy_curve)).

Lemma exponent_evaluation_witness :
  @evaluateClassic toy_curve toy_exponent (Zmod.of_Z _ 3) = @Exponent_Evaluate toy_curve toy_exponent (Zmod.of_Z _ 3).
Proof. exact (proj1 (exponent_evaluation (C := toy_curve)) _ _). Defined.

Definition toy_secret : Zmod.Zmod toy_order := Zmod.of_Z toy_order 7.
Definition toy_point : @Point toy_curve := @ActOnBase toy_curve toy_secret.

Definition valid_proof (o : outcome (@Proof toy_curve * reader)) : bool :=
  match o with Ret (p, _) => Proof_IsValid (Some p) | _ => false end.

Lemma valid_proof_ret o :
  valid_proof o = true -> exists p rand', o = Ret (p, rand') /\ Proof_IsValid (Some p) = true.
Proof. destruct o as [[p r]| |]; [|done..]. by exists p, r. Qed.

Lemma schnorr_complete_witness : exists p rand',
  NewProof (C := toy_curve) [] toy_point toy_secret None (toy_rand 1) = Ret (p, rand') /\
  Proof_Verify (Some p) [] toy_point None = Ret true.
Proof.
  assert (valid_proof (NewProof (C := toy_curve) [] toy_point toy_secret None (toy_rand 1)) = true) as T
    by by vm_compute.
  destruct (valid_proof_ret _ T) as (p & r & E & V). exists p, r. split; [exact E|].
  exact (schnorr_complete [] toy_point toy_secret None (toy_rand 1) p r eq_refl E V).
Defined.

(** The challenges of two sessions on one commitment, and the answers. *)
Definition toy_challenge (h : Hash) : Zmod.Zmod toy_order :=
  match challenge (C := toy_curve) h (Zmod.of_Z toy_order 5) toy_point 𝐆%C with Ret e => e | _ => Zmod.zero end.

Definition toy_answer (h : Hash) : Zmod.Zmod toy_order :=
  Zmod.add (Zmod.mul (toy_challenge h) toy_secret) (Zmod.of_Z toy_order 5).

Lemma schnorr_sound_witness :
  toy_point = (((toy_answer [] - toy_answer [x01]) / (toy_challenge [] - toy_challenge [x01])) • 𝐆)%C.
Proof.
  apply (schnorr_sound (C := toy_curve) [] [x01] toy_point (Zmod.of_Z toy_order 5) None
           (toy_answer []) (toy_answer [x01]) (toy_challenge []) (toy_challenge [x01])).
  - by vm_compute.
  - by vm_compute.
  - apply (bool_decide_unpack _). by vm_compute.
  - by vm_compute.
  - by vm_compute.
Defined.

Lemma bip340_verify_witness : exists P R s, LiftX toy_pk = Ret P /\ R <> 𝟎%C /\ HasEvenY R = true /\
  toy_sig = XBytes R ++ SMarshal s /\ (s • 𝐆 = R ⊕ tap_challenge (XBytes R) toy_pk toy_msg • P)%C.
Proof. apply (proj1 (bip340_verify (C := toy_curve) toy_pk toy_sig toy_msg)). by vm_compute. Defined.

(** The first candidate is zero, the second is a key. *)
Definition toy_bytes (n : nat) : byte := if (n =? 63)%nat then x05 else x00.

Lemma genkey_works_witness : exists secret public rand',
  GenKey (C := toy_curve) 2 (Reader toy_bytes 0 (fun _ => false) 0) = Some (Ret (secret, public), rand') /\
  Public (C := toy_curve) secret = Ret public.
Proof. apply (genkey_works (C := toy_curve) 2 toy_bytes 0 0). exists 1%nat. split; [lia|by vm_compute]. Defined.

(** A one-of-one key in the group of full order, with a chain key. *)
Definition big_config : @Config big_curve :=
  mkConfig (C := big_curve) "a" 0 (Zmod.of_Z _ 34) (Zmod.of_Z _ 34) (replicate 32 x01) ∅.

Lemma big_config_valid : @Config_valid big_curve [Zmod.of_Z secp256k1_order 34] big_config.
Proof.
  split; [split; [done|]; split; [done|]; split|].
  - by vm_compute.
  - intros k P. cbn [c_VerificationShares big_config]. intros E. by rewrite lookup_empty in E.
  - by vm_compute.
Qed.

Lemma derive_child_valid_witness : exists c' a,
  DeriveChild big_config 3 = Ret c' /\ (c_PublicKey c' = c_PublicKey big_config ⊕ a • 𝐆)%C.
Proof.
  destruct (is_ret_true (DeriveChild big_config 3) ltac:(by vm_compute)) as [c' E].
  destruct (derive_child_valid (CL := big_laws) _ _ 3 c' big_config_valid E) as (a & _ & EY & _).
  exists c', a. exact (conj E EY).
Defined.

Lemma taproot_derive_valid_witness : exists c' L',
  Taproot_Derive (toy_tconfig "a") (Zmod.of_Z toy_order 3) (replicate 32 x01) = Ret c' /\ Taproot_valid L' c'.
Proof.
  assert (is_ret (Taproot_Derive (toy_tconfig "a") (Zmod.of_Z toy_order 3) (replicate 32 x01)) = true) as T
    by by vm_compute.
  destruct (is_ret_true _ T) as [c' E]. clear T.
  destruct (taproot_derive_valid _ _ _ _ c' (toy_tconfig_valid "a") E) as (L' & V & _).
  - intros Y EY. assert (Ret Y = Ret toy_public) as [= ->] by (rewrite <- EY; by vm_compute).
    apply (bool_decide_unpack _). by vm_compute.
  - exists c', L'. exact (conj E V).
Defined.

Lemma scalar_roundtrip_witness :
  SUnmarshal (H := toy_curve) Zmod.zero (SMarshal (H := toy_curve) toy_secret) = (toy_secret, Ret tt).
Proof. exact (proj1 (scalar_roundtrip (C := toy_curve) _ _)). Defined.

Lemma xor_result_witness : exists received res,
  result (xor_at 1 1) = Some res /\ dom received = list_to_set toy_ids /\ res = xor_of received.
Proof.
  assert (is_some (result (xor_at 1 1)) = true) as T by by vm_compute.
  apply (some_default _ []) in T.
  assert (StartXOR "b" toy_ids (Some [x01]) = Ret (Running (xor_first "b"))) as Es.
  { assert (is_ret (StartXOR "b" toy_ids (Some [x01])) = true) as Ti by by vm_compute.
    revert Ti. clear. unfold xor_first, StartXOR. by destruct (NewSession _ _ _). }
  destruct (xor_result "b" toy_ids (Some [x01]) _ (toy_rand 2) (xor_at 1 1) _ Es xor_after T) as (rc & D & _ & E).
  exists rc, (default [] (result (xor_at 1 1))). exact (conj T (conj D E)).
Defined.
