(* ===== verification/ServiceThms.v ===== *)
(** * Theorems about the key generation services

    Whatever requests a client sends, the executions of a service are runs of
    the handler, so a share that a service hands out is a share of a key; what
    errors do to an execution; and that session context tokens and stored key
    shares survive their encodings. *)

From Stdlib Require Import ZArith Lia.
From Stdlib Require Import Strings.Byte.
From stdpp Require Import base gmap strings list pretty numbers sorting.
From S2P Require Import Prelude Hash Curve Party Polynomial Round Message Handler HandlerSpec HandlerInv GoText.
From S2P Require Import FrostConfig FrostKeygen FrostKeygenProps TaprootCodec Service SchnorrImpl.
From S2P Require Import Toy Codec Network Lockstep Runs HandlerThms KeygenThms.

Local Open Scope Z_scope.

(** ** Executions are runs of the handler *)

Section Executions.
Context {C : Curve} {CL : CurveLaws C} {X : XOnly C} {XL : XOnlyLaws C X} `{Blake3}.
Context {MO : MapOrder} {MOL : MapOrderLaws}.
Context {CB : Cbor kg_content} {CM : Cbor Message} {CW : Cbor taprootConfigMarshalled}.

(** What an execution was started with: the own id, the participants and the
    threshold. *)
Definition params : Type := ID * list ID * Z.

Definition runs_for (p : params) (h : @MultiHandler kg_round kg_result) : Prop :=
  exists sid r0 cap rand,
    StartKeygenCommon true p.1.2 p.2 p.1.1 ∅ fresh_start sid = (Ret (Running (KG1 r0)), cap) /\
    handler_run (KG1 r0) rand h.

Lemma drop_run (r0 : kg_round) rand h l rest :
  handler_run r0 rand h -> ch_buf (out h) = l ++ rest ->
  handler_run r0 rand (set_out h (mkChan (ch_cap (out h)) rest)).
Proof.
  revert h. induction l as [|m l IH]; intros h Hr E; cbn in E.
  - destruct h as [c rs e res ms br bh [cap b] cl rd]. cbn in E. subst b. exact Hr.
  - assert (handler_run r0 rand (set_out h (mkChan (ch_cap (out h)) (l ++ rest)))) as Hr'.
    { eapply (run_receive _ _ h m); [exact Hr|]. unfold Receive. by rewrite E. }
    exact (IH (set_out h (mkChan (ch_cap (out h)) (l ++ rest))) Hr' eq_refl).
Qed.

Lemma drain_loop_suffix buf rest r : drain_loop buf = (rest, r) -> exists l, buf = l ++ rest.
Proof.
  revert rest r. induction buf as [|m buf IH]; intros rest r E; cbn in E; [injection E as <- _; by exists []|].
  destruct (Message_MarshalBinary m) as [d| |]; cbn in E; [|injection E as <- _; by exists [m]..].
  destruct (drain_loop buf) as [rest' r'] eqn:Ed. destruct (IH rest' r' eq_refl) as [l ->].
  exists (m :: l). destruct r'; injection E as <- _; done.
Qed.

Lemma drainOutbound_run p h h' r : runs_for p h -> drainOutbound h = (h', r) -> runs_for p h'.
Proof.
  intros (sid & r0 & cap & rand & Es & Hr) E. unfold drainOutbound in E.
  destruct (drain_loop (ch_buf (out h))) as [rest r'] eqn:Ed. injection E as <- _.
  apply drain_loop_suffix in Ed as [l El]. exists sid, r0, cap, rand. split; [done|]. by eapply drop_run.
Qed.

Lemma accept_all_run p inbound h n h' n' e :
  runs_for p h -> accept_all h n inbound = AOk h' n' e -> runs_for p h'.
Proof.
  revert h n. induction inbound as [|m inbound IH]; intros h n Hr E; cbn in E; [by injection E as <- _ _|].
  destruct (DecodeProtocolMessageFromString m) as [msg| |]; [|by injection E as <- _ _|done].
  destruct (Accept h msg) as [h1| | |] eqn:Ea; [|done..]. eapply IH; [|exact E].
  destruct Hr as (sid & r0 & cap & rand & Es & Hr). exists sid, r0, cap, rand. split; [done|].
  by eapply run_accept.
Qed.

(** Every execution was started by a recorded call. *)
Definition service_ok (g : gmap string params) (s : service) : Prop :=
  forall id h, executions s !! id = Some h -> exists p, g !! id = Some p /\ runs_for p h.

Lemma delete_ok g s id : service_ok g s -> service_ok g (deleteExecution s id).
Proof. intros Hs k h. cbn. intros [_ E]%lookup_delete_Some. by apply Hs. Qed.

Lemma put_ok g s id p h : service_ok g s -> g !! id = Some p -> runs_for p h -> service_ok g (putExecution s id h).
Proof.
  intros Hs Hg Hr k h'. cbn. intros [[<- <-]|[N E]]%lookup_insert_Some; [by exists p|by apply Hs].
Qed.

Lemma start_running self ids t sid s cap :
  StartKeygenCommon true ids t self ∅ fresh_start sid = (Ret s, cap) ->
  exists r0, s = Running (KG1 r0).
Proof.
  unfold StartKeygenCommon. destruct (NewSession _ _ _); [|done..]. cbn. intros [= <- _]. by eexists.
Qed.

(** A launched execution runs for its parameters; everything else stays. *)
Lemma launch_ok {A} g s self ids t sessionID hrand (error : string -> string -> A) pending s' a :
  service_ok g s ->
  launch s (fun sid => (StartKeygenCommon true ids t self ∅ fresh_start sid).1) sessionID hrand error pending
    = SRet s' a ->
  (exists stateID outbound, a = pending stateID outbound /\
     service_ok (<[stateID := (self, ids, t)]> g) s') \/
  (exists stateID e, a = error stateID e /\ service_ok g s').
Proof.
  intros Hs. unfold launch, NewMultiHandler.
  destruct (StartKeygenCommon true ids t self ∅ fresh_start (Some sessionID)) as [o cap] eqn:Est. cbn [fst].
  destruct o as [r|e|q]; cbn [wrap_err mbind outcome_bind]; [|intros [= <- <-]; right; by eexists _, _|done].
  destruct (finalize finalize_fuel (initial_handler r hrand)) as [h| | |] eqn:Ef; [|done..].
  destruct (newStateID (sv_rand s)) as [[stateID|e|q] rand]; [|intros [= <- <-]; right; by eexists _, _|done].
  destruct (start_running _ _ _ _ _ _ Est) as [r0 ->].
  assert (runs_for (self, ids, t) h) as Hr.
  { exists (Some sessionID), r0, cap, hrand. split; [done|]. by apply run_new. }
  destruct (drainOutbound h) as [h' [outbound|e|q]] eqn:Ed; [| |done]; intros [= <- <-].
  - left. exists stateID, outbound. split; [done|]. intros k hk. cbn.
    intros [[<- <-]|[N Ek]]%lookup_insert_Some.
    + exists (self, ids, t). rewrite lookup_insert_eq. split; [done|]. by eapply drainOutbound_run.
    + rewrite lookup_insert_ne by done. by apply Hs.
  - right. exists stateID, e. split; [done|]. by apply delete_ok.
Qed.

(** A response that reports a finished key generation carries the encoding of
    a result of the execution, which is then forgotten. *)
Lemma continue_ok encode g s id h inbound s' resp :
  service_ok g s -> getExecution s id = Some h ->
  continue_with encode s id h inbound = SRet s' resp ->
  service_ok g s' /\ resp_StateID resp = id /\
  (Status resp = keygenStatusDone ->
   exists p h' c, g !! id = Some p /\ runs_for p h' /\ Result_ h' = Ret (RTaproot c) /\
     encode (Some c) = Ret (EncodedKeyShare resp) /\ executions s' !! id = None).
Proof.
  intros Hs Eg. destruct (Hs id h Eg) as (p & Hp & Hr). unfold continue_with, failAndCleanup.
  destruct (accept_all h 0 inbound) as [h1 n [e|]| | |] eqn:Ea; [| |done..].
  { intros [= <- <-]. split; [|done]. apply (accept_all_run p) in Ea; [|done]. by eapply put_ok. }
  apply (accept_all_run p) in Ea; [|done].
  destruct (drainOutbound h1) as [h2 [outb|e|q]] eqn:Ed; [| |done].
  2: { intros [= <- <-]. split; [by apply delete_ok|done]. }
  apply (drainOutbound_run p) in Ed; [|done].
  destruct (Result_ h2) as [[c|c]|e|q] eqn:Er; [| | |done].
  - intros [= <- <-]. split; [by apply delete_ok|done].
  - destruct (encode (Some c)) as [enc|e|q] eqn:Ee; [| |done]; intros [= <- <-];
      (split; [by apply delete_ok|]); (split; [done|]); [|done].
    intros _. exists p, h2, c. split_and!; [done..|]. cbn. apply lookup_delete_eq.
  - destruct (isNotFinished e); cbn [negb]; intros [= <- <-]; (split; [|done]);
      [by eapply put_ok|by apply delete_ok].
Qed.

(** A result of an execution is a share of a key. *)
Lemma runs_for_output p h c :
  runs_for p h -> Result_ h = Ret (RTaproot c) ->
  exists L, holds_key true p.1.2 p.2 p.1.1 L (RTaproot c).
Proof.
  intros (sid & r0 & cap & rand & Es & Hr) Er. unfold Result_ in Er.
  destruct (result h) as [res|] eqn:E; [|by destruct (err h)]. injection Er as ->. by eapply keygen_output.
Qed.

End Executions.

(** ** Calls of a service

    A service and the parameters its executions were started with, after any
    sequence of calls. *)

Section Calls.
Context {C : Curve} {Req Resp : Type}.
Variable call : service -> Req -> reader -> sres Resp.
Variable started_by : Req -> Resp -> option (string * params).

Definition record (g : gmap string params) (req : Req) (resp : Resp) : gmap string params :=
  match started_by req resp with
  | Some (id, p) => <[id := p]> g
  | None => g
  end.

Inductive service_run : gmap string params -> service -> Prop :=
| service_new rand : service_run ∅ (mkService ∅ rand)
| service_call g s req hrand s' resp :
    service_run g s -> call s req hrand = SRet s' resp -> service_run (record g req resp) s'.

End Calls.

(** The parameters of the execution that an answered request started. *)
Definition frost_started_by (req : outcome KeyGenRequest) (resp : KeyGenResponse) : option (string * params) :=
  match req with
  | Ret req =>
      if bool_decide (ToLower (TrimSpace (Action req)) = "init" /\ Status resp = keygenStatusPending)
      then Some (resp_StateID resp, (req_SelfID req, Participants req, req_Threshold req))
      else None
  | _ => None
  end.

Definition schnorr_started_by {J : Json SchnorrKeyGenSessionContext} (req : outcome SchnorrKeyGenRequest)
    (resp : SchnorrKeyGenResponse) : option (string * params) :=
  match req with
  | Ret req =>
      if bool_decide (Phase req = KeyGenPhaseInit /\ sresp_Status resp = keygenStatusPending)
      then match DecodeSchnorrKeyGenSessionContext (SessionContext req) with
           | Ret ctx => Some (sresp_StateID resp,
                              (TrimSpace (sreq_SelfID req), ctx_Participants ctx, ctx_Threshold ctx))
           | _ => None
           end
      else None
  | _ => None
  end.

Section Services.
Context {C : Curve} {CL : CurveLaws C} {X : XOnly C} {XL : XOnlyLaws C X} `{Blake3}.
Context {MO : MapOrder} {MOL : MapOrderLaws} {ML : MarshalLaws C}.
Context {CB : Cbor kg_content} {CM : Cbor Message} {CW : Cbor taprootConfigMarshalled}.
Context {J : Json SchnorrKeyGenSessionContext}.

(** What a finished call hands out. *)
Definition hands_out (encode : option TaprootConfig -> outcome string) (g : gmap string params)
    (id share : string) (s : service) : Prop :=
  exists self ids t c L, g !! id = Some (self, ids, t) /\ encode (Some c) = Ret share /\
    holds_key true ids t self L (RTaproot c) /\ executions s !! id = None.

Lemma continue_hands_out encode g s id h inbound s' resp :
  service_ok g s -> getExecution s id = Some h ->
  continue_with encode s id h inbound = SRet s' resp ->
  service_ok g s' /\
  (Status resp = keygenStatusDone -> hands_out encode g (resp_StateID resp) (EncodedKeyShare resp) s').
Proof.
  intros Hs Eg E. destruct (continue_ok _ _ _ _ _ _ _ _ Hs Eg E) as (Hs' & -> & Hd). split; [done|].
  intros D. destruct (Hd D) as ([[self ids] t] & h' & c & Hg & Hr & Er & Ee & En).
  destruct (runs_for_output _ _ _ Hr Er) as [L HL]. by exists self, ids, t, c, L.
Qed.

Lemma frost_not_started req resp : Status resp <> keygenStatusPending -> frost_started_by req resp = None.
Proof. intros N. destruct req; [|done..]. cbn. rewrite bool_decide_false; [done|]. by intros [_ ?]. Qed.

Lemma schnorr_not_started req resp :
  sresp_Status resp <> keygenStatusPending -> schnorr_started_by req resp = None.
Proof. intros N. destruct req; [|done..]. cbn. rewrite bool_decide_false; [done|]. by intros [_ ?]. Qed.

Ltac not_started := unfold record; rewrite ?frost_not_started, ?schnorr_not_started by done.
Ltac answered := intros [= <- <-]; not_started; by split.

Lemma KeyGen_step g s req hrand s' resp :
  service_ok g s -> KeyGen s req hrand = SRet s' resp ->
  service_ok (record frost_started_by g req resp) s' /\
  (Status resp = keygenStatusDone ->
   hands_out EncodeTaprootConfigToString g (resp_StateID resp) (EncodedKeyShare resp) s').
Proof.
  intros Hs. unfold KeyGen. destruct req as [req|e|q]; [|answered|done].
  destruct (decide (ToLower (TrimSpace (Action req)) = "init")) as [Ea|Na].
  - unfold handleInit. repeat (case_match; [answered|]).
    destruct (parseOrCreateSessionID _ _) as [[[sid b64]|e|q] rand]; [|answered|done].
    intros E. apply (launch_ok g) in E; [|exact Hs].
    destruct E as [(id & outb & -> & Hs')|(id & e & -> & Hs')]; [|by not_started].
    split; [|done]. unfold record, frost_started_by. by rewrite bool_decide_true.
  - destruct (decide _); [|answered]. unfold handleContinue.
    destruct (decide _); [answered|]. destruct (getExecution _ _) eqn:Eg; [|answered].
    intros E. unfold record, frost_started_by. rewrite bool_decide_false by (by intros [? _]).
    by eapply continue_hands_out.
Qed.

Lemma schnorr_KeyGen_step g s req hrand s' resp :
  service_ok g s -> schnorr_KeyGen s req hrand = SRet s' resp ->
  service_ok (record schnorr_started_by g req resp) s' /\
  (sresp_Status resp = keygenStatusDone ->
   hands_out EncodeTaprootKeyShareForStorage g (sresp_StateID resp) (sresp_EncodedKeyShare resp) s').
Proof.
  intros Hs. unfold schnorr_KeyGen. destruct req as [req|e|q]; [|answered|done].
  destruct (decide (Phase req = KeyGenPhaseInit)) as [Ea|Na].
  - unfold schnorr_handleInit. destruct (decide _); [answered|].
    destruct (DecodeSchnorrKeyGenSessionContext _) as [ctx|e|q] eqn:Ec; [|answered|done].
    destruct (negb _); [answered|]. destruct (DecodeString _) as [sid|e|q]; [|answered|done].
    intros E. apply (launch_ok g) in E; [|exact Hs].
    destruct E as [(id & outb & -> & Hs')|(id & e & -> & Hs')]; [|by not_started].
    split; [|done]. unfold record, schnorr_started_by. by rewrite bool_decide_true, Ec.
  - destruct (decide _); [|answered]. unfold schnorr_handleContinue.
    destruct (decide _); [answered|]. destruct (getExecution _ _) eqn:Eg; [|answered].
    destruct (continue_with _ _ _ _ _) as [s1 r| | |] eqn:E; [|done..]. intros [= <- <-].
    unfold record, schnorr_started_by. rewrite bool_decide_false by (by intros [? _]).
    by apply (continue_hands_out _ _ _ _ _ _ _ _ Hs Eg E).
Qed.

Lemma service_run_ok {Req Resp} (call : service -> Req -> reader -> sres Resp) started_by g s :
  (forall g s req hrand s' resp, service_ok g s -> call s req hrand = SRet s' resp ->
     service_ok (record started_by g req resp) s') ->
  service_run call started_by g s -> service_ok g s.
Proof. intros Hc Hr. induction Hr as [rand|g s req hrand s' resp _ IH E]; [by intros ? ?|by eapply Hc]. Qed.

(** C31: whatever requests a key generation service has answered, when it
    answers DONE the encoded share it hands out is the encoding of a Taproot
    configuration that belongs to the party, participants and threshold of the
    init request which created that state id, holds a share of a key among
    those participants, and the execution is forgotten. *)
Theorem service_done g s req hrand s' resp :
  service_run KeyGen frost_started_by g s -> KeyGen s req hrand = SRet s' resp ->
  Status resp = keygenStatusDone ->
  hands_out EncodeTaprootConfigToString g (resp_StateID resp) (EncodedKeyShare resp) s'.
Proof.
  intros Hr E. apply (KeyGen_step _ _ _ _ _ _ ltac:(eapply service_run_ok; [|exact Hr]; apply KeyGen_step) E).
Qed.

(** The same for the mobile-facing service: the parameters are
    those of the session context token of the phase 1 request. *)
Theorem schnorr_service_done g s req hrand s' resp :
  service_run schnorr_KeyGen schnorr_started_by g s -> schnorr_KeyGen s req hrand = SRet s' resp ->
  sresp_Status resp = keygenStatusDone ->
  hands_out EncodeTaprootKeyShareForStorage g (sresp_StateID resp) (sresp_EncodedKeyShare resp) s'.
Proof.
  intros Hr E.
  apply (schnorr_KeyGen_step _ _ _ _ _ _ ltac:(eapply service_run_ok; [|exact Hr]; apply schnorr_KeyGen_step) E).
Qed.

End Services.

(** ** Errors *)

Section Errors.
Context {C : Curve} {X : XOnly C} `{Blake3} {MO : MapOrder}.
Context {CB : Cbor kg_content} {CM : Cbor Message} {CW : Cbor taprootConfigMarshalled}.

Lemma accept_all_app h n good rest :
  accept_all h n (good ++ rest) =
  match accept_all h n good with AOk h n None => accept_all h n rest | r => r end.
Proof.
  revert h n. induction good as [|m good IH]; intros h n; cbn [app accept_all]; [done|].
  destruct (DecodeProtocolMessageFromString m); [|done..]. destruct (Accept h _); [|done..]. apply IH.
Qed.

(** When an inbound message is not base64, the answer is ERROR but
    the execution stays, advanced by the messages before it: the messages that
    follow are not looked at, and a later call may continue. *)
Theorem decode_error_keeps_execution s req stateID h good bad rest h' n e :
  TrimSpace (sreq_StateID req) = stateID -> stateID <> "" -> getExecution s stateID = Some h ->
  sreq_InboundMessages req = good ++ bad :: rest ->
  accept_all h 0 good = AOk h' n None -> DecodeString bad = Fail e ->
  exists s' resp, schnorr_handleContinue s req = SRet s' resp /\
    sresp_Status resp = keygenStatusError /\ getExecution s' stateID = Some h' /\
    forall k, k <> stateID -> getExecution s' k = getExecution s k.
Proof.
  intros Ei Ne Eg Em Ea Eb. unfold schnorr_handleContinue, continue_with.
  rewrite Ei, decide_False, Eg, Em, accept_all_app, Ea by done.
  cbn [accept_all]. unfold DecodeProtocolMessageFromString. rewrite Eb. cbn [wrap_err mbind outcome_bind].
  eexists _, _. split; [reflexivity|]. split; [done|]. unfold getExecution. cbn. split; [apply lookup_insert_eq|].
  intros k N. by apply lookup_insert_ne.
Qed.

Lemma Accept_zero h : Accept h zero_message = HOk h.
Proof.
  unfold Accept. replace (CanAccept h zero_message) with false; [done|]. unfold CanAccept. cbn [Data zero_message].
  by repeat case_match.
Qed.

(** An inbound message that is base64 but not a CBOR message is not
    reported: [UnmarshalBinary] drops the error of the decoder, so the handler
    is given the zero message, which it ignores, and the message counts as
    processed. *)
Theorem malformed_message_counted h n encoded data e rest :
  DecodeString encoded = Ret data -> cbor_Unmarshal (toMarshallable zero_message) data = Fail e ->
  DecodeProtocolMessageFromString encoded = Ret zero_message /\
  accept_all h n (encoded :: rest) = accept_all h (S n) rest.
Proof.
  intros Ed Eu. assert (DecodeProtocolMessageFromString encoded = Ret zero_message) as E.
  { unfold DecodeProtocolMessageFromString. rewrite Ed. cbn [wrap_err mbind outcome_bind].
    unfold Message_UnmarshalBinary. by rewrite Eu. }
  split; [done|]. cbn [accept_all]. by rewrite E, Accept_zero.
Qed.

End Errors.

(** ** Session contexts and stored shares *)

(** Strings of ASCII characters. *)
Definition is_ascii (s : string) : Prop := Forall (fun c => byteZ c < 128) (bytes_of_string s).

(** JSON text of ASCII strings and integers decodes to what was encoded. *)
Class ContextJsonLaws {J : Json SchnorrKeyGenSessionContext} : Prop := {
  json_roundtrip ctx data :
    is_ascii (ctx_SessionIDBase64 ctx) -> Forall is_ascii (ctx_Participants ctx) ->
    json_Marshal ctx = Ret data -> json_Unmarshal data = Ret ctx
}.

Section Contexts.
Context {J : Json SchnorrKeyGenSessionContext} {JL : ContextJsonLaws}.

Lemma normalize_loop_spec seen l out :
  normalize_loop seen l = Ret out <->
  out = TrimSpace <$> l /\ Forall (fun p => p <> "" /\ p ∉ seen) out /\ NoDup out.
Proof.
  revert seen out. induction l as [|p l IH]; intros seen out; cbn [normalize_loop fmap list_fmap].
  - split; [intros [= <-]; split_and!; constructor|by intros (-> & _)].
  - destruct (decide _) as [E|E].
    { split; [done|]. intros (-> & Hf & _). by inversion Hf as [|? ? []]. }
    destruct (decide _) as [Es|Es].
    { split; [done|]. intros (-> & Hf & _). by inversion Hf as [|? ? []]. }
    split.
    + intros (out' & Hl & [= <-])%bind_ret_inv. apply IH in Hl as (-> & Hf & Hn). split; [done|].
      assert (TrimSpace p ∉ TrimSpace <$> l) as Nin.
      { intros Hin. rewrite Forall_forall in Hf. destruct (Hf _ Hin) as [_ Hs]. set_solver. }
      split; [|by constructor]. constructor; [done|]. eapply Forall_impl; [exact Hf|]. set_solver.
    + intros (-> & Hf & Hn). apply Forall_cons in Hf as [_ Hf]. apply NoDup_cons in Hn as [Nin Hn].
      assert (normalize_loop ({[TrimSpace p]} ∪ seen) l = Ret (TrimSpace <$> l)) as ->; [|done].
      apply IH. split_and!; [done| |done]. rewrite Forall_forall in Hf |- *. intros x Hx.
      destruct (Hf x Hx) as [? ?]. split; [done|]. intros [->%elem_of_singleton|?]%elem_of_union; done.
Qed.

(** What a normalised list of participants is. *)
Definition normal (ps : list string) : Prop :=
  ps <> [] /\ StronglySorted String.le ps /\ NoDup ps /\ Forall (fun p => p <> "" /\ TrimSpace p = p) ps.

Lemma normalizeParticipants_spec l out :
  normalizeParticipants l = Ret out -> out ≡ₚ (TrimSpace <$> l) /\ normal out.
Proof.
  unfold normalizeParticipants. destruct (decide _) as [|Nl]; [done|].
  intros (o & (-> & Hf & Hn)%normalize_loop_spec & [= <-])%bind_ret_inv.
  assert (merge_sort String.le (TrimSpace <$> l) ≡ₚ (TrimSpace <$> l)) as P by apply merge_sort_Permutation.
  split; [done|]. split_and!.
  - intros E. rewrite E in P. apply Permutation_nil in P. apply fmap_nil_inv in P. by subst l.
  - apply StronglySorted_merge_sort; apply _.
  - by rewrite P.
  - rewrite P. rewrite Forall_forall in Hf |- *. intros x Hx. split; [by apply Hf|].
    apply list_elem_of_fmap in Hx as (y & -> & _). apply TrimSpace_idem.
Qed.

Lemma normalizeParticipants_normal ps : normal ps -> normalizeParticipants ps = Ret ps.
Proof.
  intros (Ne & Hs & Hn & Hf). unfold normalizeParticipants.
  rewrite decide_False by (by destruct ps).
  assert (TrimSpace <$> ps = ps) as Et.
  { rewrite <- (list_fmap_id ps) at 2. apply list_fmap_ext. intros i x Hx%list_elem_of_lookup_2.
    rewrite Forall_forall in Hf. by apply Hf. }
  assert (normalize_loop ∅ ps = Ret ps) as ->.
  { apply normalize_loop_spec. split; [done|]. split; [|done]. eapply Forall_impl; [exact Hf|]. set_solver. }
  cbn. f_equal. apply (StronglySorted_unique String.le); [apply StronglySorted_merge_sort; apply _|done|].
  apply merge_sort_Permutation.
Qed.

(** What a normalised session id is: trimmed base64 of some bytes. *)
Definition normal_sid (sid : string) : Prop :=
  sid <> "" /\ TrimSpace sid = sid /\ exists raw, raw <> [] /\ DecodeString sid = Ret raw.

Lemma is_ascii_b64 b : is_ascii (EncodeToString b).
Proof.
  unfold is_ascii, EncodeToString. rewrite bytes_of_string_inv.
  apply Forall_forall. intros x Hx. apply Z.ltb_lt.
  assert (forallb (fun c => byteZ c <? 128) (b64_encode b) = true) as Hb by by apply b64_encode_all.
  rewrite forallb_forall in Hb. by apply Hb, list_elem_of_In.
Qed.

Lemma normalizeSessionID_spec rand s sid rand' :
  normalizeOrGenerateSessionID rand s true = (Ret sid, rand') ->
  normal_sid sid /\ (TrimSpace s <> "" -> sid = TrimSpace s) /\ (is_ascii s -> is_ascii sid).
Proof.
  unfold normalizeOrGenerateSessionID. destruct (decide _) as [E|N]; cbn [negb].
  - destruct (ReadFull rand 32) as [[raw|] r] eqn:Er; [|done]. intros [= <- _]. apply ReadFull_length in Er.
    split_and!; [split_and!| |]; [|apply EncodeToString_trim| |done|intros _; apply is_ascii_b64].
    + intros Ee. pose proof (DecodeString_EncodeToString raw) as D. rewrite Ee in D. by injection D as <-.
    + exists raw. split; [by destruct raw|]. apply DecodeString_EncodeToString.
  - intros [= (raw & Ed%wrap_err_ret & Hs)%bind_ret_inv _]. destruct (decide _); [done|]. injection Hs as <-.
    split_and!; [split_and!| |]; [done|apply TrimSpace_idem| |done|apply TrimSpace_Forall].
    exists raw. split; [by destruct raw|done].
Qed.

Lemma normalizeSessionID_normal rand sid :
  normal_sid sid -> normalizeOrGenerateSessionID rand sid false = (Ret sid, rand).
Proof.
  intros (Ne & Et & raw & Nr & Ed). unfold normalizeOrGenerateSessionID. rewrite Et, decide_False by done.
  rewrite Ed. cbn [wrap_err mbind outcome_bind]. by rewrite decide_False by (by destruct raw).
Qed.

(** A session context token decodes, for every participant, to the
    same parameters: the trimmed participants, sorted and without repetition,
    the threshold, which is below their number, and a session id of at least
    one byte (the given one, when there is one).  Stated for participants and
    session ids of ASCII characters, which JSON does not alter. *)
Theorem session_context_roundtrip rand participants threshold sid token rand' :
  Forall is_ascii participants -> is_ascii sid ->
  BuildSchnorrKeyGenSessionContext rand participants threshold sid = (Ret token, rand') ->
  exists ctx, DecodeSchnorrKeyGenSessionContext token = Ret ctx /\
    ctx_Participants ctx ≡ₚ (TrimSpace <$> participants) /\ normal (ctx_Participants ctx) /\
    ctx_Threshold ctx = threshold /\ 0 <= threshold < Z.of_nat (length participants) /\
    normal_sid (ctx_SessionIDBase64 ctx) /\ (TrimSpace sid <> "" -> ctx_SessionIDBase64 ctx = TrimSpace sid).
Proof.
  intros Ap As. unfold BuildSchnorrKeyGenSessionContext.
  destruct (normalizeParticipants participants) as [ps| |] eqn:Ep; [|done..].
  apply normalizeParticipants_spec in Ep as [P Np].
  assert (length ps = length participants) as El by (by rewrite P, length_fmap).
  destruct (decide _) as [|Ht]; [done|].
  destruct (normalizeOrGenerateSessionID rand sid true) as [o r'] eqn:Es.
  intros [= E _]. apply bind_ret_inv in E as (sid' & -> & E).
  apply bind_ret_inv in E as (data & Ed%wrap_err_ret & [= <-]).
  apply normalizeSessionID_spec in Es as (Ns & Hs & Ha).
  exists (mkContext sid' ps threshold). cbn. split; [|split_and!; by try lia].
  unfold DecodeSchnorrKeyGenSessionContext.
  destruct (HasPrefix_app (EncodeToString data) keyGenSessionContextPrefix) as [-> ->]. cbn [negb].
  rewrite DecodeString_EncodeToString. cbn [wrap_err mbind outcome_bind].
  rewrite (json_roundtrip (mkContext sid' ps threshold)); [|by apply Ha| |done].
  - cbn [wrap_err mbind outcome_bind ctx_Participants ctx_Threshold ctx_SessionIDBase64].
    rewrite (normalizeParticipants_normal ps Np). cbn [mbind outcome_bind].
    by rewrite decide_False, (normalizeSessionID_normal _ sid' Ns).
  - cbn. rewrite P. apply Forall_fmap. eapply Forall_impl; [exact Ap|]. intros x. apply TrimSpace_Forall.
Qed.

End Contexts.

Section Storage.
Context {C : Curve} {CL : CurveLaws C} {ML : MarshalLaws C} {MO : MapOrder} {MOL : MapOrderLaws}.
Context {CW : Cbor taprootConfigMarshalled} {CWL : CborLaws taprootConfigMarshalled}.

(** C32: a key share survives both of its text forms: a configuration none
    of whose verification shares is the identity, encoded by either service,
    decodes to itself, whatever the order in which the map of shares is
    visited. *)
Theorem stored_share_roundtrip r s s' :
  encodable r -> EncodeTaprootConfigToString (Some r) = Ret s ->
  EncodeTaprootKeyShareForStorage (Some r) = Ret s' ->
  DecodeTaprootConfigFromString s = Ret r /\ DecodeTaprootKeyShareFromStorage s' = Ret r.
Proof. intros He E E'. split; [by apply config_string_roundtrip|by apply storage_roundtrip]. Qed.

End Storage.

(** ** Two clients of two services, evaluated *)

Section Play.
Context {C : Curve} {Req Resp : Type}.
Variable call : service -> Req -> reader -> sres Resp.
Variable started_by : Req -> Resp -> option (string * params).

(** The last state and response after some calls. *)
Fixpoint calls (s : service) (reqs : list (Req * reader)) : option (service * Resp) :=
  match reqs with
  | [] => None
  | (req, hrand) :: reqs =>
      match call s req hrand with
      | SRet s resp => match reqs with [] => Some (s, resp) | _ => calls s reqs end
      | _ => None
      end
  end.

Lemma calls_run g s reqs s' resp :
  service_run call started_by g s -> calls s reqs = Some (s', resp) ->
  exists g0 s0 req hrand, service_run call started_by g0 s0 /\ call s0 req hrand = SRet s' resp.
Proof.
  revert g s. induction reqs as [|[req hrand] reqs IH]; intros g s Hr E; [done|]. cbn [calls] in E.
  destruct (call s req hrand) as [s1 r1| | |] eqn:E1; [|done..].
  destruct reqs as [|q reqs]; [injection E as <- <-; by exists g, s, req, hrand|].
  eapply IH; [|exact E]. by eapply service_call.
Qed.

Variable init : string -> Req.
Variable continue_ : string -> list string -> Req.
Variable state_of : Resp -> string.
Variable out_of : Resp -> list string.

(** The requests of the first of two parties who forward to each other what
    their services answer, for [n] rounds. *)
Fixpoint exchange (n : nat) (sa sb : service) (ra rb : Resp) (hrand : reader) : list (Req * reader) :=
  match n with
  | O => []
  | S n =>
      let qa := continue_ (state_of ra) (out_of rb) in
      let qb := continue_ (state_of rb) (out_of ra) in
      (qa, hrand) ::
      match call sa qa hrand, call sb qb hrand with
      | SRet sa ra, SRet sb rb => exchange n sa sb ra rb hrand
      | _, _ => []
      end
  end.

Definition requests (n : nat) (ida idb : string) (randa randb : reader) : list (Req * reader) :=
  (init ida, randa) ::
  match call (mkService ∅ randa) (init ida) randa, call (mkService ∅ randb) (init idb) randb with
  | SRet sa ra, SRet sb rb => exchange n sa sb ra rb randa
  | _, _ => []
  end.

Definition last_is (status_of : Resp -> string) (status : string) (r : option (service * Resp)) : bool :=
  match r with Some (_, resp) => bool_decide (status_of resp = status) | None => false end.

Lemma last_is_Some status_of status r :
  last_is status_of status r = true -> exists s resp, r = Some (s, resp) /\ status_of resp = status.
Proof. destruct r as [[s resp]|]; [|done]. intros ?%bool_decide_eq_true. by exists s, resp. Qed.

End Play.

#[export] Instance wire_pack : Pack taprootConfigMarshalled.
Proof.
  refine (inj_pack (fun w => (w_ID w, w_Threshold w, w_PrivateShare w, w_PublicKey w, w_ChainKey w,
                              w_VerificationShares w))
            (fun '(a, b, c, d, e, f) => mkWire a b c d e f) _).
  by intros [].
Defined.

#[export] Instance context_pack : Pack SchnorrKeyGenSessionContext.
Proof.
  refine (inj_pack (fun c => (ctx_SessionIDBase64 c, ctx_Participants c, ctx_Threshold c))
            (fun '(a, b, c) => mkContext a b c) _).
  by intros [].
Defined.

#[export] Instance toy_wire_cbor : Cbor taprootConfigMarshalled := pack_cbor taprootConfigMarshalled.
#[export] Instance toy_message_cbor : Cbor Message := pack_cbor Message.

#[export] Instance toy_context_json : Json SchnorrKeyGenSessionContext := {|
  json_Marshal := cbor_Marshal (Cbor := pack_cbor SchnorrKeyGenSessionContext);
  json_Unmarshal := cbor_Unmarshal (Cbor := pack_cbor SchnorrKeyGenSessionContext) (mkContext "" [] 0)
|}.

#[export] Instance toy_context_json_laws : ContextJsonLaws.
Proof. constructor. intros ctx data _ _. apply (pack_cbor_laws SchnorrKeyGenSessionContext). Qed.

Abbreviation frost_requests :=
  (requests (KeyGen (C := toy_curve))
     (fun id => Ret (mkKeyGenRequest " Init" "" id ["b"; "a"] 1 "AQI=" []))
     (fun id msgs => Ret (mkKeyGenRequest "continue" id "" [] 0 "" msgs))
     resp_StateID OutboundMessages 2 "a" "b" (toy_rand 1) (toy_rand 2)).

Lemma service_done_witness :
  exists g id share s, hands_out (C := toy_curve) EncodeTaprootConfigToString g id share s.
Proof.
  assert (last_is Status keygenStatusDone
            (calls (KeyGen (C := toy_curve)) (mkService ∅ (toy_rand 1)) frost_requests) = true) as T by by vm_compute.
  apply last_is_Some in T as (s' & resp & E & D).
  apply (calls_run _ frost_started_by ∅) in E as (g & s & req & hrand & Hr & Ec); [|apply service_new].
  exists g, (resp_StateID resp), (EncodedKeyShare resp), s'.
  exact (service_done g s req hrand s' resp Hr Ec D).
Defined.

Definition toy_token : string :=
  match (BuildSchnorrKeyGenSessionContext (toy_rand 3) ["b "; "a"] 1 "").1 with Ret token => token | _ => "" end.

Abbreviation schnorr_requests :=
  (requests (schnorr_KeyGen (C := toy_curve))
     (fun id => Ret (mkSchnorrRequest 1 "" id toy_token []))
     (fun id msgs => Ret (mkSchnorrRequest 2 id "" "" msgs))
     sresp_StateID sresp_OutboundMessages 2 "a" "b" (toy_rand 1) (toy_rand 2)).

Lemma schnorr_service_done_witness :
  exists g id share s, hands_out (C := toy_curve) EncodeTaprootKeyShareForStorage g id share s.
Proof.
  assert (last_is sresp_Status keygenStatusDone
            (calls (schnorr_KeyGen (C := toy_curve)) (mkService ∅ (toy_rand 1)) schnorr_requests) = true)
    as T by by vm_compute.
  apply last_is_Some in T as (s' & resp & E & D).
  apply (calls_run _ schnorr_started_by ∅) in E as (g & s & req & hrand & Hr & Ec); [|apply service_new].
  exists g, (sresp_StateID resp), (sresp_EncodedKeyShare resp), s'.
  exact (schnorr_service_done g s req hrand s' resp Hr Ec D).
Defined.

(** A handler before its first message. *)
Definition fresh_handler : @MultiHandler (@kg_round toy_curve) (@kg_result toy_curve) :=
  initial_handler (Running (KG1 (kg_first "a"))) (toy_rand 1).

Lemma decode_error_keeps_execution_witness :
  exists s' resp, schnorr_handleContinue (mkService {["x" := fresh_handler]} (toy_rand 1))
                    (mkSchnorrRequest 2 " x" "" "" ["AAAA"; "***"; "AAAA"]) = SRet s' resp /\
    sresp_Status resp = keygenStatusError /\ getExecution s' "x" = Some fresh_handler.
Proof.
  destruct (decode_error_keeps_execution (mkService {["x" := fresh_handler]} (toy_rand 1))
              (mkSchnorrRequest 2 " x" "" "" ["AAAA"; "***"; "AAAA"]) "x" fresh_handler ["AAAA"] "***" ["AAAA"]
              fresh_handler 1 (CorruptInputError 0))
    as (s' & resp & E & Es & Eg & _); [by vm_compute|done|by apply lookup_insert_eq|done| |by vm_compute|].
  - cbn [accept_all]. replace (DecodeProtocolMessageFromString "AAAA") with (@Ret Message zero_message) by by vm_compute.
    by rewrite Accept_zero.
  - exists s', resp. exact (conj E (conj Es Eg)).
Defined.

Lemma malformed_message_counted_witness :
  accept_all fresh_handler 0 ["AAAA"] = AOk fresh_handler 1 None.
Proof.
  destruct (malformed_message_counted fresh_handler 0 "AAAA" [x00; x00; x00] "cbor: malformed" [])
    as [_ ->]; [by vm_compute|by vm_compute|]. reflexivity.
Defined.

Lemma session_context_roundtrip_witness :
  exists ctx, DecodeSchnorrKeyGenSessionContext toy_token = Ret ctx /\ ctx_Threshold ctx = 1 /\
    ctx_Participants ctx ≡ₚ ["b"; "a"].
Proof.
  destruct (session_context_roundtrip (toy_rand 3) ["b "; "a"] 1 "" toy_token
              (BuildSchnorrKeyGenSessionContext (toy_rand 3) ["b "; "a"] 1 "").2) as (ctx & E & P & _ & T & _).
  - repeat constructor.
  - constructor.
  - by vm_compute.
  - exists ctx. exact (conj E (conj T P)).
Defined.

Lemma stored_share_roundtrip_witness :
  exists s, EncodeTaprootKeyShareForStorage (Some (toy_tconfig "a")) = Ret s /\
    DecodeTaprootKeyShareFromStorage s = Ret (toy_tconfig "a").
Proof.
  destruct (stored_share_roundtrip (CWL := pack_cbor_laws taprootConfigMarshalled) (toy_tconfig "a")
              (EncodeToString (pack (to_wire (toy_tconfig "a"))))
              (keyShareEnvelopePrefix +:+ EncodeToString (pack (to_wire (toy_tconfig "a"))))) as [_ E].
  - apply map_Forall_to_list. by vm_compute; repeat constructor.
  - reflexivity.
  - reflexivity.
  - eexists. split; [reflexivity|exact E].
Defined.
