(* ===== verification/GroupThms.v ===== *)
(** * Theorems about the concrete curve, ECDSA and ElGamal

    The secp256k1 wrapper meets the interface of the protocols; signatures
    survive the conversion to the Ethereum form; presignatures give valid
    signatures and expose whoever prevents one. *)

From Stdlib Require Import ZArith Lia Zmod Field.
From Stdlib Require Import Strings.Byte.
From stdpp Require Import base gmap strings list pretty numbers.
From S2P Require Import Prelude Hash Curve Primes Toy Party Sample Polynomial Round Message Secp256k1 Ecdsa ExponentCodec Codec.

Local Open Scope curve_scope.

(** The secp256k1 wrapper meets the interface that BIP-340 and the
    protocols rely on.  Every point but the identity survives its 33-byte
    encoding and, when its y coordinate is even, its 32-byte one; [LiftX] only
    gives points with an even y coordinate and the requested x coordinate; and
    the two points over an x coordinate are each other's negation, with
    different parity.  The field prime is proved prime on the way. *)
Theorem secp256k1_encodings {D : Decred} {DL : DecredLaws D} (P : Secp256k1Point) :
  P <> Infinity ->
  point_UnmarshalBinary (point_MarshalBinary P) = Ret P /\
  (point_HasEvenY P = true -> Secp256k1_LiftX (point_XBytes P) = Ret P) /\
  (forall b, length b = 32%nat -> Secp256k1_LiftX b = Ret P ->
     point_XBytes P = b /\ point_HasEvenY P = true) /\
  point_XBytes (point_Negate P) = point_XBytes P /\
  point_HasEvenY (point_Negate P) = negb (point_HasEvenY P).
Proof.
  intros N. split_and!.
  - exact (@pmarshal_roundtrip secp256k1 _ P N).
  - exact (@liftx_xbytes secp256k1 _ _ P N).
  - intros b Hb E. split; [exact (@liftx_x secp256k1 _ _ b P Hb E)|].
    exact (proj2 (@liftx_even secp256k1 _ _ b P E)).
  - exact (@xbytes_neg secp256k1 _ _ P).
  - exact (@eveny_neg secp256k1 _ _ P N).
Qed.

Section Ecdsa.
Context {C : Curve} {CL : CurveLaws C} {X : XOnly C} {XL : XOnlyLaws C X} {CC : CompressedLaws C X}.

(** The Ethereum form of a valid signature.  [SigEthereum] succeeds,
    leaves a signature that is valid for the same key and message and whose s
    is at most half of the order, and returns 65 bytes: the x coordinate of
    that signature's point, its s, and the parity of the y coordinate. *)
Theorem ethereum_signature (sig : Signature) (Y : Point) (hash : bytes) :
  Verify sig Y hash = true ->
  exists rs sig', SigEthereum sig = Ret (rs, sig') /\
    Verify sig' Y hash = true /\ IsOverHalfOrder (sig_S sig') = false /\
    rs = XBytes (sig_R sig') ++ SMarshal (sig_S sig') ++ [recovery (sig_R sig')] /\ length rs = 65%nat.
Proof.
  rewrite ecdsa_Verify_spec. intros E. pose proof (ecdsa_R_nonzero sig Y hash E) as N.
  destruct sig as [R s]. cbn [sig_R] in N.
  eexists _, _. split; [by apply SigEthereum_shape|]. cbn [sig_R sig_S]. rewrite ecdsa_Verify_spec.
  split_and!; [| |done|by rewrite !length_app, xbytes_length, SMarshal_length].
  - destruct (IsOverHalfOrder s); [|done]. apply ecdsa_equation_neg; [apply XScalar_neg|done].
  - destruct (IsOverHalfOrder s) eqn:Eo; [by apply half_order_neg|done].
Qed.

End Ecdsa.

Section Presign.
Context {C : Curve} {CL : CurveLaws C} {MO : MapOrder} {MOL : MapOrderLaws}.
Add Field scalar_field : scalar_field_theory.

(** C22: identifiable aborts.  Given presignatures of a nonce [k] for the
    key [x] and one share from every signer, [VerifySignatureShares] names
    exactly the signers whose share is not [kᵢm + rχᵢ]; and when it names
    nobody, the combined signature is valid for the public key, unless r or
    s is zero. *)
Theorem presign_identifies pre ids k x ks chis shares hash :
  presigned pre ids k x ks chis -> dom shares = list_to_set ids ->
  (forall j, j ∈ VerifySignatureShares pre shares hash <->
     exists s, shares !! j = Some s /\ s <> honest_share pre ks chis hash j) /\
  (VerifySignatureShares pre shares hash = [] ->
   XScalar (pre_R pre) <> 0 -> sig_S (pre_Signature pre shares) <> 0 ->
   Verify (pre_Signature pre shares) (x • 𝐆) hash = true).
Proof.
  intros PS Hd. pose proof (fun j => culprits_spec pre ids k x ks chis PS shares hash j Hd) as Hc.
  split; [exact Hc|]. intros En Nr Ns. apply ecdsa_Verify_spec. split_and!; [done..|].
  cbn [pre_Signature sig_R sig_S] in *. rewrite <- (honest_sum pre ids k x ks chis PS hash). f_equal.
  apply range_sum; [apply PS|done|]. intros j Hj.
  assert (j ∈ dom shares) as [s Es]%elem_of_dom by (rewrite Hd; by apply elem_of_list_to_set).
  destruct (decide (s = honest_share pre ks chis hash j)) as [->|N]; [done|].
  exfalso. assert (j ∈ VerifySignatureShares pre shares hash) as Hin by (apply Hc; eauto).
  rewrite En in Hin. by apply elem_of_nil in Hin.
Qed.

End Presign.

(** ** Witnesses *)

Lemma secp256k1_encodings_witness :
  @point_UnmarshalBinary simple_decred (point_MarshalBinary Secp256k1_base) = Ret Secp256k1_base.
Proof.
  assert (bool_decide (Secp256k1_base <> Infinity) = true) as N%bool_decide_eq_true by by vm_compute.
  exact (proj1 (secp256k1_encodings (D := simple_decred) (DL := simple_decred_laws) Secp256k1_base N)).
Defined.

(** Different residues. *)
Ltac toy_ne := let E := fresh in intros E; apply (f_equal Zmod.to_Z) in E; vm_compute in E; discriminate E.

(** A signature under the key 5 with nonce 3 on the small group. *)
Definition toy_hash : bytes := bytes_of_string "message".

Definition toy_k : Zmod.Zmod toy_order := Zmod.of_Z toy_order 3.
Definition toy_secret : Zmod.Zmod toy_order := Zmod.of_Z toy_order 5.

Definition toy_signature : @Signature toy_curve :=
  let R := @ActOnBase toy_curve (Zmod.inv toy_k) in
  mkSignature R (Zmod.mul toy_k (Zmod.add (@FromHash toy_curve toy_hash) (Zmod.mul (@XScalar toy_curve R) toy_secret))).

Lemma ethereum_signature_witness :
  exists rs sig', @SigEthereum toy_curve toy_signature = Ret (rs, sig') /\ length rs = 65%nat /\
    @IsOverHalfOrder toy_curve (sig_S sig') = false.
Proof.
  assert (@Verify toy_curve toy_signature (@ActOnBase toy_curve toy_secret) toy_hash = true) as V by by vm_compute.
  destruct (ethereum_signature toy_signature _ toy_hash V) as (rs & sig' & E & _ & Eo & _ & El).
  exists rs, sig'. exact (conj E (conj El Eo)).
Defined.

(** Presignatures of two signers for the same key and nonce. *)
Definition toy_ks (j : ID) : Zmod.Zmod toy_order := Zmod.of_Z toy_order (if decide (j = "a") then 10 else -7).
Definition toy_chis (j : ID) : Zmod.Zmod toy_order := Zmod.of_Z toy_order (if decide (j = "a") then 20 else -5).

Definition toy_pre (j : ID) : @PreSignature toy_curve :=
  let R := @ActOnBase toy_curve (Zmod.inv toy_k) in
  mkPreSignature [] R {["a" := Zmod.mul (toy_ks "a") R; "b" := Zmod.mul (toy_ks "b") R]}
    {["a" := Zmod.mul (toy_chis "a") R; "b" := Zmod.mul (toy_chis "b") R]} (toy_ks j) (toy_chis j).

Lemma toy_presigned : presigned (toy_pre "a") ["a"; "b"] toy_k toy_secret toy_ks toy_chis.
Proof.
  constructor.
  - by apply (bool_decide_unpack _).
  - by apply (bool_decide_unpack _).
  - done.
  - intros j [->|[->|[]%elem_of_nil]%elem_of_cons]%elem_of_cons; by vm_compute.
  - intros j [->|[->|[]%elem_of_nil]%elem_of_cons]%elem_of_cons; by vm_compute.
  - by vm_compute.
  - by vm_compute.
Qed.

(** One good share and one bad one. *)
Definition toy_sigma (b : Zmod.Zmod toy_order) : gmap ID (Zmod.Zmod toy_order) :=
  {["a" := @SignatureShare toy_curve (toy_pre "a") toy_hash; "b" := b]}.

Lemma presign_identifies_witness :
  "b" ∈ @VerifySignatureShares toy_curve key_order (toy_pre "a") (toy_sigma Zmod.zero) toy_hash /\
  @Verify toy_curve (@pre_Signature toy_curve key_order (toy_pre "a")
     (toy_sigma (@SignatureShare toy_curve (toy_pre "b") toy_hash))) (@ActOnBase toy_curve toy_secret) toy_hash = true.
Proof.
  split.
  - apply (proj1 (presign_identifies (MO := key_order) (toy_pre "a") ["a"; "b"] toy_k toy_secret toy_ks toy_chis
                    (toy_sigma Zmod.zero) toy_hash toy_presigned ltac:(by vm_compute)) "b").
    exists Zmod.zero. split; [by vm_compute|]. toy_ne.
  - apply (proj2 (presign_identifies (MO := key_order) (toy_pre "a") ["a"; "b"] toy_k toy_secret toy_ks toy_chis
                    (toy_sigma (@SignatureShare toy_curve (toy_pre "b") toy_hash)) toy_hash toy_presigned
                    ltac:(by vm_compute))).
    + by vm_compute.
    + toy_ne.
    + toy_ne.
Defined.
