(* ===== verification/CmpThms.v ===== *)
(** * Theorems about the CMP protocols

    Key generation and refresh deliver valid configurations; signing delivers
    signatures that verify; presigning delivers consistent presignatures and
    names culprits; and what goes wrong in its abort rounds.  The executions
    of [CmpRuns] and [CmpDuo] and the states of [CmpHonest] are instances. *)

From Stdlib Require Import ZArith Lia Zmod Field.
From Stdlib Require Import Strings.Byte.
From stdpp Require Import base gmap strings list pretty numbers.
From S2P Require Import Prelude Hash Curve Party Sample Polynomial Round Message Handler HandlerSpec.
From S2P Require Import Arith SampleInts PaillierMath Paillier Pedersen Zk ZkEnc ZkGroup ZkAff ZkMul Mta Ecdsa.
From S2P Require Import FrostConfig ExponentCodec CmpConfig CmpKeygen CmpKeygenProps CmpSign CmpSignProps.
From S2P Require Import CmpPresign CmpPresignProps Toy Codec Runs CmpRuns CmpDuo CmpHonest.

Local Open Scope curve_scope.

(** ** Key generation *)

Section Keygen.
Context {C : Curve} {CL : CurveLaws C} `{B3 : Blake3} {MO : MapOrder} {MOL : MapOrderLaws} {S : Saferith} {BP : BigPrime}.
Context {CR : Cbor rawExponentData} {CB : Cbor ckg_content} (fuel : nat).

(** C2: whatever the other parties send, a configuration that a CMP key
    generation delivers holds a share of one key: its public shares lie on a
    polynomial of degree t in the exponent, the secret share belongs to its
    party, identity, threshold and parties are those of the session, and
    interpolating the public shares gives the public key. *)
Theorem cmp_keygen_correct self ids t sid rand r rand' c :
  ids_ok ids -> Cmp_Keygen self ids t sid rand = Ret (Running r, rand') ->
  delivered (RO := ckg_ops fuel) r c ->
  exists L, Cmp_valid L c /\ Z.of_nat (length L) = (t + 1)%Z /\ PublicPoint c = Ret (hornerP 0 L) /\
    cc_ID c = self /\ cc_Threshold c = t /\ dom (cc_Public c) = list_to_set ids.
Proof.
  intros Hids (r0 & -> & St & Es & Et & Ep & _)%Cmp_Keygen_start D. pose proof (cs_session _ _ St) as So.
  destruct (ckg_delivered fuel _ _ _ St D) as [L [V E1 E2 E3 _]]. exists L.
  destruct (cv_key _ _ V) as (Hl & Ht & _).
  assert (dom (cc_Public c) = list_to_set ids) as Hd.
  { rewrite E3, Ep. apply set_eq. intros k. by rewrite !elem_of_list_to_set, (NewIDSlice_perm ids). }
  assert (NoDup ids) as ND by (destruct Hids as [H _]; by apply NoDup_fmap_1 in H).
  pose proof (range_keys_perm _ _ ND Hd) as P.
  split_and!; try done; try congruence.
  apply PublicPoint_spec; [done|by rewrite P|].
  assert (size (cc_Public c) = length ids) as ->.
  { rewrite <- size_dom, Hd. by apply size_list_to_set. }
  pose proof (so_threshold _ So) as Ht2. rewrite Ep, E2 in *.
  assert (length (NewIDSlice ids) = length ids) as El by (by rewrite NewIDSlice_perm). lia.
Qed.

(** C16: a refresh that delivers a configuration keeps the public key, the
    party, the threshold and the parties; the new shares are shares of that
    key. *)
Theorem cmp_refresh_keeps_key L0 config sid rand r rand' c :
  Cmp_valid L0 config -> Cmp_Refresh config sid rand = Ret (Running r, rand') ->
  delivered (RO := ckg_ops fuel) r c ->
  exists L, Cmp_valid L c /\ hornerP 0 L = hornerP 0 L0 /\ cc_ID c = cc_ID config /\
    cc_Threshold c = cc_Threshold config /\ dom (cc_Public c) = dom (cc_Public config).
Proof.
  intros V (r0 & -> & St & Es & Et & Ep & Hp)%(Cmp_Refresh_start _ _ _ _ _ _ V) D.
  destruct (ckg_delivered fuel _ _ _ St D) as [L [V' E1 E2 E3 E4]]. exists L. split_and!; try done; try congruence; [by apply E4|].
  rewrite E3, Ep. apply set_eq. intros k. rewrite elem_of_list_to_set, elem_of_dom.
  unfold PartyIDs. rewrite !NewIDSlice_perm. apply range_keys.
Qed.

(** Deriving a child of a configuration shifts the key by the tweak
    and keeps the configuration, its party, threshold and parties valid. *)
Theorem cmp_derive_valid L c i c' :
  Cmp_valid L c -> DeriveBIP32 c i = Ret c' ->
  exists X a ck, PublicPoint c = Ret X /\ DeriveScalar X (cc_ChainKey c) i = Ret (a, ck) /\
    Cmp_valid (shift_key (ActOnBase a) L) c' /\ hornerP 0 (shift_key (ActOnBase a) L) = hornerP 0 L ⊕ ActOnBase a /\
    length (cc_ChainKey c') = SecBytes /\ cc_ID c' = cc_ID c /\ cc_Threshold c' = cc_Threshold c /\
    dom (cc_Public c') = dom (cc_Public c).
Proof.
  intros V (X & EX & E)%bind_ret_inv. apply bind_ret_inv in E as ([a ck] & Ed & E). exists X, a, ck.
  split; [done|]. split; [done|]. split; [by eapply Cmp_Derive_valid|].
  split; [apply hornerP_shift, (shared_key_nonempty _ _ _ _ (cv_key _ _ V))|].
  unfold Cmp_Derive in E. apply bind_ret_inv in E as (k & [Ek _]%next_chain_key_ret & [= <-]). cbn. by rewrite dom_fmap_L.
Qed.

End Keygen.

(** ** Stored configurations *)

Section Codec.
Context {C : Curve} {S : Saferith} {MO : MapOrder} {MOL : MapOrderLaws} {BP : BigPrime}.
Context {CC : Cbor configMarshal} {CP : Cbor publicMarshal} {CCL : CborLaws configMarshal} {CPL : CborLaws publicMarshal}.


End Codec.

(** ** Signing *)

Section Sign.
Context {C : Curve} {CL : CurveLaws C} `{B3 : Blake3} {MO : MapOrder} {MOL : MapOrderLaws} {S : Saferith}.
Context {CB : Cbor sgn_content}.

(** C4: whatever the other signers send, a signature that a CMP signing
    session delivers is valid for the message under the key of the
    configuration. *)
Theorem cmp_sign_sound L config signers msg sid r sig :
  Cmp_valid L config -> ids_ok signers -> StartSign config signers msg sid = Ret (Running r) ->
  delivered r sig -> Verify sig (hornerP 0 L) msg = true.
Proof.
  intros V Hids E D. pose proof E as E0. apply StartSign_ret in E0 as (r0 & l & -> & _ & _ & _ & Em & _).
  apply sgn_delivered in D. by rewrite (StartSign_key _ _ _ _ _ _ V Hids E), Em in D.
Qed.

(** C6: honest signers succeed.  When the signers hold shares of the nonce
    k, of γ and of the key x, and their MtA shares add up to the products,
    then round four finds δ consistent with Δ at every signer, and round five
    combines the shares σ to a signature that verifies: no signer aborts. *)
Theorem cmp_sign_correct ids k γ x Y msg r3 r4 i :
  signing ids k γ x Y msg r3 ->
  (forall i, i ∈ ids -> exists rand out out' rand', sgn3_Finalize (r3 i) rand out = Ret (r4 i, out', rand')) ->
  i ∈ ids -> Y = sumS x ids • 𝐆 -> sumS k ids <> 0 -> sumS γ ids <> 0 ->
  XScalar (nonce_point (ids := ids) (k := k)) <> 0 ->
  FromHash msg + XScalar (nonce_point (ids := ids) (k := k)) * sumS x ids <> 0 ->
  (forall out, (length (ch_buf out) < ch_cap out)%nat -> exists r5 out',
     sgn4_Finalize (view4 (ids := ids) (r4 := r4) i) out = Ret (inl r5, out')) /\
  exists sig, sgn5_Finalize (view5 (ids := ids) (k := k) (γ := γ) (msg := msg) (r4 := r4) i) = Ret (inl sig) /\
    Verify sig Y msg = true.
Proof.
  intros Hs H3 Hi HY Nk Nγ Nr Ns. split.
  - intros out Ho. destruct (honest_round5 Hs H3 i out Hi Nk Nγ Ho) as [out' E]. eauto.
  - eexists. split; [by apply (honest_output Hs H3 i Hi HY Nk Nr Ns)|]. 
    pose proof (honest_output Hs H3 i Hi HY Nk Nr Ns) as E. apply sgn5_Finalize_ret in E. cbn zeta in E.
    destruct (honest_round4 Hs H3 i Hi) as (E3 & _). cbn [view5 view4 sg_round3 sg_round4] in E. rewrite E3 in E.
    by rewrite (si_key _ _ _ _ _ _ _ Hs i Hi), (si_msg _ _ _ _ _ _ _ Hs i Hi) in E.
Qed.

(** The two answers of an MtA stay in the range of the receiver's modulus. *)
Definition fits (N a b k dβ cβ : Z) : Prop := (Z.abs (a * k - dβ) <= N / 2 /\ Z.abs (b * k - cβ) <= N / 2)%Z.

(** C20: the MtA of two signers.  The receiver's ciphertext encrypts its share
    k.  When its modulus has 2048 bits, the two answers of the sender cannot
    leave the range of the modulus, whatever was sampled; and answers in that
    range decrypt to shares that, with those the sender keeps, add up over the
    integers to the products of k with γ and with the sender's key share. *)
Theorem cmp_mta_shares {SL : SaferithLaws S} r j rand out dβ cβ out' rand' sk k γ ρ :
  let r1 := sg_round1 r in let N := pk_N (sk_PublicKey sk) in
  pk_ok (sk_PublicKey (sg_SecretPaillier r1)) -> sk_ok sk -> sg_Paillier r1 !! j = Some (sk_PublicKey sk) ->
  unitZ ρ N -> sg_K r !! j = Some (Zmod.to_Z (pk_enc (sk_PublicKey sk) (MakeInt k) ρ)) ->
  sg_GammaShare r = MakeInt γ -> mta_step r j rand out = Ret (dβ, cβ, out', rand') ->
  ((order <= 2 ^ 256)%Z -> (2 ^ 2047 <= N)%Z ->
   fits N (MakeInt γ) (MakeInt (sg_SecretECDSA r1)) (MakeInt k) dβ cβ) /\
  (fits N (MakeInt γ) (MakeInt (sg_SecretECDSA r1)) (MakeInt k) dβ cβ ->
   exists DD DF DP CD CF CP PL α α',
     ch_buf out' = ch_buf out ++ [mkRoundMessage (sgn_self r1) j false (SgMessage3 DD DF DP CD CF CP PL)] /\
     Dec sk DD = Ret α /\ (α + dβ = MakeInt γ * MakeInt k)%Z /\
     Dec sk CD = Ret α' /\ (α' + cβ = MakeInt (sg_SecretECDSA r1) * MakeInt k)%Z).
Proof.
  intros r1 N Hs Hsk Hpk Hρ HK Hγ E. split.
  - intros Ho HN. destruct (mta_step_betas r j rand out dβ cβ out' rand' sk Hs (sk_pk_ok _ Hsk) Hpk E) as [Bd Bc].
    split; (apply mta_range; [by apply MakeInt_bound..|done|exact HN]).
  - intros [Fd Fc]. destruct (mta_step_ret r j rand out dβ cβ out' rand' sk k ρ) as (DD & DF & DP & CD & CF & CP & PL & Eo & Ed & Ec); try done.
    { by rewrite Hγ. }
    rewrite Hγ in Ed. eexists DD, DF, DP, CD, CF, CP, PL, _, _. split_and!; try done; apply Z.sub_add.
Qed.

End Sign.

(** ** Presigning *)

Section Presign.
Context {C : Curve} {CL : CurveLaws C} `{B3 : Blake3} {MO : MapOrder} {MOL : MapOrderLaws} {S : Saferith}.
Context {CB : Cbor ps_content}.

(** C12: whatever the other signers send, a presigning session delivers a
    presignature whose points S add up to the key of the configuration and,
    unless R is the identity, whose points R̄ add up to the base point, one of
    each for every signer; with a message it delivers a signature that
    verifies under that key. *)
Theorem presign_sound L c signers msg sid r res :
  Cmp_valid L c -> ids_ok signers -> msg <> Some [] ->
  StartPresign (Some c) signers msg sid = Ret (Running r) -> delivered r res ->
  match res with
  | RPreSignature p => msg = None /\ consistent p (NewIDSlice signers) (hornerP 0 L)
  | RSignature s => exists m, msg = Some m /\ Verify s (hornerP 0 L) m = true
  end.
Proof.
  intros V Hids Hm E D. pose proof E as E0. apply StartPresign_ret in E0 as (r0 & l & -> & _ & _ & Em & Ep & _).
  destruct (StartPresign_start _ _ _ _ _ Hm E) as [St _]. apply (ps_delivered _ _ St) in D.
  by rewrite (StartPresign_key _ _ _ _ _ _ V Hids E), Em, Ep in D.
Qed.

(** C21: identifiable aborts.  When the shares of a signing round that
    follows a presignature do not combine to a valid signature, the round
    names at least one signer, unless r or s is zero. *)
Theorem presign_names_culprit c signers msg sid r0 r B M culprits :
  StartPresign (Some c) signers (Some msg) sid = Ret (Running (PS1 r0)) -> msg <> [] ->
  reached (PS1 r0) (SN2 r) B M -> complete (SN2 r) B M ->
  let p := sn_PreSignature (sn_sign1 r) in
  pre_R p <> 𝟎 -> XScalar (pre_R p) <> 0 -> sig_S (pre_Signature p (sn_SigmaShares r)) <> 0 ->
  sign2_Finalize r = inr culprits -> culprits <> [].
Proof.
  intros E Hm Re Hc p N0 Nr Ns. destruct (StartPresign_start _ _ (Some msg) _ _ ltac:(congruence) E) as [St _].
  by eapply ps_named.
Qed.

(** What online signing delivers is a signature that verifies under
    the key of the configuration, whatever presignature it was started with. *)
Theorem presign_online_sound L c p msg sid r res :
  Cmp_valid L c -> ids_ok (range_order (cc_Public c)).*1 -> (length L <= size (cc_Public c))%nat ->
  StartPresignOnline (Some c) (Some p) msg sid = Ret (Running r) -> delivered r res ->
  exists s, res = RSignature s /\ Verify s (hornerP 0 L) msg = true.
Proof.
  intros V Hids Hl (r0 & -> & _ & _ & _ & <- & EX & _)%StartPresignOnline_ret D.
  rewrite (PublicPoint_spec L c V Hids Hl) in EX. injection EX as ->. by apply sn_delivered.
Qed.


(** C37: an honest party cannot defend itself.  When δ is inconsistent,
    each party opens the ciphertexts that it received; but the receiver of
    these proofs compares them with the ciphertexts that the party sent.  So
    the broadcast of an honest party is rejected, and its sender is blamed. *)
Theorem abort1_blames_honest {SL : SaferithLaws S} (p6 : presign6) (v : abort1) rand out a out' rand' :
  let p1 := ps_1of6 p6 in let v6 := ab_round6 v in let P := ps_self p1 in let pk := sk_PublicKey (ps_SecretPaillier p1) in
  sk_ok (ps_SecretPaillier p1) ->
  HashForID (ps_Helper (ps_1of6 v6)) P = HashForID (ps_Helper p1) P ->
  ps_Paillier (ps_1of6 v6) !! P = Some pk ->
  valid_ct (pk := pk) (ps_K (ps_2of6 p6) !! P) -> ps_K (ps_2of6 v6) !! P = ps_K (ps_2of6 p6) !! P ->
  ps_BigGammaShare (ps_round5 v6) !! P = Some (ActOnBase (scalar_of (ps_GammaShare (ps_2of6 p6)))) ->
  otherPartyIDs (ps_Helper p1) <> [] ->
  (forall j, j ∈ otherPartyIDs (ps_Helper p1) ->
     valid_ct (pk := pk) (ciphertext_at (ps_DeltaCiphertext (ps_3of6 p6)) j P) /\
     exists c, ciphertext_at (ps_DeltaCiphertext (ps_3of6 v6)) P j = Some c /\
               ciphertext_at (ps_DeltaCiphertext (ps_3of6 p6)) j P <> Some c) ->
  presign6_abort p6 rand out = Ret (a, out', rand') ->
  exists content, ch_buf out' = ch_buf out ++ [mkRoundMessage P "" true content] /\
    abort1_StoreBroadcastMessage v (mkRoundMessage P "" true content) = Fail "failed to validate Delta MtA Nth proof".
Proof. apply abort1_rejects. Qed.

(** Without a message to sign, the second abort round is beyond the
    last round of the session: the handler waits for no message in it, and
    finalizing it dereferences the data of the other parties, which never
    came. *)
Theorem abort2_offline_panics c signers sid r0 r B M rand out a out' rand' :
  StartPresign (Some c) signers None sid = Ret (Running (PS1 r0)) -> otherPartyIDs (ps_Helper r0) <> [] ->
  reached (PS1 r0) (PS7 r) B M -> ps_Finalize (PS7 r) rand out = (Ret (Running (PA2 a)), out', rand') ->
  complete (PA2 a) ∅ ∅ /\
  forall rand2 out2, exists e, ps_Finalize (PA2 a) rand2 out2 = (Panic e, out2, rand2).
Proof.
  intros E Hne Re Ef. destruct (StartPresign_start _ _ None _ _ ltac:(done) E) as [St _].
  apply StartPresign_ret in E as (r1 & l & [= <-] & _ & _ & _ & _ & _ & Hf & _). by eapply abort2_panics.
Qed.

End Presign.

(** ** Instances *)

Section Witnesses.
#[local] Existing Instance quick_saferith.

Lemma cmp_keygen_correct_witness : exists c L,
  Cmp_valid L c /\ Z.of_nat (length L) = 1%Z /\ PublicPoint c = Ret (hornerP (C := toy_curve) 0 L) /\ cc_ID c = "a".
Proof.
  destruct ckg_delivered_alone as (r & rand & c & E & D).
  destruct (cmp_keygen_correct (B3 := quick_blake3) (BP := all_prime) (CR := no_cbor _) (CB := no_cbor _) 2 "a" only 0 None ones r rand c) as (L & V & Hl & HP & Hi & _);
    [apply (bool_decide_eq_true_1 (ids_ok only)); by vm_compute|exact E|exact D|].
  by exists c, L.
Defined.

Definition one_key : list (@Point toy_curve) := [Zmod.of_Z toy_order 34].

Lemma one_config_valid : Cmp_valid one_key one_config.
Proof.
  assert (forall x : Zmod.Zmod toy_order, hornerP (C := toy_curve) x one_key = Zmod.of_Z toy_order 34) as HL
    by (intros x; apply (hornerP_single (C := toy_curve))).
  assert (ActOnBase (Zmod.of_Z toy_order 34) = Zmod.of_Z toy_order 34 :> @Point toy_curve) as HA by (apply Zmod.mul_1_r).
  split; cbn [one_config cc_Threshold cc_Public cc_ID cc_ECDSA cc_ElGamal cc_Paillier].
  - split_and!; [done|lia|done|]. intros k P. rewrite map_fmap_singleton, lookup_singleton_Some. intros [_ <-].
    rewrite HL. exact HA.
  - unfold share_of. rewrite HL. exact HA.
  - eexists. apply lookup_singleton_eq.
Qed.

Lemma cmp_refresh_keeps_key_witness : exists c L,
  Cmp_valid L c /\ hornerP (C := toy_curve) 0 L = hornerP (C := toy_curve) 0 one_key.
Proof.
  destruct crf_delivered_alone as (r & rand & c & E & D).
  destruct (cmp_refresh_keeps_key (B3 := quick_blake3) (BP := all_prime) (CR := no_cbor _) (CB := no_cbor _) 2 one_key one_config None ones r rand c
              one_config_valid) as (L & V & Hl & _); [exact E|exact D|].
  by exists c, L.
Defined.

Lemma cmp_sign_sound_witness : exists sig, Verify sig (hornerP (C := toy_curve) 0 duo_key) duo_message = true.
Proof.
  destruct sgn_signed as (r & sig & E & D). exists sig.
  apply (cmp_sign_sound (C := toy_curve) (B3 := zero_blake3) (CB := sgn_cbor) duo_key (duo_config "a") duo_ids duo_message None r sig);
    [apply duo_valid; set_solver|apply duo_ids_ok|exact E|exact D].
Defined.

Lemma cmp_sign_correct_witness : exists sig, Verify sig hY duo_message = true.
Proof.
  destruct (cmp_sign_correct (C := toy_curve) (B3 := zero_blake3) (S := simple_saferith) duo_ids hk hγ hx hY duo_message honest_sgn3 honest_sgn4 "a")
    as [_ (sig & _ & V)]; [apply honest_signing|apply honest_sgn4_ret|set_solver|done|scalar_ne..|].
  by exists sig.
Defined.

Lemma cmp_mta_shares_witness : exists DD CD α α',
  Dec (S := simple_saferith) honest_sk DD = Ret α /\ α = 12%Z /\ Dec (S := simple_saferith) honest_sk CD = Ret α' /\ α' = 18%Z.
Proof.
  destruct mta_sgn2_ret as (out' & rand' & E).
  destruct (cmp_mta_shares (C := toy_curve) (S := simple_saferith) (B3 := zero_blake3) (SL := simple_saferith_laws) mta_sgn2 "b" mta_rand
    (mkChan 3 []) 0 0 out' rand' honest_sk (hk "b") (hγ "a") 1) as [_ H];
    [apply honest_sk_ok|apply honest_sk_ok|done|by vm_compute|done|done|exact E|].
  destruct H as (DD & DF & DP & CD & CF & CP & PL & α & α' & _ & ED & Eα & EC & Eα'); [split; by vm_compute|].
  exists DD, CD, α, α'. split_and!; [exact ED|by rewrite Z.add_0_r in Eα|exact EC|by rewrite Z.add_0_r in Eα'].
Defined.

Lemma presign_sound_witness : exists p, consistent p duo_ids (hornerP (C := toy_curve) 0 duo_key).
Proof.
  destruct ps_offline as (r & res & E & D).
  pose proof (presign_sound (C := toy_curve) (B3 := zero_blake3) (CB := ps_cbor) duo_key (duo_config "a") duo_ids None None r res
    (duo_valid "a" ltac:(set_solver)) duo_ids_ok ltac:(done) E D) as H.
  destruct res as [p|s]; [|by destruct H as (m & ? & _)]. exists p. exact (proj2 H).
Defined.

Lemma presign_names_culprit_witness : exists r culprits,
  sign2_Finalize (C := toy_curve) r = inr culprits /\ culprits <> [].
Proof.
  destruct ps_wrong_reached as (r0 & r & B & M & culprits & E & Re & Hc & N1 & N2 & N3 & Ef).
  exists r, culprits. split; [exact Ef|].
  apply (presign_names_culprit (C := toy_curve) (B3 := zero_blake3) (CB := ps_cbor) (duo_config "a") duo_ids duo_message None r0 r B M culprits);
    [exact E|done|exact Re|exact Hc|exact N1|exact N2|exact N3|exact Ef].
Defined.


Lemma abort1_blames_honest_witness : exists content,
  abort1_StoreBroadcastMessage (B3 := zero_blake3) (S := simple_saferith) abort_v (mkRoundMessage "a" "" true content)
  = Fail "failed to validate Delta MtA Nth proof".
Proof.
  destruct abort_p6_ret as (a & out' & rand' & E).
  destruct (abort1_blames_honest (C := toy_curve) (B3 := zero_blake3) (S := simple_saferith) (SL := simple_saferith_laws) (abort_p6 "a") abort_v
    (marked x01 [1; 3]%nat) (mkChan 3 []) a out' rand') as (content & _ & H);
    [apply honest_sk_ok|done|done|apply one_valid|done|done|done| |exact E|by exists content].
  intros j ->%list_elem_of_singleton. split; [apply one_valid|]. by exists 11022%Z.
Defined.

Lemma abort2_offline_panics_witness : exists a : @abort2 toy_curve,
  complete (RO := ps_ops (B3 := zero_blake3) (CB := ps_cbor)) (PA2 a) ∅ ∅.
Proof.
  destruct ps_abort2_reached as (r0 & r & B & M & a & out' & rand' & E & Re & Ef). exists a.
  apply (abort2_offline_panics (C := toy_curve) (B3 := zero_blake3) (CB := ps_cbor) (duo_config "a") duo_ids None r0 r B M
    (marked x02 [31; 63]%nat) (mkChan 3 []) a out' rand' E); [|exact Re|exact Ef].
  destruct (StartPresign_ret _ _ _ _ _ E) as (r1 & l & [= <-] & _ & So & _ & Ei & _).
  rewrite (so_others _ So), Ei. pose proof (so_self _ So) as Hs. rewrite Ei in Hs. change (NewIDSlice duo_ids) with ["a"; "b"] in *.
  by apply elem_of_cons in Hs as [->|[->|[]%elem_of_nil]%elem_of_cons].
Defined.

#[local] Existing Instance all_prime.






End Witnesses.
