(* ===== verification/PrimThms.v ===== *)
(** * Theorems about the primitives of CMP

    Arithmetic with known factors, Paillier encryption, the zero-knowledge
    proofs and the worker pool. *)

From Stdlib Require Import ZArith Lia Zmod.
From Stdlib Require Import Strings.Byte.
From stdpp Require Import base gmap strings list pretty numbers relations.
From S2P Require Import Prelude Hash Curve Party Sample.
From S2P Require Import Primes Arith SampleInts PaillierMath Paillier Pedersen Zk ZkEnc ZkSetup ZkMod Pool.
From S2P Require Import Toy CmpRuns.

Local Open Scope Z_scope.

(** ** Arithmetic *)

Section Arithmetic.
Context {S : Saferith} {SL : SaferithLaws S}.

(** Exponentiation with the factors of the modulus, by the Chinese
    remainder theorem, gives the same residue as exponentiation without them,
    for every base, unit or not: the power modulo the product. *)
Theorem crt_exponentiation p q x e :
  1 < p -> 1 < q -> Z.gcd p q = 1 -> 0 <= e ->
  Modulus_Exp (ModulusFromFactors p q) x e = x ^ e mod (p * q) /\
  Modulus_Exp (ModulusFromN (p * q)) x e = x ^ e mod (p * q).
Proof.
  intros Hp Hq G He.
  assert (forall n, modulus_ok n -> mod_n n = p * q -> Modulus_Exp n x e = x ^ e mod (p * q)) as H.
  { intros n Hn <-. rewrite Modulus_Exp_spec by done. rewrite Zmod.to_Z_pow_nonneg_r, Zmod.to_Z_of_Z by done.
    apply Z.mod_pow_l. }
  split; apply H; try done; [by apply ModulusFromFactors_ok|apply ModulusFromN_ok; nia].
Qed.

(** C25: Paillier encryption with a key of two primes.  Messages in the
    range of the modulus decrypt to themselves, encrypting another one panics;
    every valid ciphertext opens to a message and a nonce that encrypt to it;
    and adding or scaling ciphertexts adds or scales the plaintexts, as long
    as the result stays in range. *)
Theorem paillier_correct sk :
  sk_ok sk ->
  let pk := sk_PublicKey sk in let N := pk_N pk in
  (forall m ρ, unitZ ρ N -> Z.abs m <= N / 2 -> exists c, EncWithNonce pk m ρ = Ret c /\ Dec sk (Some c) = Ret m) /\
  (forall m ρ, N / 2 < Z.abs m -> exists e, EncWithNonce pk m ρ = Panic e) /\
  (forall c, valid_ct (pk := pk) (Some c) -> exists m r, DecWithRandomness sk (Some c) = Ret (m, r) /\
     unitZ r N /\ EncWithNonce pk m r = Ret c) /\
  (forall m1 m2 ρ1 ρ2 c1 c2, unitZ ρ1 N -> unitZ ρ2 N -> EncWithNonce pk m1 ρ1 = Ret c1 -> EncWithNonce pk m2 ρ2 = Ret c2 ->
     Z.abs (m1 + m2) <= N / 2 -> Dec sk (Some (ct_Add pk c1 (Some c2))) = Ret (m1 + m2)) /\
  (forall m ρ c k, unitZ ρ N -> EncWithNonce pk m ρ = Ret c -> Z.abs (k * m) <= N / 2 ->
     Dec sk (Some (ct_Mul pk c (Some k))) = Ret (k * m)).
Proof.
  intros OK pk N. pose proof (sk_pk_ok _ OK) as Opk. pose proof (pk_gt_1 _ Opk) as H1. fold pk N in Opk, H1.
  assert (N = sk_p sk * sk_q sk) as HN by apply (sk_N _ OK).
  assert (forall m ρ, unitZ ρ N -> Z.abs m <= N / 2 -> Dec sk (Some (Zmod.to_Z (pk_enc pk m ρ))) = Ret m) as HD.
  { intros m ρ Hρ Hm. unfold pk_enc. change (pk_N pk) with N. rewrite HN in *. by apply (Dec_enc OK). }
  split_and!.
  - intros m ρ Hρ Hm. rewrite (EncWithNonce_spec Opk). change (pk_N pk) with N.
    destruct (Z.ltb_spec (N / 2) (Z.abs m)); [lia|]. eauto.
  - intros m ρ Hm. rewrite (EncWithNonce_spec Opk). change (pk_N pk) with N.
    destruct (Z.ltb_spec (N / 2) (Z.abs m)); [eauto|lia].
  - intros c (x & [= ->] & Ux). revert x Ux. change (pk_N pk) with N. rewrite HN. intros x Ux.
    destruct (DecWithRandomness_spec OK x Ux) as (m & r & E & Hm & Hr & _ & Ex). exists m, r.
    split; [done|]. split; [done|]. rewrite (EncWithNonce_spec Opk).
    destruct (Z.ltb_spec (pk_N pk / 2) (Z.abs m)) as [Hlt|_]; [change (pk_N pk) with N in Hlt; rewrite HN in Hlt; lia|]. f_equal.
    assert (forall M, M = sk_p sk * sk_q sk -> Zmod.to_Z (enc M m r) = Zmod.to_Z x) as Hx by (intros ? ->; by rewrite Ex).
    by apply Hx.
  - intros m1 m2 ρ1 ρ2 c1 c2 Hρ1 Hρ2 [_ ->]%(EncWithNonce_inv Opk) [_ ->]%(EncWithNonce_inv Opk) Hm.
    rewrite (ct_Add_enc Opk) by done. apply HD; [by apply unitZ_mul|done].
  - intros m ρ c k Hρ [_ ->]%(EncWithNonce_inv Opk) Hm. rewrite (ct_Mul_enc Opk) by done.
    apply HD; [|done]. by apply unitZ_to_Z, is_unit_pow, is_unit_of_Z.
Qed.

End Arithmetic.

(** ** Zero-knowledge proofs *)

Section Proofs.
Context {C : Curve} {B3 : Blake3} {S : Saferith} {SL : SaferithLaws S}.

(** The range proof of an encryption.  For a true statement and a
    modulus that holds the mask, making the proof returns, and the proof is
    accepted whenever its response lies in the interval that is checked. *)
Theorem zkenc_complete h public private rand :
  zkenc_relation public private -> 2 ^ Z.of_nat LPlusEpsilon <= pk_N (encProver public) / 2 ->
  steady [pk_N (encProver public)] rand ->
  exists p rand', zkenc_NewProof h public private rand = Ret (p, rand') /\
    (IsInIntervalLEps (encZ1 p) = true -> zkenc_Verify (Some p) h public = Ret true).
Proof.
  intros Hr Hs Hst. destruct (zkenc_NewProof_total h public private rand Hr Hs Hst) as (p & rand' & E).
  exists p, rand'. split; [done|]. intros Hi. by eapply zkenc_accepts.
Qed.

(** C27: the proof that a modulus has no small factor always succeeds for
    factors of at most 1024 bits: it is made whatever is sampled, and its
    responses, sums of a mask and a product with the challenge, never leave
    the interval that the verifier checks. *)
Theorem zkfac_complete h public private rand :
  ped_ok (facAux public) -> facN public = facpP private * facpQ private ->
  0 <= facpP private < 2 ^ Z.of_nat BitsBlumPrime -> 0 <= facpQ private < 2 ^ Z.of_nat BitsBlumPrime ->
  steady [] rand ->
  exists p rand', zkfac_NewProof h public private rand = Ret (p, rand') /\ zkfac_Verify (Some p) h public = Ret true.
Proof.
  intros Ho HN Hp Hq Hst. destruct (zkfac_NewProof_total h public private rand Hst) as (p & rand' & E).
  exists p, rand'. split; [done|]. by eapply zkfac_complete_bounds.
Qed.

(** The proof for ring Pedersen parameters.  Answers to both challenges
    for the same commitment show that s is a power of t, so that commitments
    to the parameters hide what is committed. *)
Theorem zkprm_extraction (aux : Parameters) a z0 z1 :
  ped_ok aux ->
  zkprm_check (mod_n (ped_n aux)) (ped_s aux) (ped_t aux) a (Some z0) false = true ->
  zkprm_check (mod_n (ped_n aux)) (ped_s aux) (ped_t aux) a (Some z1) true = true ->
  Zmod.of_Z (mod_n (ped_n aux)) (ped_s aux) = Zmod.pow (Zmod.of_Z (mod_n (ped_n aux)) (ped_t aux)) (z1 - z0).
Proof. apply zkprm_extracts. Qed.

(** C26: the proof that N is a product of two primes that are 3 modulo 4.
    The holder of the primes finds, for every challenge, the fourth root of
    one of ±y, ±wy, and the proof is accepted; provided the Jacobi symbol
    tells a residue modulo one factor only, and the challenges are units. *)
Theorem zkmod_complete {BP : BigPrime} p q fuel h rand pf rand' ys :
  let n := p * q in let φ := (p - 1) * (q - 1) in
  Z.prime p -> Z.prime q -> p <> q -> p mod 4 = 3 -> q mod 4 = 3 -> unitZ φ n -> ProbablyPrime n 20 = false ->
  zkmod_NewProof fuel h (mkModPrivate p q φ) n rand = Ret (pf, rand') ->
  (forall w, 0 <= w < n -> Jacobi w n = Ret (-1) -> splits p q w) ->
  zkmod_challenge fuel h n (modW pf) = Ret (ys, true) -> Forall (fun y => unitZ y n) ys ->
  zkmod_Verify fuel (Some pf) h n = Ret true.
Proof. intros n φ Hp Hq Hpq H1 H2 Hφ Hpp E Hj Hc Hu. by apply (zkmod_accepts p q) with rand rand' ys. Qed.

End Proofs.

(** ** The worker pool *)

(** C36: [Parallelize] on a pool with a live worker.  No execution makes more
    steps than the measure of the initial state; as long as the caller has not
    returned, some goroutine can make a step; and when it returns, the slice
    holds f(i) at every i, as without a pool, whatever the interleaving. *)
Theorem parallelize_completes {A} count (f : nat -> A) ws k s :
  Forall at_rest ws -> live ws -> nsteps (p_step count f) k (p_init count ws) s ->
  (k <= p_measure count (p_init (A := A) count ws))%nat /\
  (p_main s <> PReturned -> exists s', p_step count f s s') /\
  (p_main s = PReturned -> p_results s = Some <$> parallelizeAlone f count).
Proof.
  intros Hr Hl St.
  assert (p_inv count f s /\ live (p_workers s) /\ (p_measure count s + k <= p_measure count (p_init (A := A) count ws))%nat)
    as (Hi & Hl' & Hm).
  { apply (p_init_inv count f) in Hr. change ws with (p_workers (p_init (A := A) count ws)) in Hl. revert Hr Hl.
    induction St as [s|k s s' s'' St1 _ IH]; intros Hr Hl; [split_and!; [done..|lia]|].
    pose proof (p_step_measure _ _ _ _ St1). destruct IH as (? & ? & ?); [by eapply p_step_inv|by eapply live_step|].
    split_and!; [done..|lia]. }
  split_and!; [lia|by intros; apply p_progress|]. intros Hp. unfold parallelizeAlone.
  rewrite (p_inv_results _ _ _ Hi Hp), <- list_fmap_compose. done.
Qed.

(** C40: a pool can be used up.  There is an execution of one call with as
    many tasks as workers after which every worker is blocked in a send that
    no one receives; on such a pool the next call makes no step at all, so it
    never returns. *)
Theorem pool_deadlock {A B} (f : nat -> A) (g : nat -> B) n count :
  (0 < count)%nat ->
  (exists s, rtc (p_step n f) (p_init n (replicate n PIdle)) s /\ p_main s = PReturned /\
     next_call <$> p_workers s = replicate n PDead) /\
  forall s, rtc (p_step count g) (p_init count (replicate n PDead)) s -> p_main s <> PReturned.
Proof.
  intros Hc. split; [apply all_lost|]. intros s Hs. by rewrite (dead_pool g n count s Hc Hs).
Qed.

(** ** Instances *)

Section Witnesses.
#[local] Existing Instance simple_saferith.
#[local] Existing Instance simple_saferith_laws.
#[local] Existing Instance quick_blake3.

Lemma crt_exponentiation_witness : Modulus_Exp (ModulusFromFactors 7 11) 14 5 = 14 ^ 5 mod 77.
Proof. apply (crt_exponentiation 7 11 14 5); [lia|lia|done|lia]. Defined.

Definition prim_sk : SecretKey := NewSecretKeyFromPrimes 103 107.

Lemma prim_sk_ok : sk_ok prim_sk.
Proof. apply NewSecretKeyFromPrimes_ok; [by apply trial_prime; vm_compute..|done|done|by vm_compute]. Qed.

Lemma paillier_correct_witness : exists c, EncWithNonce (sk_PublicKey prim_sk) 42 2 = Ret c /\ Dec prim_sk (Some c) = Ret 42.
Proof. apply (paillier_correct prim_sk prim_sk_ok); [by vm_compute|by vm_compute]. Defined.

Definition prim_aux : Parameters := mkParameters (ModulusFromN 77) 9 3.

Lemma prim_aux_ok : ped_ok prim_aux.
Proof. split; [by apply ModulusFromN_ok|by vm_compute|by vm_compute]. Qed.

Definition prim_pk : PublicKey := NewPublicKey (2 ^ 770 + 1).

Lemma zkenc_complete_witness : exists p rand', zkenc_NewProof (C := toy_curve) []
  (mkEncPublic (Zmod.to_Z (pk_enc prim_pk 5 1)) prim_pk prim_aux) (mkEncPrivate 5 1) ones = Ret (p, rand').
Proof.
  destruct (zkenc_complete (C := toy_curve) [] (mkEncPublic (Zmod.to_Z (pk_enc prim_pk 5 1)) prim_pk prim_aux) (mkEncPrivate 5 1) ones)
    as (p & rand' & E & _); [|by vm_compute| |by exists p, rand'].
  - split_and!; [by apply NewPublicKey_ok|apply prim_aux_ok|by vm_compute|done].
  - apply constant_steady. constructor; [by vm_compute|constructor].
Defined.

Lemma zkfac_complete_witness : exists p,
  zkfac_Verify (Some p) [] (mkFacPublic 11021 prim_aux) = Ret true.
Proof.
  destruct (zkfac_complete [] (mkFacPublic 11021 prim_aux) (mkFacPrivate 103 107) ones)
    as (p & rand' & _ & V); [apply prim_aux_ok|done|by vm_compute|by vm_compute|by apply constant_steady|by exists p].
Defined.

Lemma zkprm_extraction_witness : Zmod.of_Z 77 9 = Zmod.pow (Zmod.of_Z 77 3) (3 - 1).
Proof. apply (zkprm_extraction prim_aux (Some 3) 1 3); [apply prim_aux_ok|by vm_compute|by vm_compute]. Defined.

Definition no_prime : BigPrime := fun _ _ => false.
#[local] Existing Instance no_prime.

(** The symbol of math/big modulo 77. *)
Definition jacobi_test (w : Z) : bool :=
  match Jacobi w 77 with
  | Ret j => if j =? -1 then (Z.gcd w 77 =? 1) && Bool.eqb (sym 11 w) (negb (sym 7 w)) else true
  | _ => true
  end.

Lemma jacobi_77 w : 0 <= w < 77 -> Jacobi w 77 = Ret (-1) -> splits 7 11 w.
Proof.
  intros Hw Hj. assert (forallb jacobi_test (Z.of_nat <$> seq 0 77) = true) as T by by vm_compute.
  rewrite forallb_forall in T. specialize (T w). unfold jacobi_test in T. rewrite Hj in T. cbn [Z.eqb] in T.
  assert (In w (Z.of_nat <$> seq 0 77)) as Hin.
  { apply in_map_iff. exists (Z.to_nat w). split; [lia|]. apply in_seq. lia. }
  apply T in Hin. apply andb_true_iff in Hin as [G%Z.eqb_eq E%eqb_prop]. by split.
Qed.

Definition mod_test : bool :=
  match zkmod_NewProof 2 [] (mkModPrivate 7 11 60) 77 five with
  | Ret (pf, _) =>
      match zkmod_challenge 2 [] 77 (modW pf) with
      | Ret (ys, ok) => ok && forallb (fun y => Z.gcd y 77 =? 1) ys
      | _ => false
      end
  | _ => false
  end.

Lemma mod_test_run : mod_test = true.
Proof. by vm_compute. Qed.

Lemma zkmod_complete_witness : exists pf, zkmod_Verify 2 (Some pf) [] 77 = Ret true.
Proof.
  pose proof mod_test_run as T. unfold mod_test in T. destruct (zkmod_NewProof _ _ _ _ _) as [[pf rand']| |] eqn:E; [|discriminate T..].
  destruct (zkmod_challenge _ _ _ _) as [[ys ok]| |] eqn:Ec; [|discriminate T..].
  apply andb_true_iff in T as [-> Hys]. rewrite forallb_forall in Hys. exists pf.
  apply (zkmod_complete 7 11 2 [] five pf rand' ys);
    [by apply trial_prime; vm_compute..|done|done|done|by vm_compute|done|exact E|apply jacobi_77|exact Ec|].
  apply Forall_forall. intros y Hy. apply Z.eqb_eq, Hys, list_elem_of_In, Hy.
Defined.

Lemma parallelize_completes_witness : exists s', p_step 2 S (p_init 2 [PIdle; PDead]) s'.
Proof.
  apply (parallelize_completes 2 S [PIdle; PDead] 0 (p_init 2 [PIdle; PDead]));
    [repeat constructor; by (left + right)|by exists 0%nat, PIdle|constructor|done].
Defined.

Lemma pool_deadlock_witness : p_main (p_init (A := nat) 1 (replicate 3 PDead)) <> PReturned.
Proof. apply (pool_deadlock S S 3 1); [lia|constructor]. Defined.

End Witnesses.
