(* ===== verification/DoernerThms.v ===== *)
(** * Two-party ECDSA: the theorems

    What the oblivious transfers of [internal/ot] and the protocols of
    [protocols/doerner] guarantee, for two honest parties and against a
    malicious one, and where they fail. *)

From Stdlib Require Import ZArith Lia Zmod Field.
From Stdlib Require Import Strings.Byte.
From stdpp Require Import base gmap strings list pretty numbers.
From S2P Require Import Prelude Hash Curve Toy Party Sample Round Message Codec Handler HandlerSpec TwoParty Duet Schnorr Ecdsa.
From S2P Require Import FrostConfig OtRandom OtCorrelated OtExtended OtMultiply DoernerKeygen DoernerKeygenProps DoernerSign DoernerSignProps.

Local Open Scope curve_scope.

(** ** Tags without bytes *)

Lemma fork_drops_tag h tag : Fork h [BytesWithDomain tag None] = h.
Proof. reflexivity. Qed.

Section Leak.
Context {C : Curve} `{B3 : Blake3} {BK : Blake3Keyed}.

Lemma xor_cancel (t0 t1 c0 c1 : bytes) :
  length t0 = length t1 -> length t1 = length c0 -> length c0 = length c1 ->
  xor_bytes (xor_bytes (xor_bytes t0 t1) c0) (xor_bytes (xor_bytes t0 t1) c1) = xor_bytes c0 c1.
Proof.
  intros L0 L1 L2. assert (length (xor_bytes t0 t1) = length c0) as Lt by (rewrite length_xor_bytes; congruence).
  assert (length (xor_bytes (xor_bytes t0 t1) c0) = length c0) as La by (rewrite length_xor_bytes; congruence).
  assert (length (xor_bytes (xor_bytes t0 t1) c1) = length c0) as Lb by (rewrite length_xor_bytes; congruence).
  apply bit_ext.
  - rewrite !length_xor_bytes; congruence.
  - intros k _. rewrite !bit_xor_bytes by congruence.
    by destruct (bit k t0), (bit k t1), (bit k c0), (bit k c1).
Qed.

(** Two extensions of one setup under one context differ by the choices. *)
Lemma CorreOTReceive_leak ctx r e0 e1 U0 U1 T0 T1 :
  length e0 = length e1 ->
  CorreOTReceive ctx r e0 = Ret (U0, T0) -> CorreOTReceive ctx r e1 = Ret (U1, T1) ->
  Forall2 (fun u0 u1 => xor_bytes u0 u1 = xor_bytes e0 e1) U0 U1.
Proof.
  intros Hl (t0 & _ & [= <- _])%bind_ret_inv (t1 & _ & [= <- _])%bind_ret_inv. rewrite <- Hl.
  set (n := length e0). generalize (cr_K_1 r) as k1. induction (cr_K_0 r) as [|a k0 IH]; intros [|b k1]; cbn; constructor; [|apply IH].
  apply xor_cancel; by rewrite ?length_prg_expand.
Qed.

Lemma CorreOTReceive_columns ctx r e U T :
  CorreOTReceive ctx r e = Ret (U, T) -> length U = Nat.min (length (cr_K_0 r)) (length (cr_K_1 r)).
Proof. intros (t & _ & [= <- _])%bind_ret_inv. by rewrite length_zip_with, !length_fmap. Qed.

#[local] Opaque OTParam.

(** What a multiplication sends first. *)
Lemma MultiplyReceiver_Round1_inv ctx r beta rd m rd' rand i y rand' :
  NewMultiplyReceiver ctx r beta rd = Ret (m, rd') -> MultiplyReceiver_Round1 m rand = Ret (i, y, rand') ->
  exists em U T e noise, i = Some (Some em) /\ em_CorreMsg em = Some U /\ CorreOTReceive ctx r e = Ret (U, T) /\
    mr_choices y = take (length (mr_choices y)) e /\ makeGadget ctx = Ret noise /\
    length e = (adjustBatchSize (8 * (32 + (length noise - scalarBytes) / 8)) / 8)%nat.
Proof.
  intros (g & Eg & E)%bind_ret_inv. apply bind_ret_inv in E as ([ch rd1] & Ee & [= <- _]).
  assert (length ch = 32 + (length g - scalarBytes) / 8)%nat as Lc.
  { unfold ot_encode in Ee. pose proof (length_read_dropped rd (length (drop scalarBytes g) / 8)) as Lg.
    destruct (read_dropped rd _) as [gamma rd2]. cbn [fst] in Lg. destruct (decide _); [done|].
    assert (ch = SMarshal (sub_noise gamma beta (drop scalarBytes g)) ++ gamma) as -> by congruence.
    by rewrite length_app, SMarshal_length, Lg, length_drop. }
  intros ([[msg rc] rd2] & E1 & [= <- <- _])%bind_ret_inv.
  apply bind_ret_inv in E1 as ([[[em V] h] rd3] & E1 & [= <- _ _]). cbn [mr_choices mr_receiver ar_ctxHash ar_setup ar_choices NewAdditiveOTReceiver] in *.
  unfold ExtendedOTReceive in E1. pose proof (length_read_dropped rand (adjustBatchSize (8 * length ch) / 8 - length ch)) as Le.
  destruct (read_dropped rand _) as [extra rd4]. cbn [fst] in Le.
  apply bind_ret_inv in E1 as ([U T] & Ec & [= <- _ _ _]).
  exists (mkExtendedMessage (Some U) (weighted_sum (pluckBitsToFieldElements (ch ++ extra))
    (read_chi (adjustBatchSize (8 * length ch) / OTParam) (Digest (write_columns ctx U))))
    ((fun j => weighted_sum (hat_column (transposeToFieldSizeElements T) j)
       (read_chi (adjustBatchSize (8 * length ch) / OTParam) (Digest (write_columns ctx U)))) <$> seq 0 OTParam)), U, T, (ch ++ extra), g.
  split_and!; [reflexivity|reflexivity|exact Ec|by rewrite take_app_length|exact Eg|].
  rewrite length_app, Le, <- Lc. destruct (adjustBatchSize_spec (8 * length ch)) as (k & Ek & Hk). rewrite Ek in *.
  assert (length ch <= OTParam * k / 8)%nat; [|lia]. apply Nat.div_le_lower_bound; lia.
Qed.

End Leak.

(** ** Oblivious transfer *)

Section OtTheorems.
Context {C : Curve} {CL : CurveLaws C} `{B3 : Blake3} {BK : Blake3Keyed}.

(** C18: the two-party multiplication is correct.  On the results of one
    correlated OT setup, for every pair of scalars and whatever the parties
    draw, every step of the protocol succeeds, the integrity checks pass, and
    the shares of the two parties add up to the product. *)
Theorem ot_multiply_correct ctx s r (alpha beta : Scalar) randR randS rand :
  ScalarBits = 256%nat -> corre_ok s r -> reliable randS ->
  exists mr randR' ms randS' m1 mr1 rand' m2 tA tB,
    NewMultiplyReceiver ctx r beta randR = Ret (mr, randR') /\
    NewMultiplySender ctx s alpha randS = Ret (ms, randS') /\
    MultiplyReceiver_Round1 mr rand = Ret (m1, mr1, rand') /\
    MultiplySender_Round1 ms m1 = Ret (m2, tA) /\
    MultiplyReceiver_Round2 mr1 m2 = Ret tB /\ tA + tB = alpha * beta.
Proof.
  intros HS OK Hr. destruct (NewMultiplyReceiver_ret HS ctx r beta randR) as (mr & rd & Er & OR & _).
  destruct (NewMultiplySender_ret HS ctx s alpha randS Hr) as (ms & rd' & Es & OS & _).
  destruct (multiply_run HS ctx s r alpha beta mr ms rand OK OR OS) as (m1 & mr1 & rand' & m2 & tA & tB & E1 & _ & E2 & E3 & _ & E).
  by exists mr, rd, ms, rd', m1, mr1, rand', m2, tA, tB.
Qed.

(** C28: [fieldElement.accumulate], a constant-time loop over 64-bit words, adds
    the carry-less product of the two field elements to the accumulator, and
    no word leaves its 64 bits. *)
Theorem accumulate_clmul (f a b : list Z) :
  words f -> words a -> words b ->
  length f = doubleFieldElementLen -> length a = fieldElementLen -> length b = fieldElementLen ->
  words (accumulate f a b) /\ length (accumulate f a b) = doubleFieldElementLen /\
  val (accumulate f a b) = Z.lxor (val f) (clmul 128 (val a) (val b)).
Proof. apply accumulate_spec. Qed.

End OtTheorems.

(** ** Key generation *)

Section KeygenTheorems.
Context {C : Curve} {CL : CurveLaws C} {X : XOnly C} {XL : XOnlyLaws C X} {CC : CompressedLaws C X}.
Context `{B3 : Blake3} {BK : Blake3Keyed} {CB : Cbor dkg_content} {CBL : CborLaws dkg_content}.
Hypothesis marshals : forall c : dkg_content, exists data, cbor_Marshal c = Ret data.






End KeygenTheorems.

(** ** Signing *)

Section SignTheorems.
Context {C : Curve} {CL : CurveLaws C} `{B3 : Blake3} {BK : Blake3Keyed}.
Context {CB : Cbor dsg_content}.
Add Field scalar_field : scalar_field_theory.

(** The session of two honest signers, handlers included. *)
Lemma sign_session {CBL : CborLaws dsg_content} cR cS sk a b msg sid h randR randS kB kA :
  (forall c : dsg_content, exists data, cbor_Marshal c = Ret data) -> ScalarBits = 256%nat ->
  a <> b -> doerner_pair cR cS sk -> reliable randS ->
  doerner_sign_helper a b sid = Ret h -> sign_draws h sk msg randR randS kB kA ->
  exists r1 s1 n, SignReceiver cR a b msg sid = Ret (Running r1) /\ SignSender cS b a msg sid = Ret (Running s1) /\
    tp_session (RO := dsg_ops) n (SignReceiver cR a b msg) (SignSender cS b a msg) sid randR randS
      = Some (Ret (doerner_signature sk msg kB kA), Ret (doerner_signature sk msg kB kA)).
Proof.
  intros HM HS N DP Hr Eh%wrap_err_ret SD.
  destruct (doerner_sessions 2 a b sid N) as (hR & hS & E1 & E2 & I1 & I2 & Eq & Es & C1 & C2).
  fold (doerner_info 2 a b) in Eh. rewrite E1 in Eh. injection Eh as ->.
  destruct (sign_duet HS cR cS sk h hS msg randR randS kB kA DP Eq Hr SD) as (r2 & out & randR' & m & EF & Eb & Ef & Et & D);
    [by rewrite I1|by rewrite I2|].
  assert (SignReceiver cR a b msg sid = Ret (Running (GR1 (mkDgr1 h msg cR (sk • 𝐆))))) as S1.
  { unfold SignReceiver, StartSignReceiver. rewrite (dp_receiver _ _ _ DP). cbn [deref mbind outcome_bind].
    unfold doerner_sign_helper. fold (doerner_info 2 a b). by rewrite E1. }
  assert (SignSender cS b a msg sid = Ret (Running (GS1 (mkDgs1 hS cS (sk • 𝐆) msg None None None None)))) as S2.
  { unfold SignSender, StartSignSender. rewrite (dp_sender _ _ _ DP). cbn [deref mbind outcome_bind].
    unfold doerner_sign_helper. fold (doerner_info 2 b a). by rewrite E2. }
  destruct (duet_session (RO := dsg_ops) HM (SignReceiver cR a b msg) (SignSender cS b a msg) sid _ _ randR randS (GR2 r2) m out randR'
    (doerner_signature sk msg kB kA) (doerner_signature sk msg kB kA) S1 S2) as [n E]; [..|exact D|by eexists _, _, n].
  - reflexivity.
  - cbn [r_Finalize dsg_ops dsg_Finalize]. by rewrite EF.
  - exact Eb.
  - by split.
  - by eexists.
  - constructor; unfold self; cbn; rewrite ?I1, ?I2; cbn; done.
Qed.


(** C10: no other party can make a signer output a wrong signature.
    Whatever messages a handler of either role accepts, a signature that it
    reports verifies for the key of its configuration and the hash it was
    started with. *)
Theorem doerner_sign_sound r0 self other sid leader rand h sig msg P :
  (exists c, dr_Public c = Some P /\ SignReceiver c self other msg sid = Ret (Running r0)) \/
  (exists c, ds_Public c = Some P /\ SignSender c self other msg sid = Ret (Running r0)) ->
  pair_run (RO := dsg_ops) r0 leader rand h -> tp_Result h = Ret sig -> Verify sig P msg = true.
Proof.
  intros Start Hr E. assert (sign_key r0 = (P, msg)) as Ek.
  { destruct Start as [(c & EP & St)|(c & EP & St)]; unfold SignReceiver, SignSender, StartSignReceiver, StartSignSender in St;
      rewrite EP in St; cbn [deref mbind outcome_bind] in St; apply bind_ret_inv in St as (hp & _ & [= <-]); done. }
  pose proof (pair_run_inv _ _ _ _ Hr) as Hi. unfold tp_inv, tp_Result in *. destruct (tp_result h) as [s|] eqn:Es; [|by destruct (tp_err h)].
  injection E as ->. unfold tp_finished in Hi. rewrite Es, (bool_decide_true (is_Some (Some _))), orb_true_r in Hi by eauto.
  destruct Hi as [_ Hd]. specialize (Hd sig eq_refl). apply sign_delivered_verifies in Hd. by rewrite Ek in Hd.
Qed.

(** ** Where the code fails *)

(** C38: the three multiplications of a signature share one context, since
    [Fork] drops the tags without bytes, and one OT setup.  The exclusive or of
    the columns that the Receiver sends for two of them is, in every column,
    the exclusive or of its choice bits: whoever sees the first message learns
    how the encoded secrets differ. *)
Theorem doerner_choices_leak r rand r2 out rand' :
  dgr1_Finalize r rand (mkChan 1 []) = Ret (r2, out, rand') ->
  exists D em0 em1 em2 U0 U1 U2 e0 e1 e2,
    ch_buf out = [mkRoundMessage (SelfID (info (gr_Helper r))) "" false
                    (GMessage1R D (Some (Some (Some em0))) (Some (Some (Some em1))) (Some (Some (Some em2))))] /\
    em_CorreMsg em0 = Some U0 /\ em_CorreMsg em1 = Some U1 /\ em_CorreMsg em2 = Some U2 /\
    length U0 = Nat.min (length (cr_K_0 (dr_Setup (gr_config r)))) (length (cr_K_1 (dr_Setup (gr_config r)))) /\
    mr_choices (gr_multiply0 r2) = take (length (mr_choices (gr_multiply0 r2))) e0 /\
    mr_choices (gr_multiply1 r2) = take (length (mr_choices (gr_multiply1 r2))) e1 /\
    mr_choices (gr_multiply2 r2) = take (length (mr_choices (gr_multiply2 r2))) e2 /\
    Forall2 (fun u0 u1 => xor_bytes u0 u1 = xor_bytes e0 e1) U0 U1 /\
    Forall2 (fun u0 u2 => xor_bytes u0 u2 = xor_bytes e0 e2) U0 U2.
Proof.
  unfold dgr1_Finalize, fork_tag. rewrite !fork_drops_tag. intros ([kB rd] & _ & E)%bind_ret_inv.
  apply bind_ret_inv in E as ([x0 rd0] & N0 & E). apply bind_ret_inv in E as ([x1 rd1] & N1 & E).
  apply bind_ret_inv in E as ([x2 rd2] & N2 & E). apply bind_ret_inv in E as ([[i0 y0] rd3] & R0 & E).
  apply bind_ret_inv in E as ([[i1 y1] rd4] & R1 & E). apply bind_ret_inv in E as ([[i2 y2] rd5] & R2 & E).
  apply bind_ret_inv in E as (o & Eo & E). rewrite SendMessage_ret in Eo. injection Eo as <-. injection E as <- <- _.
  destruct (MultiplyReceiver_Round1_inv _ _ _ _ _ _ _ _ _ _ N0 R0) as (em0 & U0 & T0 & e0 & g0 & -> & M0 & C0 & P0 & G0 & L0).
  destruct (MultiplyReceiver_Round1_inv _ _ _ _ _ _ _ _ _ _ N1 R1) as (em1 & U1 & T1 & e1 & g1 & -> & M1 & C1 & P1 & G1 & L1).
  destruct (MultiplyReceiver_Round1_inv _ _ _ _ _ _ _ _ _ _ N2 R2) as (em2 & U2 & T2 & e2 & g2 & -> & M2 & C2 & P2 & G2 & L2).
  assert (g1 = g0) as -> by congruence. assert (g2 = g0) as -> by congruence.
  exists (Some (ActOnBase kB)), em0, em1, em2, U0, U1, U2, e0, e1, e2. split; [reflexivity|]. split_and!; try done.
  - by eapply CorreOTReceive_columns.
  - eapply CorreOTReceive_leak; [congruence|exact C0|exact C1].
  - eapply CorreOTReceive_leak; [congruence|exact C0|exact C2].
Qed.

(** C39: [Derive] breaks a key.  Both parties add the adjustment to their
    share, but it is added once to the public key: the derived shares add up to
    the secret key of another public key, so the derived configurations are the
    two halves of no key at all. *)
Theorem doerner_derive_breaks_key cR cS sk adjust chain cR' cS' :
  doerner_pair cR cS sk -> adjust <> 0 ->
  Receiver_Derive cR adjust chain = Ret cR' -> Sender_Derive cS adjust chain = Ret cS' ->
  dr_SecretShare cR' + ds_SecretShare cS' = sk + adjust + adjust /\
  dr_Public cR' = Some ((sk + adjust) • 𝐆) /\ ds_Public cS' = Some ((sk + adjust) • 𝐆) /\
  dr_ChainKey cR' = [] /\ ~ exists sk', doerner_pair cR' cS' sk'.
Proof.
  intros [_ Esk PR PS _] Na. unfold Receiver_Derive, Sender_Derive. rewrite PR, PS.
  intros (? & _ & [= <-])%bind_ret_inv (? & _ & [= <-])%bind_ret_inv. cbn [dr_SecretShare ds_SecretShare dr_Public ds_Public dr_ChainKey].
  assert (dr_SecretShare cR + adjust + (ds_SecretShare cS + adjust) = sk + adjust + adjust) as E by (rewrite <- Esk; ring).
  unfold ActOnBase. rewrite <- act_add. split_and!; try done. intros (sk' & [_ E' P' _ _]). cbn in E', P'. rewrite E in E'.
  injection P' as P'%base_act_inj. subst sk'. apply Na.
  transitivity (sk + adjust + adjust - (sk + adjust)); [ring|]. rewrite <- P'. ring.
Qed.

(** A malicious Sender crashes the Receiver.  The number of pads of a
    multiplication message is not checked: a message with none passes
    [VerifyMessage], and [Finalize] of the second round panics on it. *)
Theorem doerner_short_pads_panic r from body RPrime hR m v V out :
  let msg := mkRoundMessage from "" false (GMessage1S body) in
  m1_RPrime body = Some RPrime -> hash_point (gr_Helper (gr_round1 r)) RPrime = Ret hR ->
  Proof_Verify (m1_RProof body) (session_hash (gr_Helper (gr_round1 r))) (hR • gr_D r ⊕ RPrime) (Some (gr_D r)) = Ret true ->
  m1_MulMsg0 body = Some m -> mm_Msg m = Some [] ->
  is_some (m1_MulMsg1 body) && is_some (m1_MulMsg2 body) && is_some (m1_MuPhi body) && is_some (m1_MuSig body) = true ->
  ar_result (mr_receiver (gr_multiply0 r)) = Some (v :: V) -> ar_choices (mr_receiver (gr_multiply0 r)) <> [] ->
  dgr2_VerifyMessage r msg = Ret tt /\
  exists r', dgr2_StoreMessage r msg = Ret r' /\ dgr2_Finalize r' out = Panic index_panic.
Proof.
  intros msg ER EH EP EM Em Hs EV Nc. assert (is_some (m1_RProof body) = true) as Hp.
  { destruct (m1_RProof body); [done|]. by cbn in EP. }
  split.
  - unfold dgr2_VerifyMessage, guard_or. cbn [rm_Content msg]. rewrite ER, EM, Hp. cbn [is_some andb].
    rewrite !andb_true_iff in Hs. destruct Hs as [[[-> ->] ->] ->]. done.
  - eexists. split; [reflexivity|]. unfold dgr2_Finalize. cbn [gr_body gr_round1 gr_D gr_multiply0 deref mbind outcome_bind].
    rewrite ER. cbn [deref mbind outcome_bind]. rewrite EH. cbn [mbind outcome_bind]. rewrite EP. cbn [guard_or mbind outcome_bind].
    rewrite EM. cbn [deref mbind outcome_bind]. unfold MultiplyReceiver_Round2, AdditiveOTReceiver_Round2. rewrite Em, EV. cbn [deref mbind outcome_bind].
    destruct (ar_choices _) as [|ch l]; [done|]. replace (8 * length (ch :: l))%nat with (S (7 + 8 * length l)) by (cbn [length]; lia).
    cbn [seq collect]. unfold additive_receive. cbn [index lookup list_lookup mbind outcome_bind]. rewrite sample_pads_eq. cbn [mbind outcome_bind].
    by destruct (pads_of v).
Qed.

End SignTheorems.

(** ** Tests for the drawn values *)

Section Tests.
Context {C : Curve} {CL : CurveLaws C} `{B3 : Blake3} {BK : Blake3Keyed}.



#[local] Opaque OTParam OTBytes.


Definition sign_test (h : Helper) (sk : Scalar) (msg : bytes) (randR randS : reader) : option (Scalar * Scalar) :=
  match sample_Scalar randR, sample_Scalar randS with
  | Ret (kB, _), Ret (kA', rd) =>
      match hash_point h (kA' • (kB • 𝐆)) with
      | Ret hR =>
          let kA := hR + kA' in
          match NewProof (session_hash h) (kA • (kB • 𝐆)) kA (Some (kB • 𝐆)) rd with
          | Ret (p, _) =>
              if Proof_IsValid (Some p) && negb (IsZero kB) && negb (IsZero (XScalar ((kA * kB) • 𝐆)))
                 && negb (IsZero (FromHash msg + XScalar ((kA * kB) • 𝐆) * sk))
              then Some (kB, kA) else None
          | _ => None
          end
      | _ => None
      end
  | _, _ => None
  end.

Lemma sign_test_ok h sk msg randR randS kB kA :
  sign_test h sk msg randR randS = Some (kB, kA) -> sign_draws h sk msg randR randS kB kA.
Proof.
  unfold sign_test. destruct (sample_Scalar randR) as [[kB0 r0]| |] eqn:E0; [|done..].
  destruct (sample_Scalar randS) as [[kA' rd]| |] eqn:E1; [|done..]. destruct (hash_point _ _) as [hR| |] eqn:E2; [|done..].
  destruct (NewProof _ _ _ _ _) as [[p rp]| |] eqn:E3; [|done..]. destruct (_ && _) eqn:T; [|done]. intros [= <- <-].
  rewrite !andb_true_iff, !negb_true_iff in T. unfold IsZero in T. rewrite !bool_decide_eq_false in T. destruct T as [[[T1 T2] T3] T4].
  constructor; try done; [by exists r0|]. by exists kA', rd, hR, p, rp.
Qed.



End Tests.

(** ** The theorems on concrete parties

    The curve has 101 points; the hash functions and the random source
    return ones. *)

Module Ones.

#[local] Instance one_blake3 : Blake3 := fun _ _ => x01.
#[local] Instance one_keyed : Blake3Keyed := {|
  blake3_derive_key := fun _ material _ => material;
  blake3_keyed_xof := fun _ _ _ => x01
|}.

Definition one_rand : reader := stream_reader (fun _ => x01).

Lemma one_reliable : reliable one_rand.
Proof. done. Qed.

Abbreviation toy_scalar := (Zmod.Zmod toy_order).

#[local] Instance one_proof_pack : Pack (@Proof toy_curve).
Proof.
  refine (inj_pack (fun p => (prf_C p : toy_scalar, prf_Z p : toy_scalar)) (fun '(a, b) => @mkProof toy_curve a b) _). by intros [].
Defined.

#[local] Instance one_setup_pack : Pack (@RandomOTSetupSendMessage toy_curve).
Proof.
  refine (inj_pack (fun m => (sm_B m : toy_scalar, sm_BProof m)) (fun '(a, b) => @mkSetupSendMessage toy_curve a b) _). by intros [].
Defined.

#[local] Instance one_round2_pack : Pack RandomOTSendRound2Message.
Proof. refine (inj_pack (fun m => (Decommit0 m, Decommit1 m)) (fun '(a, b) => mkSendRound2Message a b) _). by intros []. Defined.

#[local] Instance one_dkg_pack : Pack (@dkg_content toy_curve).
Proof.
  refine (inj_pack
    (fun c => match c with
              | DMessage1R a b c o => inl (a, b, c, o)
              | DMessage1S P k r p o => inr (inl (P : option toy_scalar, k, r : option toy_scalar, p, o))
              | DMessage2R a b c k P r p o => inr (inr (inl (a, b, c, k, P : option toy_scalar, r : option toy_scalar, p, o)))
              | DMessage2S o => inr (inr (inr (inl o)))
              | DMessage3R o => inr (inr (inr (inr o)))
              end)
    (fun x => match x with
              | inl (a, b, c, o) => DMessage1R a b c o
              | inr (inl (P, k, r, p, o)) => @DMessage1S toy_curve P k r p o
              | inr (inr (inl (a, b, c, k, P, r, p, o))) => @DMessage2R toy_curve a b c k P r p o
              | inr (inr (inr (inl o))) => DMessage2S o
              | inr (inr (inr (inr o))) => DMessage3R o
              end) _).
  by intros [].
Defined.

#[local] Instance one_extended_pack : Pack ExtendedOTReceiveMessage.
Proof.
  refine (inj_pack (fun m => (em_CorreMsg m, em_X m : list Z, em_T m : list (list Z))) (fun '(a, b, c) => mkExtendedMessage a b c) _).
  by intros [].
Defined.

#[local] Instance one_multiply_pack : Pack (@MultiplySendRound1Message toy_curve).
Proof.
  refine (inj_pack (fun m => (mm_Msg m, mm_RCheck m : list toy_scalar, mm_UCheck m : toy_scalar))
            (fun '(a, b, c) => @mkMultiplySendMessage toy_curve a b c) _).
  by intros [].
Defined.

#[local] Instance one_message1S_pack : Pack (@dsg_message1S toy_curve).
Proof.
  refine (inj_pack
    (fun m => (m1_RPrime m : option toy_scalar, m1_RProof m, m1_MulMsg0 m, m1_MulMsg1 m, m1_MulMsg2 m,
               m1_MuPhi m : option toy_scalar, m1_MuSig m : option toy_scalar))
    (fun '(a, b, c, d, e, f, g) => @mkMessage1S toy_curve a b c d e f g) _).
  by intros [].
Defined.

#[local] Instance one_dsg_pack : Pack (@dsg_content toy_curve).
Proof.
  refine (inj_pack
    (fun c => match c with
              | GMessage1R D a b c => inl (D : option toy_scalar, a, b, c)
              | GMessage1S b => inr (inl b)
              | GMessage2R s => inr (inr (sig_R s : toy_scalar, sig_S s : toy_scalar))
              end)
    (fun x => match x with
              | inl (D, a, b, c) => @GMessage1R toy_curve D a b c
              | inr (inl b) => GMessage1S b
              | inr (inr (R, s)) => GMessage2R (@mkSignature toy_curve R s)
              end) _).
  intros [| |[]]; done.
Defined.

#[local] Instance one_dkg_cbor : Cbor (@dkg_content toy_curve) := pack_cbor _.
#[local] Instance one_dsg_cbor : Cbor (@dsg_content toy_curve) := pack_cbor _.

(** A setup whose transfers all carry the same string. *)
Definition one_send : CorreOTSendSetup := mkCorreSendSetup (replicate OTBytes x00) (replicate OTParam [x01]).
Definition one_receive : CorreOTReceiveSetup := mkCorreReceiveSetup (replicate OTParam [x01]) (replicate OTParam [x01]).

Lemma one_corre_ok : corre_ok one_send one_receive.
Proof.
  constructor; cbn [one_send one_receive cs_Delta cs_K_Delta cr_K_0 cr_K_1]; rewrite ?length_replicate; try done.
  intros i _. by destruct (bit i _).
Qed.

Definition sc (z : Z) : toy_scalar := Zmod.of_Z toy_order z.

Definition one_config_r : @ConfigReceiver toy_curve :=
  @mkConfigReceiver toy_curve one_receive (sc 5) (Some (sc 12)) (replicate 32 x01).
Definition one_config_s : @ConfigSender toy_curve :=
  @mkConfigSender toy_curve one_send (sc 7) (Some (sc 12)) (replicate 32 x01).

Lemma one_pair : doerner_pair (C := toy_curve) one_config_r one_config_s (sc 12).
Proof. constructor; [apply one_corre_ok|by vm_compute..]. Qed.

Definition one_msg : bytes := replicate 32 x01.

Definition one_helper : Helper :=
  match doerner_sign_helper (C := toy_curve) "a" "b" None with Ret h => h | _ => mkHelper (mkInfo "" 0 "" [] 0 None) [] [] [] [] end.

Lemma one_helper_eq : doerner_sign_helper (C := toy_curve) "a" "b" None = Ret one_helper.
Proof.
  unfold one_helper. assert (is_ret (doerner_sign_helper (C := toy_curve) "a" "b" None) = true) as T by by vm_compute.
  by destruct (doerner_sign_helper _ _ _).
Qed.

Lemma one_sign : exists kB kA, sign_draws (C := toy_curve) one_helper (sc 12) one_msg one_rand one_rand kB kA.
Proof.
  assert (is_some (sign_test (C := toy_curve) one_helper (sc 12) one_msg one_rand one_rand) = true) as T by by vm_compute.
  destruct (sign_test _ _ _ _ _) as [[kB kA]|] eqn:E; [|discriminate T]. exists kB, kA. by apply sign_test_ok.
Qed.

Lemma ot_multiply_correct_witness :
  exists mr m1 mr1 m2 tA tB rand ms rand',
    MultiplyReceiver_Round1 (C := toy_curve) mr one_rand = Ret (m1, mr1, rand) /\
    NewMultiplySender (C := toy_curve) [] one_send (sc 3) one_rand = Ret (ms, rand') /\
    MultiplySender_Round1 ms m1 = Ret (m2, tA) /\
    MultiplyReceiver_Round2 mr1 m2 = Ret tB /\ Zmod.add tA tB = sc 15.
Proof.
  destruct (ot_multiply_correct (C := toy_curve) [] one_send one_receive (sc 3) (sc 5) one_rand one_rand one_rand
    eq_refl one_corre_ok one_reliable) as (mr & ? & ms & rd & m1 & mr1 & rand & m2 & tA & tB & _ & E2 & E3 & E4 & E5 & E6).
  exists mr, m1, mr1, m2, tA, tB, rand, ms, rd. split; [exact E3|]. split; [exact E2|]. split; [exact E4|]. split; [exact E5|]. exact E6.
Defined.

Lemma accumulate_clmul_witness : val (accumulate [1; 0; 0; 0]%Z [3; 0]%Z [5; 0]%Z) = Z.lxor 1 (clmul 128 3 5).
Proof. apply (accumulate_clmul [1; 0; 0; 0]%Z [3; 0]%Z [5; 0]%Z); (reflexivity || (repeat constructor; lia)). Defined.


Lemma doerner_sign_sound_witness : exists sig, Verify (C := toy_curve) sig (sc 12) one_msg = true.
Proof.
  destruct one_sign as (kB & kA & SD).
  destruct (sign_session (C := toy_curve) (CBL := pack_cbor_laws _) one_config_r one_config_s (sc 12) "a" "b" one_msg None one_helper
    one_rand one_rand kB kA (fun c => ex_intro _ _ eq_refl) eq_refl ltac:(discriminate) one_pair one_reliable one_helper_eq SD)
    as (r1 & s1 & n & E1 & E2 & E).
  destruct (session_pair_run (RO := dsg_ops) n _ _ None r1 s1 one_rand one_rand _ _ E1 E2 E) as (hl & hf & _ & _ & Pf & Ef).
  eexists. apply (doerner_sign_sound (C := toy_curve) s1 "b" "a" None false one_rand hf _ one_msg (sc 12)); [|exact Pf|exact Ef].
  right. exists one_config_s. split; [reflexivity|exact E2].
Defined.

Lemma doerner_choices_leak_witness : exists (U0 U1 : list bytes) (e0 e1 : bytes),
  length U0 = 128%nat /\ Forall2 (fun u0 u1 => xor_bytes u0 u1 = xor_bytes e0 e1) U0 U1.
Proof.
  destruct one_sign as (kB & kA & SD).
  assert (info one_helper = doerner_info (C := toy_curve) 2 "a" "b") as EI by by vm_compute.
  destruct (sign_duet (C := toy_curve) eq_refl one_config_r one_config_s (sc 12) one_helper one_helper one_msg one_rand one_rand kB kA
    one_pair eq_refl one_reliable SD) as (r2 & out & rand' & m & EF & _); [by rewrite EI|by rewrite EI|].
  destruct (doerner_choices_leak (C := toy_curve) _ _ _ _ _ EF) as (D & em0 & em1 & em2 & U0 & U1 & U2 & e0 & e1 & e2 & _ & _ & _ & _ & Hl & _ & _ & _ & F & _).
  exists U0, U1, e0, e1. split; [exact Hl|exact F].
Defined.

Lemma doerner_derive_breaks_key_witness : exists cR cS : _,
  Receiver_Derive (C := toy_curve) one_config_r (sc 1) [] = Ret cR /\
  Sender_Derive (C := toy_curve) one_config_s (sc 1) [] = Ret cS /\ ~ exists sk, doerner_pair (C := toy_curve) cR cS sk.
Proof.
  eexists _, _. split; [reflexivity|]. split; [reflexivity|].
  refine (proj2 (proj2 (proj2 (proj2 (doerner_derive_breaks_key (C := toy_curve) one_config_r one_config_s (sc 12) (sc 1) [] _ _
    one_pair _ eq_refl eq_refl))))).
  intros E. apply (f_equal Zmod.to_Z) in E. vm_compute in E. discriminate E.
Defined.




(** A Receiver that waits for the answer, and a Sender that sends no pads. *)
Definition one_multiply : @MultiplyReceiver toy_curve :=
  @mkMultiplyReceiver toy_curve (sc 1) [] [x00] (mkAdditiveReceiver [] one_receive [x00] (Some [[x01]])).

Definition one_dgr2 : @dgr2 toy_curve :=
  @mkDgr2 toy_curve (@mkDgr1 toy_curve one_helper one_msg one_config_r (sc 12)) (sc 51) (sc 2) one_multiply one_multiply one_multiply None.

Definition no_pads : @MultiplySendRound1Message toy_curve := mkMultiplySendMessage (Some []) [] (sc 0).

Definition one_hash : toy_scalar := match hash_point (C := toy_curve) one_helper (sc 2) with Ret s => s | _ => sc 0 end.

Definition one_nonce : toy_scalar := Zmod.add one_hash (sc 1).

Definition one_proof : option (@Proof toy_curve) :=
  match NewProof (C := toy_curve) (session_hash one_helper) (Zmod.mul one_nonce (sc 2)) one_nonce (Some (sc 2)) one_rand with
  | Ret (p, _) => Some p
  | _ => None
  end.

Definition one_body : @dsg_message1S toy_curve :=
  @mkMessage1S toy_curve (Some (sc 2)) one_proof (Some no_pads) (Some no_pads) (Some no_pads) (Some (sc 0)) (Some (sc 0)).

Lemma doerner_short_pads_panic_witness : exists r,
  dgr2_StoreMessage one_dgr2 (mkRoundMessage "b" "" false (GMessage1S one_body)) = Ret r /\
  dgr2_Finalize r (mkChan 1 []) = Panic index_panic.
Proof.
  apply (doerner_short_pads_panic (C := toy_curve) one_dgr2 "b" one_body (sc 2) one_hash no_pads [x01] [] (mkChan 1 [])).
  - reflexivity.
  - by vm_compute.
  - by vm_compute.
  - reflexivity.
  - reflexivity.
  - reflexivity.
  - reflexivity.
  - discriminate.
Defined.

End Ones.
